(* ===== verification/_CoqProject ===== *)
-Q . S2P
Prelude.v
Text.v
Db.v
Engine.v
Config.v
ConfigSerde.v
Send.v
Concrete.v
SendPure.v
SendFacts.v
Delivery.v
Progress.v
Retry.v
Queue.v
Workers.v
Policy.v
PolicyFacts.v
Keys.v
KeysFacts.v
Auth.v
AuthFacts.v
Services.v
ServicesFacts.v
Email.v
EmailFacts.v
Dns.v
DnsFacts.v
ConfigFacts.v
App.v
AppFacts.v
Runtime.v
Listeners.v
Api.v
ApiRecords.v
ApiMail.v
ApiCalls.v
ApiConcrete.v
ApiFacts.v
ApiProps.v
ApiMailFacts.v
Paging.v
ApiPatchFacts.v
Submission.v
Router.v
RouterFacts.v
Race.v
System.v
SystemFacts.v
SystemProps.v
ConfigTests.v
CoreTests.v
UnitTests.v
