(* ===== verification/Prelude.v ===== *)
(** * Zonemail: a verification of the mail, DNS and control daemon

    Zonemail is one process around one database.  It answers authoritative DNS
    from the records it stores (src/src/dns.rs), receives mail for the mailboxes
    it provisions (src/src/email.rs), queues and delivers outbound mail
    (src/src/send.rs), and is administered over an HTTP API (src/src/api.rs)
    behind a JWT guard (src/src/auth/).  A service manager starts and stops the
    listeners (src/src/services.rs); the daemon builds the state, seeds it from
    the configuration and boots a mode (src/src/app.rs, runtime.rs, main.rs).
    The components meet in the store: the API and the SMTP handler write the
    [Outbound] jobs the worker drains, the API writes the records the DNS
    responder reads and the mailboxes the SMTP handler accepts.

    ** Files

    - [Prelude]: [Result], the state-passing monad and its notations, loops,
      the framework for relations a computation respects ([evolves], [kept], the
      tactic [evolve]), [u64] arithmetic.  [Text]: the string operations of the
      Rust standard library on UTF-8 bytes; full Unicode lowercasing is the class
      [UnicodeLower].
    - [Db] (src/src/db.rs): record types, tables, conversions.  [Engine]: the
      interface [DbEngine] to toasty and Turso, with the statements of the
      source, what each does ([stmt_spec]), when it can succeed ([enabled]) and
      the in-memory engine [MemDb] that implements it under a fault schedule; the
      invariant [wf_tables] and that every statement keeps it.  All components
      are verified against [DbEngine], never against [MemDb].
    - [Config] (src/src/config.rs): configuration records, defaults, derived
      decisions.  [ConfigSerde]: the serde derives, both ways, with the renames,
      tags and per-field defaults, and [Config::load]; [ConfigFacts]: round trip
      and defaults.
    - [Send] (src/src/send.rs): the producer, [claim], [reclaim_in_progress],
      delivery, retry and the worker; a tick sees a [NetEnv] (clock, resolver,
      the answer of each host).  [SendPure]: backoff and MX order.  [SendFacts]:
      the life cycle of a job.  [Delivery]: one attempt against a reference log.
      [Progress]: a tick reaches every due job.  [Retry]: attempt caps.  [Queue]:
      the guarantees of the queue.  [Workers]: the transactions of several
      workers' claims, interleaved statement by statement under the mode they
      begin with, and what a reclaim or a deletion does to a delivery in flight.
    - [Policy], [PolicyFacts] (src/src/auth/policy.rs): grants, compilation of
      roles, the decision, and that it is the closure of the configuration.
      [Keys], [KeysFacts] (src/src/auth/keys.rs): the JWK cache and its fetcher.
      [Auth], [AuthFacts] (src/src/auth/mod.rs, guard.rs): verification, the
      decision for a request, the guard.
    - [Services], [ServicesFacts] (src/src/services.rs): the manager's slots and
      commands over the set of live tasks.
    - [Email], [EmailFacts] (src/src/email.rs): the SMTP handler over the calls
      of a connection, and the TLS posture of the listeners.
    - [Dns], [DnsFacts] (src/src/dns.rs): the receive loop, its tasks and the
      answer to a query, or why there is none (the packet does not parse, the
      handler panics, the response does not encode, the socket refuses it).
    - [App], [AppFacts] (src/src/app.rs): initialisation and seeding.  [Runtime]
      (src/src/runtime.rs, main.rs): build, boot, shutdown.  [Listeners]: the
      production spawn of src/src/services.rs and the listener each task serves.
    - [Api], [ApiRecords], [ApiMail] (src/src/api.rs): every handler, from what
      salvo extracts of the request to the response it renders.  [ApiFacts]:
      paging and the store's invariants under any sequence of calls.
      [ApiProps]: creations.  [ApiMailFacts]: sending, listing, deleting a
      domain.  [Paging]: a client that follows [next_offset] request by request.
      [ApiPatchFacts]: patching and deleting.  [ApiCalls]: a request
      after extraction and its dispatch.  [Submission]: the API and the worker
      together.  [Race]: creations whose statements interleave with those of
      other clients, against the weaker interface [SharedEngine].
    - [Router], [RouterFacts] (src/src/api.rs, runtime.rs): the route table of
      [create_router] and [api_with_doc], extraction, and a request through the
      guard to its endpoint; salvo's matching is the class [Salvo].
    - [System], [SystemFacts], [SystemProps] (src/src/main.rs): the process, from
      [main]'s start to its exit, as a machine whose events are HTTP requests,
      SMTP commands on open connections, DNS datagrams, worker ticks and key
      refreshes on the one shared state.
    - [ConfigTests], [CoreTests], [UnitTests]: the unit tests of src/src replayed
      on the definitions, one definition per test, and the lemma
      [unit_tests_hold] that the model passes them.
    - [Concrete], [ApiConcrete]: small instances of the library interfaces, on
      which the witnesses evaluate.

    ** State, errors, libraries

    A handler is a function [M D A := D -> D * A] on the database handle; [?] is
    [bind_try].  Errors are the values of [result] the code returns, panics are a
    value where one can be reached ([Panicked], [BuildPanic]).  A library is a
    class with what the code relies on as its laws: [DbEngine] (a statement has
    its effect or fails without one; an uncommitted transaction leaves nothing),
    [Lettre], [MailParser], [LettreBuilder], [Jwt], [Base64], [HeaderSyntax],
    [Hickory], [DnsWire], [Salvo], [Format], [TlsFiles], [SocketAddrs],
    [SerdeString], [TimestampText].
    [available d] says that enabled statements succeed from [d] on; only
    theorems that promise a result assume it, safety theorems hold under any
    faults.  A [HashMap] is iterated in an order that is an argument or that the
    theorem quantifies over.  Logging is omitted.

    ** What the theorems show

    - The process: through any sequence of handlers the store, the counters and
      the listeners keep their invariants (C2), every queued job is accounted for
      (C5), an interrupt stops everything (C18).
    - The queue: jobs move along their life cycle and nothing is lost (C1), no job
      is handed out twice however the statements of claims interleave, and a claim
      changes one status (C9, C22), counters stay in range (C23), an attempt and a
      tick do what the reference says (C10, C11), rejected jobs end (C12), backoff
      is exact (C35), hosts are tried in MX order (C30); and its limits: a second
      worker's reclaim allows a double send (C38), unresolvable recipients are
      retried for ever (C39).
    - The API: references and keys stay valid under every sequence of calls (C8),
      creations are exact, idempotent and survive races (C24, C25, C16), patching,
      sending, listing, deletion and paging are exact (C26, C21, C29, C27, C28,
      C37), submitted mail is delivered (C4).
    - Access: only authorized requests reach an endpoint (C3), anonymous ones
      change nothing (C17), the policy is the configured closure (C6), roles are
      read exactly (C34), keys are the right ones and the cache keeps the last
      good set, from its own source (C32, C33).
    - Inbound mail: no open relay (C7), filing (C15).  DNS: every datagram has the
      outcome the zone, the encoder and the socket give it (C13), stored values
      are read back as the data they present (C36).
    - Configuration and control plane: what is written is read back (C14), every
      setting has its own default (C31), listeners have exactly one owner (C19)
      and are the configured ones, never with less TLS (C20), seeding records
      twice fails (C40).
    - Lemmas beside these: exactly which requests pass the guard and what it
      renders ([anonymous_access], [guard_rejects_or_passes]), the selected route
      ([detect_exact]), what seeding and the API provision is accepted by SMTP,
      modes are exact, a job deleted during its delivery leaves an audit row
      without a job ([delivery_outlives_job]).

    ** Bounds

    [AuthPolicy::build] caps its fixed point at 10,000 rounds ([GUARD]); a
    configuration of [n] roles converges within [n] rounds, so C6 assumes at most
    10,000 roles.  The worker runs a finite list of ticks; a theorem about it
    holds for every list.  [follow_pages] is given a number of requests and is
    [None] when they do not suffice; C37 shows that one per message and one more
    do.  It is about message listings, which the handler sorts; domains, mailboxes
    and records are paged over a query without an order.  [u64] arithmetic wraps
    or saturates where the source does; theorems state the ranges they need.
    Timestamps are unbounded: instants are assumed to stay inside jiff's range,
    where [Timestamp + Span] does not panic.

    ** Not modelled

    The wire formats of DNS, SMTP, JSON and JWT, salvo's matching algorithm and
    the generated OpenAPI document, the config crate's merging of file and
    environment (the merged table is the argument of [Config_load]), sockets and
    TLS handshakes, logging.  A step of [System] is a whole handler or tick: C2
    and C5 are about runs in which each ends before the next begins.
    Statement-level interleaving is covered for claims (C9) and creations (C16); a
    reclaim (C38) and a deletion ([delivery_outlives_job]) between the claim of a
    job and its delivery are shown to break what holds without them.  Of salvo,
    that a request no route takes is answered 404, or 405 when a route has its
    path, is assumed.  Not replayed are the unit tests of the parsers' own
    behaviour (mail-parser in src/src/email.rs) and the integration tests, which
    open sockets. *)

From stdpp Require Export base tactics list gmap strings pretty.
From Stdlib Require Export ZArith NArith Lia.

(** ** Rust's [Result] *)

(** [Result<A, E>].  Error values are kept: the code formats, logs and
    compares them. *)
Inductive result (A E : Type) : Type :=
| Ok (a : A)
| Err (e : E).
Arguments Ok {A E} a.
Arguments Err {A E} e.

(** [Result::is_ok]. *)
Definition is_ok {A E} (r : result A E) : bool :=
  match r with Ok _ => true | Err _ => false end.

(** [Result::ok]. *)
Definition ok {A E} (r : result A E) : option A :=
  match r with Ok a => Some a | Err _ => None end.

(** [Result::map_err]. *)
Definition map_err {A E F} (f : E -> F) (r : result A E) : result A F :=
  match r with Ok a => Ok a | Err e => Err (f e) end.

(** [Result::map]. *)
Definition map_ok {A B E} (f : A -> B) (r : result A E) : result B E :=
  match r with Ok a => Ok (f a) | Err e => Err e end.

(** [Option::ok_or]. *)
Definition ok_or {A E} (e : E) (o : option A) : result A E :=
  match o with Some a => Ok a | None => Err e end.

(** [Iterator::collect::<Result<Vec<_>, _>>]: the first error wins. *)
Fixpoint collect {A E} (rs : list (result A E)) : result (list A) E :=
  match rs with
  | [] => Ok []
  | Err e :: _ => Err e
  | Ok a :: rs' =>
      match collect rs' with Ok l => Ok (a :: l) | Err e => Err e end
  end.

(** [Option::unwrap_or], [Option::unwrap_or_default] on strings. *)
Definition unwrap_or {A} (d : A) (o : option A) : A :=
  match o with Some a => a | None => d end.

(** ** State passing

    A handler is a function from the database handle to the new handle and a
    value; the [?] operator is the bind that returns early on [Err]. *)
Definition M (D A : Type) : Type := D -> D * A.

Definition ret {D A} (a : A) : M D A := fun d => (d, a).

Definition bind {D A B} (m : M D A) (k : A -> M D B) : M D B :=
  fun d => let '(d', a) := m d in k a d'.

(** [expr?] inside a function returning [Result]. *)
Definition bind_try {D A B E} (m : M D (result A E)) (k : A -> M D (result B E))
  : M D (result B E) :=
  bind m (fun r => match r with Ok a => k a | Err e => ret (Err e) end).

(** Post-processing the value does not touch the state. *)
Lemma fst_bind_ret {D A B} (m : M D A) (g : A -> B) d :
  fst (bind m (fun r => ret (g r)) d) = fst (m d).
Proof. unfold bind. by destruct (m d). Qed.

(** A [for] loop whose body may change the state but not leave the loop. *)
Fixpoint for_each {D A} (l : list A) (body : A -> M D unit) : M D unit :=
  match l with
  | [] => ret tt
  | x :: l' => bind (body x) (fun _ => for_each l' body)
  end.

Lemma for_each_cons {D A} x (l : list A) (f : A -> M D unit) d :
  for_each (x :: l) f d = for_each l f (fst (f x d)).
Proof. simpl. unfold bind. by destruct (f x d). Qed.

Lemma for_each_ext {D A} (l : list A) (f g : A -> M D unit) d :
  (forall x, x ∈ l -> forall d, f x d = g x d) -> for_each l f d = for_each l g d.
Proof.
  revert d. induction l as [|x l IH]; intros d Hfg; [done|]. simpl. unfold bind.
  rewrite Hfg by set_solver. destruct (g x d). apply IH. set_solver.
Qed.

(** A [for] loop whose body may leave the function with an error. *)
Fixpoint for_each_try {D A E} (l : list A) (body : A -> M D (result unit E))
  : M D (result unit E) :=
  match l with
  | [] => ret (Ok tt)
  | x :: l' => bind_try (body x) (fun _ => for_each_try l' body)
  end.

Lemma for_each_try_app {D A E} (l1 l2 : list A) (body : A -> M D (result unit E)) d :
  for_each_try (l1 ++ l2) body d =
  bind_try (for_each_try l1 body) (fun _ => for_each_try l2 body) d.
Proof.
  revert d. induction l1 as [|x l1 IH]; intros d; [done|]. simpl. unfold bind_try, bind in *.
  destruct (body x d) as [d' [[]|e]]; [apply IH | done].
Qed.

Declare Scope zm_scope.
Delimit Scope zm_scope with zm.
Notation "'let!' x ':=' m 'in' k" := (bind m (fun x => k))
  (at level 10, x name, m at level 100, k at level 200,
   format "'[v' 'let!'  x  ':='  m  'in' '/' k ']'") : zm_scope.
Notation "'let?' x ':=' m 'in' k" := (bind_try m (fun x => k))
  (at level 10, x name, m at level 100, k at level 200,
   format "'[v' 'let?'  x  ':='  m  'in' '/' k ']'") : zm_scope.
#[global] Open Scope zm_scope.

(** ** How a computation moves an observation of the state

    [evolves obs R m]: whatever [m] returns, the observation [obs] of the
    state it leaves is related by [R] to the one it started from.  With [R] a
    preorder the judgement is closed under the monad's operations, so that an
    invariant or a frame condition of a whole handler follows from the
    statements it executes. *)
Definition evolves {D S A} (obs : D -> S) (R : S -> S -> Prop) (m : M D A) : Prop :=
  forall d, R (obs d) (obs (fst (m d))).

Section Evolves.
Context {D S : Type} (obs : D -> S) (R : S -> S -> Prop) `{!PreOrder R}.

Lemma evolves_ret {A} (a : A) : evolves obs R (ret a).
Proof. intros d. reflexivity. Qed.

Lemma evolves_bind {A B} (m : M D A) (k : A -> M D B) :
  evolves obs R m -> (forall a, evolves obs R (k a)) -> evolves obs R (bind m k).
Proof.
  intros Hm Hk d. unfold bind. specialize (Hm d).
  destruct (m d) as [d' a]. etrans; [exact Hm | apply Hk].
Qed.

Lemma evolves_bind_try {A B E} (m : M D (result A E)) (k : A -> M D (result B E)) :
  evolves obs R m -> (forall a, evolves obs R (k a)) -> evolves obs R (bind_try m k).
Proof.
  intros Hm Hk. apply evolves_bind; [done|].
  intros [a|e]; [apply Hk | apply evolves_ret].
Qed.

Lemma evolves_for_each {A} (l : list A) (body : A -> M D unit) :
  (forall x, evolves obs R (body x)) -> evolves obs R (for_each l body).
Proof.
  intros Hb. induction l; simpl; [apply evolves_ret|]. by apply evolves_bind.
Qed.

Lemma evolves_for_each_try {A E} (l : list A) (body : A -> M D (result unit E)) :
  (forall x, evolves obs R (body x)) -> evolves obs R (for_each_try l body).
Proof.
  intros Hb. induction l; simpl; [apply evolves_ret|]. by apply evolves_bind_try.
Qed.
End Evolves.

(** Preservation of an invariant is such a relation. *)
Definition kept {S} (P : S -> Prop) (s s' : S) : Prop := P s -> P s'.

#[export] Instance kept_preorder {S} (P : S -> Prop) : PreOrder (kept P).
Proof. split; unfold kept, Reflexive, Transitive; auto. Qed.

Create HintDb zm.

(** Decompose a computation down to its statements; lemmas about other
    computations are taken from the database [zm]. *)
Ltac evolve_step :=
  match goal with
  | |- evolves _ _ (ret _) => apply evolves_ret
  | |- evolves _ _ _ => solve [eauto with zm nocore]
  | |- evolves _ _ (bind_try _ _) => apply evolves_bind_try
  | |- evolves _ _ (for_each _ _) => apply evolves_for_each
  | |- evolves _ _ (for_each_try _ _) => apply evolves_for_each_try
  | |- evolves _ _ (bind _ _) => apply evolves_bind
  | |- evolves _ _ (match ?x with _ => _ end) => destruct x
  | |- evolves _ _ (let _ := _ in _) => cbv zeta
  | |- PreOrder _ => typeclasses eauto
  | |- forall _, _ => intros ?
  end.
Ltac evolve := repeat evolve_step.

(** ** Machine integers

    [u64] and [i64] values are [N] and [Z]; the operations that can leave the
    range say what happens. *)

Definition u64_modulus : N := 2 ^ 64.
Definition u64_max : N := u64_modulus - 1.

(** [a + b] on [u64] in a release build. *)
Definition u64_add (a b : N) : N := (a + b) mod u64_modulus.

(** [u64::saturating_mul], [usize::saturating_add]. *)
Definition u64_saturating_mul (a b : N) : N := N.min (a * b) u64_max.
Definition u64_saturating_add (a b : N) : N := N.min (a + b) u64_max.

(** [n as i64]. *)
Definition as_i64 (n : N) : Z :=
  if (n <? 2 ^ 63)%N then Z.of_N n else (Z.of_N n - 2 ^ 64)%Z.

Lemma u64_add_small a b : (a + b < u64_modulus)%N -> u64_add a b = (a + b)%N.
Proof. apply N.mod_small. Qed.
