(* ===== verification/Text.v ===== *)
(** * Text: the string operations of the Rust standard library

    A Rust [str] is its UTF-8 bytes, a [string] here.  The operations the
    program calls are written out on those bytes: ASCII case mapping, Unicode
    trimming and splitting (every code point with the [White_Space] property,
    by its encoding), splitting on an ASCII separator, and trimming of chosen
    ASCII characters.  [str::to_lowercase] needs the Unicode case tables, so it
    is a class: its instances agree with ASCII lowering on ASCII text and are
    idempotent. *)

From S2P Require Import Prelude.
From Stdlib Require Import Ascii String.
#[local] Open Scope string_scope.

(** ** Characters *)

Definition code (c : ascii) : N := N_of_ascii c.

(** [char::to_ascii_lowercase]. *)
Definition ascii_lower (c : ascii) : ascii :=
  if (65 <=? code c)%N && (code c <=? 90)%N then ascii_of_N (code c + 32) else c.

(** [char::to_ascii_uppercase]. *)
Definition ascii_upper (c : ascii) : ascii :=
  if (97 <=? code c)%N && (code c <=? 122)%N then ascii_of_N (code c - 32) else c.

Fixpoint string_map (f : ascii -> ascii) (s : string) : string :=
  match s with
  | EmptyString => EmptyString
  | String c s' => String (f c) (string_map f s')
  end.

Fixpoint string_forall (p : ascii -> bool) (s : string) : bool :=
  match s with
  | EmptyString => true
  | String c s' => p c && string_forall p s'
  end.

(** [str::to_ascii_lowercase], [str::to_ascii_uppercase]. *)
Definition to_ascii_lowercase : string -> string := string_map ascii_lower.
Definition to_ascii_uppercase : string -> string := string_map ascii_upper.

(** [str::eq_ignore_ascii_case]. *)
Definition eq_ignore_ascii_case (a b : string) : bool :=
  String.eqb (to_ascii_lowercase a) (to_ascii_lowercase b).

(** [str::is_ascii]. *)
Definition is_ascii (s : string) : bool := string_forall (fun c => code c <? 128)%N s.

(** [str::is_empty]. *)
Definition is_empty (s : string) : bool :=
  match s with EmptyString => true | String _ _ => false end.

(** ** White space, by UTF-8 encoding *)

Definition ws1 (a : ascii) : bool :=
  ((9 <=? code a) && (code a <=? 13) || (code a =? 32))%N.

(** U+0085 and U+00A0. *)
Definition ws2 (a b : ascii) : bool :=
  ((code a =? 194) && ((code b =? 133) || (code b =? 160)))%N.

(** U+1680, U+2000 to U+200A, U+2028, U+2029, U+202F, U+205F, U+3000. *)
Definition ws3 (a b c : ascii) : bool :=
  ((code a =? 225) && (code b =? 154) && (code c =? 128)
   || (code a =? 226) && (code b =? 128)
      && ((128 <=? code c) && (code c <=? 138) || (code c =? 168)
          || (code c =? 169) || (code c =? 175))
   || (code a =? 226) && (code b =? 129) && (code c =? 159)
   || (code a =? 227) && (code b =? 128) && (code c =? 128))%N.

(** [str::trim_start]. *)
Fixpoint trim_start (s : string) : string :=
  match s with
  | EmptyString => EmptyString
  | String a s1 =>
      if ws1 a then trim_start s1 else
      match s1 with
      | EmptyString => s
      | String b s2 =>
          if ws2 a b then trim_start s2 else
          match s2 with
          | EmptyString => s
          | String c s3 => if ws3 a b c then trim_start s3 else s
          end
      end
  end.

Fixpoint rev_append (s acc : string) : string :=
  match s with
  | EmptyString => acc
  | String c s' => rev_append s' (String c acc)
  end.

Definition string_rev (s : string) : string := rev_append s EmptyString.

(** [trim_start] on the reversed bytes. *)
Fixpoint trim_start_rev (s : string) : string :=
  match s with
  | EmptyString => EmptyString
  | String a s1 =>
      if ws1 a then trim_start_rev s1 else
      match s1 with
      | EmptyString => s
      | String b s2 =>
          if ws2 b a then trim_start_rev s2 else
          match s2 with
          | EmptyString => s
          | String c s3 => if ws3 c b a then trim_start_rev s3 else s
          end
      end
  end.

(** [str::trim_end] and [str::trim]. *)
Definition trim_end (s : string) : string := string_rev (trim_start_rev (string_rev s)).
Definition trim (s : string) : string := trim_end (trim_start s).

(** ** Trimming chosen ASCII characters *)

(** [str::trim_start_matches]. *)
Fixpoint trim_start_matches (p : ascii -> bool) (s : string) : string :=
  match s with
  | EmptyString => EmptyString
  | String c s' => if p c then trim_start_matches p s' else s
  end.

(** [str::trim_end_matches]: nothing but matching characters to the end. *)
Fixpoint trim_end_matches (p : ascii -> bool) (s : string) : string :=
  match s with
  | EmptyString => EmptyString
  | String c s' =>
      match trim_end_matches p s' with
      | EmptyString => if p c then EmptyString else String c EmptyString
      | r => String c r
      end
  end.

(** [str::trim_matches]. *)
Definition trim_matches (p : ascii -> bool) (s : string) : string :=
  trim_end_matches p (trim_start_matches p s).

Definition is_char (c c' : ascii) : bool := Ascii.eqb c c'.

(** ** Splitting *)

(** [str::split] on an ASCII separator: always at least one piece. *)
Fixpoint split_char (sep : ascii) (s : string) : list string :=
  match s with
  | EmptyString => [EmptyString]
  | String c s' =>
      match split_char sep s' with
      | [] => [] (* no string splits into no piece *)
      | p :: ps => if Ascii.eqb c sep then EmptyString :: p :: ps else String c p :: ps
      end
  end.

(** [str::split_once] on an ASCII separator. *)
Fixpoint split_once (sep : ascii) (s : string) : option (string * string) :=
  match s with
  | EmptyString => None
  | String c s' =>
      if Ascii.eqb c sep then Some (EmptyString, s')
      else match split_once sep s' with
           | Some (l, r) => Some (String c l, r)
           | None => None
           end
  end.

Definition flush (cur : string) : list string :=
  match cur with EmptyString => [] | _ => [string_rev cur] end.

(** [str::split_whitespace]: [cur] is the current word, reversed. *)
Fixpoint split_ws_go (s cur : string) : list string :=
  match s with
  | EmptyString => flush cur
  | String a s1 =>
      if ws1 a then (flush cur ++ split_ws_go s1 EmptyString)%list else
      match s1 with
      | EmptyString => split_ws_go s1 (String a cur)
      | String b s2 =>
          if ws2 a b then (flush cur ++ split_ws_go s2 EmptyString)%list else
          match s2 with
          | EmptyString => split_ws_go s1 (String a cur)
          | String c s3 =>
              if ws3 a b c then (flush cur ++ split_ws_go s3 EmptyString)%list
              else split_ws_go s1 (String a cur)
          end
      end
  end.

Definition split_whitespace (s : string) : list string := split_ws_go s EmptyString.

(** [str::starts_with]. *)
Definition starts_with (pre s : string) : bool := String.prefix pre s.

(** [str::contains]. *)
Fixpoint contains (pat s : string) : bool :=
  String.prefix pat s ||
  match s with EmptyString => false | String _ s' => contains pat s' end.

(** ** Unicode lower case *)

(** [str::to_lowercase]. *)
Class UnicodeLower := {
  to_lowercase : string -> string;
  to_lowercase_ascii s : is_ascii s = true -> to_lowercase s = to_ascii_lowercase s;
  to_lowercase_idem s : to_lowercase (to_lowercase s) = to_lowercase s;
}.

(** ** Lemmas *)

Lemma string_app_nil s : s +:+ "" = s.
Proof. induction s as [|c s IH]; [done|]. by change (String c (s +:+ "") = String c s); rewrite IH. Qed.

Lemma rev_append_rev s a b : rev_append (rev_append s a) b = rev_append a (s +:+ b).
Proof. revert a. induction s as [|c s IH]; intros a; [done|]. simpl. by rewrite IH. Qed.

Lemma string_rev_rev s : string_rev (string_rev s) = s.
Proof. unfold string_rev. rewrite rev_append_rev. apply string_app_nil. Qed.

Lemma string_map_map f g s : string_map f (string_map g s) = string_map (fun c => f (g c)) s.
Proof. induction s; simpl; congruence. Qed.

Lemma string_map_ext f g s : (forall c, f c = g c) -> string_map f s = string_map g s.
Proof. intros H. induction s; simpl; [done|]. by rewrite H, IHs. Qed.

Lemma ascii_lower_idem c : ascii_lower (ascii_lower c) = ascii_lower c.
Proof. destruct c as [[] [] [] [] [] [] [] []]; reflexivity. Qed.

Lemma ascii_lower_upper c : ascii_lower (ascii_upper c) = ascii_lower c.
Proof. destruct c as [[] [] [] [] [] [] [] []]; reflexivity. Qed.

(** ASCII lowering is idempotent and forgets a previous upper-casing. *)
Lemma to_ascii_lowercase_idem s :
  to_ascii_lowercase (to_ascii_lowercase s) = to_ascii_lowercase s.
Proof.
  unfold to_ascii_lowercase. rewrite string_map_map. apply string_map_ext, ascii_lower_idem.
Qed.

Lemma to_ascii_lowercase_upper s :
  to_ascii_lowercase (to_ascii_uppercase s) = to_ascii_lowercase s.
Proof.
  unfold to_ascii_lowercase, to_ascii_uppercase. rewrite string_map_map.
  apply string_map_ext, ascii_lower_upper.
Qed.

(** Lowering on ASCII only: a concrete instance of the class. *)
Definition ascii_only_lower : UnicodeLower.
Proof.
  refine {| to_lowercase := to_ascii_lowercase |}; [done | apply to_ascii_lowercase_idem].
Defined.

(** ** Splitting and joining *)

(** The pieces with the separator between them. *)
Fixpoint join (sep : ascii) (l : list string) : string :=
  match l with
  | [] => EmptyString
  | [p] => p
  | p :: l' => p +:+ String sep (join sep l')
  end.

Lemma split_char_nonempty sep s : split_char sep s <> [].
Proof. induction s as [|c s IH]; simpl; [done|]. destruct (split_char sep s); [done|]. by destruct (Ascii.eqb c sep). Qed.

Lemma join_cons_char sep c p l : join sep (String c p :: l) = String c (join sep (p :: l)).
Proof. by destruct l. Qed.

Lemma join_split sep s : join sep (split_char sep s) = s.
Proof.
  induction s as [|c s IH]; simpl; [done|].
  destruct (split_char sep s) as [|p l] eqn:E; [by apply split_char_nonempty in E|].
  destruct (Ascii.eqb_spec c sep) as [->|_].
  - change (join sep (EmptyString :: p :: l)) with (EmptyString +:+ String sep (join sep (p :: l))).
    by rewrite IH.
  - by rewrite join_cons_char, IH.
Qed.

(** Text without the separator. *)
Definition free_of (sep : ascii) (s : string) : bool := string_forall (fun c => negb (Ascii.eqb c sep)) s.

Lemma split_char_none sep s : free_of sep s = true -> split_char sep s = [s].
Proof.
  induction s as [|c s IH]; simpl; [done|]. intros H. apply andb_true_iff in H as [Hc Hs].
  rewrite IH by done. apply negb_true_iff in Hc. by rewrite Hc.
Qed.

Lemma split_char_any sep s s' :
  split_char sep (s +:+ String sep s') = (split_char sep s ++ split_char sep s')%list.
Proof.
  induction s as [|c s IH].
  - change (EmptyString +:+ String sep s') with (String sep s'). simpl.
    destruct (split_char sep s') eqn:E; [by apply split_char_nonempty in E|].
    by rewrite Ascii.eqb_refl.
  - change (String c s +:+ ?x) with (String c (s +:+ x)). simpl. rewrite IH.
    destruct (split_char sep s) eqn:E; [by apply split_char_nonempty in E|]. simpl. by destruct (Ascii.eqb c sep).
Qed.

Lemma split_char_app sep s s' :
  free_of sep s = true -> split_char sep (s +:+ String sep s') = s :: split_char sep s'.
Proof. intros Hs. by rewrite split_char_any, (split_char_none sep s). Qed.
