(* ===== verification/Db.v ===== *)
(** * Db: the data model (src/src/db.rs)

    The record types and their bridge to hickory's enum, one record per table,
    and the conversions between rows and plain values.  A [Deferred] relation
    field holds no column, so a row has only its scalar fields; the relations
    are the foreign keys [Engine] cascades over.  Ids, ttls and codes are the
    unsigned integers of the source, as [N]; a [jiff::Timestamp] is its number
    of nanoseconds, as [Z]. *)

From S2P Require Import Prelude Text.
From Stdlib Require Import Ascii String.
#[local] Open Scope string_scope.

(** ** Record types *)

Inductive RecordType : Type :=
| RT_A | RT_AAAA | RT_ANAME | RT_ANY | RT_AXFR | RT_CAA | RT_CDS | RT_CDNSKEY
| RT_CERT | RT_CNAME | RT_DNAME | RT_CSYNC | RT_DNSKEY | RT_DS | RT_HINFO
| RT_HTTPS | RT_IXFR | RT_KEY | RT_MX | RT_NAPTR | RT_NS | RT_NSEC | RT_NSEC3
| RT_NSEC3PARAM | RT_NULL | RT_OPENPGPKEY | RT_OPT | RT_PTR | RT_RRSIG
| RT_SIG | RT_SMIMEA | RT_SOA | RT_SRV | RT_SSHFP | RT_SVCB | RT_TLSA
| RT_TSIG | RT_TXT | RT_Unknown | RT_ZERO.

#[export] Instance RecordType_eq_dec : EqDecision RecordType.
Proof. solve_decision. Defined.

(** hickory's [RecordType], as far as this program names it: [H_Other n] stands
    for each variant of the non-exhaustive enum that no arm below matches. *)
Inductive HickoryRecordType : Type :=
| H_A | H_AAAA | H_ANAME | H_ANY | H_AXFR | H_CAA | H_CDS | H_CDNSKEY
| H_CNAME | H_CSYNC | H_DNSKEY | H_DS | H_HINFO | H_HTTPS | H_IXFR | H_KEY
| H_MX | H_NAPTR | H_NS | H_NSEC | H_NSEC3 | H_NSEC3PARAM | H_NULL
| H_OPENPGPKEY | H_OPT | H_PTR | H_RRSIG | H_SIG | H_SOA | H_SRV | H_SSHFP
| H_SVCB | H_TLSA | H_TSIG | H_TXT | H_ZERO | H_Unknown (code : N)
| H_Other (n : N).

#[export] Instance HickoryRecordType_eq_dec : EqDecision HickoryRecordType.
Proof. solve_decision. Defined.

(** [impl From<HickoryRecordType> for RecordType]; [None] is the [panic!]. *)
Definition RecordType_from_hickory (value : HickoryRecordType) : option RecordType :=
  match value with
  | H_A => Some RT_A
  | H_AAAA => Some RT_AAAA
  | H_ANAME => Some RT_ANAME
  | H_ANY => Some RT_ANY
  | H_AXFR => Some RT_AXFR
  | H_CAA => Some RT_CAA
  | H_CDS => Some RT_CDS
  | H_CDNSKEY => Some RT_CDNSKEY
  | H_CNAME => Some RT_CNAME
  | H_CSYNC => Some RT_CSYNC
  | H_DNSKEY => Some RT_DNSKEY
  | H_DS => Some RT_DS
  | H_HINFO => Some RT_HINFO
  | H_HTTPS => Some RT_HTTPS
  | H_IXFR => Some RT_IXFR
  | H_KEY => Some RT_KEY
  | H_MX => Some RT_MX
  | H_NAPTR => Some RT_NAPTR
  | H_NS => Some RT_NS
  | H_NSEC => Some RT_NSEC
  | H_NSEC3 => Some RT_NSEC3
  | H_NSEC3PARAM => Some RT_NSEC3PARAM
  | H_NULL => Some RT_NULL
  | H_OPENPGPKEY => Some RT_OPENPGPKEY
  | H_OPT => Some RT_OPT
  | H_PTR => Some RT_PTR
  | H_RRSIG => Some RT_RRSIG
  | H_SIG => Some RT_SIG
  | H_SOA => Some RT_SOA
  | H_SRV => Some RT_SRV
  | H_SSHFP => Some RT_SSHFP
  | H_SVCB => Some RT_SVCB
  | H_TLSA => Some RT_TLSA
  | H_TSIG => Some RT_TSIG
  | H_TXT => Some RT_TXT
  | H_Unknown _code => Some RT_Unknown
  | H_ZERO => Some RT_ZERO
  | H_Other _ => None
  end.

(** [impl From<RecordType> for HickoryRecordType]. *)
Definition hickory_from_RecordType (value : RecordType) : HickoryRecordType :=
  match value with
  | RT_A => H_A
  | RT_AAAA => H_AAAA
  | RT_CNAME => H_CNAME
  | RT_MX => H_MX
  | RT_NS => H_NS
  | RT_SOA => H_SOA
  | RT_TXT => H_TXT
  | RT_CAA => H_CAA
  | RT_SRV => H_SRV
  | RT_PTR => H_PTR
  | RT_SVCB => H_SVCB
  | RT_HTTPS => H_HTTPS
  | RT_ANAME => H_ANAME
  | RT_ANY => H_ANY
  | RT_AXFR => H_AXFR
  | RT_CDS => H_CDS
  | RT_CDNSKEY => H_CDNSKEY
  | RT_CERT => H_Unknown 10 (* 0x000A *)
  | RT_DNAME => H_Unknown 39 (* 0x0027 *)
  | RT_CSYNC => H_CSYNC
  | RT_DNSKEY => H_DNSKEY
  | RT_DS => H_DS
  | RT_HINFO => H_HINFO
  | RT_IXFR => H_IXFR
  | RT_KEY => H_KEY
  | RT_NAPTR => H_NAPTR
  | RT_NSEC => H_NSEC
  | RT_NSEC3 => H_NSEC3
  | RT_NSEC3PARAM => H_NSEC3PARAM
  | RT_NULL => H_NULL
  | RT_OPENPGPKEY => H_OPENPGPKEY
  | RT_OPT => H_OPT
  | RT_RRSIG => H_RRSIG
  | RT_SIG => H_SIG
  | RT_SMIMEA => H_Unknown 65 (* 0x0041 *)
  | RT_SSHFP => H_SSHFP
  | RT_TLSA => H_TLSA
  | RT_TSIG => H_TSIG
  | RT_Unknown => H_Unknown 65535 (* 0xFFFF *)
  | RT_ZERO => H_ZERO
  end.

(** The variant's name: what [#[derive(Serialize)]] writes. *)
Definition RecordType_name (rt : RecordType) : string :=
  match rt with
  | RT_A => "A"
  | RT_AAAA => "AAAA"
  | RT_ANAME => "ANAME"
  | RT_ANY => "ANY"
  | RT_AXFR => "AXFR"
  | RT_CAA => "CAA"
  | RT_CDS => "CDS"
  | RT_CDNSKEY => "CDNSKEY"
  | RT_CERT => "CERT"
  | RT_CNAME => "CNAME"
  | RT_DNAME => "DNAME"
  | RT_CSYNC => "CSYNC"
  | RT_DNSKEY => "DNSKEY"
  | RT_DS => "DS"
  | RT_HINFO => "HINFO"
  | RT_HTTPS => "HTTPS"
  | RT_IXFR => "IXFR"
  | RT_KEY => "KEY"
  | RT_MX => "MX"
  | RT_NAPTR => "NAPTR"
  | RT_NS => "NS"
  | RT_NSEC => "NSEC"
  | RT_NSEC3 => "NSEC3"
  | RT_NSEC3PARAM => "NSEC3PARAM"
  | RT_NULL => "NULL"
  | RT_OPENPGPKEY => "OPENPGPKEY"
  | RT_OPT => "OPT"
  | RT_PTR => "PTR"
  | RT_RRSIG => "RRSIG"
  | RT_SIG => "SIG"
  | RT_SMIMEA => "SMIMEA"
  | RT_SOA => "SOA"
  | RT_SRV => "SRV"
  | RT_SSHFP => "SSHFP"
  | RT_SVCB => "SVCB"
  | RT_TLSA => "TLSA"
  | RT_TSIG => "TSIG"
  | RT_TXT => "TXT"
  | RT_Unknown => "Unknown"
  | RT_ZERO => "ZERO"
  end.

Definition all_record_types : list RecordType :=
  [RT_A; RT_AAAA; RT_ANAME; RT_ANY; RT_AXFR; RT_CAA; RT_CDS; RT_CDNSKEY;
   RT_CERT; RT_CNAME; RT_DNAME; RT_CSYNC; RT_DNSKEY; RT_DS; RT_HINFO;
   RT_HTTPS; RT_IXFR; RT_KEY; RT_MX; RT_NAPTR; RT_NS; RT_NSEC; RT_NSEC3;
   RT_NSEC3PARAM; RT_NULL; RT_OPENPGPKEY; RT_OPT; RT_PTR; RT_RRSIG; RT_SIG;
   RT_SMIMEA; RT_SOA; RT_SRV; RT_SSHFP; RT_SVCB; RT_TLSA; RT_TSIG; RT_TXT;
   RT_Unknown; RT_ZERO].

(** [#[derive(Deserialize)]]: the variant of that exact name. *)
Definition RecordType_of_name (s : string) : option RecordType :=
  find (fun rt => String.eqb (RecordType_name rt) s) all_record_types.

(** ** Rows *)

Abbreviation Timestamp := Z (only parsing).
Abbreviation bytes := (list Byte.byte) (only parsing).

Record Domain : Type := mkDomain {
  dom_id : string;
  dom_created_at : Timestamp;
  dom_updated_at : Timestamp;
}.

Record Record_ : Type := mkRecord {
  rec_id : N;
  rec_domain_id : string;
  rec_record_type : RecordType;
  rec_value : string;
  rec_ttl : N;
  rec_created_at : Timestamp;
  rec_updated_at : Timestamp;
}.

Record RecordDTO : Type := mkRecordDTO {
  dto_domain_id : string;
  dto_record_type : RecordType;
  dto_value : string;
  dto_ttl : N;
}.

#[export] Instance RecordDTO_eq_dec : EqDecision RecordDTO.
Proof. solve_decision. Defined.

Record Mailbox : Type := mkMailbox {
  mb_id : string;
  mb_domain_id : string;
  mb_forward_to : option string;
  mb_created_at : Timestamp;
  mb_updated_at : Timestamp;
}.

Record Message : Type := mkMessage {
  msg_id : N;
  msg_mail_from : string;
  msg_raw : bytes;
  msg_subject : option string;
  msg_message_id_header : option string;
  msg_content_type : option string;
  msg_from_address : option string;
  msg_to : list string;
  msg_cc : list string;
  msg_bcc : list string;
  msg_created_at : Timestamp;
  msg_updated_at : Timestamp;
}.

Record Inbound : Type := mkInbound {
  in_id : N;
  in_message_id : N;
  in_rcpt_to : string;
  in_created_at : Timestamp;
  in_updated_at : Timestamp;
}.

Inductive OutboundStatus : Type := Queued | InProgress | Delivered | Failed.

#[export] Instance OutboundStatus_eq_dec : EqDecision OutboundStatus.
Proof. solve_decision. Defined.

Record Outbound : Type := mkOutbound {
  out_id : N;
  out_message_id : N;
  out_rcpt_to : string;
  out_sender_id : string;
  out_status : OutboundStatus;
  out_attempts : N;
  out_next_attempt_at : option Timestamp;
  out_last_error : option string;
  out_created_at : Timestamp;
  out_updated_at : Timestamp;
}.

Record DeliveryStatus : Type := mkDeliveryStatus {
  ds_id : N;
  ds_outbound_id : N;
  ds_peer_host : string;
  ds_code : option N;
  ds_message : option string;
  ds_created_at : Timestamp;
  ds_updated_at : Timestamp;
}.

(** ** Conversions *)

(** [impl From<String> for Domain]. *)
Definition Domain_from (now : Timestamp) (id : string) : Domain :=
  {| dom_id := id; dom_created_at := now; dom_updated_at := now |}.

(** [impl From<Domain> for String]. *)
Definition String_from_Domain (domain : Domain) : string := dom_id domain.

(** [impl From<RecordDTO> for Record]: the id is generated on insert. *)
Definition Record_from_dto (now : Timestamp) (dto : RecordDTO) : Record_ :=
  {| rec_id := 0; rec_domain_id := dto_domain_id dto;
     rec_record_type := dto_record_type dto; rec_value := dto_value dto;
     rec_ttl := dto_ttl dto; rec_created_at := now; rec_updated_at := now |}.

(** [impl From<&Record> for RecordDTO]. *)
Definition RecordDTO_from (record : Record_) : RecordDTO :=
  {| dto_domain_id := rec_domain_id record; dto_record_type := rec_record_type record;
     dto_value := rec_value record; dto_ttl := rec_ttl record |}.

Inductive MailboxError : Type := InvalidFormat.

(** [impl TryFrom<String> for Mailbox]: the domain is the piece between the
    first and the second [@], and must not be empty. *)
Definition Mailbox_try_from (now : Timestamp) (id : string) : result Mailbox MailboxError :=
  match split_char "@"%char id !! 1 with
  | None => Err InvalidFormat
  | Some domain_id =>
      if is_empty domain_id then Err InvalidFormat
      else Ok {| mb_id := id; mb_domain_id := domain_id; mb_forward_to := None;
                 mb_created_at := now; mb_updated_at := now |}
  end.

(** [impl From<Mailbox> for String]. *)
Definition String_from_Mailbox (mailbox : Mailbox) : string := mb_id mailbox.
