(* ===== verification/Engine.v ===== *)
(** * Engine: the database behind toasty

    toasty and Turso are libraries the program calls.  [stmt] lists the
    statements the source executes ([get_by_id], [query!], [create!], [update!],
    [delete]), [stmt_spec] states what a successful one does to the tables of
    [Db] (keys, [#[auto]] columns, the [#[unique]] triple and the [#[has_many]]
    cascade of src/src/db.rs), and [DbEngine] is the interface every component
    is verified against: a statement either has its effect or fails without
    one.  [MemDb] is an in-memory engine with a fault schedule that implements
    the interface, on which concrete runs evaluate. *)

From S2P Require Import Prelude Text Db.
From Stdlib Require Import Ascii String.
#[local] Open Scope string_scope.

(** ** Tables *)

Record Tables : Type := mkTables {
  t_domains : gmap string Domain;
  t_mailboxes : gmap string Mailbox;
  t_records : gmap N Record_;
  t_messages : gmap N Message;
  t_inbound : gmap N Inbound;
  t_outbound : gmap N Outbound;
  t_delivery : gmap N DeliveryStatus;
}.

Definition empty_tables : Tables := mkTables ∅ ∅ ∅ ∅ ∅ ∅ ∅.

Definition on_domains f (t : Tables) : Tables :=
  mkTables (f (t_domains t)) (t_mailboxes t) (t_records t) (t_messages t)
    (t_inbound t) (t_outbound t) (t_delivery t).
Definition on_mailboxes f (t : Tables) : Tables :=
  mkTables (t_domains t) (f (t_mailboxes t)) (t_records t) (t_messages t)
    (t_inbound t) (t_outbound t) (t_delivery t).
Definition on_records f (t : Tables) : Tables :=
  mkTables (t_domains t) (t_mailboxes t) (f (t_records t)) (t_messages t)
    (t_inbound t) (t_outbound t) (t_delivery t).
Definition on_messages f (t : Tables) : Tables :=
  mkTables (t_domains t) (t_mailboxes t) (t_records t) (f (t_messages t))
    (t_inbound t) (t_outbound t) (t_delivery t).
Definition on_inbound f (t : Tables) : Tables :=
  mkTables (t_domains t) (t_mailboxes t) (t_records t) (t_messages t)
    (f (t_inbound t)) (t_outbound t) (t_delivery t).
Definition on_outbound f (t : Tables) : Tables :=
  mkTables (t_domains t) (t_mailboxes t) (t_records t) (t_messages t)
    (t_inbound t) (f (t_outbound t)) (t_delivery t).
Definition on_delivery f (t : Tables) : Tables :=
  mkTables (t_domains t) (t_mailboxes t) (t_records t) (t_messages t)
    (t_inbound t) (t_outbound t) (f (t_delivery t)).

(** The rows of a table, in key order. *)
Definition rows `{Countable K} {R} (m : gmap K R) : list R := (map_to_list m).*2.

(** Keep the rows that satisfy a boolean test. *)
Definition keep `{Countable K} {R} (p : R -> bool) (m : gmap K R) : gmap K R :=
  filter (fun kr => p kr.2 = true) m.

(** ** Cascading deletes

    [#[has_many]]: a deleted [Outbound] takes its [DeliveryStatus] rows, a
    [Mailbox] its [Inbound] and [Outbound] rows, a [Domain] its [Mailbox] and
    [Record] rows. *)

Definition delete_outbound_where (p : Outbound -> bool) (t : Tables) : Tables :=
  let gone := keep p (t_outbound t) in
  on_outbound (keep (fun o => negb (p o)))
    (on_delivery (keep (fun s => bool_decide (gone !! ds_outbound_id s = None))) t).

Definition delete_inbound_where (p : Inbound -> bool) : Tables -> Tables :=
  on_inbound (keep (fun i => negb (p i))).

Definition delete_mailboxes_where (p : Mailbox -> bool) (t : Tables) : Tables :=
  let gone := keep p (t_mailboxes t) in
  let owned id := negb (bool_decide (gone !! id = None)) in
  on_mailboxes (keep (fun m => negb (p m)))
    (delete_inbound_where (fun i => owned (in_rcpt_to i))
       (delete_outbound_where (fun o => owned (out_sender_id o)) t)).

Definition delete_domain_row (id : string) (t : Tables) : Tables :=
  on_domains (delete id)
    (on_records (keep (fun r => negb (String.eqb (rec_domain_id r) id)))
       (delete_mailboxes_where (fun m => String.eqb (mb_domain_id m) id) t)).

(** ** New rows: the columns a [create!] names *)

Record NewMessage : Type := mkNewMessage {
  nm_mail_from : string; nm_raw : bytes; nm_subject : option string;
  nm_message_id_header : option string; nm_content_type : option string;
  nm_from_address : option string;
  nm_to : list string; nm_cc : list string; nm_bcc : list string;
}.

Record NewOutbound : Type := mkNewOutbound {
  no_message_id : N; no_rcpt_to : string; no_sender_id : string;
  no_status : OutboundStatus; no_attempts : N;
  no_next_attempt_at : option Timestamp; no_last_error : option string;
}.

Definition message_row (n : NewMessage) (id : N) (ts : Timestamp) : Message :=
  mkMessage id (nm_mail_from n) (nm_raw n) (nm_subject n) (nm_message_id_header n)
    (nm_content_type n) (nm_from_address n) (nm_to n) (nm_cc n) (nm_bcc n) ts ts.

Definition outbound_row (n : NewOutbound) (id : N) (ts : Timestamp) : Outbound :=
  mkOutbound id (no_message_id n) (no_rcpt_to n) (no_sender_id n) (no_status n)
    (no_attempts n) (no_next_attempt_at n) (no_last_error n) ts ts.

(** The columns an [update!] of an [Outbound] names; [None] leaves one as it is. *)
Record OutboundPatch : Type := mkOutboundPatch {
  op_status : OutboundStatus;
  op_attempts : option N;
  op_next_attempt_at : option (option Timestamp);
  op_last_error : option (option string);
}.

Definition patch_outbound (p : OutboundPatch) (ts : Timestamp) (o : Outbound) : Outbound :=
  mkOutbound (out_id o) (out_message_id o) (out_rcpt_to o) (out_sender_id o)
    (op_status p) (unwrap_or (out_attempts o) (op_attempts p))
    (unwrap_or (out_next_attempt_at o) (op_next_attempt_at p))
    (unwrap_or (out_last_error o) (op_last_error p)) (out_created_at o) ts.

Definition update_mailbox_row (domain_id : string) (forward_to : option string)
    (ts : Timestamp) (m : Mailbox) : Mailbox :=
  mkMailbox (mb_id m) domain_id forward_to (mb_created_at m) ts.

Definition update_record_row (domain_id : string) (rt : RecordType) (value : string) (ttl : N)
    (ts : Timestamp) (r : Record_) : Record_ :=
  mkRecord (rec_id r) domain_id rt value ttl (rec_created_at r) ts.

(** ** Statements *)

Inductive stmt : Type -> Type :=
| GetDomain (id : string) : stmt Domain
| GetMailbox (id : string) : stmt Mailbox
| GetRecord (id : N) : stmt Record_
| GetMessage (id : N) : stmt Message
| QueryDomains : stmt (list Domain)
| QueryMailboxes (p : Mailbox -> bool) : stmt (list Mailbox)
| QueryRecords (p : Record_ -> bool) : stmt (list Record_)
| QueryInbound (p : Inbound -> bool) : stmt (list Inbound)
| QueryOutbound (p : Outbound -> bool) : stmt (list Outbound)
| FirstMessage (p : Message -> bool) : stmt (option Message)
| FirstOutbound (id : N) : stmt (option Outbound)
| CreateDomain (id : string) : stmt Domain
| CreateMailbox (id domain_id : string) (forward_to : option string) : stmt Mailbox
| CreateRecord (domain_id : string) (rt : RecordType) (value : string) (ttl : N) : stmt Record_
| CreateMessage (n : NewMessage) : stmt Message
| CreateInbound (message_id : N) (rcpt_to : string) : stmt Inbound
| CreateOutbound (n : NewOutbound) : stmt Outbound
| CreateDelivery (outbound_id : N) (peer_host : string) (code : option N) (message : option string)
    : stmt DeliveryStatus
| UpdateMailbox (id domain_id : string) (forward_to : option string) : stmt unit
| UpdateRecord (id : N) (domain_id : string) (rt : RecordType) (value : string) (ttl : N) : stmt unit
| UpdateOutbound (id : N) (p : OutboundPatch) : stmt unit
| DeleteDomain (id : string) : stmt unit
| DeleteMailbox (id : string) : stmt unit
| DeleteRecord (id : N) : stmt unit
| DeleteMessage (id : N) : stmt unit
| DeleteInboundOf (message_id : N) : stmt unit
| DeleteOutboundOf (message_id : N) : stmt unit.

(** [#[unique(domain_id, record_type, value)]]. *)
Definition same_triple (domain_id : string) (rt : RecordType) (value : string) (r : Record_) : bool :=
  String.eqb (rec_domain_id r) domain_id && bool_decide (rec_record_type r = rt)
  && String.eqb (rec_value r) value.

Definition conflicting (id : N) domain_id rt value (t : Tables) : Prop :=
  exists k r, t_records t !! k = Some r /\ k <> id /\ same_triple domain_id rt value r = true.

(** What a successful statement does: [stmt_spec s t a t'] when [s] run on the
    tables [t] may return [a] and leave [t'].  The order of the rows of a query
    and the values of [#[auto]] columns are the engine's choice. *)
Definition stmt_spec {A} (s : stmt A) (t : Tables) : A -> Tables -> Prop :=
  match s in stmt A return A -> Tables -> Prop with
  | GetDomain id => fun r t' => t' = t /\ t_domains t !! id = Some r
  | GetMailbox id => fun r t' => t' = t /\ t_mailboxes t !! id = Some r
  | GetRecord id => fun r t' => t' = t /\ t_records t !! id = Some r
  | GetMessage id => fun r t' => t' = t /\ t_messages t !! id = Some r
  | QueryDomains => fun rs t' => t' = t /\ rs ≡ₚ rows (t_domains t)
  | QueryMailboxes p => fun rs t' => t' = t /\ rs ≡ₚ rows (keep p (t_mailboxes t))
  | QueryRecords p => fun rs t' => t' = t /\ rs ≡ₚ rows (keep p (t_records t))
  | QueryInbound p => fun rs t' => t' = t /\ rs ≡ₚ rows (keep p (t_inbound t))
  | QueryOutbound p => fun rs t' => t' = t /\ rs ≡ₚ rows (keep p (t_outbound t))
  | FirstMessage p => fun o t' => t' = t /\
      match o with
      | Some r => exists k, keep p (t_messages t) !! k = Some r
      | None => keep p (t_messages t) = ∅
      end
  | FirstOutbound id => fun o t' => t' = t /\ t_outbound t !! id = o
  | CreateDomain id => fun r t' => t_domains t !! id = None /\
      exists ts, r = mkDomain id ts ts /\ t' = on_domains <[id := r]> t
  | CreateMailbox id dom fwd => fun r t' => t_mailboxes t !! id = None /\
      exists ts, r = mkMailbox id dom fwd ts ts /\ t' = on_mailboxes <[id := r]> t
  | CreateRecord dom rt v ttl => fun r t' => exists id ts,
      t_records t !! id = None /\ ~ conflicting id dom rt v t /\
      r = mkRecord id dom rt v ttl ts ts /\ t' = on_records <[id := r]> t
  | CreateMessage n => fun r t' => exists id ts, t_messages t !! id = None /\
      r = message_row n id ts /\ t' = on_messages <[id := r]> t
  | CreateInbound mid rcpt => fun r t' => exists id ts, t_inbound t !! id = None /\
      r = mkInbound id mid rcpt ts ts /\ t' = on_inbound <[id := r]> t
  | CreateOutbound n => fun r t' => exists id ts, t_outbound t !! id = None /\
      r = outbound_row n id ts /\ t' = on_outbound <[id := r]> t
  | CreateDelivery oid host c m => fun r t' => exists id ts, t_delivery t !! id = None /\
      r = mkDeliveryStatus id oid host c m ts ts /\ t' = on_delivery <[id := r]> t
  | UpdateMailbox id dom fwd => fun _ t' => exists ts,
      t' = on_mailboxes (alter (update_mailbox_row dom fwd ts) id) t
  | UpdateRecord id dom rt v ttl => fun _ t' => ~ conflicting id dom rt v t /\ exists ts,
      t' = on_records (alter (update_record_row dom rt v ttl ts) id) t
  | UpdateOutbound id p => fun _ t' => exists ts,
      t' = on_outbound (alter (patch_outbound p ts) id) t
  | DeleteDomain id => fun _ t' => t' = delete_domain_row id t
  | DeleteMailbox id => fun _ t' =>
      t' = delete_mailboxes_where (fun m => String.eqb (mb_id m) id) t
  | DeleteRecord id => fun _ t' => t' = on_records (delete id) t
  | DeleteMessage id => fun _ t' => t' = on_messages (delete id) t
  | DeleteInboundOf mid => fun _ t' =>
      t' = delete_inbound_where (fun i => N.eqb (in_message_id i) mid) t
  | DeleteOutboundOf mid => fun _ t' =>
      t' = delete_outbound_where (fun o => N.eqb (out_message_id o) mid) t
  end.

(** When a statement can succeed: the row a [get_by_id] or an [update!] names
    exists, the key or the unique triple a [create!] or an [update!] writes is
    free. *)
Definition enabled {A} (s : stmt A) (t : Tables) : Prop :=
  match s with
  | GetDomain id => is_Some (t_domains t !! id)
  | GetMailbox id => is_Some (t_mailboxes t !! id)
  | GetRecord id => is_Some (t_records t !! id)
  | GetMessage id => is_Some (t_messages t !! id)
  | CreateDomain id => t_domains t !! id = None
  | CreateMailbox id _ _ => t_mailboxes t !! id = None
  | CreateRecord dom rt v _ =>
      forall k r, t_records t !! k = Some r -> same_triple dom rt v r = false
  | UpdateMailbox id _ _ => is_Some (t_mailboxes t !! id)
  | UpdateRecord id dom rt v _ => is_Some (t_records t !! id) /\ ~ conflicting id dom rt v t
  | UpdateOutbound id _ => is_Some (t_outbound t !! id)
  | _ => True
  end.

(** ** The interface

    [DbOps] are the operations of a connection, over which the program's
    definitions are written; [view] is the committed content of the tables as the
    connection sees it.  [DbEngine] is what the connection promises when nobody
    else writes meanwhile: a failing statement changes nothing; a transaction that
    is not committed is rolled back to where it began; while the engine is
    [available] every enabled statement succeeds. *)
Inductive TransactionMode : Type := Deferred | Immediate.

Class DbOps (D : Type) := {
  view : D -> Tables;
  exec : forall {A}, stmt A -> M D (result A string);
  db_begin : TransactionMode -> M D (result unit string);
  db_commit : M D (result unit string);
  db_rollback : D -> D -> D;
}.

Class DbEngine (D : Type) := {
  engine_ops :: DbOps D;
  available : D -> Prop;
  exec_ok : forall {A} (s : stmt A) d d' a,
    exec s d = (d', Ok a) -> stmt_spec s (view d) a (view d');
  exec_err : forall {A} (s : stmt A) d d' e, exec s d = (d', Err e) -> view d' = view d;
  begin_view : forall m d, view (fst (db_begin m d)) = view d;
  commit_view : forall d, view (fst (db_commit d)) = view d;
  rollback_view : forall d0 d, view (db_rollback d0 d) = view d0;
  exec_available : forall {A} (s : stmt A) d, available d ->
    available (fst (exec s d)) /\ (enabled s (view d) -> is_ok (snd (exec s d)) = true);
  begin_available : forall m d, available d ->
    available (fst (db_begin m d)) /\ is_ok (snd (db_begin m d)) = true;
  commit_available : forall d, available d ->
    available (fst (db_commit d)) /\ is_ok (snd (db_commit d)) = true;
  rollback_available : forall d0 d, available d -> available (db_rollback d0 d);
}.

(** ** Transactions

    The body of a transaction, one operation at a time: its statements, its
    commit, its result.  On one connection it runs to the end. *)
Inductive Tx (A : Type) : Type :=
| TxDone (a : A)
| TxExec {B : Type} (s : stmt B) (k : result B string -> Tx A)
| TxCommit (k : result unit string -> Tx A).
Arguments TxDone {A}.
Arguments TxExec {A B}.
Arguments TxCommit {A}.

Fixpoint run_tx {A} `{DbOps D} (p : Tx A) : M D A :=
  match p with
  | TxDone a => ret a
  | TxExec s k => let! r := exec s in run_tx (k r)
  | TxCommit k => let! c := db_commit in run_tx (k c)
  end.

(** ** An in-memory engine *)

Record MemDb : Type := mkMemDb {
  mem_tables : Tables;
  mem_clock : Timestamp;
  mem_faults : list bool;   (* [true]: the next operation fails *)
}.

Definition fresh_id {R} (m : gmap N R) : N :=
  N.succ (foldr N.max 0%N (map_to_list m).*1).

Definition conflictingb (id : N) domain_id rt value (t : Tables) : bool :=
  existsb (fun kr => negb (N.eqb kr.1 id) && same_triple domain_id rt value kr.2)
    (map_to_list (t_records t)).

Definition found {R} (t : Tables) (o : option R) : option (Tables * R) :=
  match o with Some r => Some (t, r) | None => None end.

Definition run_stmt {A} (s : stmt A) (ts : Timestamp) (t : Tables) : option (Tables * A) :=
  match s in stmt A return option (Tables * A) with
  | GetDomain id => found t (t_domains t !! id)
  | GetMailbox id => found t (t_mailboxes t !! id)
  | GetRecord id => found t (t_records t !! id)
  | GetMessage id => found t (t_messages t !! id)
  | QueryDomains => Some (t, rows (t_domains t))
  | QueryMailboxes p => Some (t, rows (keep p (t_mailboxes t)))
  | QueryRecords p => Some (t, rows (keep p (t_records t)))
  | QueryInbound p => Some (t, rows (keep p (t_inbound t)))
  | QueryOutbound p => Some (t, rows (keep p (t_outbound t)))
  | FirstMessage p => Some (t, head (rows (keep p (t_messages t))))
  | FirstOutbound id => Some (t, t_outbound t !! id)
  | CreateDomain id =>
      match t_domains t !! id with
      | Some _ => None
      | None => let r := mkDomain id ts ts in Some (on_domains <[id := r]> t, r)
      end
  | CreateMailbox id dom fwd =>
      match t_mailboxes t !! id with
      | Some _ => None
      | None => let r := mkMailbox id dom fwd ts ts in Some (on_mailboxes <[id := r]> t, r)
      end
  | CreateRecord dom rt v ttl =>
      let id := fresh_id (t_records t) in
      if conflictingb id dom rt v t then None
      else let r := mkRecord id dom rt v ttl ts ts in Some (on_records <[id := r]> t, r)
  | CreateMessage n =>
      let r := message_row n (fresh_id (t_messages t)) ts in
      Some (on_messages <[msg_id r := r]> t, r)
  | CreateInbound mid rcpt =>
      let r := mkInbound (fresh_id (t_inbound t)) mid rcpt ts ts in
      Some (on_inbound <[in_id r := r]> t, r)
  | CreateOutbound n =>
      let r := outbound_row n (fresh_id (t_outbound t)) ts in
      Some (on_outbound <[out_id r := r]> t, r)
  | CreateDelivery oid host c m =>
      let r := mkDeliveryStatus (fresh_id (t_delivery t)) oid host c m ts ts in
      Some (on_delivery <[ds_id r := r]> t, r)
  | UpdateMailbox id dom fwd =>
      Some (on_mailboxes (alter (update_mailbox_row dom fwd ts) id) t, tt)
  | UpdateRecord id dom rt v ttl =>
      if conflictingb id dom rt v t then None
      else Some (on_records (alter (update_record_row dom rt v ttl ts) id) t, tt)
  | UpdateOutbound id p => Some (on_outbound (alter (patch_outbound p ts) id) t, tt)
  | DeleteDomain id => Some (delete_domain_row id t, tt)
  | DeleteMailbox id => Some (delete_mailboxes_where (fun m => String.eqb (mb_id m) id) t, tt)
  | DeleteRecord id => Some (on_records (delete id) t, tt)
  | DeleteMessage id => Some (on_messages (delete id) t, tt)
  | DeleteInboundOf mid =>
      Some (delete_inbound_where (fun i => N.eqb (in_message_id i) mid) t, tt)
  | DeleteOutboundOf mid =>
      Some (delete_outbound_where (fun o => N.eqb (out_message_id o) mid) t, tt)
  end.

(** Consume one entry of the fault schedule. *)
Definition mem_fault (d : MemDb) : bool * MemDb :=
  (default false (head (mem_faults d)),
   mkMemDb (mem_tables d) (mem_clock d + 1) (tail (mem_faults d))).

Definition mem_exec {A} (s : stmt A) : M MemDb (result A string) := fun d =>
  let '(fault, d1) := mem_fault d in
  if fault then (d1, Err "engine fault") else
  match run_stmt s (mem_clock d) (mem_tables d) with
  | Some (t', a) => (mkMemDb t' (mem_clock d1) (mem_faults d1), Ok a)
  | None => (d1, Err "constraint failed")
  end.

Definition mem_tx : M MemDb (result unit string) := fun d =>
  let '(fault, d1) := mem_fault d in
  (d1, if fault then Err "engine fault" else Ok tt).

Definition mem_rollback (d0 d : MemDb) : MemDb :=
  mkMemDb (mem_tables d0) (mem_clock d) (mem_faults d).

Definition mem_available (d : MemDb) : Prop := Forall (eq false) (mem_faults d).

Lemma fresh_id_None {R} (m : gmap N R) : m !! fresh_id m = None.
Proof.
  apply eq_None_not_Some. intros [r Hr].
  apply elem_of_map_to_list in Hr. unfold fresh_id in Hr.
  assert (Hle : forall l : list (N * R), forall k x, (k, x) ∈ l ->
            (k <= foldr N.max 0 l.*1)%N).
  { induction l as [|[k' x'] l IH]; simpl; intros k x H; [set_solver|].
    apply elem_of_cons in H as [[= -> ->]|H]; [apply N.le_max_l|].
    etrans; [by eapply IH | apply N.le_max_r]. }
  apply Hle in Hr. lia.
Qed.

Lemma conflictingb_spec id dom rt v t : conflictingb id dom rt v t = false <-> ~ conflicting id dom rt v t.
Proof.
  unfold conflictingb, conflicting. rewrite <- not_true_iff_false, existsb_exists.
  split; intros H C; apply H; clear H.
  - destruct C as (k & r & Hk & Hne & Hs). exists (k, r). split.
    + by apply list_elem_of_In, elem_of_map_to_list.
    + simpl. rewrite Hs. apply andb_true_iff. split; [|done].
      apply negb_true_iff, N.eqb_neq. done.
  - destruct C as ([k r] & Hk & Hb). apply list_elem_of_In, elem_of_map_to_list in Hk.
    apply andb_true_iff in Hb as [Hn Hs]. exists k, r. split; [done|].
    split; [|done]. by apply N.eqb_neq, negb_true_iff.
Qed.

Lemma run_stmt_spec {A} (s : stmt A) ts t t' a :
  run_stmt s ts t = Some (t', a) -> stmt_spec s t a t'.
Proof.
  destruct s; simpl; unfold found; intros H; repeat case_match; simplify_eq;
    eauto 10 using fresh_id_None; try (by rewrite conflictingb_spec in *; eauto).
  - split; [done|]. destruct (rows _) as [|r l] eqn:E; simplify_eq/=.
    assert (Hin : m ∈ rows (keep p (t_messages t'))) by (rewrite E; set_solver).
    unfold rows in Hin. apply list_elem_of_fmap in Hin as [[k x] [-> Hx]].
    exists k. by apply elem_of_map_to_list.
  - split; [done|]. destruct (rows _) as [|r l] eqn:E; simplify_eq/=.
    unfold rows in E. apply fmap_nil_inv in E. by apply map_to_list_empty_iff.
  - rewrite conflictingb_spec in *. eauto 10 using fresh_id_None.
Qed.

Lemma run_stmt_enabled {A} (s : stmt A) ts t : enabled s t -> is_Some (run_stmt s ts t).
Proof.
  destruct s; simpl; intros H; try by eauto.
  1-4: destruct H as [r ->]; by eauto.
  - rewrite H. eauto.
  - rewrite H. eauto.
  - assert (E : conflictingb (fresh_id (t_records t)) domain_id rt value t = false).
    { apply conflictingb_spec. intros (k & r & Hk & _ & Hs). by rewrite (H k r Hk) in Hs. }
    rewrite E. eauto.
  - destruct H as [_ H]. apply conflictingb_spec in H. rewrite H. eauto.
Qed.

Definition MemDb_ops : DbOps MemDb := {|
  view := mem_tables; exec := @mem_exec; db_begin := fun _ => mem_tx; db_commit := mem_tx;
  db_rollback := mem_rollback |}.

#[export] Instance MemDb_engine : DbEngine MemDb.
Proof.
  refine {| engine_ops := MemDb_ops; available := mem_available |}; cbn; unfold mem_available.
  - intros A s d d' a H. unfold mem_exec, mem_fault in H. repeat case_match; simplify_eq/=.
    eapply run_stmt_spec; eauto.
  - intros A s d d' e H. unfold mem_exec, mem_fault in H. by repeat case_match; simplify_eq/=.
  - done.
  - done.
  - done.
  - intros A s d Hav. unfold mem_exec, mem_fault.
    assert (Hd : default false (head (mem_faults d)) = false /\ Forall (eq false) (tail (mem_faults d))).
    { destruct Hav; simpl; by subst. }
    destruct Hd as [-> Ht]. destruct (run_stmt _ _ _) as [[t' a]|] eqn:E; simpl; split; auto.
    intros Hen. destruct (run_stmt_enabled s (mem_clock d) _ Hen). congruence.
  - intros m d Hav. unfold mem_tx, mem_fault. by destruct Hav; simplify_eq/=.
  - intros d Hav. unfold mem_tx, mem_fault. by destruct Hav; simplify_eq/=.
  - done.
Defined.

(** ** Reasoning about statements *)

Lemma keep_Some `{Countable K} {R} (p : R -> bool) (m : gmap K R) k r :
  keep p m !! k = Some r <-> m !! k = Some r /\ p r = true.
Proof. unfold keep. by rewrite map_lookup_filter_Some. Qed.

Lemma keep_subseteq `{Countable K} {R} (p : R -> bool) (m : gmap K R) : keep p m ⊆ m.
Proof. apply map_filter_subseteq. Qed.

Lemma elem_of_rows `{Countable K} {R} (m : gmap K R) r :
  r ∈ rows m <-> exists k, m !! k = Some r.
Proof.
  unfold rows. rewrite list_elem_of_fmap. split.
  - intros [[k x] [-> Hx]]. exists k. by apply elem_of_map_to_list.
  - intros [k Hk]. exists (k, r). split; [done|]. by apply elem_of_map_to_list.
Qed.

(** Take the next statement of the goal to its two outcomes, each with what the
    interface says about it. *)
Ltac exec_step :=
  match goal with
  | |- context [exec ?s ?d] =>
      let d' := fresh "d" in let r := fresh "r" in let E := fresh "E" in
      destruct (exec s d) as [d' [r|r]] eqn:E;
      [apply exec_ok in E | apply exec_err in E]; cbn [stmt_spec] in E
  end.

(** The statement at hand, on an available engine. *)
Ltac exec_on Hav :=
  match goal with
  | |- context [exec ?s ?d] =>
      let d' := fresh "d" in let r := fresh "r" in let E := fresh "E" in
      let Ha := fresh "Ha" in let Hen := fresh "Hen" in
      pose proof (exec_available s d Hav) as [Ha Hen];
      destruct (exec s d) as [d' [r|r]] eqn:E;
      [apply exec_ok in E | apply exec_err in E]; cbn [stmt_spec fst snd is_ok enabled] in *
  end.

Section Statements.
Context `{DbEngine D}.

Lemma evolves_exec (R : Tables -> Tables -> Prop) `{!Reflexive R} {A} (s : stmt A) :
  (forall t a t', stmt_spec s t a t' -> R t t') -> evolves view R (exec s).
Proof.
  intros Hs d. destruct (exec s d) as [d' [a|e]] eqn:E; simpl.
  - apply exec_ok in E. eauto.
  - apply exec_err in E. by rewrite E.
Qed.

(** While the engine is available, an enabled statement succeeds and keeps it
    available. *)
Lemma exec_enabled {A} (s : stmt A) d :
  available d -> enabled s (view d) ->
  exists d' a, exec s d = (d', Ok a) /\ available d' /\ stmt_spec s (view d) a (view d').
Proof.
  intros Hav Hen. destruct (exec_available s d Hav) as [Hav' Hok]. specialize (Hok Hen).
  destruct (exec s d) as [d' [a|e]] eqn:E; [|done].
  exists d', a. split_and!; eauto using exec_ok.
Qed.
End Statements.

(** ** Well-formed tables

    Every row is stored under its own key, and the unique triple of the records
    holds. *)
Definition keyed `{Countable K} {R} (key : R -> K) (m : gmap K R) : Prop :=
  forall k r, m !! k = Some r -> key r = k.

Definition unique_triples (m : gmap N Record_) : Prop :=
  forall k1 k2 r1 r2, m !! k1 = Some r1 -> m !! k2 = Some r2 ->
  same_triple (rec_domain_id r1) (rec_record_type r1) (rec_value r1) r2 = true -> k1 = k2.

Record wf_tables (t : Tables) : Prop := {
  wf_domains : keyed dom_id (t_domains t);
  wf_mailboxes : keyed mb_id (t_mailboxes t);
  wf_records : keyed rec_id (t_records t);
  wf_messages : keyed msg_id (t_messages t);
  wf_inbound : keyed in_id (t_inbound t);
  wf_outbound : keyed out_id (t_outbound t);
  wf_delivery : keyed ds_id (t_delivery t);
  wf_unique : unique_triples (t_records t);
}.

Lemma same_triple_spec dom rt v r :
  same_triple dom rt v r = true <->
  rec_domain_id r = dom /\ rec_record_type r = rt /\ rec_value r = v.
Proof.
  unfold same_triple. rewrite !andb_true_iff, !String.eqb_eq, bool_decide_eq_true. tauto.
Qed.

Section Keyed.
Context `{Countable K} {R : Type} (key : R -> K).

Lemma keyed_empty : keyed key (∅ : gmap K R).
Proof. intros k r Hk. by rewrite lookup_empty in Hk. Qed.

Lemma keyed_insert (m : gmap K R) k r : key r = k -> keyed key m -> keyed key (<[k := r]> m).
Proof. intros Hr Hm k' r' Hk. apply lookup_insert_Some in Hk as [[-> <-]|[_ Hk]]; auto. Qed.

Lemma keyed_alter (m : gmap K R) f k :
  (forall r, key (f r) = key r) -> keyed key m -> keyed key (alter f k m).
Proof.
  intros Hf Hm k' r' Hk. apply lookup_alter_Some in Hk as [(-> & x & Hx & ->)|[_ Hk]]; auto.
  rewrite Hf. auto.
Qed.

Lemma keyed_sub (m m' : gmap K R) : m' ⊆ m -> keyed key m -> keyed key m'.
Proof. intros Hs Hm k r Hk. eapply Hm, lookup_weaken; eauto. Qed.

Lemma keyed_keep (m : gmap K R) p : keyed key m -> keyed key (keep p m).
Proof. apply keyed_sub, keep_subseteq. Qed.

Lemma keyed_delete (m : gmap K R) k : keyed key m -> keyed key (delete k m).
Proof. apply keyed_sub, delete_subseteq. Qed.
End Keyed.

Create HintDb wf.
#[export] Hint Resolve keyed_empty keyed_insert keyed_alter keyed_keep keyed_delete : wf.

Lemma unique_sub m m' : m' ⊆ m -> unique_triples m -> unique_triples m'.
Proof. intros Hs Hm k1 k2 r1 r2 H1 H2. eapply Hm; eapply lookup_weaken; eauto. Qed.

(** Writing a row whose triple no other row has keeps the triples unique. *)
Lemma unique_write t id r :
  ~ conflicting id (rec_domain_id r) (rec_record_type r) (rec_value r) t ->
  unique_triples (t_records t) -> unique_triples (<[id := r]> (t_records t)).
Proof.
  intros Hc Hm k1 k2 r1 r2 H1 H2 Hs. apply same_triple_spec in Hs as (E1 & E2 & E3).
  apply lookup_insert_Some in H1 as [[-> <-]|[N1 H1]];
    apply lookup_insert_Some in H2 as [[-> <-]|[N2 H2]]; [done|..].
  - destruct Hc. exists k2, r2. by rewrite same_triple_spec.
  - destruct Hc. exists k1, r1. by rewrite same_triple_spec.
  - eapply Hm; eauto. by apply same_triple_spec.
Qed.

Lemma unique_keep m p : unique_triples m -> unique_triples (keep p m).
Proof. apply unique_sub, keep_subseteq. Qed.

Lemma unique_delete m k : unique_triples m -> unique_triples (delete k m).
Proof. apply unique_sub, delete_subseteq. Qed.

Lemma unique_alter t id dom rt v ttl ts :
  ~ conflicting id dom rt v t -> unique_triples (t_records t) ->
  unique_triples (alter (update_record_row dom rt v ttl ts) id (t_records t)).
Proof.
  intros Hc Hm. destruct (t_records t !! id) as [r|] eqn:E.
  - rewrite (alter_alt_Some _ _ _ _ E). by apply unique_write.
  - by rewrite alter_id by (intros ? ?; congruence).
Qed.

#[export] Hint Resolve unique_keep unique_delete unique_alter unique_write : wf.

Lemma wf_empty : wf_tables empty_tables.
Proof. split; simpl; auto with wf. intros k1 k2 r1 r2 Hk. by rewrite lookup_empty in Hk. Qed.

(** Every statement keeps the tables well-formed. *)
Lemma stmt_wf {A} (s : stmt A) t a t' : stmt_spec s t a t' -> wf_tables t -> wf_tables t'.
Proof.
  intros Hs [W1 W2 W3 W4 W5 W6 W7 WU].
  destruct s; simpl in Hs;
    repeat match goal with
           | H : exists _, _ |- _ => destruct H as [? H]
           | H : _ /\ _ |- _ => destruct H
           end; subst; split; simpl; auto with wf.
Qed.

(** Hence every computation made of statements does. *)
Lemma wf_exec `{DbEngine D} {A} (s : stmt A) : evolves view (kept wf_tables) (exec s).
Proof. apply evolves_exec; [typeclasses eauto|]. intros t a t' Hs W. by eapply stmt_wf. Qed.

#[export] Hint Resolve wf_exec : zm.
