(* ===== verification/Config.v ===== *)
(** * Config: configuration (src/src/config.rs)

    The configuration records, their defaults and the decisions derived from
    them: the boot mode, the inbound TLS identity, the outbound relay and its
    credentials, the key source of the authenticator.  The process environment,
    the file system, [native_tls] and the parser of socket addresses are
    arguments of the definitions that consult them.  [BootMode] of
    src/src/services.rs is declared here because [Config] has a field of that
    type. *)

From S2P Require Import Prelude Text Db.
From Stdlib Require Import Ascii String.
#[local] Open Scope string_scope.

(** ** JSON values ([serde_json::Value]); an object in insertion order *)
Inductive Json : Type :=
| JNull
| JBool (b : bool)
| JNumber (repr : string)
| JString (s : string)
| JArray (l : list Json)
| JObject (fields : list (string * Json)).

(** [Value::as_str]. *)
Definition json_as_str (v : Json) : option string :=
  match v with JString s => Some s | _ => None end.

(** [Value::as_array]. *)
Definition json_as_array (v : Json) : option (list Json) :=
  match v with JArray l => Some l | _ => None end.

(** [Value::get] with a string index. *)
Definition json_get (key : string) (v : Json) : option Json :=
  match v with
  | JObject fields => snd <$> find (fun kv => String.eqb (fst kv) key) fields
  | _ => None
  end.

(** ** Mailbox entries *)

Inductive MailboxEntry : Type :=
| Simple (s : string)
| Detailed (id : string) (forward_to : option string).

Definition entry_address (e : MailboxEntry) : string :=
  match e with Simple s => s | Detailed id _ => id end.

Definition entry_forward_to (e : MailboxEntry) : option string :=
  match e with Simple _ => None | Detailed _ forward_to => forward_to end.

(** ** Boot modes *)

Inductive BootMode : Type := ModeFull | ModeApi | ModeSmtp | ModeDns | ModeOff.

#[export] Instance BootMode_eq_dec : EqDecision BootMode.
Proof. solve_decision. Defined.

(** [#[default]]. *)
Definition BootMode_default : BootMode := ModeFull.

(** ** Roles and keys *)

Record RoleConfig : Type := mkRoleConfig {
  grants : list string;
  extends : list string;
}.

Inductive KeysKind : Type := KindSecret | KindJwks | KindJwksRemote | KindIssuer.

#[export] Instance KeysKind_eq_dec : EqDecision KeysKind.
Proof. solve_decision. Defined.

(** [impl FromStr for KeysKind]. *)
Definition KeysKind_from_str (s : string) : result KeysKind string :=
  let other := to_ascii_lowercase (trim s) in
  if String.eqb other "secret" then Ok KindSecret
  else if String.eqb other "jwks" then Ok KindJwks
  else if String.eqb other "jwks_remote" || String.eqb other "remote" then Ok KindJwksRemote
  else if String.eqb other "issuer" || String.eqb other "oidc" then Ok KindIssuer
  else Err ("unknown auth keys.kind '" +:+ other
            +:+ "'; expected one of secret|jwks|jwks_remote|issuer").

Record KeyConfig : Type := mkKeyConfig {
  kc_kind : KeysKind;
  kc_secret : option string;
  kc_secret_b64 : option string;
  kc_secret_env : option string;
  kc_jwks : option Json;
  kc_jwks_url : option string;
  kc_issuer : option string;
  kc_discovery_path : option string;
  kc_jwks_path : option string;
  kc_janux_token : option string;
  kc_janux_auth_header : option string;
  kc_janux_bearer : bool;
  kc_refresh_interval_secs : N;
  kc_cache_ttl_secs : N;
  kc_fail_closed : bool;
  kc_algorithms : list string;
}.

Definition default_algorithms (kc : KeyConfig) : list string :=
  match kc_kind kc with
  | KindSecret => ["HS256"]
  | _ => ["RS256"; "ES256"]
  end.

Definition DEFAULT_JANUX_BEARER : bool := true.
Definition DEFAULT_CACHE_TTL_SECS : N := 300.
Definition DEFAULT_REFRESH_INTERVAL_SECS : N := 300.
Definition DEFAULT_FAIL_CLOSED : bool := true.

Definition KeyConfig_default : KeyConfig :=
  {| kc_kind := KindSecret; kc_secret := None; kc_secret_b64 := None; kc_secret_env := None;
     kc_jwks := None; kc_jwks_url := None; kc_issuer := None; kc_discovery_path := None;
     kc_jwks_path := None; kc_janux_token := None; kc_janux_auth_header := None;
     kc_janux_bearer := DEFAULT_JANUX_BEARER;
     kc_refresh_interval_secs := DEFAULT_REFRESH_INTERVAL_SECS;
     kc_cache_ttl_secs := DEFAULT_CACHE_TTL_SECS;
     kc_fail_closed := DEFAULT_FAIL_CLOSED; kc_algorithms := [] |}.

(** [auth.roles] is a [HashMap]: a map, whose iteration order is unspecified. *)
Record AuthConfig : Type := mkAuthConfig {
  ac_enabled : bool;
  ac_issuer : option string;
  ac_audience : list string;
  ac_clock_skew_secs : N;
  ac_subject_claim : string;
  ac_role_claims : list string;
  ac_public : list string;
  ac_keys : KeyConfig;
  ac_roles : gmap string RoleConfig;
}.

Inductive OneOrManyStrings : Type := Single (s : string) | Many (v : list string).

(** [deserialize_audience], after serde picked the untagged variant. *)
Definition deserialize_audience (o : OneOrManyStrings) : list string :=
  match o with Single s => [s] | Many v => v end.

Definition default_public : list string := ["health"; "doc"].

Definition AuthConfig_default : AuthConfig :=
  {| ac_enabled := false; ac_issuer := None; ac_audience := []; ac_clock_skew_secs := 30;
     ac_subject_claim := "sub"; ac_role_claims := ["role"]; ac_public := default_public;
     ac_keys := KeyConfig_default; ac_roles := ∅ |}.

(** ** Inbound TLS *)

Inductive StartTlsMode : Type := StartTlsNone | StartTlsOptional | StartTlsRequired.

#[export] Instance StartTlsMode_eq_dec : EqDecision StartTlsMode.
Proof. solve_decision. Defined.

Inductive CertSource : Type :=
| CertFiles (cert_path key_path : string)
| CertAcme (acme_server account_key_path dns_domain : option string).

Record SmtpTlsConfig : Type := mkSmtpTlsConfig {
  st_mode : StartTlsMode;
  st_smtps_port : N;
  st_cert_source : option CertSource;
}.

Definition SmtpTlsConfig_default : SmtpTlsConfig := mkSmtpTlsConfig StartTlsNone 0 None.

Definition needs_cert (t : SmtpTlsConfig) : bool :=
  negb (bool_decide (st_mode t = StartTlsNone)) || negb (N.eqb (st_smtps_port t) 0).

Definition smtps_enabled (t : SmtpTlsConfig) : bool := negb (N.eqb (st_smtps_port t) 0).

(** [Display] of an unsigned integer. *)
Definition show_N (n : N) : string := pretty.pretty n.

(** [str::parse::<SocketAddr>]. *)
Class SocketAddrs := {
  SocketAddr : Type;
  parse_socket_addr : string -> result SocketAddr string;
}.

Section Addresses.
Context `{!SocketAddrs}.

Definition smtps_addr (t : SmtpTlsConfig) (host : string) : option SocketAddr :=
  if negb (smtps_enabled t) then None
  else ok (parse_socket_addr (host +:+ ":" +:+ show_N (st_smtps_port t))).
End Addresses.

(** [std::fs::read] and [native_tls::Identity::from_pkcs8]. *)
Class TlsFiles := {
  Identity : Type;
  read_file : string -> result bytes string;
  from_pkcs8 : bytes -> bytes -> result Identity string;
}.

Section TlsIdentity.
Context `{!TlsFiles}.

(** [SmtpTlsConfig::identity]. *)
Definition identity (t : SmtpTlsConfig) : result (option Identity) string :=
  match st_cert_source t with
  | Some (CertAcme _ _ _) =>
      Err "smtp_tls cert_source 'acme' is not yet implemented; ACME/DNS-01 issuance is a planned feature"
  | cert_source =>
      if negb (needs_cert t) then Ok None else
      match cert_source with
      | None =>
          Err "smtp_tls requires a `cert_source` when `mode` is not `none` or `smtps_port` is non-zero"
      | Some (CertAcme _ _ _) => Err "smtp_tls cert_source 'acme' is not yet implemented"
      | Some (CertFiles cert_path key_path) =>
          match read_file cert_path with
          | Err e => Err ("failed to read smtp_tls cert '" +:+ cert_path +:+ "': " +:+ e)
          | Ok cert =>
              match read_file key_path with
              | Err e => Err ("failed to read smtp_tls key '" +:+ key_path +:+ "': " +:+ e)
              | Ok key =>
                  match from_pkcs8 cert key with
                  | Ok id => Ok (Some id)
                  | Err e => Err ("failed to build TLS identity from '" +:+ cert_path +:+ "'/'"
                                  +:+ key_path +:+ "': " +:+ e +:+ " (key must be PKCS#8 PEM)")
                  end
              end
          end
      end
  end.
End TlsIdentity.

(** ** Outbound transport *)

Inductive OutboundTlsMode : Type := TlsPlain | TlsOpportunistic | TlsRequired | TlsImplicit.

#[export] Instance OutboundTlsMode_eq_dec : EqDecision OutboundTlsMode.
Proof. solve_decision. Defined.

Record OutboundRelay : Type := mkOutboundRelay {
  relay_host : option string;
  relay_port : N;
  relay_user : option string;
  relay_password : option string;
  relay_password_env : option string;
}.

Definition is_configured (r : OutboundRelay) : bool :=
  match relay_host r with Some _ => true | None => false end.

(** [OutboundRelay::credentials]; [env] is [std::env::var(..).ok()]. *)
Definition credentials (env : string -> option string) (r : OutboundRelay)
  : option (string * string) :=
  match relay_user r with
  | None => None
  | Some user =>
      match (match relay_password_env r with
             | Some var => env var
             | None => relay_password r
             end) with
      | None => None
      | Some pass => Some (user, pass)
      end
  end.

Record OutboundTransport : Type := mkOutboundTransport {
  ot_tls : OutboundTlsMode;
  ot_relay : option OutboundRelay;
  ot_insecure : bool;
}.

Definition OutboundTransport_default : OutboundTransport := mkOutboundTransport TlsPlain None false.

Definition tls_enabled (t : OutboundTransport) : bool := negb (bool_decide (ot_tls t = TlsPlain)).

Definition relay_configured (t : OutboundTransport) : bool :=
  match ot_relay t with Some r => is_configured r | None => false end.

(** ** The configuration *)

Record Config : Type := mkConfig {
  cfg_host : string;
  cfg_dns : N;
  cfg_smtp : N;
  cfg_api : N;
  cfg_database_url : string;
  cfg_domains : list string;
  cfg_records : list RecordDTO;
  cfg_mailboxes : list MailboxEntry;
  cfg_mode : option BootMode;
  cfg_auth : AuthConfig;
  cfg_smtp_tls : SmtpTlsConfig;
  cfg_outbound : OutboundTransport;
}.

Definition Config_default : Config :=
  {| cfg_host := "0.0.0.0"; cfg_dns := 53; cfg_smtp := 25; cfg_api := 8081;
     cfg_database_url := "turso:zonemail.db"; cfg_domains := []; cfg_records := [];
     cfg_mailboxes := []; cfg_mode := None; cfg_auth := AuthConfig_default;
     cfg_smtp_tls := SmtpTlsConfig_default; cfg_outbound := OutboundTransport_default |}.

Definition resolved_mode (c : Config) : BootMode := unwrap_or BootMode_default (cfg_mode c).

Section ConfigAddresses.
Context `{!SocketAddrs}.

Definition api_addr (c : Config) : result SocketAddr string :=
  parse_socket_addr (cfg_host c +:+ ":" +:+ show_N (cfg_api c)).
Definition smtp_addr (c : Config) : result SocketAddr string :=
  parse_socket_addr (cfg_host c +:+ ":" +:+ show_N (cfg_smtp c)).
Definition dns_addr (c : Config) : result SocketAddr string :=
  parse_socket_addr (cfg_host c +:+ ":" +:+ show_N (cfg_dns c)).
End ConfigAddresses.
