(* ===== verification/ConfigSerde.v ===== *)
(** * ConfigSerde: reading and writing a configuration (src/src/config.rs)

    What serde derives from the attributes of the configuration types: the names
    of the fields and variants, which fields default and to what, the untagged and
    tagged enums; and [Config::load].  How a format presents scalars, structs and
    tagged values is the class [Format] ([serde_json] and the [config] crate read
    them differently). *)

From S2P Require Import Prelude Text Db Config.
From Stdlib Require Import Ascii String.
#[local] Open Scope string_scope.

Definition u16_modulus : N := 2 ^ 16.
Definition u32_modulus : N := 2 ^ 32.

(** ** Formats *)

Class Format := {
  de_string : Json -> option string;
  de_bool : Json -> option bool;
  de_u16 : Json -> option N;
  de_u32 : Json -> option N;
  de_u64 : Json -> option N;
  de_variant : Json -> option string;
  de_struct : list string -> Json -> option (string -> option Json);
  de_tagged : string -> Json -> option (string * Json);
  fmt_string : forall s, de_string (JString s) = Some s;
  fmt_bool : forall b, de_bool (JBool b) = Some b;
  fmt_u16 : forall n, (n < u16_modulus)%N -> de_u16 (JNumber (show_N n)) = Some n;
  fmt_u32 : forall n, (n < u32_modulus)%N -> de_u32 (JNumber (show_N n)) = Some n;
  fmt_u64 : forall n, (n < u64_modulus)%N -> de_u64 (JNumber (show_N n)) = Some n;
  fmt_variant : forall s, de_variant (JString s) = Some s;
  fmt_struct : forall names fields, exists get,
    de_struct names (JObject fields) = Some get /\
    forall name, get name = json_get name (JObject fields);
  fmt_tagged : forall tag fields t, json_get tag (JObject fields) = Some (JString t) ->
    de_tagged tag (JObject fields) = Some (t, JObject fields);
  fmt_not_string : forall fields, de_string (JObject fields) = None;
  fmt_array_not_string : forall l, de_string (JArray l) = None;
}.

(** [None] and [Some] of an [Option]; a [Vec]; a [HashMap] with [String] keys. *)
Definition de_option {A} (de : Json -> option A) (v : Json) : option (option A) :=
  match v with JNull => Some None | _ => Some <$> de v end.

Definition de_vec {A} (de : Json -> option A) (v : Json) : option (list A) :=
  match v with JArray l => mapM de l | _ => None end.

Definition de_map {A} (de : Json -> option A) (v : Json) : option (gmap string A) :=
  match v with
  | JObject fields =>
      foldl (fun acc kv => m ← acc; x ← de (snd kv); Some (<[fst kv := x]> m)) (Some ∅) fields
  | _ => None
  end.

(** A field with a default, and one without. *)
Definition field_or {A} (default : A) (de : Json -> option A) (v : option Json) : option A :=
  match v with None => Some default | Some v => de v end.
Definition field {A} (de : Json -> option A) (v : option Json) : option A := v ≫= de.

(** ** Reading *)

Section Deserialize.
Context `{!Format}.

(** [#[serde(untagged)]]: the first variant that reads. *)
Definition MailboxEntry_de (v : Json) : option MailboxEntry :=
  match de_string v with
  | Some s => Some (Simple s)
  | None =>
      get ← de_struct ["id"; "forward_to"] v;
      id ← field de_string (get "id");
      forward_to ← field_or None (de_option de_string) (get "forward_to");
      Some (Detailed id forward_to)
  end.

(** [rename_all = kebab-case]. *)
Definition BootMode_de (v : Json) : option BootMode :=
  s ← de_variant v;
  if String.eqb s "full" then Some ModeFull
  else if String.eqb s "api" then Some ModeApi
  else if String.eqb s "smtp" then Some ModeSmtp
  else if String.eqb s "dns" then Some ModeDns
  else if String.eqb s "off" then Some ModeOff
  else None.

(** No rename: the variants' own names. *)
Definition RecordType_de (v : Json) : option RecordType := de_variant v ≫= RecordType_of_name.

Definition RecordDTO_de (v : Json) : option RecordDTO :=
  get ← de_struct ["domain_id"; "record_type"; "value"; "ttl"] v;
  domain_id ← field de_string (get "domain_id");
  record_type ← field RecordType_de (get "record_type");
  value ← field de_string (get "value");
  ttl ← field de_u32 (get "ttl");
  Some (mkRecordDTO domain_id record_type value ttl).

(** [OneOrManyStrings], untagged. *)
Definition OneOrManyStrings_de (v : Json) : option OneOrManyStrings :=
  match de_string v with
  | Some s => Some (Single s)
  | None => Many <$> de_vec de_string v
  end.

Definition RoleConfig_default : RoleConfig := mkRoleConfig [] [].

Definition RoleConfig_de (v : Json) : option RoleConfig :=
  get ← de_struct ["grants"; "extends"] v;
  grants ← field_or (grants RoleConfig_default) (de_vec de_string) (get "grants");
  extends ← field_or (extends RoleConfig_default) (de_vec de_string) (get "extends");
  Some (mkRoleConfig grants extends).

(** [rename_all = snake_case]. *)
Definition KeysKind_de (v : Json) : option KeysKind :=
  s ← de_variant v;
  if String.eqb s "secret" then Some KindSecret
  else if String.eqb s "jwks" then Some KindJwks
  else if String.eqb s "jwks_remote" then Some KindJwksRemote
  else if String.eqb s "issuer" then Some KindIssuer
  else None.

Definition KeyConfig_fields : list string :=
  ["kind"; "secret"; "secret_b64"; "secret_env"; "jwks"; "jwks_url"; "issuer"; "discovery_path"; "jwks_path";
   "janux_token"; "janux_auth_header"; "janux_bearer"; "refresh_interval_secs"; "cache_ttl_secs"; "fail_closed";
   "algorithms"].

Definition KeyConfig_de (v : Json) : option KeyConfig :=
  let d := KeyConfig_default in
  get ← de_struct KeyConfig_fields v;
  kind ← field_or (kc_kind d) KeysKind_de (get "kind");
  secret ← field_or (kc_secret d) (de_option de_string) (get "secret");
  secret_b64 ← field_or (kc_secret_b64 d) (de_option de_string) (get "secret_b64");
  secret_env ← field_or (kc_secret_env d) (de_option de_string) (get "secret_env");
  jwks ← field_or (kc_jwks d) (de_option Some) (get "jwks");
  jwks_url ← field_or (kc_jwks_url d) (de_option de_string) (get "jwks_url");
  issuer ← field_or (kc_issuer d) (de_option de_string) (get "issuer");
  discovery_path ← field_or (kc_discovery_path d) (de_option de_string) (get "discovery_path");
  jwks_path ← field_or (kc_jwks_path d) (de_option de_string) (get "jwks_path");
  janux_token ← field_or (kc_janux_token d) (de_option de_string) (get "janux_token");
  janux_auth_header ← field_or (kc_janux_auth_header d) (de_option de_string) (get "janux_auth_header");
  janux_bearer ← field_or DEFAULT_JANUX_BEARER de_bool (get "janux_bearer");
  refresh ← field_or DEFAULT_REFRESH_INTERVAL_SECS de_u64 (get "refresh_interval_secs");
  ttl ← field_or DEFAULT_CACHE_TTL_SECS de_u64 (get "cache_ttl_secs");
  fail_closed ← field_or DEFAULT_FAIL_CLOSED de_bool (get "fail_closed");
  algorithms ← field_or (kc_algorithms d) (de_vec de_string) (get "algorithms");
  Some (mkKeyConfig kind secret secret_b64 secret_env jwks jwks_url issuer discovery_path jwks_path janux_token
          janux_auth_header janux_bearer refresh ttl fail_closed algorithms).

Definition AuthConfig_fields : list string :=
  ["enabled"; "issuer"; "audience"; "clock_skew_secs"; "subject_claim"; "role_claims"; "public"; "keys"; "roles"].

(** [audience] has a default of its own, the empty vector. *)
Definition AuthConfig_de (v : Json) : option AuthConfig :=
  let d := AuthConfig_default in
  get ← de_struct AuthConfig_fields v;
  enabled ← field_or (ac_enabled d) de_bool (get "enabled");
  issuer ← field_or (ac_issuer d) (de_option de_string) (get "issuer");
  audience ← field_or [] (fun v => deserialize_audience <$> OneOrManyStrings_de v) (get "audience");
  skew ← field_or (ac_clock_skew_secs d) de_u64 (get "clock_skew_secs");
  subject ← field_or (ac_subject_claim d) de_string (get "subject_claim");
  role_claims ← field_or (ac_role_claims d) (de_vec de_string) (get "role_claims");
  public ← field_or (ac_public d) (de_vec de_string) (get "public");
  keys ← field_or (ac_keys d) KeyConfig_de (get "keys");
  roles ← field_or (ac_roles d) (de_map RoleConfig_de) (get "roles");
  Some (mkAuthConfig enabled issuer audience skew subject role_claims public keys roles).

Definition StartTlsMode_de (v : Json) : option StartTlsMode :=
  s ← de_variant v;
  if String.eqb s "none" then Some StartTlsNone
  else if String.eqb s "optional" then Some StartTlsOptional
  else if String.eqb s "required" then Some StartTlsRequired
  else None.

(** [tag = kind], [rename_all = snake_case]. *)
Definition CertSource_de (v : Json) : option CertSource :=
  '(kind, content) ← de_tagged "kind" v;
  if String.eqb kind "files" then
    get ← de_struct ["cert_path"; "key_path"] content;
    cert_path ← field de_string (get "cert_path");
    key_path ← field de_string (get "key_path");
    Some (CertFiles cert_path key_path)
  else if String.eqb kind "acme" then
    get ← de_struct ["acme_server"; "account_key_path"; "dns_domain"] content;
    acme_server ← field_or None (de_option de_string) (get "acme_server");
    account_key_path ← field_or None (de_option de_string) (get "account_key_path");
    dns_domain ← field_or None (de_option de_string) (get "dns_domain");
    Some (CertAcme acme_server account_key_path dns_domain)
  else None.

Definition SmtpTlsConfig_de (v : Json) : option SmtpTlsConfig :=
  let d := SmtpTlsConfig_default in
  get ← de_struct ["mode"; "smtps_port"; "cert_source"] v;
  mode ← field_or (st_mode d) StartTlsMode_de (get "mode");
  smtps_port ← field_or (st_smtps_port d) de_u16 (get "smtps_port");
  cert_source ← field_or (st_cert_source d) (de_option CertSource_de) (get "cert_source");
  Some (mkSmtpTlsConfig mode smtps_port cert_source).

Definition OutboundTlsMode_de (v : Json) : option OutboundTlsMode :=
  s ← de_variant v;
  if String.eqb s "plain" then Some TlsPlain
  else if String.eqb s "opportunistic" then Some TlsOpportunistic
  else if String.eqb s "required" then Some TlsRequired
  else if String.eqb s "implicit" then Some TlsImplicit
  else None.

Definition OutboundRelay_de (v : Json) : option OutboundRelay :=
  get ← de_struct ["host"; "port"; "user"; "password"; "password_env"] v;
  host ← field_or None (de_option de_string) (get "host");
  port ← field_or 0%N de_u16 (get "port");
  user ← field_or None (de_option de_string) (get "user");
  password ← field_or None (de_option de_string) (get "password");
  password_env ← field_or None (de_option de_string) (get "password_env");
  Some (mkOutboundRelay host port user password password_env).

Definition OutboundTransport_de (v : Json) : option OutboundTransport :=
  get ← de_struct ["tls"; "relay"; "insecure"] v;
  tls ← field_or TlsPlain OutboundTlsMode_de (get "tls");
  relay ← field_or None (de_option OutboundRelay_de) (get "relay");
  insecure ← field_or false de_bool (get "insecure");
  Some (mkOutboundTransport tls relay insecure).

Definition Config_fields : list string :=
  ["host"; "dns"; "smtp"; "api"; "database_url"; "domains"; "records"; "mailboxes"; "mode"; "auth"; "smtp_tls";
   "outbound"].

(** The container defaults to [Config::default()]; the last four fields to their
    types' defaults. *)
Definition Config_de (v : Json) : option Config :=
  let d := Config_default in
  get ← de_struct Config_fields v;
  host ← field_or (cfg_host d) de_string (get "host");
  dns ← field_or (cfg_dns d) de_u16 (get "dns");
  smtp ← field_or (cfg_smtp d) de_u16 (get "smtp");
  api ← field_or (cfg_api d) de_u16 (get "api");
  database_url ← field_or (cfg_database_url d) de_string (get "database_url");
  domains ← field_or (cfg_domains d) (de_vec de_string) (get "domains");
  records ← field_or (cfg_records d) (de_vec RecordDTO_de) (get "records");
  mailboxes ← field_or (cfg_mailboxes d) (de_vec MailboxEntry_de) (get "mailboxes");
  mode ← field_or None (de_option BootMode_de) (get "mode");
  auth ← field_or AuthConfig_default AuthConfig_de (get "auth");
  smtp_tls ← field_or SmtpTlsConfig_default SmtpTlsConfig_de (get "smtp_tls");
  outbound ← field_or OutboundTransport_default OutboundTransport_de (get "outbound");
  Some (mkConfig host dns smtp api database_url domains records mailboxes mode auth smtp_tls outbound).

(** [Config::load]: the sources as [builder.build] merges them, then
    [try_deserialize]. *)
Definition Config_load (built : result Json string) : result Config string :=
  match built with
  | Err e => Err e
  | Ok settings =>
      match Config_de settings with
      | Some cfg => Ok cfg
      | None => Err "configuration does not deserialize"
      end
  end.
End Deserialize.

(** ** Writing *)

Definition ser_option {A} (ser : A -> Json) (o : option A) : Json :=
  match o with Some x => ser x | None => JNull end.
Definition ser_vec {A} (ser : A -> Json) (l : list A) : Json := JArray (map ser l).
Definition ser_num (n : N) : Json := JNumber (show_N n).

Definition MailboxEntry_ser (e : MailboxEntry) : Json :=
  match e with
  | Simple s => JString s
  | Detailed id forward_to => JObject [("id", JString id); ("forward_to", ser_option JString forward_to)]
  end.

Definition BootMode_ser (m : BootMode) : Json :=
  JString match m with
          | ModeFull => "full" | ModeApi => "api" | ModeSmtp => "smtp" | ModeDns => "dns" | ModeOff => "off"
          end.

Definition RecordType_ser (rt : RecordType) : Json := JString (RecordType_name rt).

Definition RecordDTO_ser (r : RecordDTO) : Json :=
  JObject [("domain_id", JString (dto_domain_id r)); ("record_type", RecordType_ser (dto_record_type r));
           ("value", JString (dto_value r)); ("ttl", ser_num (dto_ttl r))].

Definition RoleConfig_ser (r : RoleConfig) : Json :=
  JObject [("grants", ser_vec JString (grants r)); ("extends", ser_vec JString (extends r))].

Definition KeysKind_ser (k : KeysKind) : Json :=
  JString match k with
          | KindSecret => "secret" | KindJwks => "jwks" | KindJwksRemote => "jwks_remote" | KindIssuer => "issuer"
          end.

Definition KeyConfig_ser (k : KeyConfig) : Json :=
  JObject [("kind", KeysKind_ser (kc_kind k)); ("secret", ser_option JString (kc_secret k));
           ("secret_b64", ser_option JString (kc_secret_b64 k)); ("secret_env", ser_option JString (kc_secret_env k));
           ("jwks", ser_option id (kc_jwks k)); ("jwks_url", ser_option JString (kc_jwks_url k));
           ("issuer", ser_option JString (kc_issuer k));
           ("discovery_path", ser_option JString (kc_discovery_path k));
           ("jwks_path", ser_option JString (kc_jwks_path k)); ("janux_token", ser_option JString (kc_janux_token k));
           ("janux_auth_header", ser_option JString (kc_janux_auth_header k));
           ("janux_bearer", JBool (kc_janux_bearer k));
           ("refresh_interval_secs", ser_num (kc_refresh_interval_secs k));
           ("cache_ttl_secs", ser_num (kc_cache_ttl_secs k)); ("fail_closed", JBool (kc_fail_closed k));
           ("algorithms", ser_vec JString (kc_algorithms k))].

(** The map in the iteration order of the run. *)
Definition AuthConfig_ser (a : AuthConfig) : Json :=
  JObject [("enabled", JBool (ac_enabled a)); ("issuer", ser_option JString (ac_issuer a));
           ("audience", ser_vec JString (ac_audience a)); ("clock_skew_secs", ser_num (ac_clock_skew_secs a));
           ("subject_claim", JString (ac_subject_claim a)); ("role_claims", ser_vec JString (ac_role_claims a));
           ("public", ser_vec JString (ac_public a)); ("keys", KeyConfig_ser (ac_keys a));
           ("roles", JObject (map (fun kr => (fst kr, RoleConfig_ser (snd kr))) (map_to_list (ac_roles a))))].

Definition StartTlsMode_ser (m : StartTlsMode) : Json :=
  JString match m with StartTlsNone => "none" | StartTlsOptional => "optional" | StartTlsRequired => "required" end.

Definition CertSource_ser (c : CertSource) : Json :=
  match c with
  | CertFiles cert_path key_path =>
      JObject [("kind", JString "files"); ("cert_path", JString cert_path); ("key_path", JString key_path)]
  | CertAcme acme_server account_key_path dns_domain =>
      JObject [("kind", JString "acme"); ("acme_server", ser_option JString acme_server);
               ("account_key_path", ser_option JString account_key_path); ("dns_domain", ser_option JString dns_domain)]
  end.

Definition SmtpTlsConfig_ser (t : SmtpTlsConfig) : Json :=
  JObject [("mode", StartTlsMode_ser (st_mode t)); ("smtps_port", ser_num (st_smtps_port t));
           ("cert_source", ser_option CertSource_ser (st_cert_source t))].

Definition OutboundTlsMode_ser (m : OutboundTlsMode) : Json :=
  JString match m with
          | TlsPlain => "plain" | TlsOpportunistic => "opportunistic" | TlsRequired => "required" | TlsImplicit => "implicit"
          end.

Definition OutboundRelay_ser (r : OutboundRelay) : Json :=
  JObject [("host", ser_option JString (relay_host r)); ("port", ser_num (relay_port r));
           ("user", ser_option JString (relay_user r)); ("password", ser_option JString (relay_password r));
           ("password_env", ser_option JString (relay_password_env r))].

Definition OutboundTransport_ser (t : OutboundTransport) : Json :=
  JObject [("tls", OutboundTlsMode_ser (ot_tls t)); ("relay", ser_option OutboundRelay_ser (ot_relay t));
           ("insecure", JBool (ot_insecure t))].

Definition Config_ser (c : Config) : Json :=
  JObject [("host", JString (cfg_host c)); ("dns", ser_num (cfg_dns c)); ("smtp", ser_num (cfg_smtp c));
           ("api", ser_num (cfg_api c)); ("database_url", JString (cfg_database_url c));
           ("domains", ser_vec JString (cfg_domains c)); ("records", ser_vec RecordDTO_ser (cfg_records c));
           ("mailboxes", ser_vec MailboxEntry_ser (cfg_mailboxes c)); ("mode", ser_option BootMode_ser (cfg_mode c));
           ("auth", AuthConfig_ser (cfg_auth c)); ("smtp_tls", SmtpTlsConfig_ser (cfg_smtp_tls c));
           ("outbound", OutboundTransport_ser (cfg_outbound c))].
