(* ===== verification/Send.v ===== *)
(** * Send: the outbound queue (src/src/send.rs)

    The producer writes a [Message] and a [Queued] [Outbound] row; the worker
    reclaims what a previous cycle left [InProgress], claims each due job in a
    write-locked transaction, tries its hosts and resolves the job.  lettre, the
    resolver, [mail_parser] and the process environment are the classes and the
    [NetEnv] record below: one [NetEnv] is what the outside world answers during
    one tick of the worker. *)

From S2P Require Import Prelude Text Db Engine Config.
From Stdlib Require Import Ascii String.
#[local] Open Scope string_scope.

(** ** [mail_parser] *)

Record Addr : Type := mkAddr { addr_name : option string; addr_address : option string }.
Record Group : Type := mkGroup { group_name : option string; group_addresses : list Addr }.

Inductive ParsedAddress : Type :=
| AddrList (l : list Addr)
| AddrGroup (gs : list Group).

(** The accessors of a parsed message that the program reads. *)
Record ParsedMail : Type := mkParsedMail {
  pm_from : option ParsedAddress;
  pm_subject : option string;
  pm_content_type : option string;   (* header_raw("content-type") *)
  pm_message_id : option string;
  pm_to : option ParsedAddress;
  pm_cc : option ParsedAddress;
  pm_bcc : option ParsedAddress;
}.

(** [MessageParser::default().parse]. *)
Class MailParser := { parse_mail : bytes -> option ParsedMail }.

(** [Iterator::find_map]. *)
Fixpoint find_map {A B} (f : A -> option B) (l : list A) : option B :=
  match l with
  | [] => None
  | x :: l' => match f x with Some b => Some b | None => find_map f l' end
  end.

(** The address of the first entry of a list. *)
Definition first_of (l : list Addr) : option string := head l ≫= addr_address.

(** [first_address]. *)
Definition first_address (addr : ParsedAddress) : string :=
  match addr with
  | AddrList l => unwrap_or "" (first_of l)
  | AddrGroup groups => unwrap_or "" (find_map (fun g => first_of (group_addresses g)) groups)
  end.

(** [addrs_to_strings]. *)
Definition addrs_to_strings (addr : ParsedAddress) : list string :=
  match addr with
  | AddrList l => omap addr_address l
  | AddrGroup groups => omap addr_address (flat_map group_addresses groups)
  end.

(** [err]. *)
Definition err (prefix e : string) : string := prefix +:+ ": " +:+ e.

(** ** Worker configuration *)

(** A [std::time::Duration], in nanoseconds. *)
Definition nanos_per_sec : N := 1000000000.
Definition from_secs (n : N) : N := n * nanos_per_sec.
Definition as_secs (d : N) : N := d / nanos_per_sec.

Definition SUBMISSION_PORT : N := 25.

Record OutboundWorkerConfig : Type := mkWorkerConfig {
  poll_interval : N;
  max_attempts : N;
  base_backoff : N;
  max_backoff : N;
  transport : OutboundTransport;
  submission_port : N;
}.

Definition with_submission_port (c : OutboundWorkerConfig) (port : N) : OutboundWorkerConfig :=
  mkWorkerConfig (poll_interval c) (max_attempts c) (base_backoff c) (max_backoff c)
    (transport c) port.

Definition OutboundWorkerConfig_default : OutboundWorkerConfig :=
  {| poll_interval := from_secs 5; max_attempts := 8; base_backoff := from_secs 60;
     max_backoff := from_secs 3600; transport := OutboundTransport_default;
     submission_port := SUBMISSION_PORT |}.

(** [backoff_delay]. *)
Definition backoff_delay (config : OutboundWorkerConfig) (attempts : N) : N :=
  let shift := N.min (attempts - 1) 62 in
  let multiplier := N.shiftl 1 shift in
  let seconds := u64_saturating_mul (as_secs (base_backoff config)) multiplier in
  let capped := N.min seconds (as_secs (max_backoff config)) in
  from_secs capped.

(** [Timestamp + Span::new().seconds(n)], inside jiff's range. *)
Definition add_seconds (t : Timestamp) (n : Z) : Timestamp := (t + n * Z.of_N nanos_per_sec)%Z.

(** ** lettre and the resolver *)

Class Lettre := {
  Address : Type;
  parse_address : string -> result Address string;
  address_to_string : Address -> string;
  Envelope : Type;
  envelope_new : option Address -> list Address -> result Envelope string;
  LettreMessage : Type;
  lm_envelope_from : LettreMessage -> option Address;
  lm_formatted : LettreMessage -> bytes;
  TlsParameters : Type;
  tls_build_native : string -> bool -> result TlsParameters string;
}.

Section Worker.
Context `{!Lettre, !MailParser}.

Inductive Tls : Type :=
| Tls_None
| Tls_Opportunistic (p : TlsParameters)
| Tls_Required (p : TlsParameters)
| Tls_Wrapper (p : TlsParameters).

(** The transport built for one target. *)
Record SmtpCall : Type := mkSmtpCall {
  sc_host : string;
  sc_port : N;
  sc_tls : Tls;
  sc_credentials : option (string * string);
}.

(** What one tick sees: the clock, the environment variables, the resolver and,
    for the [i]-th target of a job, the answer to [send_raw]. *)
Record NetEnv : Type := mkNetEnv {
  ne_now : Timestamp;
  ne_var : string -> option string;
  ne_resolver : result unit string;
  ne_mx_lookup : string -> result (list (N * string)) string;
  ne_send_raw : N -> nat -> SmtpCall -> Envelope -> bytes -> result string string;
}.

(** ** Producer *)

Section Queue.
Context `{HO : DbOps D}.

(** The columns [enqueue_outbound] extracts from a formatted message. *)
Definition outbound_message (message : LettreMessage) : NewMessage :=
  let mail_from := unwrap_or "" (address_to_string <$> lm_envelope_from message) in
  let raw := lm_formatted message in
  let parsed := parse_mail raw in
  {| nm_mail_from := mail_from;
     nm_raw := raw;
     nm_subject := parsed ≫= pm_subject;
     nm_message_id_header := parsed ≫= pm_message_id;
     nm_content_type := parsed ≫= pm_content_type;
     nm_from_address := first_address <$> (parsed ≫= pm_from);
     nm_to := unwrap_or [] (addrs_to_strings <$> (parsed ≫= pm_to));
     nm_cc := unwrap_or [] (addrs_to_strings <$> (parsed ≫= pm_cc));
     nm_bcc := unwrap_or [] (addrs_to_strings <$> (parsed ≫= pm_bcc)) |}.

(** A fresh job: [Queued], no attempt, no backoff. *)
Definition queued_job (message_id : N) (sender recipient : string) : NewOutbound :=
  {| no_message_id := message_id; no_rcpt_to := recipient; no_sender_id := sender;
     no_status := Queued; no_attempts := 0; no_next_attempt_at := None; no_last_error := None |}.

(** [enqueue_outbound]. *)
Definition enqueue_outbound (sender recipient : string) (message : LettreMessage)
  : M D (result (N * N) string) :=
  let! r := exec (CreateMessage (outbound_message message)) in
  match r with
  | Err e => ret (Err (err "failed to store outbound Message" e))
  | Ok created =>
      let! r := exec (CreateOutbound (queued_job (msg_id created) sender recipient)) in
      match r with
      | Err e => ret (Err (err "failed to enqueue Outbound" e))
      | Ok job => ret (Ok (msg_id created, out_id job))
      end
  end.

(** [enqueue_forward]. *)
Definition enqueue_forward (message_id : N) (sender_id forward_to : string)
  : M D (result N string) :=
  let! r := exec (CreateOutbound (queued_job message_id sender_id forward_to)) in
  match r with
  | Err e => ret (Err (err "failed to enqueue forward Outbound" e))
  | Ok job => ret (Ok (out_id job))
  end.

(** ** Worker: reclaim and claim *)

Definition has_status (s : OutboundStatus) (o : Outbound) : bool :=
  bool_decide (out_status o = s).

(** [reclaim_in_progress]: failures are logged and skipped. *)
Definition reclaim_patch : OutboundPatch := mkOutboundPatch Queued None (Some None) (Some None).

Definition reclaim_in_progress : M D unit :=
  let! r := exec (QueryOutbound (has_status InProgress)) in
  match r with
  | Err _ => ret tt
  | Ok rows =>
      for_each rows (fun job =>
        let! _ := exec (UpdateOutbound (out_id job) reclaim_patch) in
        ret tt)
  end.

Definition claim_patch : OutboundPatch := mkOutboundPatch InProgress None None None.

(** The claimed job as [update!] leaves it in memory. *)
Definition claimed_job (job : Outbound) : Outbound :=
  patch_outbound claim_patch (out_updated_at job) job.

(** The mode of its transaction. *)
Definition claim_mode : TransactionMode := Immediate.

(** [tx.commit()], mapped to [value] or to its error. *)
Definition commit_claim (failure : string) (value : option Outbound) : Tx (result (option Outbound) string) :=
  TxCommit (fun c =>
    match c with
    | Err e => TxDone (Err (err failure e))
    | Ok _ => TxDone (Ok value)
    end).

(** The [update!] of the winner and what follows it. *)
Definition flip_job (job : Outbound) : Tx (result (option Outbound) string) :=
  TxExec (UpdateOutbound (out_id job) claim_patch) (fun u =>
    match u with
    | Err e => TxDone (Err (err "failed to flip Outbound InProgress" e))
    | Ok _ => commit_claim "failed to commit claim" (Some (claimed_job job))
    end).

(** Inside the transaction of [claim]: re-read, check, flip, commit. *)
Definition claim_tx (id : N) : Tx (result (option Outbound) string) :=
  TxExec (FirstOutbound id) (fun r =>
    match r with
    | Err e => TxDone (Err (err "failed to load job for claim" e))
    | Ok None => commit_claim "failed to commit empty claim" None
    | Ok (Some job) =>
        if negb (has_status Queued job) then commit_claim "failed to commit discarded claim" None
        else flip_job job
    end).

(** [claim]: a transaction dropped before its commit is rolled back. *)
Definition claim (id : N) : M D (result (option Outbound) string) := fun d =>
  let '(d1, b) := db_begin claim_mode d in
  match b with
  | Err e => (d1, Err (err "failed to begin claim transaction" e))
  | Ok _ =>
      let '(d2, r) := run_tx (claim_tx id) d1 in
      match r with
      | Ok v => (d2, Ok v)
      | Err e => (db_rollback d1 d2, Err e)
      end
  end.

(** ** Worker: delivery *)

(** [record_delivery]. *)
Definition record_delivery (outbound_id : N) (peer_host : string) (code : option N)
    (message : option string) : M D (result unit string) :=
  let! r := exec (CreateDelivery outbound_id peer_host code message) in
  match r with
  | Err e => ret (Err (err "failed to record DeliveryStatus" e))
  | Ok _ => ret (Ok tt)
  end.

(** [fail_or_requeue]. *)
Definition fail_or_requeue (outbound : Outbound) (config : OutboundWorkerConfig)
    (now : Timestamp) (reason : string) : M D (result unit string) :=
  let attempts := u64_add (out_attempts outbound) 1 in
  if (max_attempts config <? attempts)%N then
    let! r := exec (UpdateOutbound (out_id outbound)
                      (mkOutboundPatch Failed (Some attempts) (Some None) (Some (Some reason)))) in
    ret (map_err (err "failed to mark Outbound Failed") r)
  else
    let delay := backoff_delay config attempts in
    let next := add_seconds now (as_i64 (as_secs delay)) in
    let! r := exec (UpdateOutbound (out_id outbound)
                      (mkOutboundPatch Queued (Some attempts) (Some (Some next)) (Some (Some reason)))) in
    ret (map_err (err "failed to requeue Outbound") r).

(** [build_outbound_tls]. *)
Definition build_outbound_tls (t : OutboundTransport) (domain : string) : result Tls string :=
  if negb (tls_enabled t) then Ok Tls_None else
  match tls_build_native domain (ot_insecure t) with
  | Err e => Err e
  | Ok params =>
      Ok match ot_tls t with
         | TlsOpportunistic => Tls_Opportunistic params
         | TlsRequired => Tls_Required params
         | TlsImplicit => Tls_Wrapper params
         | TlsPlain => Tls_None
         end
  end.

(** The port dialed: the relay's own, unless it is 0 or there is no relay. *)
Definition target_port (config : OutboundWorkerConfig) : N :=
  match ot_relay (transport config) with
  | None => submission_port config
  | Some r => if N.eqb (relay_port r) 0 then submission_port config else relay_port r
  end.

(** The target list of [deliver_hosts]. *)
Definition delivery_targets (config : OutboundWorkerConfig) (hosts : list string)
  : result (list string) string :=
  if relay_configured (transport config) then
    match ot_relay (transport config) ≫= relay_host with
    | None => Err "outbound relay is configured but has no `host`"
    | Some host => Ok [host]
    end
  else Ok hosts.

Definition delivered_patch (attempts : N) : OutboundPatch :=
  mkOutboundPatch Delivered (Some attempts) (Some None) (Some None).

(** The [for host in &targets] loop of [deliver_hosts], from the [i]-th target
    on, and what follows it. *)
Fixpoint deliver_loop (env : NetEnv) (outbound : Outbound) (message : Message)
    (envelope : Envelope) (config : OutboundWorkerConfig) (now : Timestamp)
    (i : nat) (targets : list string) (last_error : option string)
  : M D (result unit string) :=
  match targets with
  | [] => fail_or_requeue outbound config now (unwrap_or "all MX attempts failed" last_error)
  | host :: targets' =>
      match build_outbound_tls (transport config) host with
      | Err e => ret (Err e)
      | Ok tls =>
          let call := {| sc_host := host; sc_port := target_port config; sc_tls := tls;
                         sc_credentials := ot_relay (transport config) ≫= credentials (ne_var env) |} in
          match ne_send_raw env (out_id outbound) i call envelope (msg_raw message) with
          | Ok response =>
              let? _ := record_delivery (out_id outbound) host (Some 250%N) (Some response) in
              let attempts := u64_add (out_attempts outbound) 1 in
              let! r := exec (UpdateOutbound (out_id outbound) (delivered_patch attempts)) in
              ret (map_err (err "failed to mark Outbound Delivered") r)
          | Err e =>
              let? _ := record_delivery (out_id outbound) host None (Some e) in
              deliver_loop env outbound message envelope config now (S i) targets'
                (Some ("via " +:+ host +:+ ": " +:+ e))
          end
      end
  end.

(** [deliver_hosts]. *)
Definition deliver_hosts (env : NetEnv) (outbound : Outbound) (message : Message)
    (envelope : Envelope) (config : OutboundWorkerConfig) (now : Timestamp)
    (hosts : list string) : M D (result unit string) :=
  match delivery_targets config hosts with
  | Err e => ret (Err e)
  | Ok [] => fail_or_requeue outbound config now "no MX records for domain"
  | Ok targets => deliver_loop env outbound message envelope config now 0 targets None
  end.

(** [build_envelope]. *)
Definition build_envelope (mail_from recipient : string) : result Envelope string :=
  match (if is_empty (trim mail_from) then Ok None
         else match parse_address mail_from with
              | Ok a => Ok (Some a)
              | Err e => Err (err "invalid MAIL FROM" e)
              end) with
  | Err e => Err e
  | Ok from =>
      match parse_address recipient with
      | Err e => Err (err "invalid RCPT TO" e)
      | Ok to => map_err (err "failed to build envelope") (envelope_new from [to])
      end
  end.

(** [slice::sort_by_key] (a stable sort) on the preference. *)
Fixpoint insert_by_key {A} (key : A -> N) (x : A) (l : list A) : list A :=
  match l with
  | [] => [x]
  | y :: l' => if (key x <=? key y)%N then x :: l else y :: insert_by_key key x l'
  end.

Definition sort_by_key {A} (key : A -> N) (l : list A) : list A :=
  foldr (insert_by_key key) [] l.

(** Exchanges without their trailing root dots, empty ones dropped. *)
Definition mx_hosts (records : list (N * string)) : list string :=
  filter (fun h => is_empty h = false)
    (map (fun mx => trim_end_matches (is_char "."%char) (snd mx)) records).

(** [lookup_mx_hosts]. *)
Definition lookup_mx_hosts (env : NetEnv) (recipient : string) : result (list string) string :=
  match last (split_char "@"%char recipient) with
  | None => Err (err "invalid RCPT TO: no domain part" "recipient")
  | Some domain =>
      match ne_resolver env with
      | Err e => Err (err "failed to build DNS resolver" e)
      | Ok _ =>
          match ne_mx_lookup env domain with
          | Err e => Err (err "MX lookup failed" e)
          | Ok response => Ok (mx_hosts (sort_by_key fst response))
          end
      end
  end.

(** [deliver_one]. *)
Definition deliver_one (env : NetEnv) (outbound : Outbound) (config : OutboundWorkerConfig)
    (now : Timestamp) : M D (result unit string) :=
  let! r := exec (GetMessage (out_message_id outbound)) in
  match r with
  | Err e => ret (Err (err "failed to load Message for Outbound" e))
  | Ok message =>
      match build_envelope (msg_mail_from message) (out_rcpt_to outbound) with
      | Err e => ret (Err e)
      | Ok envelope =>
          match lookup_mx_hosts env (out_rcpt_to outbound) with
          | Err e => ret (Err (err "failed to look up MX hosts" e))
          | Ok hosts => deliver_hosts env outbound message envelope config now hosts
          end
      end
  end.

(** [next_attempt_at] is [None] or in the past. *)
Definition is_due (now : Timestamp) (job : Outbound) : bool :=
  match out_next_attempt_at job with
  | Some next => negb (now <? next)%Z
  | None => true
  end.

(** One iteration of the loop of [drain_once]. *)
Definition drain_job (env : NetEnv) (config : OutboundWorkerConfig) (now : Timestamp)
    (job : Outbound) : M D (result unit string) :=
  if negb (is_due now job) then ret (Ok tt) else
  let? claimed := claim (out_id job) in
  match claimed with
  | None => ret (Ok tt)
  | Some job => let! _ := deliver_one env job config now in ret (Ok tt)
  end.

(** [drain_once]. *)
Definition drain_once (env : NetEnv) (config : OutboundWorkerConfig) : M D (result unit string) :=
  let now := ne_now env in
  let! r := exec (QueryOutbound (has_status Queued)) in
  match r with
  | Err e => ret (Err (err "failed to fetch queued Outbound rows" e))
  | Ok rows => for_each_try rows (drain_job env config now)
  end.

(** One turn of the loop of [run_outbound_worker]. *)
Definition worker_tick (env : NetEnv) (config : OutboundWorkerConfig) : M D unit :=
  let! _ := reclaim_in_progress in
  let! _ := drain_once env config in
  ret tt.

(** [run_outbound_worker], until it is cancelled: one [NetEnv] per tick. *)
Definition run_outbound_worker (envs : list NetEnv) (config : OutboundWorkerConfig) : M D unit :=
  for_each envs (fun env => worker_tick env config).
End Queue.
End Worker.
