(* ===== verification/Concrete.v ===== *)
(** * Concrete: instances of the library interfaces

    Small concrete implementations of the interfaces the program relies on, on
    which runs of the model evaluate: an address is text with an [@], an envelope
    is its two parts, every TLS context builds, a message has no header. *)

From S2P Require Import Prelude Text Db Engine Config Send.
From Stdlib Require Import Ascii String.
#[local] Open Scope string_scope.

#[export] Instance demo_lettre : Lettre := {|
  Address := string;
  parse_address := fun s => if contains "@" s then Ok s else Err "missing domain";
  address_to_string := id;
  Envelope := option string * list string;
  envelope_new := fun from to => Ok (from, to);
  LettreMessage := option string * bytes;
  lm_envelope_from := fst;
  lm_formatted := snd;
  TlsParameters := string;
  tls_build_native := fun domain _ => Ok domain;
|}.

#[export] Instance demo_parser : MailParser := {| parse_mail := fun _ => None |}.

(** A world in which [domain] has one MX host that gives every client the same
    answer, at a chosen instant. *)
Definition demo_env (now : Timestamp) (answer : result string string) : NetEnv := {|
  ne_now := now;
  ne_var := fun _ => None;
  ne_resolver := Ok tt;
  ne_mx_lookup := fun domain =>
    if String.eqb domain "far.example" then Ok [(10%N, "mx2.far.example."); (5%N, "mx1.far.example.")]
    else Err "no such domain";
  ne_send_raw := fun _ _ _ _ _ => answer;
|}.

Definition demo_message : Message :=
  mkMessage 1 "me@near.example" [] None None None None [] [] [] 0 0.

Definition demo_job (id : N) (rcpt : string) (status : OutboundStatus) (attempts : N) : Outbound :=
  mkOutbound id 1 rcpt "me@near.example" status attempts None None 0 0.

(** A store with one message and one job. *)
Definition demo_db (job : Outbound) : MemDb :=
  mkMemDb (on_outbound <[out_id job := job]> (on_messages <[1%N := demo_message]> empty_tables)) 100 [].

Lemma demo_db_wf job : wf_tables (mem_tables (demo_db job)).
Proof. split; simpl; auto using wf_unique, wf_empty with wf. apply (wf_unique _ wf_empty). Qed.
