(* ===== verification/SendPure.v ===== *)
(** * SendPure: the retry schedule and the MX order

    The pure parts of src/src/send.rs: the exponential backoff, and the host
    list [lookup_mx_hosts] derives from the resolver's answer. *)

From S2P Require Import Prelude Text Db Engine Config Send Concrete.
From Stdlib Require Import Ascii String Sorting.Sorted.
#[local] Open Scope string_scope.

(** ** Backoff *)

Lemma as_secs_from_secs n : as_secs (from_secs n) = n.
Proof. unfold as_secs, from_secs. by rewrite N.div_mul. Qed.

(** What the schedule is meant to be: the base doubled per retry, capped. *)
Definition backoff_reference (base cap attempts : N) : N :=
  N.min (base * 2 ^ (attempts - 1)) cap.

Lemma capped_shift_invisible base cap e :
  (cap <= 2 ^ 62)%N ->
  N.min (N.min (base * 2 ^ N.min e 62) u64_max) cap = N.min (base * 2 ^ e) cap.
Proof.
  intros Hc. assert (Hu : (2 ^ 62 <= u64_max)%N) by by vm_compute.
  destruct (N.le_gt_cases e 62) as [He|He].
  { rewrite (N.min_l e) by done. lia. }
  rewrite (N.min_r e) by lia. destruct (N.eq_dec base 0) as [->|Hb]; [by rewrite !N.mul_0_l|].
  assert (H2 : (2 ^ 62 <= 2 ^ e)%N) by (apply N.pow_le_mono_r; lia).
  assert (Hx : forall x, (1 <= base)%N -> (2 ^ 62 <= x)%N -> (2 ^ 62 <= base * x)%N).
  { intros x H1 Hx. rewrite <- (N.mul_1_l (2 ^ 62)). by apply N.mul_le_mono. }
  pose proof (Hx _ ltac:(lia) H2). pose proof (Hx (2 ^ 62)%N ltac:(lia) ltac:(lia)).
  remember (2 ^ 62)%N as K. remember (base * 2 ^ e)%N as P. remember (base * K)%N as Q. lia.
Qed.

(** C35: [backoff_delay] is exactly [base * 2^(attempts-1)] seconds capped at
    [max_backoff], for every attempt number: neither the capped shift nor the
    saturating product is observable while the cap is at most [2^62] seconds. *)
Theorem backoff_delay_exponential config attempts :
  (as_secs (max_backoff config) <= 2 ^ 62)%N ->
  backoff_delay config attempts =
    from_secs (backoff_reference (as_secs (base_backoff config)) (as_secs (max_backoff config)) attempts).
Proof.
  intros Hc. unfold backoff_delay, backoff_reference, u64_saturating_mul. f_equal.
  rewrite N.shiftl_1_l. by apply capped_shift_invisible.
Qed.

Lemma backoff_delay_exponential_witness :
  (as_secs (max_backoff OutboundWorkerConfig_default) <= 2 ^ 62)%N /\
  backoff_delay OutboundWorkerConfig_default 3 = from_secs 240.
Proof.
  split; [by vm_compute|].
  rewrite (backoff_delay_exponential OutboundWorkerConfig_default 3); by vm_compute.
Defined.

(** ** Stable sort *)

Section Sort.
Context {A : Type} (key : A -> N).

Lemma insert_by_key_perm x l : insert_by_key key x l ≡ₚ x :: l.
Proof.
  induction l as [|y l IH]; simpl; [done|]. destruct (key x <=? key y)%N; [done|].
  rewrite IH. by constructor.
Qed.

Lemma sort_by_key_perm l : sort_by_key key l ≡ₚ l.
Proof. induction l; simpl; [done|]. rewrite insert_by_key_perm. by f_equiv. Qed.

Lemma insert_by_key_hd y x l :
  HdRel (fun a b => key a <= key b)%N y l -> (key y <= key x)%N ->
  HdRel (fun a b => key a <= key b)%N y (insert_by_key key x l).
Proof. intros H Hx. destruct l; simpl; [by constructor|]. case_match; by inversion H; constructor. Qed.

Lemma sort_by_key_sorted l : Sorted (fun a b => key a <= key b)%N (sort_by_key key l).
Proof.
  induction l as [|x l IH]; simpl; [constructor|].
  induction IH as [|y l' Hs IH Hh]; simpl; [by repeat constructor|].
  destruct (N.leb_spec (key x) (key y)).
  - constructor; [by constructor|]. by constructor.
  - constructor; [done|]. apply insert_by_key_hd; [done|lia].
Qed.

Lemma insert_by_key_stable k x l :
  filter (fun a => key a = k) (insert_by_key key x l) = filter (fun a => key a = k) (x :: l).
Proof.
  induction l as [|y l IH]; simpl; [done|].
  destruct (N.leb_spec (key x) (key y)) as [|Hlt]; [done|].
  rewrite filter_cons, IH, !filter_cons. by repeat case_decide; subst; try lia.
Qed.

Lemma sort_by_key_stable k l :
  filter (fun a => key a = k) (sort_by_key key l) = filter (fun a => key a = k) l.
Proof.
  induction l as [|x l IH]; simpl; [done|].
  rewrite insert_by_key_stable, !filter_cons, IH. done.
Qed.
End Sort.

(** ** MX hosts *)

(** The host an MX record names: the exchange without its trailing dots. *)
Definition exchange_host (mx : N * string) : string :=
  trim_end_matches (is_char "."%char) (snd mx).


