(* ===== verification/SendFacts.v ===== *)
(** * SendFacts: correctness of the outbound queue

    The life of a job under the worker, for every engine the interface allows
    and every answer of the outside world. *)

From S2P Require Import Prelude Text Db Engine Config Send.
From Stdlib Require Import Ascii String.
#[local] Open Scope string_scope.

(** ** The state machine of a job *)

Inductive job_edge : OutboundStatus -> OutboundStatus -> Prop :=
| edge_claim : job_edge Queued InProgress
| edge_requeue : job_edge InProgress Queued
| edge_deliver : job_edge InProgress Delivered
| edge_fail : job_edge InProgress Failed.

Definition terminal (s : OutboundStatus) : bool :=
  match s with Delivered | Failed => true | _ => false end.

(** The columns that name what a job delivers, to whom and for whom. *)
Definition job_identity (o : Outbound) : N * N * string * string :=
  (out_id o, out_message_id o, out_rcpt_to o, out_sender_id o).

Record job_evolves (o o' : Outbound) : Prop := {
  je_identity : job_identity o' = job_identity o;
  je_status : rtc job_edge (out_status o) (out_status o');
  je_terminal : terminal (out_status o) = true -> o' = o;
}.

#[export] Instance job_evolves_preorder : PreOrder job_evolves.
Proof.
  split.
  - intros o. by split.
  - intros o1 o2 o3 [I1 S1 T1] [I2 S2 T2]. split.
    + congruence.
    + by etrans.
    + intros Ht. rewrite T2; [auto|]. by rewrite T1.
Qed.

(** What the worker may do to the tables: it changes only queue columns of
    [Outbound] rows, along the state machine, and adds audit rows of jobs. *)
Record worker_evolves (t t' : Tables) : Prop := {
  we_domains : t_domains t' = t_domains t;
  we_mailboxes : t_mailboxes t' = t_mailboxes t;
  we_records : t_records t' = t_records t;
  we_messages : t_messages t' = t_messages t;
  we_inbound : t_inbound t' = t_inbound t;
  we_delivery : t_delivery t ⊆ t_delivery t';
  we_audit : forall k s, t_delivery t' !! k = Some s ->
    t_delivery t !! k = Some s \/ is_Some (t_outbound t' !! ds_outbound_id s);
  we_outbound : forall id, option_Forall2 job_evolves (t_outbound t !! id) (t_outbound t' !! id);
}.

#[export] Instance worker_evolves_preorder : PreOrder worker_evolves.
Proof.
  split.
  - intros t. split; auto. by intros id.
  - intros t1 t2 t3 [] []. split; try congruence.
    + by etrans.
    + intros k s Hs. destruct (we_audit1 k s Hs) as [Hs'|]; [|auto].
      destruct (we_audit0 k s Hs') as [|[o Ho]]; [auto|right].
      destruct (we_outbound1 (ds_outbound_id s)); [eauto|done].
    + intros id. etrans; eauto.
Qed.

Lemma alter_evolves t id f :
  (forall o, t_outbound t !! id = Some o -> job_evolves o (f o)) ->
  worker_evolves t (on_outbound (alter f id) t).
Proof.
  intros Hf. split; simpl; auto. intros k. rewrite lookup_alter.
  case_decide; subst.
  - destruct (t_outbound t !! k) as [o|]; constructor. by apply Hf.
  - destruct (t_outbound t !! k); by constructor.
Qed.

(** An update along an edge, or to the status the job already has. *)
Lemma patch_evolves p ts o :
  terminal (out_status o) = false -> rtc job_edge (out_status o) (op_status p) ->
  job_evolves o (patch_outbound p ts o).
Proof. intros Ht Hr. split; try done. congruence. Qed.

Section Facts.
Context `{!Lettre, !MailParser, HE : DbEngine D}.

(** ** Claim *)

Lemma claim_tx_spec id d d' r :
  run_tx (claim_tx id) d = (d', r) -> wf_tables (view d) ->
  match r with
  | Ok (Some job) => exists row ts, t_outbound (view d) !! id = Some row /\
      out_status row = Queued /\ job = claimed_job row /\
      view d' = on_outbound (alter (patch_outbound claim_patch ts) id) (view d)
  | Ok None => view d' = view d /\
      (forall row, t_outbound (view d) !! id = Some row -> out_status row <> Queued)
  | Err _ => True
  end.
Proof.
  unfold claim_tx, flip_job, commit_claim. cbn [run_tx]. unfold bind. intros Hrun W. revert Hrun.
  exec_step; [|intros [= <- <-]; done]. destruct E as [Ev Er].
  destruct r0 as [job|]; cbn [run_tx]; unfold bind; last first.
  { pose proof (commit_view d0) as Hc. destruct (db_commit d0) as [d1 [[]|e]]; intros [= <- <-]; simpl in *; [|done].
    split; [congruence|]. intros row. congruence. }
  unfold has_status. case_bool_decide as Hq; cbn [negb run_tx]; unfold bind; last first.
  { pose proof (commit_view d0) as Hc. destruct (db_commit d0) as [d1 [[]|e]]; intros [= <- <-]; simpl in *; [|done].
    split; [congruence|]. intros row. congruence. }
  exec_step; [|by intros [= <- <-]]. destruct E as [ts Eu]. cbn [run_tx]. unfold bind.
  pose proof (commit_view d1) as Hc. destruct (db_commit d1) as [d2 [[]|e]]; intros [= <- <-]; simpl in *; [|done].
  exists job, ts. split_and!; try done.
  rewrite Hc, Eu, Ev. by rewrite (wf_outbound _ W _ _ Er).
Qed.

Lemma claim_spec id d d' r :
  claim id d = (d', r) -> wf_tables (view d) ->
  match r with
  | Ok (Some job) => exists row ts, t_outbound (view d) !! id = Some row /\
      out_status row = Queued /\ job = claimed_job row /\
      view d' = on_outbound (alter (patch_outbound claim_patch ts) id) (view d)
  | Ok None => view d' = view d /\
      (forall row, t_outbound (view d) !! id = Some row -> out_status row <> Queued)
  | Err _ => view d' = view d
  end.
Proof.
  unfold claim. intros Hrun W. pose proof (begin_view claim_mode d) as Hb.
  destruct (db_begin claim_mode d) as [d1 [[]|e]]; cbn [fst] in *; [|by simplify_eq].
  destruct (run_tx (claim_tx id) d1) as [d2 r2] eqn:E.
  apply claim_tx_spec in E; [|by rewrite Hb].
  rewrite Hb in E. destruct r2 as [v|e]; simplify_eq; [done|]. by rewrite rollback_view.
Qed.

(** ** The worker follows the state machine *)

(** The job being delivered is in progress. *)
Definition in_progress (id : N) (t : Tables) : Prop :=
  exists o, t_outbound t !! id = Some o /\ out_status o = InProgress.

Lemma update_in_progress_evolves id p d :
  in_progress id (view d) -> op_status p <> InProgress ->
  worker_evolves (view d) (view (fst (exec (UpdateOutbound id p) d))).
Proof.
  intros Hp Hs. exec_step; simpl; [|by rewrite E].
  destruct E as [ts ->]. apply alter_evolves. intros o Ho. destruct Hp as (o' & Ho' & Hp). simplify_eq.
  apply patch_evolves; rewrite Hp; [done|]. apply rtc_once.
  destruct (op_status p); try constructor. done.
Qed.

Lemma fail_or_requeue_evolves o config now reason d :
  in_progress (out_id o) (view d) ->
  worker_evolves (view d) (view (fst (fail_or_requeue o config now reason d))).
Proof.
  intros Hp. unfold fail_or_requeue.
  case_match; rewrite fst_bind_ret; by apply update_in_progress_evolves.
Qed.

Lemma record_delivery_view oid host c m d d' r :
  record_delivery oid host c m d = (d', r) -> in_progress oid (view d) ->
  worker_evolves (view d) (view d') /\ t_outbound (view d') = t_outbound (view d).
Proof.
  unfold record_delivery, bind. exec_step; intros [= <- <-] (o & Ho & _).
  - destruct E as (id & ts & Hn & -> & ->). split; [|done].
    split; simpl; try done; [by apply insert_subseteq|].
    intros k s. rewrite lookup_insert_Some. intros [[_ <-]|[_ Hs]]; [right; by exists o | auto].
  - by rewrite E.
Qed.

Lemma deliver_loop_evolves env o msg envl config now targets i le d :
  in_progress (out_id o) (view d) ->
  worker_evolves (view d) (view (fst (deliver_loop env o msg envl config now i targets le d))).
Proof.
  revert i le d. induction targets as [|host targets IH]; intros i le d Hp; simpl.
  { by apply fail_or_requeue_evolves. }
  destruct (build_outbound_tls _ _) as [tls|e]; [|done].
  destruct (ne_send_raw _ _ _ _ _ _) as [resp|e]; unfold bind_try, bind.
  all: destruct (record_delivery _ _ _ _ d) as [d1 r1] eqn:E;
    apply record_delivery_view in E as [Ev Eo]; [|done];
    assert (Hp1 : in_progress (out_id o) (view d1)) by (unfold in_progress; by rewrite Eo);
    destruct r1 as [[]|e1]; [|done]; etrans; [exact Ev|].
  - pose proof (update_in_progress_evolves (out_id o)
      (delivered_patch (u64_add (out_attempts o) 1)) d1 Hp1) as Hu.
    destruct (exec _ d1). by apply Hu.
  - by apply IH.
Qed.

Lemma deliver_one_evolves env o config now d :
  in_progress (out_id o) (view d) ->
  worker_evolves (view d) (view (fst (deliver_one env o config now d))).
Proof.
  intros Hp. unfold deliver_one, bind. exec_step; [|simpl; by rewrite E].
  destruct E as [Ev _].
  destruct (build_envelope _ _); [|simpl; by rewrite Ev].
  destruct (lookup_mx_hosts _ _) as [hosts|]; [|simpl; by rewrite Ev].
  rewrite <- Ev in Hp |- *. unfold deliver_hosts.
  destruct (delivery_targets config hosts) as [[|h l]|]; [| |done].
  - by apply fail_or_requeue_evolves.
  - by apply deliver_loop_evolves.
Qed.

(** ** Every worker operation keeps the tables well-formed *)

Lemma wf_run_tx {A} (p : Tx A) : evolves view (kept wf_tables) (run_tx p).
Proof.
  induction p as [a|B s k IH|k IH]; cbn [run_tx]; evolve.
  intros d. unfold kept. by rewrite commit_view.
Qed.

Lemma wf_claim id : evolves view (kept wf_tables) (claim id).
Proof.
  intros d. unfold claim. pose proof (begin_view claim_mode d) as Hb.
  destruct (db_begin claim_mode d) as [d1 [[]|e]]; cbn [fst] in *; rewrite <- Hb; [|done].
  pose proof (wf_run_tx (claim_tx id) d1) as Hc.
  destruct (run_tx (claim_tx id) d1) as [d2 [v|e]]; cbn [fst] in *; [done|].
  intros W. by rewrite rollback_view.
Qed.

Lemma wf_fail_or_requeue o config now reason :
  evolves view (kept wf_tables) (fail_or_requeue o config now reason).
Proof. unfold fail_or_requeue. evolve. Qed.

Lemma wf_record_delivery oid host c m :
  evolves view (kept wf_tables) (record_delivery oid host c m).
Proof. unfold record_delivery. evolve. Qed.

#[local] Hint Resolve wf_claim wf_fail_or_requeue wf_record_delivery : zm.

Lemma wf_deliver_loop env o msg envl config now targets i le :
  evolves view (kept wf_tables) (deliver_loop env o msg envl config now i targets le).
Proof. revert i le. induction targets; simpl; evolve. Qed.

#[local] Hint Resolve wf_deliver_loop : zm.

Lemma wf_deliver_one env o config now :
  evolves view (kept wf_tables) (deliver_one env o config now).
Proof. unfold deliver_one, deliver_hosts. evolve. Qed.

Lemma wf_drain_job env config now job :
  evolves view (kept wf_tables) (drain_job env config now job).
Proof. unfold drain_job. evolve. apply wf_deliver_one. Qed.

(** ** The whole worker follows the state machine *)

Lemma claim_in_progress id d d' job :
  claim id d = (d', Ok (Some job)) -> wf_tables (view d) ->
  out_id job = id /\ in_progress id (view d').
Proof.
  intros E W. apply claim_spec in E as (row & ts & Hr & _ & -> & Ev); [|done].
  split; [exact (wf_outbound _ W _ _ Hr)|]. eexists. rewrite Ev. simpl.
  by rewrite lookup_alter_eq, Hr.
Qed.

Lemma claim_evolves id d :
  wf_tables (view d) -> worker_evolves (view d) (view (fst (claim id d))).
Proof.
  intros W. destruct (claim id d) as [d' r] eqn:E. apply claim_spec in E; [|done]. simpl.
  destruct r as [[job|]|e]; [|by destruct E as [-> _]|by rewrite E].
  destruct E as (row & ts & Hr & Hq & -> & ->). apply alter_evolves. intros o Ho. simplify_eq.
  apply patch_evolves; rewrite Hq; [done|]. apply rtc_once, edge_claim.
Qed.

Lemma drain_job_evolves env config now job d :
  wf_tables (view d) -> worker_evolves (view d) (view (fst (drain_job env config now job d))).
Proof.
  intros W. unfold drain_job. destruct (is_due now job); simpl; [|done].
  unfold bind_try, bind. pose proof (claim_evolves (out_id job) d W) as Hc.
  destruct (claim (out_id job) d) as [d1 [[job'|]|e]] eqn:E; simpl in *; [|done..].
  apply claim_in_progress in E as [Eid Hp]; [|done]. rewrite <- Eid in Hp.
  pose proof (deliver_one_evolves env job' config now d1 Hp) as Hd.
  destruct (deliver_one env job' config now d1). by etrans.
Qed.

(** The tables stay well-formed and evolve as the worker may change them. *)
Definition wf_worker (t t' : Tables) : Prop :=
  wf_tables t -> wf_tables t' /\ worker_evolves t t'.

#[export] Instance wf_worker_preorder : PreOrder wf_worker.
Proof.
  split.
  - intros t W. by split.
  - intros t1 t2 t3 H1 H2 W. destruct (H1 W) as [W2 E1]. destruct (H2 W2) as [W3 E2].
    split; [done|]. by etrans.
Qed.

Lemma drain_once_evolves env config : evolves view wf_worker (drain_once env config).
Proof.
  unfold drain_once. evolve.
  - apply evolves_exec; [typeclasses eauto|]. by intros t rs t' [-> _].
  - intros d W. split; [by apply wf_drain_job | by apply drain_job_evolves].
Qed.

(** Reclaiming a job that is not terminal. *)
Definition live (id : N) (t : Tables) : Prop :=
  forall o, t_outbound t !! id = Some o -> terminal (out_status o) = false.

Lemma reclaim_loop_evolves jobs d :
  (forall job, job ∈ jobs -> live (out_id job) (view d)) ->
  worker_evolves (view d) (view (fst (for_each jobs (fun job =>
    let! _ := exec (UpdateOutbound (out_id job) reclaim_patch) in ret tt) d))).
Proof.
  revert d. induction jobs as [|job jobs IH]; intros d Hl; [done|]. simpl. unfold bind at 1 2.
  assert (Hj : live (out_id job) (view d)) by (apply Hl; set_solver).
  exec_step; simpl; last first.
  { rewrite <- E. apply IH. rewrite E. set_solver. }
  destruct E as [ts E]. etrans; [|apply IH].
  - rewrite E. apply alter_evolves. intros o Ho. specialize (Hj o Ho).
    apply patch_evolves; [done|]. simpl.
    destruct (out_status o); [done|apply rtc_once, edge_requeue|done..].
  - intros job' Hin o. rewrite E. simpl. rewrite lookup_alter_Some.
    intros [(_ & o' & _ & ->)|[_ Ho]]; [done|]. eapply Hl; [|done]. set_solver.
Qed.

Lemma reclaim_evolves : evolves view wf_worker reclaim_in_progress.
Proof.
  intros d W. unfold reclaim_in_progress. split.
  - by apply (evolves_bind view (kept wf_tables)); [apply wf_exec | intros []; evolve |].
  - unfold bind. exec_step; [|simpl; by rewrite E].
    destruct E as [Ev Hr]. rewrite <- Ev in W, Hr |- *.
    apply reclaim_loop_evolves. intros job Hin o Ho.
    rewrite Hr, elem_of_rows in Hin. destruct Hin as [k Hk].
    apply keep_Some in Hk as [Hk Hs]. apply bool_decide_eq_true in Hs.
    assert (k = out_id job) as -> by (symmetry; exact (wf_outbound _ W _ _ Hk)).
    simplify_eq. by rewrite Hs.
Qed.

Lemma worker_evolves_run envs config : evolves view wf_worker (run_outbound_worker envs config).
Proof.
  unfold run_outbound_worker, worker_tick.
  pose proof reclaim_evolves. pose proof drain_once_evolves. evolve.
Qed.
End Facts.
