(* ===== verification/Delivery.v ===== *)
(** * Delivery: what one delivery attempt does

    The loop of [deliver_hosts] against a reference that says which hosts are
    contacted, which audit rows are written and how the job is resolved. *)

From S2P Require Import Prelude Text Db Engine Config Send SendFacts.
From Stdlib Require Import Ascii String.
#[local] Open Scope string_scope.

(** ** Reference *)

(** The hosts contacted, with their answers: in order, until one accepts. *)
Fixpoint attempt_log (send : nat -> string -> result string string) (i : nat)
    (targets : list string) : list (string * result string string) :=
  match targets with
  | [] => []
  | host :: targets' =>
      let answer := send i host in
      (host, answer) :: (if is_ok answer then [] else attempt_log send (S i) targets')
  end.

(** The audit row of a contact: peer, code and text. *)
Definition audit_entry (contact : string * result string string)
  : string * option N * option string :=
  match contact with
  | (host, Ok response) => (host, Some 250%N, Some response)
  | (host, Err e) => (host, None, Some e)
  end.

Definition accepted (log : list (string * result string string)) : bool :=
  existsb (fun contact => is_ok (snd contact)) log.

(** The error kept in the job: that of the last host contacted. *)
Definition failure_reason (default : string) (log : list (string * result string string)) : string :=
  match last log with
  | Some (host, Err e) => "via " +:+ host +:+ ": " +:+ e
  | _ => default
  end.

Definition resolution (config : OutboundWorkerConfig) (now : Timestamp) (attempts : N)
    (default : string) (log : list (string * result string string)) : OutboundPatch :=
  if accepted log then mkOutboundPatch Delivered (Some attempts) (Some None) (Some None)
  else if (attempts <=? max_attempts config)%N then
    mkOutboundPatch Queued (Some attempts)
      (Some (Some (add_seconds now (as_i64 (as_secs (backoff_delay config attempts))))))
      (Some (Some (failure_reason default log)))
  else mkOutboundPatch Failed (Some attempts) (Some None) (Some (Some (failure_reason default log))).

Definition audit_of (row : DeliveryStatus) : string * option N * option string :=
  (ds_peer_host row, ds_code row, ds_message row).

(** [t'] is [t] with the log's audit rows added for the job and its row
    resolved. *)
Definition resolved (id : N) (p : OutboundPatch) (log : list (string * result string string))
    (t t' : Tables) : Prop :=
  exists ts audit delivery,
    t' = on_outbound (alter (patch_outbound p ts) id) (on_delivery (fun _ => delivery) t) /\
    map_to_list delivery ≡ₚ audit ++ map_to_list (t_delivery t) /\
    Forall (fun kr => ds_outbound_id (snd kr) = id) audit /\
    map (fun kr => audit_of (snd kr)) audit = map audit_entry log.

Section Delivery.
Context `{!Lettre, !MailParser, HE : DbEngine D}.

(** What contacting a host means under a configuration. *)
Definition contact (env : NetEnv) (o : Outbound) (msg : Message) (envl : Envelope)
    (config : OutboundWorkerConfig) (i : nat) (host : string) : result string string :=
  match build_outbound_tls (transport config) host with
  | Ok tls => ne_send_raw env (out_id o) i
                {| sc_host := host; sc_port := target_port config; sc_tls := tls;
                   sc_credentials := ot_relay (transport config) ≫= credentials (ne_var env) |}
                envl (msg_raw msg)
  | Err e => Err e
  end.

Definition default_reason (targets : list string) : string :=
  match targets with [] => "no MX records for domain" | _ => "all MX attempts failed" end.

(** The job resolved after contacting [targets] from the [i]-th on. *)
Definition attempt_resolved (env : NetEnv) (o : Outbound) (msg : Message) (envl : Envelope)
    (config : OutboundWorkerConfig) (now : Timestamp) (i : nat) (targets : list string)
    (default : string) (t t' : Tables) : Prop :=
  let log := attempt_log (contact env o msg envl config) i targets in
  resolved (out_id o) (resolution config now (u64_add (out_attempts o) 1) default log) log t t'.

(** ** The loop implements the reference *)

Lemma update_outbound_available id p d :
  available d -> is_Some (t_outbound (view d) !! id) ->
  exists d' ts, exec (UpdateOutbound id p) d = (d', Ok tt) /\ available d' /\
    view d' = on_outbound (alter (patch_outbound p ts) id) (view d).
Proof.
  intros Hav Hrow. destruct (exec_enabled (UpdateOutbound id p) d Hav Hrow) as (d' & [] & E & Ha & ts & Hv).
  eauto 10.
Qed.

Lemma record_delivery_available oid host c m d :
  available d ->
  exists d' k row, record_delivery oid host c m d = (d', Ok tt) /\ available d' /\
    t_delivery (view d) !! k = None /\ ds_outbound_id row = oid /\ audit_of row = (host, c, m) /\
    view d' = on_delivery <[k := row]> (view d).
Proof.
  intros Hav. destruct (exec_enabled (CreateDelivery oid host c m) d Hav I)
    as (d' & row & E & Ha & k & ts & Hn & -> & Hv).
  exists d', k, (mkDeliveryStatus k oid host c m ts ts). unfold record_delivery, bind. rewrite E.
  eauto 10.
Qed.

(** Adding one audit row in front of a resolved state. *)
Lemma resolved_cons id p host r log t t' k row :
  t_delivery t !! k = None -> ds_outbound_id row = id -> audit_of row = audit_entry (host, r) ->
  resolved id p log (on_delivery <[k := row]> t) t' -> resolved id p ((host, r) :: log) t t'.
Proof.
  intros Hk Hid Ha (ts & audit & delivery & -> & Hp & Hf & Hm).
  exists ts, ((k, row) :: audit), delivery. split; [done|]. split.
  - rewrite Hp. simpl. rewrite map_to_list_insert by done. by rewrite Permutation_middle.
  - split; [by constructor|]. simpl. by rewrite Ha, Hm.
Qed.

Lemma resolved_nil id p ts t : resolved id p [] t (on_outbound (alter (patch_outbound p ts) id) t).
Proof. exists ts, [], (t_delivery t). split; [by destruct t|]. by repeat split. Qed.

Lemma fail_or_requeue_resolves o config now reason d :
  available d -> is_Some (t_outbound (view d) !! out_id o) ->
  exists d', fail_or_requeue o config now reason d = (d', Ok tt) /\ available d' /\
    resolved (out_id o) (resolution config now (u64_add (out_attempts o) 1) reason []) []
      (view d) (view d').
Proof.
  intros Hav Hrow. unfold fail_or_requeue, resolution, bind. simpl.
  rewrite N.ltb_antisym. set (a := u64_add (out_attempts o) 1).
  destruct (a <=? max_attempts config)%N; simpl;
    match goal with
    | |- context [exec (UpdateOutbound _ ?p) d] =>
        destruct (update_outbound_available (out_id o) p d Hav Hrow) as (d' & ts & -> & Ha & Hv)
    end; (exists d'; split; [done|]; split; [done|]; rewrite Hv; apply resolved_nil).
Qed.

(** Only the last answer's error is kept. *)
Lemma resolution_cons config now a default host e log :
  resolution config now a default ((host, Err e) :: log) =
  resolution config now a ("via " +:+ host +:+ ": " +:+ e) log.
Proof.
  unfold resolution. simpl. destruct (accepted log) eqn:Ea; [done|].
  assert (failure_reason default ((host, Err e) :: log) =
          failure_reason ("via " +:+ host +:+ ": " +:+ e) log) as ->; [|done].
  unfold failure_reason. destruct log as [|[h r] log _] using rev_ind; [done|].
  rewrite app_comm_cons, !last_snoc. destruct r; [|done].
  unfold accepted in Ea. rewrite existsb_app in Ea. simpl in Ea.
  by rewrite orb_true_r in Ea.
Qed.

Lemma deliver_loop_resolves env o msg envl config now targets i le (d : D) :
  available d -> is_Some (t_outbound (view d) !! out_id o) ->
  (forall h, h ∈ targets -> is_ok (build_outbound_tls (transport config) h) = true) ->
  exists d', deliver_loop env o msg envl config now i targets le d = (d', Ok tt) /\ available d' /\
    attempt_resolved env o msg envl config now i targets (unwrap_or "all MX attempts failed" le)
      (view d) (view d').
Proof.
  revert i le d. induction targets as [|host targets IH]; intros i le d Hav Hrow Htls;
    unfold attempt_resolved in *; simpl.
  { by apply fail_or_requeue_resolves. }
  pose proof (eq_refl (contact env o msg envl config i host)) as Es.
  unfold contact in Es at 2. rewrite Es. clear Es. pose proof (Htls host ltac:(set_solver)) as Ht.
  destruct (build_outbound_tls (transport config) host) as [tls|]; [clear Ht|done].
  destruct (ne_send_raw _ _ _ _ _ _) as [response|e]; simpl; unfold bind_try, bind.
  - destruct (record_delivery_available (out_id o) host (Some 250%N) (Some response) d Hav)
      as (d1 & k & row & -> & Ha & Hk & Hid & Hau & Hv).
    destruct (update_outbound_available (out_id o) (delivered_patch (u64_add (out_attempts o) 1)) d1 Ha)
      as (d2 & ts & -> & Ha2 & Hv2); [by rewrite Hv|].
    exists d2. split; [done|]. split; [done|]. rewrite Hv2, Hv.
    eapply resolved_cons; [done..|]. apply resolved_nil.
  - destruct (record_delivery_available (out_id o) host None (Some e) d Hav)
      as (d1 & k & row & -> & Ha & Hk & Hid & Hau & Hv).
    destruct (IH (S i) (Some ("via " +:+ host +:+ ": " +:+ e)) d1 Ha) as (d2 & -> & Ha2 & Hr);
      [by rewrite Hv | set_solver |].
    exists d2. split; [done|]. split; [done|]. rewrite resolution_cons.
    eapply resolved_cons; [done..|]. by rewrite <- Hv.
Qed.

Lemma deliver_hosts_resolves env o msg envl config now hosts targets d :
  available d -> is_Some (t_outbound (view d) !! out_id o) ->
  delivery_targets config hosts = Ok targets ->
  (forall h, h ∈ targets -> is_ok (build_outbound_tls (transport config) h) = true) ->
  exists d', deliver_hosts env o msg envl config now hosts d = (d', Ok tt) /\ available d' /\
    attempt_resolved env o msg envl config now 0 targets (default_reason targets)
      (view d) (view d').
Proof.
  intros Hav Hrow Ht Htls. unfold deliver_hosts. rewrite Ht. destruct targets as [|h targets].
  - by apply fail_or_requeue_resolves.
  - by apply deliver_loop_resolves.
Qed.
End Delivery.
