(* ===== verification/Progress.v ===== *)
(** * Progress: what a worker tick does to a given job

    Other jobs' deliveries do not touch it, an available engine lets the tick
    reach it, and the attempt resolves it as [Delivery] says.  From there: the
    attempt cap, the terminal state every rejected job reaches, and the errors
    that are never counted as attempts. *)

From S2P Require Import Prelude Text Db Engine Config Send SendFacts Delivery.
From Stdlib Require Import Ascii String.
#[local] Open Scope string_scope.

(** Only the job [id] may have changed. *)
Definition touches_only (id : N) (t t' : Tables) : Prop :=
  t_messages t' = t_messages t /\
  forall k, k <> id -> t_outbound t' !! k = t_outbound t !! k.

#[export] Instance touches_only_preorder id : PreOrder (touches_only id).
Proof.
  split.
  - by intros t.
  - intros t1 t2 t3 [M1 H1] [M2 H2]. split; [congruence|]. intros k Hk. by rewrite H2, H1.
Qed.

(** The job [id] and the messages have not changed. *)
Definition leaves_alone (id : N) (t t' : Tables) : Prop :=
  t_messages t' = t_messages t /\ t_outbound t' !! id = t_outbound t !! id.

#[export] Instance leaves_alone_refl id : Reflexive (leaves_alone id).
Proof. by intros t. Qed.

Section Progress.
Context `{!Lettre, !MailParser, HE : DbEngine D}.

(** ** Frame *)

Lemma frame_update id p : evolves view (touches_only id) (exec (UpdateOutbound id p)).
Proof.
  apply evolves_exec; [typeclasses eauto|]. intros t a t' [ts ->]. split; [done|].
  intros k Hk. simpl. by rewrite lookup_alter_ne.
Qed.

Lemma frame_record_delivery id oid host c m :
  evolves view (touches_only id) (record_delivery oid host c m).
Proof.
  unfold record_delivery. evolve. apply evolves_exec; [typeclasses eauto|].
  intros t r t' (k & ts & _ & _ & ->). by split.
Qed.

Lemma frame_get_message id k : evolves view (touches_only id) (exec (GetMessage k)).
Proof. apply evolves_exec; [typeclasses eauto|]. by intros t m t' [-> _]. Qed.

#[local] Hint Resolve frame_update frame_record_delivery frame_get_message : zm.

Lemma frame_fail_or_requeue o config now reason :
  evolves view (touches_only (out_id o)) (fail_or_requeue o config now reason).
Proof. unfold fail_or_requeue. evolve. Qed.

#[local] Hint Resolve frame_fail_or_requeue : zm.

Lemma frame_deliver_loop env o msg envl config now targets i le :
  evolves view (touches_only (out_id o)) (deliver_loop env o msg envl config now i targets le).
Proof. revert i le. induction targets; simpl; evolve. Qed.

#[local] Hint Resolve frame_deliver_loop : zm.

Lemma frame_deliver_one env o config now :
  evolves view (touches_only (out_id o)) (deliver_one env o config now).
Proof. unfold deliver_one, deliver_hosts. evolve. Qed.

Lemma frame_claim id d : wf_tables (view d) -> touches_only id (view d) (view (fst (claim id d))).
Proof.
  intros W. destruct (claim id d) as [d' r] eqn:E. apply claim_spec in E; [|done]. simpl.
  destruct r as [[job|]|e]; [|by destruct E as [-> _]|by rewrite E].
  destruct E as (row & ts & _ & _ & _ & ->). split; [done|]. intros k Hk. simpl.
  by rewrite lookup_alter_ne.
Qed.

Lemma frame_drain_job env config now job d :
  wf_tables (view d) ->
  touches_only (out_id job) (view d) (view (fst (drain_job env config now job d))).
Proof.
  intros W. unfold drain_job. destruct (is_due now job); simpl; [|done].
  unfold bind_try, bind. pose proof (frame_claim (out_id job) d W) as Hc.
  destruct (claim (out_id job) d) as [d1 [[job'|]|e]] eqn:E; simpl in *; [|done..].
  apply claim_in_progress in E as [Eid _]; [|done].
  pose proof (frame_deliver_one env job' config now d1) as Hd. rewrite Eid in Hd.
  destruct (deliver_one env job' config now d1). by etrans.
Qed.

(** ** Availability *)

Abbreviation stays_available := (evolves (fun d : D => d) (kept available)).

Lemma avail_exec {A} (s : stmt A) : stays_available (exec s).
Proof. intros d Hd. by apply exec_available. Qed.

#[local] Hint Resolve avail_exec : zm.

Lemma avail_fail_or_requeue o config now reason : stays_available (fail_or_requeue o config now reason).
Proof. unfold fail_or_requeue. evolve. Qed.

#[local] Hint Resolve avail_fail_or_requeue : zm.

Lemma avail_deliver_loop env o msg envl config now targets i le :
  stays_available (deliver_loop env o msg envl config now i targets le).
Proof. revert i le. unfold record_delivery. induction targets; simpl; unfold record_delivery; evolve. Qed.

#[local] Hint Resolve avail_deliver_loop : zm.

Lemma avail_deliver_one env o config now : stays_available (deliver_one env o config now).
Proof. unfold deliver_one, deliver_hosts. evolve. Qed.

Lemma avail_reclaim : stays_available reclaim_in_progress.
Proof. unfold reclaim_in_progress. evolve. Qed.

(** With an available engine a claim succeeds, and takes the job if it is queued. *)
Lemma claim_available id d :
  available d -> wf_tables (view d) ->
  exists d' r, claim id d = (d', Ok r) /\ available d' /\
    (forall row, t_outbound (view d) !! id = Some row -> out_status row = Queued ->
     r = Some (claimed_job row)).
Proof.
  intros Hav W. unfold claim, claim_tx, flip_job, commit_claim. cbn [run_tx]. unfold bind.
  destruct (begin_available claim_mode d Hav) as [Ha1 Ho]. pose proof (begin_view claim_mode d) as Hb.
  destruct (db_begin claim_mode d) as [d1 [[]|]]; [clear Ho|done]. cbn [fst snd] in *.
  destruct (exec_enabled (FirstOutbound id) d1 Ha1 I) as (d2 & o & -> & Ha2 & Hv & Hr).
  rewrite Hb in Hr.
  assert (Hcommit : forall d3, available d3 -> exists d4, db_commit d3 = (d4, Ok tt) /\ available d4).
  { intros d3 Ha3. destruct (commit_available d3 Ha3) as [Ha4 Hc].
    destruct (db_commit d3) as [d4 [[]|]]; [eauto|done]. }
  destruct o as [job|]; cbn [run_tx]; unfold bind.
  - unfold has_status. case_bool_decide as Hq; cbn [negb run_tx]; unfold bind.
    + assert (out_id job = id) as Hid by exact (wf_outbound _ W _ _ Hr).
      destruct (exec_enabled (UpdateOutbound (out_id job) claim_patch) d2 Ha2) as (d3 & [] & -> & Ha3 & _).
      { simpl. rewrite Hv, Hb, Hid. eauto. }
      cbn [run_tx]. unfold bind. destruct (Hcommit d3 Ha3) as (d4 & -> & Ha4). exists d4, (Some (claimed_job job)).
      split_and!; [done|done|]. intros row Hrow _. congruence.
    + destruct (Hcommit d2 Ha2) as (d4 & -> & Ha4). exists d4, None. split_and!; [done..|].
      intros row Hrow Hq'. congruence.
  - destruct (Hcommit d2 Ha2) as (d4 & -> & Ha4). exists d4, None. split_and!; [done..|].
    intros row Hrow. congruence.
Qed.

Lemma drain_job_available env config now job d :
  available d -> wf_tables (view d) ->
  exists d', drain_job env config now job d = (d', Ok tt) /\ available d'.
Proof.
  intros Hav W. unfold drain_job. destruct (is_due now job); simpl; [|by eexists].
  unfold bind_try, bind. destruct (claim_available (out_id job) d Hav W) as (d1 & r & -> & Ha & _).
  destruct r as [job'|]; [|by eexists].
  pose proof (avail_deliver_one env job' config now d1 Ha) as Hd.
  destruct (deliver_one env job' config now d1). by eexists.
Qed.

(** ** A tick, seen from one job *)

Lemma drain_loop_frame env config now id jobs d :
  available d -> wf_tables (view d) -> id ∉ map out_id jobs ->
  exists d', for_each_try jobs (drain_job env config now) d = (d', Ok tt) /\
    available d' /\ wf_tables (view d') /\ t_messages (view d') = t_messages (view d) /\
    t_outbound (view d') !! id = t_outbound (view d) !! id.
Proof.
  revert d. induction jobs as [|job jobs IH]; intros d Hav W Hn; simpl; [by exists d|].
  simpl in Hn. unfold bind_try, bind.
  pose proof (frame_drain_job env config now job d W) as [Hm Hf].
  pose proof (wf_drain_job env config now job d W) as W1.
  destruct (drain_job_available env config now job d Hav W) as (d1 & E & Ha).
  rewrite E in Hm, Hf, W1 |- *. simpl in *.
  destruct (IH d1 Ha W1) as (d2 & -> & Ha2 & W2 & Hm2 & Ho2); [set_solver|].
  exists d2. split_and!; [done..|congruence|]. rewrite Ho2. apply Hf. set_solver.
Qed.

Lemma reclaim_loop_frame id jobs d :
  wf_tables (view d) -> id ∉ map out_id jobs ->
  leaves_alone id (view d) (view (fst (for_each jobs (fun job =>
    let! _ := exec (UpdateOutbound (out_id job) reclaim_patch) in ret tt) d))).
Proof.
  revert d. induction jobs as [|job jobs IH]; intros d W Hn; [done|]. simpl in Hn |- *.
  unfold bind at 1 2. pose proof (frame_update (out_id job) reclaim_patch d) as [Hm Hf].
  pose proof (wf_exec (UpdateOutbound (out_id job) reclaim_patch) d W) as W1.
  destruct (exec _ d) as [d1 r]. simpl in *.
  destruct (IH d1 W1) as [Hm2 Hf2]; [set_solver|]. split; [congruence|].
  rewrite Hf2. apply Hf. set_solver.
Qed.

Lemma elem_of_outbound_rows p d o :
  wf_tables (view d) -> o ∈ rows (keep p (t_outbound (view d))) <->
  t_outbound (view d) !! out_id o = Some o /\ p o = true.
Proof.
  intros W. rewrite elem_of_rows. split.
  - intros [k Hk]. apply keep_Some in Hk as [Hk Hp].
    by rewrite (wf_outbound _ W _ _ Hk).
  - intros [Ho Hp]. exists (out_id o). by apply keep_Some.
Qed.

(** Reclaiming leaves a job that is not in progress alone. *)
Lemma reclaim_frame id o d :
  wf_tables (view d) -> t_outbound (view d) !! id = Some o -> out_status o <> InProgress ->
  leaves_alone id (view d) (view (fst (reclaim_in_progress d))).
Proof.
  intros W Ho Hs. unfold reclaim_in_progress, bind. exec_step; [|simpl; by rewrite E].
  destruct E as [Ev Hr]. rewrite <- Ev in *. apply reclaim_loop_frame; [done|].
  rewrite list_elem_of_fmap. intros (job & -> & Hin).
  rewrite Hr, elem_of_outbound_rows in Hin by done. destruct Hin as [Hj Hp].
  apply bool_decide_eq_true in Hp. congruence.
Qed.

(** The job can be attempted under [env]: its message is stored, the envelope
    parses, the MX lookup answers, every TLS context builds. *)
Record deliverable (env : NetEnv) (config : OutboundWorkerConfig) (t : Tables) (o : Outbound)
    (msg : Message) (envl : Envelope) (targets : list string) : Prop := {
  dv_message : t_messages t !! out_message_id o = Some msg;
  dv_envelope : build_envelope (msg_mail_from msg) (out_rcpt_to o) = Ok envl;
  dv_targets : exists hosts, lookup_mx_hosts env (out_rcpt_to o) = Ok hosts /\
                 delivery_targets config hosts = Ok targets;
  dv_tls : forall h, h ∈ targets -> is_ok (build_outbound_tls (transport config) h) = true;
}.

(** The patch an attempt of the job applies. *)
Definition attempt_patch (env : NetEnv) (config : OutboundWorkerConfig) (o : Outbound)
    (msg : Message) (envl : Envelope) (targets : list string) : OutboundPatch :=
  resolution config (ne_now env) (u64_add (out_attempts o) 1) (default_reason targets)
    (attempt_log (contact env o msg envl config) 0 targets).

(** The audit says a host accepted the job's message. *)
Definition receipt (id : N) (k : N) (row : DeliveryStatus) (t : Tables) : Prop :=
  t_delivery t !! k = Some row /\ ds_outbound_id row = id /\ ds_code row = Some 250%N.

(** An attempt that was accepted leaves a receipt under a key of its own. *)
Lemma resolved_receipt id p log t t' :
  resolved id p log t t' -> accepted log = true ->
  exists k row, receipt id k row t' /\ t_delivery t !! k = None.
Proof.
  intros (ts & audit & delivery & -> & Hp & Hf & Hm) Hacc. unfold accepted in Hacc.
  apply existsb_exists in Hacc as ([host r] & Hin & Hok). simpl in Hok. destruct r as [response|]; [|done].
  assert (Hin' : audit_entry (host, Ok response) ∈ map (fun kr => audit_of (snd kr)) audit).
  { rewrite Hm. apply list_elem_of_fmap. eexists. split; [done|]. by apply list_elem_of_In. }
  apply list_elem_of_fmap in Hin' as ([k row] & Ha & Hk). injection Ha as _ Hc _. simpl in Hc.
  rewrite Forall_forall in Hf. exists k, row. split; [split_and!|].
  - simpl. apply elem_of_map_to_list. rewrite Hp. set_solver.
  - exact (Hf _ Hk).
  - done.
  - pose proof (NoDup_fst_map_to_list delivery) as Hnd. rewrite Hp, fmap_app in Hnd.
    apply NoDup_app in Hnd as (_ & Hd & _). apply eq_None_not_Some. intros [row' Hrow'].
    apply (Hd k); apply list_elem_of_fmap; [by exists (k, row)|]. exists (k, row'). split; [done|].
    by apply elem_of_map_to_list.
Qed.

Lemma drain_job_resolves env config o msg envl targets d :
  available d -> wf_tables (view d) ->
  t_outbound (view d) !! out_id o = Some o -> out_status o = Queued ->
  is_due (ne_now env) o = true -> deliverable env config (view d) o msg envl targets ->
  exists d' ts, drain_job env config (ne_now env) o d = (d', Ok tt) /\ available d' /\
    t_outbound (view d') !! out_id o =
      Some (patch_outbound (attempt_patch env config o msg envl targets) ts o) /\
    (accepted (attempt_log (contact env o msg envl config) 0 targets) = true ->
     exists k row, receipt (out_id o) k row (view d')).
Proof.
  intros Hav W Ho Hq Hdue [Hm He (hosts & Hl & Ht) Htls].
  unfold drain_job. rewrite Hdue. simpl. unfold bind_try, bind.
  destruct (claim_available (out_id o) d Hav W) as (d1 & r & Ec & Ha1 & Hr).
  rewrite Ec. rewrite (Hr o Ho Hq) in Ec |- *. clear Hr r.
  apply claim_spec in Ec as (row & ts1 & Hrow & _ & _ & Ev); [|done].
  rewrite Ho in Hrow. injection Hrow as <-.
  unfold deliver_one, bind.
  destruct (exec_enabled (GetMessage (out_message_id (claimed_job o))) d1 Ha1) as (d2 & m & -> & Ha2 & Hv2 & Hm2).
  { simpl. rewrite Ev. simpl. eauto. }
  rewrite Ev in Hm2. simpl in Hm2. rewrite Hm in Hm2. injection Hm2 as <-. simpl. rewrite He, Hl.
  destruct (deliver_hosts_resolves env (claimed_job o) msg envl config (ne_now env) hosts targets d2 Ha2)
    as (d3 & -> & Ha3 & Hres); [|done..|].
  { rewrite Hv2, Ev. simpl. rewrite lookup_alter_eq, Ho. simpl. eauto. }
  pose proof (resolved_receipt _ _ _ _ _ Hres) as Hrec.
  destruct Hres as (ts & audit & delivery & Hv3 & _).
  exists d3, ts. split; [done|]. split; [done|]. split.
  - rewrite Hv3, Hv2, Ev. simpl. rewrite lookup_alter_eq, lookup_alter_eq, Ho. done.
  - intros Hacc. destruct (Hrec Hacc) as (k & row & Hk & _). eauto.
Qed.

Lemma NoDup_outbound_rows p d :
  wf_tables (view d) -> NoDup (map out_id (rows (keep p (t_outbound (view d))))).
Proof.
  intros W. unfold rows. rewrite map_map.
  assert (E : map (fun kr : N * Outbound => out_id kr.2) (map_to_list (keep p (t_outbound (view d)))) =
          (map_to_list (keep p (t_outbound (view d)))).*1).
  { apply list_fmap_ext. intros i [k o] Hi. apply list_elem_of_lookup_2, elem_of_map_to_list in Hi.
    apply keep_Some in Hi as [Hi _]. exact (wf_outbound _ W _ _ Hi). }
  rewrite E. apply NoDup_fst_map_to_list.
Qed.

Lemma deliverable_messages env config t t' o msg envl targets :
  t_messages t' = t_messages t -> deliverable env config t o msg envl targets ->
  deliverable env config t' o msg envl targets.
Proof. intros E []. split; [congruence|done..]. Qed.

Lemma drain_loop_keeps env config now jobs : evolves view wf_worker (for_each_try jobs (drain_job env config now)).
Proof.
  evolve. intros d W. split; [by apply wf_drain_job | by apply drain_job_evolves].
Qed.

(** Draining attempts every due job, whatever the other jobs do. *)
Lemma drain_resolves env config o msg envl targets d :
  available d -> wf_tables (view d) ->
  t_outbound (view d) !! out_id o = Some o -> out_status o = Queued ->
  is_due (ne_now env) o = true -> deliverable env config (view d) o msg envl targets ->
  exists d' ts, drain_once env config d = (d', Ok tt) /\ available d' /\ wf_tables (view d') /\
    t_messages (view d') = t_messages (view d) /\
    t_outbound (view d') !! out_id o =
      Some (patch_outbound (attempt_patch env config o msg envl targets) ts o) /\
    (accepted (attempt_log (contact env o msg envl config) 0 targets) = true ->
     exists k row, receipt (out_id o) k row (view d')).
Proof.
  intros Ha0 W0 Ho0 Hq Hdue Hdv. unfold drain_once, bind.
  destruct (exec_enabled (QueryOutbound (has_status Queued)) d Ha0 I) as (d1 & jobs & -> & Ha1 & Hv1 & Hjobs).
  rewrite <- Hv1 in *.
  assert (Hin : o ∈ jobs).
  { rewrite Hjobs, elem_of_outbound_rows by done. split; [done|]. by apply bool_decide_eq_true. }
  assert (Hnd : NoDup (map out_id jobs)) by (rewrite Hjobs; by apply NoDup_outbound_rows).
  apply list_elem_of_split in Hin as (l1 & l2 & ->).
  rewrite map_app in Hnd. simpl in Hnd. apply NoDup_app in Hnd as (_ & Hn1 & Hnd2).
  apply NoDup_cons in Hnd2 as [Hn2 _].
  rewrite for_each_try_app. unfold bind_try, bind.
  destruct (drain_loop_frame env config (ne_now env) (out_id o) l1 d1) as (d2 & -> & Ha2 & W2 & Hm2 & Ho2); [done..| |].
  { intros Hx. apply (Hn1 _ Hx). by left. }
  rewrite Ho0 in Ho2. simpl. unfold bind_try, bind.
  pose proof (wf_drain_job env config (ne_now env) o d2 W2) as W3.
  pose proof (frame_drain_job env config (ne_now env) o d2 W2) as [Hm3 _].
  destruct (drain_job_resolves env config o msg envl targets d2) as (d3 & ts & E3 & Ha3 & Ho3 & Hrec); [done..| |].
  { eapply deliverable_messages; [|done]. congruence. }
  rewrite E3 in W3, Hm3 |- *. simpl in W3, Hm3.
  pose proof (drain_loop_keeps env config (ne_now env) l2 d3 W3) as [_ Hev].
  destruct (drain_loop_frame env config (ne_now env) (out_id o) l2 d3) as (d4 & E4 & Ha4 & W4 & Hm4 & Ho4); [done..|].
  rewrite E4 in Hev |- *. exists d4, ts. split_and!; [done..|congruence|by rewrite Ho4, Ho3|].
  intros Hacc. destruct (Hrec Hacc) as (k & row & Hk & Hr). exists k, row. split; [|done].
  eapply lookup_weaken; [exact Hk|]. apply Hev.
Qed.

(** The tick attempts every due job, whatever the other jobs do. *)
Lemma tick_resolves env config o msg envl targets d :
  available d -> wf_tables (view d) ->
  t_outbound (view d) !! out_id o = Some o -> out_status o = Queued ->
  is_due (ne_now env) o = true -> deliverable env config (view d) o msg envl targets ->
  exists d' ts, worker_tick env config d = (d', tt) /\ available d' /\ wf_tables (view d') /\
    t_messages (view d') = t_messages (view d) /\
    t_outbound (view d') !! out_id o =
      Some (patch_outbound (attempt_patch env config o msg envl targets) ts o).
Proof.
  intros Hav W Ho Hq Hdue Hdv. unfold worker_tick, bind.
  pose proof (avail_reclaim d Hav) as Ha0. pose proof (reclaim_evolves d W) as [W0 _].
  assert (Hl : leaves_alone (out_id o) (view d) (view (fst (reclaim_in_progress d)))).
  { eapply reclaim_frame; [done..|]. by rewrite Hq. }
  destruct (reclaim_in_progress d) as [d0 []]. simpl in *. destruct Hl as [Hm0 Ho0].
  rewrite Ho in Ho0.
  destruct (drain_resolves env config o msg envl targets d0) as (d' & ts & -> & Ha & W' & Hm & Ho' & _); [done..| |].
  { by eapply deliverable_messages. }
  exists d', ts. split_and!; [done..|congruence|done].
Qed.
End Progress.
