(* ===== verification/Retry.v ===== *)
(** * Retry: how long a job is retried

    The attempt counter stays within the cap, a job every host rejects becomes
    [Failed] after [max_attempts + 1] ticks, and a job whose recipient cannot be
    resolved is retried without ever being counted. *)

From S2P Require Import Prelude Text Db Engine Config Send SendPure SendFacts Delivery Progress.
From Stdlib Require Import Ascii String.
#[local] Open Scope string_scope.

(** ** The attempt counter *)

Definition attempts_ok (cap : N) (o : Outbound) : Prop :=
  match out_status o with
  | Queued | InProgress => out_attempts o <= cap
  | Delivered => 1 <= out_attempts o <= cap + 1
  | Failed => out_attempts o = cap + 1
  end%N.

Definition counters_ok (cap : N) (t : Tables) : Prop :=
  forall k o, t_outbound t !! k = Some o -> attempts_ok cap o.

Lemma counters_alter cap f id t :
  (forall o, t_outbound t !! id = Some o -> attempts_ok cap o -> attempts_ok cap (f o)) ->
  counters_ok cap t -> counters_ok cap (on_outbound (alter f id) t).
Proof.
  intros Hf Hc k o. simpl. rewrite lookup_alter_Some.
  intros [(-> & o' & Ho & ->)|[_ Ho]]; eauto.
Qed.

Section Retry.
Context `{!Lettre, !MailParser, HE : DbEngine D}.

(** A patch that sets the counter decides whether the row is within the cap. *)
Lemma counters_update cap id p a :
  op_attempts p = Some a ->
  match op_status p with
  | Queued | InProgress => a <= cap
  | Delivered => 1 <= a <= cap + 1
  | Failed => a = cap + 1
  end%N ->
  evolves view (kept (counters_ok cap)) (exec (UpdateOutbound id p)).
Proof.
  intros Ha Hp. apply evolves_exec; [typeclasses eauto|]. intros t [] t' [ts ->].
  unfold kept. apply counters_alter. intros o _ _. unfold attempts_ok. simpl. by rewrite Ha.
Qed.

Lemma counters_same {A} (s : stmt A) cap :
  (forall t a t', stmt_spec s t a t' -> t_outbound t' = t_outbound t) ->
  evolves view (kept (counters_ok cap)) (exec s).
Proof.
  intros Hs. apply evolves_exec; [typeclasses eauto|]. intros t a t' Ht.
  unfold kept, counters_ok. by rewrite (Hs _ _ _ Ht).
Qed.

Section Cap.
Context (config : OutboundWorkerConfig) (Hcap : (max_attempts config + 1 < u64_modulus)%N).
Abbreviation cap := (max_attempts config).

Lemma counters_fail_or_requeue o now reason :
  (out_attempts o <= cap)%N ->
  evolves view (kept (counters_ok cap)) (fail_or_requeue o config now reason).
Proof.
  intros Ho. unfold fail_or_requeue. rewrite u64_add_small by lia.
  destruct (N.ltb_spec cap (out_attempts o + 1)); evolve;
    (eapply counters_update; [done|simpl; lia]).
Qed.

Lemma counters_deliver_loop env o msg envl now targets i le :
  (out_attempts o <= cap)%N ->
  evolves view (kept (counters_ok cap)) (deliver_loop env o msg envl config now i targets le).
Proof.
  intros Ho. revert i le. induction targets; intros i le; simpl;
    [by apply counters_fail_or_requeue|].
  unfold record_delivery. rewrite u64_add_small by lia. evolve.
  all: first [ eapply counters_update; [done|simpl; lia] | solve [auto]
             | apply counters_same; by intros t r t' (k & ts & _ & _ & ->) ].
Qed.

Lemma counters_deliver_one env o now :
  (out_attempts o <= cap)%N ->
  evolves view (kept (counters_ok cap)) (deliver_one env o config now).
Proof.
  intros Ho. unfold deliver_one, deliver_hosts. evolve.
  all: first [ by apply counters_fail_or_requeue | by apply counters_deliver_loop
             | apply counters_same; by intros t r t' [-> _] ].
Qed.

(** Well-formed tables whose counters are within the cap. *)
Definition queue_inv (t : Tables) : Prop := wf_tables t /\ counters_ok cap t.

Lemma inv_drain_job env now job : evolves view (kept queue_inv) (drain_job env config now job).
Proof.
  intros d [W Hc]. split; [by apply wf_drain_job|].
  unfold drain_job. destruct (is_due now job); simpl; [|done]. unfold bind_try, bind.
  destruct (claim (out_id job) d) as [d1 r] eqn:E. apply claim_spec in E; [|done].
  destruct r as [[job'|]|e]; simpl; [|by destruct E as [-> _]|by rewrite E].
  destruct E as (row & ts & Hrow & Hq & -> & Ev). pose proof (Hc _ _ Hrow) as Hr.
  unfold attempts_ok in Hr. rewrite Hq in Hr.
  assert (Hc1 : counters_ok cap (view d1)).
  { rewrite Ev. apply counters_alter; [|done]. intros o Ho _. by simplify_eq. }
  pose proof (counters_deliver_one env (claimed_job row) now Hr d1 Hc1) as Hd.
  by destruct (deliver_one _ _ _ _ d1).
Qed.

Lemma counters_reclaim_loop jobs d :
  (forall job, job ∈ jobs -> live (out_id job) (view d)) -> counters_ok cap (view d) ->
  counters_ok cap (view (fst (for_each jobs (fun job =>
    let! _ := exec (UpdateOutbound (out_id job) reclaim_patch) in ret tt) d))).
Proof.
  revert d. induction jobs as [|job jobs IH]; intros d Hl Hc; [done|]. simpl. unfold bind at 1 2.
  exec_step; simpl; [|apply IH; rewrite E; [set_solver|done]].
  destruct E as [ts E]. apply IH; rewrite E.
  - intros job' Hin o. simpl. rewrite lookup_alter_Some.
    intros [(_ & o' & _ & ->)|[_ Ho]]; [done|]. eapply Hl; [|done]. set_solver.
  - apply counters_alter; [|done]. intros o Ho Ha. apply Hl in Ho; [|set_solver].
    unfold attempts_ok in *. simpl. by destruct (out_status o).
Qed.

Lemma inv_reclaim : evolves view (kept queue_inv) reclaim_in_progress.
Proof.
  intros d [W Hc]. split; [by apply reclaim_evolves|].
  unfold reclaim_in_progress, bind. exec_step; [|simpl; by rewrite E].
  destruct E as [Ev Hr]. rewrite <- Ev in W, Hc, Hr. apply counters_reclaim_loop; [|done].
  intros job Hin o Ho. rewrite Hr, elem_of_outbound_rows in Hin by done.
  destruct Hin as [Hj Hs]. apply bool_decide_eq_true in Hs. simplify_eq. by rewrite Hs.
Qed.

Lemma inv_worker envs : evolves view (kept queue_inv) (run_outbound_worker envs config).
Proof.
  unfold run_outbound_worker, worker_tick, drain_once.
  pose proof inv_reclaim. pose proof inv_drain_job. evolve.
  apply evolves_exec; [typeclasses eauto|]. by intros t rs t' [-> _].
Qed.
End Cap.

(** ** Rejected jobs *)

(** Under [env] the job is attempted and no host accepts it. *)
Definition rejects (env : NetEnv) (config : OutboundWorkerConfig) (t : Tables) (o : Outbound) : Prop :=
  exists msg envl targets, deliverable env config t o msg envl targets /\
    accepted (attempt_log (contact env o msg envl config) 0 targets) = false.

(** Consecutive ticks are at least the largest backoff apart. *)
Fixpoint spaced (config : OutboundWorkerConfig) (envs : list NetEnv) : Prop :=
  match envs with
  | env1 :: ((env2 :: _) as envs') =>
      (add_seconds (ne_now env1) (Z.of_N (as_secs (max_backoff config))) <= ne_now env2)%Z /\
      spaced config envs'
  | _ => True
  end.

Lemma backoff_bound config a :
  (as_secs (max_backoff config) < 2 ^ 63)%N ->
  (as_i64 (as_secs (backoff_delay config a)) <= Z.of_N (as_secs (max_backoff config)))%Z.
Proof.
  intros Hm. unfold backoff_delay. rewrite as_secs_from_secs. unfold as_i64.
  set (m := as_secs (max_backoff config)) in *. set (s := u64_saturating_mul _ _).
  assert (N.min s m <= m)%N by lia. destruct (N.ltb_spec (N.min s m) (2 ^ 63)); lia.
Qed.

(** One rejected tick: the counter goes up by one, and the job is queued for the
    next tick or failed. *)
Lemma rejected_tick config env envs o d :
  available d -> wf_tables (view d) -> (as_secs (max_backoff config) < 2 ^ 63)%N ->
  (out_attempts o + 1 < u64_modulus)%N ->
  t_outbound (view d) !! out_id o = Some o -> out_status o = Queued ->
  is_due (ne_now env) o = true -> rejects env config (view d) o -> spaced config (env :: envs) ->
  exists d' o', worker_tick env config d = (d', tt) /\ available d' /\ wf_tables (view d') /\
    t_messages (view d') = t_messages (view d) /\ t_outbound (view d') !! out_id o = Some o' /\
    job_identity o' = job_identity o /\ out_attempts o' = (out_attempts o + 1)%N /\
    out_status o' = (if (out_attempts o + 1 <=? max_attempts config)%N then Queued else Failed) /\
    match envs with env' :: _ => is_due (ne_now env') o' = true | [] => True end.
Proof.
  intros Hav W Hmax Hlt Ho Hq Hdue (msg & envl & targets & Hdv & Hrej) Hsp.
  destruct (tick_resolves env config o msg envl targets d) as (d' & ts & E & Ha & W' & Hm & Ho'); [done..|].
  exists d'. eexists. do 5 (split; [eassumption|]).
  unfold attempt_patch, resolution. rewrite Hrej, u64_add_small by done.
  destruct (out_attempts o + 1 <=? max_attempts config)%N; (split; [done|]; split; [done|]; split; [done|]).
  - destruct envs as [|env' envs]; [done|]. destruct Hsp as [Hsp _]. simpl.
    apply negb_true_iff, Z.ltb_ge. etrans; [|exact Hsp]. unfold add_seconds.
    apply Z.add_le_mono_l, Z.mul_le_mono_nonneg_r; [done|]. by apply backoff_bound.
  - by destruct envs.
Qed.

Lemma spaced_tail config env envs : spaced config (env :: envs) -> spaced config envs.
Proof. destruct envs; simpl; tauto. Qed.

Lemma rejects_step env config t t' o o' :
  t_messages t' = t_messages t -> job_identity o' = job_identity o ->
  rejects env config t o -> rejects env config t' o'.
Proof.
  intros Hm Hid (msg & envl & targets & [D1 D2 D3 D4] & Hr).
  injection Hid as E1 E2 E3 E4. exists msg, envl, targets. unfold contact in *. rewrite E1.
  split; [|done]. split; rewrite ?Hm, ?E2, ?E3; done.
Qed.

Lemma rejected_run config envs o d :
  available d -> wf_tables (view d) -> (as_secs (max_backoff config) < 2 ^ 63)%N ->
  (max_attempts config + 1 < u64_modulus)%N ->
  t_outbound (view d) !! out_id o = Some o -> out_status o = Queued ->
  Forall (fun env => rejects env config (view d) o) envs -> spaced config envs ->
  match envs with env :: _ => is_due (ne_now env) o = true | [] => True end ->
  (out_attempts o + N.of_nat (List.length envs) <= max_attempts config + 1)%N ->
  exists o', t_outbound (view (fst (run_outbound_worker envs config d))) !! out_id o = Some o' /\
    job_identity o' = job_identity o /\
    out_attempts o' = (out_attempts o + N.of_nat (List.length envs))%N /\
    out_status o' = (if (out_attempts o' <=? max_attempts config)%N then Queued
                     else match envs with [] => Queued | _ => Failed end).
Proof.
  intros Hav W Hmax Hcap. revert o d Hav W.
  induction envs as [|env envs IH]; intros o d Hav W Ho Hq Hrej Hsp Hdue Hlen.
  { exists o. simpl. split; [done|]. split; [done|]. split; [lia|]. by case_match. }
  simpl in Hlen. apply Forall_cons in Hrej as [Hrej Hrejs].
  destruct (rejected_tick config env envs o d) as (d' & o' & E & Ha & W' & Hm & Ho' & Hid & Hat & Hst & Hdue');
    try done; try lia.
  unfold run_outbound_worker in *. simpl. unfold bind. rewrite E.
  assert (out_id o' = out_id o) as Hk by by injection Hid. rewrite <- Hk in Ho' |- *.
  destruct envs as [|env' envs].
  { exists o'. simpl. rewrite Hst, Hat. split; [done|]. split; [done|]. split; [lia|done]. }
  assert (out_attempts o + 1 <= max_attempts config)%N as Hle by (simpl in Hlen; lia).
  apply N.leb_le in Hle. rewrite Hle in Hst.
  destruct (IH o' d') as (o2 & Ho2 & Hid2 & Hat2 & Hst2); [done..| |by eapply spaced_tail|done| |].
  { eapply Forall_impl; [exact Hrejs|]. intros e. by apply rejects_step. }
  { rewrite Hat. simpl in Hlen |- *. lia. }
  exists o2. split; [done|]. split; [congruence|]. split; [|done].
  rewrite Hat2, Hat. simpl. lia.
Qed.
(** ** Recipients that cannot be resolved *)

Definition unresolvable (env : NetEnv) (recipient : string) : Prop :=
  is_ok (lookup_mx_hosts env recipient) = false.

(** The job is still there, uncounted and not terminal. *)
Definition uncounted (o : Outbound) (t : Tables) : Prop :=
  wf_tables t /\ exists o', t_outbound t !! out_id o = Some o' /\
    job_identity o' = job_identity o /\ out_attempts o' = out_attempts o /\
    terminal (out_status o') = false.

Lemma uncounted_frame o t t' :
  wf_tables t' -> t_outbound t' !! out_id o = t_outbound t !! out_id o ->
  uncounted o t -> uncounted o t'.
Proof. intros W' E [_ H2]. split; [done|]. by rewrite E. Qed.

(** Updates that keep the counter and a live status keep it so. *)
Lemma uncounted_update o id p ts t :
  op_attempts p = None -> terminal (op_status p) = false ->
  wf_tables (on_outbound (alter (patch_outbound p ts) id) t) ->
  uncounted o t -> uncounted o (on_outbound (alter (patch_outbound p ts) id) t).
Proof.
  intros Ha Hp W [_ (o' & Ho & Hid & Hat & Hs)]. split; [done|]. simpl.
  rewrite lookup_alter. case_decide; subst; rewrite Ho; [|by exists o'].
  simpl. eexists. split; [reflexivity|]. split; [exact Hid|]. simpl. by rewrite Ha.
Qed.

Lemma uncounted_reclaim o : evolves view (kept (uncounted o)) reclaim_in_progress.
Proof.
  unfold reclaim_in_progress. evolve.
  - apply evolves_exec; [typeclasses eauto|]. by intros t rs t' [-> _].
  - apply evolves_exec; [typeclasses eauto|]. intros t [] t' [ts ->] Hu.
    apply uncounted_update; [done..| |done].
    eapply (stmt_wf (UpdateOutbound _ reclaim_patch) t tt); [by exists ts|]. apply Hu.
Qed.

(** The claimed job is not delivered: its host list is an error. *)
Lemma unresolvable_deliver_one env job config now d :
  unresolvable env (out_rcpt_to job) ->
  view (fst (deliver_one env job config now d)) = view d.
Proof.
  intros Hu. unfold deliver_one, bind. exec_step; [|done]. destruct E as [Ev _].
  destruct (build_envelope _ _); [|done].
  unfold unresolvable in Hu. by destruct (lookup_mx_hosts env (out_rcpt_to job)).
Qed.

Lemma uncounted_drain_job env config now o job :
  unresolvable env (out_rcpt_to o) ->
  evolves view (kept (uncounted o)) (drain_job env config now job).
Proof.
  intros Hu d Hun. pose proof (proj1 Hun) as W.
  pose proof (wf_drain_job env config now job d W) as W'.
  destruct (decide (out_id job = out_id o)) as [Hid|Hne]; last first.
  { eapply uncounted_frame; [done| |done]. by apply frame_drain_job. }
  revert W'. unfold drain_job. destruct (is_due now job); simpl; [|done]. unfold bind_try, bind.
  destruct (claim (out_id job) d) as [d1 r] eqn:E. apply claim_spec in E; [|done].
  destruct r as [[job'|]|e]; simpl; [|by destruct E as [-> _]|by rewrite E].
  destruct E as (row & ts & Hrow & Hq & -> & Ev).
  assert (Hrcpt : unresolvable env (out_rcpt_to (claimed_job row))).
  { destruct Hun as [_ (o' & Ho & Hi & _)]. rewrite Hid, Ho in Hrow.
    injection Hrow as ->. unfold job_identity in Hi. simpl. congruence. }
  pose proof (unresolvable_deliver_one env (claimed_job row) config now d1 Hrcpt) as Hv.
  destruct (deliver_one _ _ _ _ d1) as [d2 r2]. simpl in *. rewrite Hv, Ev. intros W2.
  by apply uncounted_update.
Qed.

Lemma uncounted_run envs config o :
  Forall (fun env => unresolvable env (out_rcpt_to o)) envs ->
  evolves view (kept (uncounted o)) (run_outbound_worker envs config).
Proof.
  intros Hf. unfold run_outbound_worker, worker_tick, drain_once.
  induction Hf as [|env envs Hu Hf IH]; simpl; [evolve|].
  pose proof (uncounted_reclaim o). pose proof (uncounted_drain_job env config (ne_now env) o).
  evolve.
  apply evolves_exec; [typeclasses eauto|]. by intros t rs t' [-> _].
Qed.
End Retry.
