(* ===== verification/Queue.v ===== *)
(** * Queue: the outbound queue's guarantees

    The correctness theorems of src/src/send.rs, each derived from the lemmas of
    [SendFacts], [Delivery], [Progress] and [Retry], with a concrete run. *)

From S2P Require Import Prelude Text Db Engine Config Send Concrete SendPure SendFacts Delivery Progress Retry.
From Stdlib Require Import Ascii String.
#[local] Open Scope string_scope.

Section Claims.
Context `{!Lettre, !MailParser, HE : DbEngine D}.

(** C22: a claim is all or nothing: it returns the job it moved from [Queued] to
    [InProgress], with every other column of that row but [updated_at] and every
    other row as it was, or it returns none because the job was not queued, or it
    fails; in the last two cases the store is untouched. *)
Theorem claim_atomic id d d' r :
  claim id d = (d', r) -> wf_tables (view d) ->
  match r with
  | Ok (Some job) => exists row ts, t_outbound (view d) !! id = Some row /\ out_status row = Queued /\
      let taken at_ := mkOutbound id (out_message_id row) (out_rcpt_to row) (out_sender_id row) InProgress
        (out_attempts row) (out_next_attempt_at row) (out_last_error row) (out_created_at row) at_ in
      job = taken (out_updated_at row) /\ view d' = on_outbound <[id := taken ts]> (view d)
  | Ok None => view d' = view d /\
      (forall row, t_outbound (view d) !! id = Some row -> out_status row <> Queued)
  | Err _ => view d' = view d
  end.
Proof.
  intros E W. apply claim_spec in E; [|done]. destruct r as [[job|]|e]; [|done..].
  destruct E as (row & ts & Hr & Hq & -> & ->). exists row, ts. split_and!; [done..|].
  rewrite <- (wf_outbound _ W _ _ Hr) in Hr |- *. split; [done|].
  unfold on_outbound. f_equal. by rewrite (alter_alt_Some _ _ _ _ Hr).
Qed.

(** C1: however long the worker runs, whatever the network answers and the engine
    refuses: the tables stay well-formed, no table but the queue and its audit
    changes, no job and no audit row is lost, every new audit row is a job's, every
    job moves along
    [Queued -> InProgress -> Queued | Delivered | Failed], and a [Delivered] or
    [Failed] job never changes again. *)
Theorem worker_lifecycle envs config d :
  wf_tables (view d) ->
  let t' := view (fst (run_outbound_worker envs config d)) in
  wf_tables t' /\ worker_evolves (view d) t'.
Proof. apply worker_evolves_run. Qed.

(** C23: with the attempt cap of the configuration, the counter of a job the
    worker runs on never leaves its range: at most [max_attempts] while it is
    queued or in progress, exactly [max_attempts + 1] once it failed. *)
Theorem worker_counts_attempts config envs d :
  (max_attempts config + 1 < u64_modulus)%N ->
  wf_tables (view d) -> counters_ok (max_attempts config) (view d) ->
  counters_ok (max_attempts config) (view (fst (run_outbound_worker envs config d))).
Proof. intros Hc W H1. by apply (inv_worker config Hc envs d). Qed.

(** C10: one delivery attempt, with an available engine, contacts the targets in
    order until one accepts, writes exactly one audit row per contact, and
    resolves the job as [Delivered], or back to [Queued] with the backoff, or
    [Failed] past the cap. *)
Theorem deliver_hosts_correct env o msg envl config now hosts targets d :
  available d -> is_Some (t_outbound (view d) !! out_id o) ->
  delivery_targets config hosts = Ok targets ->
  (forall h, h ∈ targets -> is_ok (build_outbound_tls (transport config) h) = true) ->
  exists d', deliver_hosts env o msg envl config now hosts d = (d', Ok tt) /\ available d' /\
    attempt_resolved env o msg envl config now 0 targets (default_reason targets) (view d) (view d').
Proof. apply deliver_hosts_resolves. Qed.

(** C11: with an available engine, a worker tick attempts every due job that can
    be attempted (its message is stored, its envelope parses, the MX lookup of its
    recipient answers and the TLS context of every target builds), whatever
    happens to the other jobs: its row afterwards is the one its own attempt
    resolves to. *)
Theorem tick_attempts_due_job env config o msg envl targets d :
  available d -> wf_tables (view d) ->
  t_outbound (view d) !! out_id o = Some o -> out_status o = Queued ->
  is_due (ne_now env) o = true -> deliverable env config (view d) o msg envl targets ->
  exists ts, t_outbound (view (fst (worker_tick env config d))) !! out_id o =
    Some (patch_outbound (attempt_patch env config o msg envl targets) ts o).
Proof.
  intros. destruct (tick_resolves env config o msg envl targets d) as (d' & ts & -> & _ & _ & _ & H');
    eauto.
Qed.

(** C12: a job every host keeps rejecting is retried and then given up: over
    [max_attempts + 1 - attempts] ticks spaced by the largest backoff it ends
    [Failed] with the counter at [max_attempts + 1]. *)
Theorem rejected_job_fails config envs o d :
  available d -> wf_tables (view d) -> (as_secs (max_backoff config) < 2 ^ 63)%N ->
  (max_attempts config + 1 < u64_modulus)%N ->
  t_outbound (view d) !! out_id o = Some o -> out_status o = Queued ->
  out_next_attempt_at o = None -> (out_attempts o <= max_attempts config)%N ->
  Forall (fun env => rejects env config (view d) o) envs -> spaced config envs ->
  (out_attempts o + N.of_nat (List.length envs) = max_attempts config + 1)%N ->
  exists o', t_outbound (view (fst (run_outbound_worker envs config d))) !! out_id o = Some o' /\
    job_identity o' = job_identity o /\ out_status o' = Failed /\
    out_attempts o' = (max_attempts config + 1)%N.
Proof.
  intros Hav W Hm Hc Ho Hq Hn Hle Hrej Hsp Hlen.
  destruct (rejected_run config envs o d) as (o' & Ho' & Hid & Hat & Hst); try done.
  { destruct envs; [done|]. unfold is_due. by rewrite Hn. }
  { lia. }
  exists o'. split; [done|]. split; [done|]. rewrite Hst, Hat, Hlen.
  destruct (N.leb_spec (max_attempts config + 1) (max_attempts config)); [lia|].
  split; [|done]. destruct envs; simpl in Hlen; [lia|done].
Qed.

(** C39: while the MX lookup of its recipient fails, a job is claimed, abandoned
    and reclaimed for ever, under every configuration, one with a relay that
    would not need the lookup included: however many ticks pass it is neither
    delivered nor failed, and no attempt is counted. *)
Theorem unresolvable_job_never_ends envs config o d :
  Forall (fun env => unresolvable env (out_rcpt_to o)) envs ->
  wf_tables (view d) -> t_outbound (view d) !! out_id o = Some o ->
  terminal (out_status o) = false ->
  exists o', t_outbound (view (fst (run_outbound_worker envs config d))) !! out_id o = Some o' /\
    job_identity o' = job_identity o /\ out_attempts o' = out_attempts o /\
    terminal (out_status o') = false.
Proof.
  intros Hf W Ho Ht. apply (uncounted_run envs config o Hf d). split; [done|]. eauto.
Qed.

(** Enqueueing stores the formatted message under a fresh id and one fresh
    job for it, [Queued], uncounted and due at once; a failed enqueue adds no
    job. *)
Lemma enqueue_outbound_correct sender recipient message d d' r :
  enqueue_outbound sender recipient message d = (d', r) ->
  match r with
  | Ok (mid, oid) => exists ts1 ts2,
      t_messages (view d) !! mid = None /\ t_outbound (view d) !! oid = None /\
      view d' =
        on_outbound <[oid := mkOutbound oid mid recipient sender Queued 0 None None ts2 ts2]>
          (on_messages <[mid := message_row (outbound_message message) mid ts1]> (view d))
  | Err _ => t_outbound (view d') = t_outbound (view d) /\
      t_messages (view d) ⊆ t_messages (view d')
  end.
Proof.
  unfold enqueue_outbound, bind. exec_step; [|intros [= <- <-]; by rewrite E].
  destruct E as (mid & ts1 & Hm & -> & Ev). exec_step.
  - destruct E as (oid & ts2 & Ho & -> & Ev2). intros [= <- <-]. simpl in *.
    exists ts1, ts2. rewrite Ev in Ho. simpl in Ho. by rewrite Ev2, Ev.
  - intros [= <- <-]. rewrite E, Ev. simpl. split; [done|]. by apply insert_subseteq.
Qed.
End Claims.

(** ** Concrete runs *)

Definition demo_queued : Outbound := demo_job 7 "you@far.example" Queued 0.
Definition demo_config : OutboundWorkerConfig :=
  mkWorkerConfig (from_secs 5) 1 (from_secs 60) (from_secs 3600) OutboundTransport_default 25.
Definition demo_refusal (now : Timestamp) : NetEnv := demo_env now (Err "550 no such user").
Definition demo_letter : @LettreMessage demo_lettre := (Some "me@near.example", []).
Definition hour : Z := 3600000000000.

Lemma worker_lifecycle_witness :
  wf_tables (view (demo_db demo_queued)) /\
  worker_evolves (view (demo_db demo_queued))
    (view (fst (run_outbound_worker [demo_env 0 (Ok "250 ok")] demo_config (demo_db demo_queued)))).
Proof.
  split; [apply demo_db_wf|].
  apply (worker_lifecycle [demo_env 0 (Ok "250 ok")] demo_config), demo_db_wf.
Defined.

Lemma claim_atomic_witness :
  exists row ts, t_outbound (view (demo_db demo_queued)) !! 7%N = Some row /\ out_status row = Queued /\
    let taken at_ := mkOutbound 7 (out_message_id row) (out_rcpt_to row) (out_sender_id row) InProgress
      (out_attempts row) (out_next_attempt_at row) (out_last_error row) (out_created_at row) at_ in
    demo_job 7 "you@far.example" InProgress 0 = taken (out_updated_at row) /\
    view (fst (claim 7 (demo_db demo_queued))) = on_outbound <[7%N := taken ts]> (view (demo_db demo_queued)).
Proof.
  apply (claim_atomic 7 (demo_db demo_queued) _ (Ok (Some (demo_job 7 "you@far.example" InProgress 0))));
    [by vm_compute | apply demo_db_wf].
Defined.

Lemma demo_counters cap : counters_ok cap (view (demo_db demo_queued)).
Proof.
  intros k o. simpl. rewrite lookup_insert_Some, lookup_empty. intros [[_ <-]|[_ [=]]].
  unfold attempts_ok. simpl. lia.
Qed.

Lemma worker_counts_attempts_witness :
  counters_ok 1 (view (fst (run_outbound_worker [demo_refusal 0] demo_config (demo_db demo_queued)))).
Proof.
  apply (worker_counts_attempts demo_config [demo_refusal 0]);
    [by vm_compute | apply demo_db_wf | apply demo_counters].
Defined.

Lemma deliver_hosts_correct_witness :
  exists d', deliver_hosts (demo_refusal 0) demo_queued demo_message (None, ["you@far.example"])
      demo_config 0 ["mx1"; "mx2"] (demo_db demo_queued) = (d', Ok tt) /\ available d' /\
    attempt_resolved (demo_refusal 0) demo_queued demo_message (None, ["you@far.example"])
      demo_config 0 0 ["mx1"; "mx2"] "all MX attempts failed" (view (demo_db demo_queued)) (view d').
Proof.
  apply (deliver_hosts_correct (demo_refusal 0) demo_queued demo_message (None, ["you@far.example"])
    demo_config 0 ["mx1"; "mx2"] ["mx1"; "mx2"]); [constructor | by eexists | done | by intros h _].
Defined.

Lemma demo_deliverable now answer :
  deliverable (demo_env now answer) demo_config (view (demo_db demo_queued)) demo_queued demo_message
    (Some "me@near.example", ["you@far.example"]) ["mx1.far.example"; "mx2.far.example"].
Proof. split; [done..| by eexists | by intros h _]. Qed.

Lemma tick_attempts_due_job_witness :
  exists ts, t_outbound (view (fst (worker_tick (demo_env 0 (Ok "250 ok")) demo_config (demo_db demo_queued))))
      !! 7%N =
    Some (patch_outbound (mkOutboundPatch Delivered (Some 1%N) (Some None) (Some None)) ts demo_queued).
Proof.
  apply (tick_attempts_due_job (demo_env 0 (Ok "250 ok")) demo_config demo_queued demo_message
    (Some "me@near.example", ["you@far.example"]) ["mx1.far.example"; "mx2.far.example"]);
    [constructor | apply demo_db_wf | done | done | done | apply demo_deliverable].
Defined.

Lemma rejected_job_fails_witness :
  exists o', t_outbound (view (fst (run_outbound_worker [demo_refusal 0; demo_refusal hour] demo_config
      (demo_db demo_queued)))) !! 7%N = Some o' /\
    job_identity o' = job_identity demo_queued /\ out_status o' = Failed /\ out_attempts o' = 2%N.
Proof.
  apply (rejected_job_fails demo_config [demo_refusal 0; demo_refusal hour] demo_queued);
    [constructor | apply demo_db_wf | by vm_compute | by vm_compute | done | done | done
    | by vm_compute | | by vm_compute | done].
  repeat constructor; (do 3 eexists; split; [apply demo_deliverable | done]).
Defined.

Lemma unresolvable_job_never_ends_witness :
  exists o', t_outbound (view (fst (run_outbound_worker [demo_refusal 0; demo_refusal hour] demo_config
      (demo_db (demo_job 7 "you@gone.example" Queued 0))))) !! 7%N = Some o' /\
    job_identity o' = job_identity (demo_job 7 "you@gone.example" Queued 0) /\
    out_attempts o' = 0%N /\ terminal (out_status o') = false.
Proof.
  apply (unresolvable_job_never_ends [demo_refusal 0; demo_refusal hour] demo_config
    (demo_job 7 "you@gone.example" Queued 0)); [by repeat constructor | apply demo_db_wf | done | done].
Defined.

Definition demo_enqueue : M MemDb (result (N * N) string) :=
  enqueue_outbound "me@near.example" "you@far.example" demo_letter.

Definition demo_empty : MemDb := mkMemDb empty_tables 5 [].

Lemma enqueue_outbound_correct_witness :
  exists ts1 ts2, t_messages (view demo_empty) !! 1%N = None /\ t_outbound (view demo_empty) !! 1%N = None /\
    view (fst (demo_enqueue demo_empty)) =
      on_outbound <[1%N := mkOutbound 1 1 "you@far.example" "me@near.example" Queued 0 None None ts2 ts2]>
        (on_messages <[1%N := message_row (outbound_message demo_letter) 1 ts1]> (view demo_empty)).
Proof.
  apply (enqueue_outbound_correct "me@near.example" "you@far.example" demo_letter
    demo_empty (fst (demo_enqueue demo_empty)) (Ok (1%N, 1%N))).
  by vm_compute.
Defined.
