(* ===== verification/Workers.v ===== *)
(** * Workers: several workers on one queue (src/src/send.rs)

    The transactions of [claim] interleaved statement by statement, as the
    processes that share the database run them, and what a second worker's
    reclaim does to a delivery in flight. *)

From S2P Require Import Prelude Text Db Engine Config Send Concrete SendPure SendFacts Delivery Progress Retry.
From Stdlib Require Import Ascii String.
#[local] Open Scope string_scope.

(** ** Interleaved claims *)

(** A worker waits, or is inside the transaction of a claim with the rest of its
    body; a transaction that holds the write lock works on its own copy of the
    tables. *)
Inductive Worker : Type :=
| Waiting
| Claiming (id : N) (copy : option Tables) (rest : Tx (result (option Outbound) string)).

(** The committed tables, who holds the write lock, the workers, and the jobs
    claims have handed out so far. *)
Record Pool : Type := mkPool {
  po_tables : Tables;
  po_holder : option nat;
  po_workers : gmap nat Worker;
  po_granted : list N;
}.

Definition queued (id : N) (t : Tables) : Prop :=
  exists o, t_outbound t !! id = Some o /\ out_status o = Queued.

(** [begin]: an [Immediate] transaction takes the write lock first, and waits
    while another holds it; a [Deferred] one starts without it. *)
Definition begin_tx (m : TransactionMode) (w : nat) (p : Pool) : option (option Tables * option nat) :=
  match m, po_holder p with
  | Immediate, None => Some (Some (po_tables p), Some w)
  | Immediate, Some _ => None
  | Deferred, h => Some (None, h)
  end.

(** The operation at hand succeeds, fails, or commits with the claim's result. *)
Definition executes (rest : Tx (result (option Outbound) string)) (t : Tables)
    (rest' : Tx (result (option Outbound) string)) (t' : Tables) : Prop :=
  match rest with TxExec s k => exists a, stmt_spec s t a t' /\ rest' = k (Ok a) | _ => False end.
Definition fails (rest rest' : Tx (result (option Outbound) string)) : Prop :=
  match rest with
  | TxExec s k => exists e, rest' = k (Err e)
  | TxCommit k => exists e, rest' = k (Err e)
  | TxDone _ => False
  end.
Definition commits (rest : Tx (result (option Outbound) string)) (r : result (option Outbound) string) : Prop :=
  match rest with TxCommit k => k (Ok tt) = TxDone r | _ => False end.

Definition handed_out (r : result (option Outbound) string) : list N :=
  match r with Ok (Some job) => [out_id job] | _ => [] end.

(** The lock after the transaction that had [copy] ends. *)
Definition release (copy : option Tables) (h : option nat) : option nat :=
  match copy with Some _ => None | None => h end.

(** One operation of one worker, or of anybody else.  A statement outside the
    lock sees and changes the committed tables at once, and changes them only
    while nobody holds the lock.  Others keep the tables well-formed and do not
    put a job that was handed out back in the queue. *)
Inductive pool_step : Pool -> Pool -> Prop :=
| StepBegin w id copy h t holder ws granted :
    ws !! w = Some Waiting ->
    begin_tx claim_mode w (mkPool t holder ws granted) = Some (copy, h) ->
    pool_step (mkPool t holder ws granted) (mkPool t h (<[w := Claiming id copy (claim_tx id)]> ws) granted)
| StepLocked w id c c' rest rest' t holder ws granted :
    ws !! w = Some (Claiming id (Some c) rest) -> executes rest c rest' c' ->
    pool_step (mkPool t holder ws granted) (mkPool t holder (<[w := Claiming id (Some c') rest']> ws) granted)
| StepUnlocked w id rest rest' t t' holder ws granted :
    ws !! w = Some (Claiming id None rest) -> executes rest t rest' t' -> (holder = None \/ t' = t) ->
    pool_step (mkPool t holder ws granted) (mkPool t' holder (<[w := Claiming id None rest']> ws) granted)
| StepFails w id copy rest rest' t holder ws granted :
    ws !! w = Some (Claiming id copy rest) -> fails rest rest' ->
    pool_step (mkPool t holder ws granted) (mkPool t holder (<[w := Claiming id copy rest']> ws) granted)
| StepCommit w id copy rest r t holder ws granted :
    ws !! w = Some (Claiming id copy rest) -> commits rest r ->
    pool_step (mkPool t holder ws granted)
      (mkPool (default t copy) (release copy holder) (<[w := Waiting]> ws) (handed_out r ++ granted))
| StepReturn w id copy r t holder ws granted :   (* uncommitted: rolled back *)
    ws !! w = Some (Claiming id copy (TxDone r)) ->
    pool_step (mkPool t holder ws granted)
      (mkPool t (release copy holder) (<[w := Waiting]> ws) (handed_out r ++ granted))
| StepCrash w id copy rest t holder ws granted :
    ws !! w = Some (Claiming id copy rest) ->
    pool_step (mkPool t holder ws granted) (mkPool t (release copy holder) (<[w := Waiting]> ws) granted)
| StepOther t t' ws granted :
    wf_tables t' -> (forall id, id ∈ granted -> ~ queued id t') ->
    pool_step (mkPool t None ws granted) (mkPool t' None ws granted).

(** Where the transaction of a claim of [id] can stand, when the committed tables
    are [t] and its copy is the next. *)
Inductive claim_point (id : N) (t : Tables) : Tables -> Tx (result (option Outbound) string) -> Prop :=
| AtStart : claim_point id t t (claim_tx id)
| AtDiscard failure : claim_point id t t (commit_claim failure None)
| AtFlip job : t_outbound t !! id = Some job -> out_status job = Queued -> claim_point id t t (flip_job job)
| AtCommit failure job t' :
    queued id t -> wf_tables t' -> ~ queued id t' -> (forall j, queued j t' -> queued j t) ->
    out_id job = id -> claim_point id t t' (commit_claim failure (Some job))
| AtError t' e : claim_point id t t' (TxDone (Err e)).

Record pool_inv (p : Pool) : Prop := {
  pi_wf : wf_tables (po_tables p);
  pi_nodup : NoDup (po_granted p);
  pi_taken : forall id, id ∈ po_granted p -> ~ queued id (po_tables p);
  pi_claims : forall w id copy rest, po_workers p !! w = Some (Claiming id copy rest) ->
    exists c, copy = Some c /\ po_holder p = Some w /\ claim_point id (po_tables p) c rest;
}.

Lemma flip_unqueues id job ts t :
  wf_tables t -> t_outbound t !! id = Some job ->
  let t' := on_outbound (alter (patch_outbound claim_patch ts) (out_id job)) t in
  ~ queued id t' /\ (forall j, queued j t' -> queued j t).
Proof.
  intros W Hj. rewrite (wf_outbound _ W _ _ Hj). simpl. unfold queued. simpl. split.
  - intros (o & Ho & Hs). rewrite lookup_alter_eq, Hj in Ho. by injection Ho as <-.
  - intros j (o & Ho & Hs). apply lookup_alter_Some in Ho as [(-> & x & _ & ->)|[_ Ho]]; [done|eauto].
Qed.

Lemma executes_point id t c rest c' rest' :
  wf_tables t -> claim_point id t c rest -> executes rest c rest' c' -> claim_point id t c' rest'.
Proof.
  intros W [|failure|job Hj Hq|failure job t' ? ? ? ? ?|t' e]; simpl; try done.
  - intros (o & [-> Ho] & ->). destruct o as [job|]; [|constructor].
    unfold has_status. case_bool_decide; [by constructor | constructor].
  - intros ([] & (ts & ->) & ->). destruct (flip_unqueues id job ts t W Hj) as [H1 H2].
    apply AtCommit; [by exists job | | done | done | exact (wf_outbound _ W _ _ Hj)].
    apply (stmt_wf (UpdateOutbound (out_id job) claim_patch) t tt); [by exists ts | done].
Qed.

Lemma fails_point id t c rest rest' : claim_point id t c rest -> fails rest rest' -> claim_point id t c rest'.
Proof. intros [| | | |]; simpl; try done; intros [e ->]; constructor. Qed.

(** Only the holder of the lock is inside a claim: what it becomes decides. *)
Lemma claims_of_holder p w id copy rest h t x :
  pool_inv p -> po_workers p !! w = Some (Claiming id copy rest) ->
  match x with
  | Waiting => True
  | Claiming id' copy' rest' => exists c, copy' = Some c /\ h = Some w /\ claim_point id' t c rest'
  end ->
  forall w' id' copy' rest', <[w := x]> (po_workers p) !! w' = Some (Claiming id' copy' rest') ->
  exists c, copy' = Some c /\ h = Some w' /\ claim_point id' t c rest'.
Proof.
  intros I Hw Hx w' id' copy' rest' H. apply lookup_insert_Some in H as [[<- ->]|[Hne H]]; [done|].
  destruct (pi_claims _ I _ _ _ _ Hw) as (c & _ & Hh & _). destruct (pi_claims _ I _ _ _ _ H) as (c' & _ & Hh' & _).
  congruence.
Qed.

Lemma pool_step_inv p p' : pool_step p p' -> pool_inv p -> pool_inv p'.
Proof.
  intros Hs I. pose proof I as [W N T C].
  destruct Hs as [w id copy h t holder ws granted Hw Hb|w id c c' rest rest' t holder ws granted Hw He
    |w id rest rest' t t' holder ws granted Hw He Hl|w id copy rest rest' t holder ws granted Hw Hf
    |w id copy rest r t holder ws granted Hw Hc|w id copy r t holder ws granted Hw
    |w id copy rest t holder ws granted Hw|t t' ws granted W' Hg]; simpl in *;
    try (destruct (C _ _ _ _ Hw) as (c0 & Hcopy & Hh & Hp); simplify_eq).
  - destruct holder as [h0|]; simpl in Hb; simplify_eq. split; simpl; try done.
    intros w' id' copy' rest' H. apply lookup_insert_Some in H as [[<- [= <- <- <-]]|[_ H]].
    + eexists. split_and!; [done..|constructor].
    + by destruct (C _ _ _ _ H) as (_ & _ & ? & _).
  - split; simpl; try done. eapply (claims_of_holder (mkPool t (Some w) ws granted)); [done..|].
    eexists. split_and!; [done..|]. by eapply executes_point.
  - split; simpl; try done. eapply (claims_of_holder (mkPool t (Some w) ws granted)); [done..|].
    eexists. split_and!; [done..|]. by eapply fails_point.
  - destruct Hp as [|failure|job Hj Hq|failure job t' Hq W' Hn Hsub Hid|t' e]; simpl in Hc; try done; simplify_eq; simpl.
    + split; simpl; try done. by eapply (claims_of_holder (mkPool t (Some w) ws granted)).
    + split; simpl; [done| | |by eapply (claims_of_holder (mkPool t (Some w) ws granted))].
      * constructor; [|done]. intros Hin. by apply (T _ Hin).
      * intros j [->|Hj]%elem_of_cons; [done|]. intros Hqj. by apply (T _ Hj), Hsub.
  - inversion Hp; subst. split; simpl; try done. by eapply (claims_of_holder (mkPool t (Some w) ws granted)).
  - split; simpl; try done. by eapply (claims_of_holder (mkPool t (Some w) ws granted)).
  - split; simpl; try done. intros w' id' copy' rest' H. by destruct (C _ _ _ _ H) as (_ & _ & ? & _).
Qed.

(** C9: however the statements of any number of workers' claims interleave, with
    each other, with failing statements, crashing workers and whatever else
    writes to the store without requeueing a job that was handed out, no job is
    handed out twice, and none that was is still queued. *)
Theorem claims_exclusive p p' :
  wf_tables (po_tables p) -> po_holder p = None -> po_granted p = [] ->
  (forall w x, po_workers p !! w = Some x -> x = Waiting) ->
  rtc pool_step p p' ->
  NoDup (po_granted p') /\ forall id, id ∈ po_granted p' -> ~ queued id (po_tables p').
Proof.
  intros W Hh Hg Hw Hrun.
  assert (I : pool_inv p).
  { split; [done | rewrite Hg; constructor | rewrite Hg; set_solver |]. intros w id copy rest H. by apply Hw in H. }
  clear W Hh Hg Hw. induction Hrun as [p|p q p' Hs _ IH]; [by destruct I|]. eauto using pool_step_inv.
Qed.

(** ** A second worker's reclaim *)

Section Reclaim.
Context `{!Lettre, !MailParser, HE : DbEngine D}.

Lemma reclaim_loop_resets o jobs d :
  available d -> wf_tables (view d) -> NoDup (map out_id jobs) -> o ∈ jobs ->
  t_outbound (view d) !! out_id o = Some o ->
  exists ts, t_outbound (view (fst (for_each jobs (fun job =>
    let! _ := exec (UpdateOutbound (out_id job) reclaim_patch) in ret tt) d))) !! out_id o =
    Some (patch_outbound reclaim_patch ts o).
Proof.
  revert d. induction jobs as [|job jobs IH]; intros d Hav W Hnd Hin Ho; [set_solver|].
  simpl in Hnd. apply NoDup_cons in Hnd as [Hn Hnd]. simpl. unfold bind at 1 2.
  pose proof (wf_exec (UpdateOutbound (out_id job) reclaim_patch) d W) as W1.
  pose proof (avail_exec (UpdateOutbound (out_id job) reclaim_patch) d Hav) as Ha1.
  pose proof (frame_update (out_id job) reclaim_patch d) as [_ Hf].
  apply elem_of_cons in Hin as [<-|Hin].
  - destruct (update_outbound_available (out_id o) reclaim_patch d Hav) as (d1 & ts & E & _ & Ev); [by eexists|].
    rewrite E in W1 |- *. simpl in *. destruct (reclaim_loop_frame (out_id o) jobs d1 W1 Hn) as [_ ->].
    exists ts. rewrite Ev. simpl. by rewrite lookup_alter_eq, Ho.
  - destruct (exec (UpdateOutbound (out_id job) reclaim_patch) d) as [d1 r]. simpl in *. apply IH; try done.
    rewrite Hf; [done|]. intros Heq. apply Hn. rewrite <- Heq. by apply list_elem_of_fmap_2.
Qed.

(** Reclaiming puts a job that is in progress back in the queue, due at once. *)
Lemma reclaim_resets o d :
  available d -> wf_tables (view d) -> t_outbound (view d) !! out_id o = Some o -> out_status o = InProgress ->
  exists ts, t_outbound (view (fst (reclaim_in_progress d))) !! out_id o = Some (patch_outbound reclaim_patch ts o).
Proof.
  intros Hav W Ho Hs. unfold reclaim_in_progress, bind.
  destruct (exec_enabled (QueryOutbound (has_status InProgress)) d Hav I) as (d1 & jobs & -> & Ha & Ev & Hr).
  rewrite <- Ev in *. apply reclaim_loop_resets; try done.
  - rewrite Hr. by apply NoDup_outbound_rows.
  - rewrite Hr, elem_of_outbound_rows by done. split; [done|]. by apply bool_decide_eq_true.
Qed.

(** A tick delivers a job another worker has in progress. *)
Lemma tick_takes_over env config o msg envl targets d :
  available d -> wf_tables (view d) -> t_outbound (view d) !! out_id o = Some o -> out_status o = InProgress ->
  deliverable env config (view d) o msg envl targets ->
  accepted (attempt_log (contact env o msg envl config) 0 targets) = true ->
  exists d', worker_tick env config d = (d', tt) /\ available d' /\ wf_tables (view d') /\
    t_messages (view d') = t_messages (view d) /\ is_Some (t_outbound (view d') !! out_id o) /\
    exists k row, receipt (out_id o) k row (view d').
Proof.
  intros Hav W Ho Hs Hdv Hacc. unfold worker_tick, bind.
  pose proof (avail_reclaim d Hav) as Ha0. pose proof (reclaim_evolves d W) as [W0 Hev].
  destruct (reclaim_resets o d Hav W Ho Hs) as [ts Hrow].
  destruct (reclaim_in_progress d) as [d0 []]. simpl in *.
  set (o' := patch_outbound reclaim_patch ts o) in *.
  destruct (drain_resolves env config o' msg envl targets d0) as (d' & ts' & -> & Ha & W' & Hm & Ho' & Hrec); try done.
  { destruct Hdv. split; [|done..]. by rewrite (we_messages _ _ Hev). }
  exists d'. split_and!; [done..| |by eexists|by apply Hrec]. by rewrite Hm, (we_messages _ _ Hev).
Qed.

Lemma resolved_keeps id p log t t' : resolved id p log t t' -> t_delivery t ⊆ t_delivery t'.
Proof.
  intros (ts & audit & delivery & -> & Hp & _). apply map_subseteq_spec. intros k row Hk. simpl.
  apply elem_of_map_to_list. rewrite Hp, elem_of_app. right. by apply elem_of_map_to_list.
Qed.

(** C38: exclusive claims do not prevent a double send: whatever the store, the
    job and the network, when one worker has claimed a job both could deliver and
    a second worker ticks before the first has sent it, the second's
    [reclaim_in_progress] takes the job over, and both hand the message to a host
    that accepts it. *)
Theorem reclaim_allows_double_send env1 env2 config o msg envl targets1 targets2 d :
  available d -> wf_tables (view d) -> t_outbound (view d) !! out_id o = Some o -> out_status o = Queued ->
  deliverable env1 config (view d) o msg envl targets1 ->
  accepted (attempt_log (contact env1 o msg envl config) 0 targets1) = true ->
  deliverable env2 config (view d) o msg envl targets2 ->
  accepted (attempt_log (contact env2 o msg envl config) 0 targets2) = true ->
  exists d1 job d2 d3, claim (out_id o) d = (d1, Ok (Some job)) /\
    worker_tick env2 config d1 = (d2, tt) /\
    deliver_one env1 job config (ne_now env1) d2 = (d3, Ok tt) /\
    exists k1 k2 row1 row2, k1 <> k2 /\
      receipt (out_id o) k1 row1 (view d3) /\ receipt (out_id o) k2 row2 (view d3).
Proof.
  intros Hav W Ho Hq Hdv1 Hacc1 Hdv2 Hacc2.
  destruct (claim_available (out_id o) d Hav W) as (d1 & r & Ec & Ha1 & Hr).
  rewrite (Hr o Ho Hq) in Ec. clear Hr. pose proof (wf_claim (out_id o) d W) as W1. rewrite Ec in W1. simpl in W1.
  pose proof Ec as Ev. apply claim_spec in Ev as (row & ts & Hrow & _ & _ & Ev); [|done].
  rewrite Ho in Hrow. injection Hrow as <-.
  destruct (tick_takes_over env2 config (patch_outbound claim_patch ts o) msg envl targets2 d1)
    as (d2 & Et & Ha2 & W2 & Hm2 & Hx & k1 & row1 & Hk1); try done.
  { rewrite Ev. simpl. by rewrite lookup_alter_eq, Ho. }
  { destruct Hdv2. split; [|done..]. by rewrite Ev. }
  destruct Hdv1 as [Hm He (hosts & Hl & Ht) Htls].
  destruct (exec_enabled (GetMessage (out_message_id (claimed_job o))) d2 Ha2) as (d2' & m & Eg & Ha2' & Hv & Hm').
  { simpl. rewrite Hm2, Ev. simpl. eauto. }
  rewrite Hm2, Ev in Hm'. simpl in Hm'. rewrite Hm in Hm'. injection Hm' as <-.
  destruct (deliver_hosts_resolves env1 (claimed_job o) msg envl config (ne_now env1) hosts targets1 d2' Ha2')
    as (d3 & Ed & _ & Hres); [by rewrite Hv|done..|].
  exists d1, (claimed_job o), d2, d3. split_and!; [done..| |].
  { unfold deliver_one, bind. rewrite Eg. simpl. by rewrite He, Hl. }
  destruct (resolved_receipt _ _ _ _ _ Hres Hacc1) as (k2 & row2 & Hk2 & Hn).
  exists k1, k2, row1, row2. destruct Hk1 as [Hk1 Hr1]. rewrite <- Hv in Hk1.
  split_and!; [congruence| |done]. split; [|done].
  eapply lookup_weaken; [exact Hk1|]. by eapply resolved_keeps.
Qed.
(** A job deleted while its message is being sent still gets its audit row, which
    then names no job. *)
Lemma delivery_outlives_job env o msg envl config now i host targets le tls response d :
  available d -> t_outbound (view d) !! out_id o = None ->
  build_outbound_tls (transport config) host = Ok tls ->
  ne_send_raw env (out_id o) i
    {| sc_host := host; sc_port := target_port config; sc_tls := tls;
       sc_credentials := ot_relay (transport config) ≫= credentials (ne_var env) |} envl (msg_raw msg) = Ok response ->
  let t' := view (fst (deliver_loop env o msg envl config now i (host :: targets) le d)) in
  t_outbound t' !! out_id o = None /\ exists k row, receipt (out_id o) k row t'.
Proof.
  intros Hav Ho Htls Hs. simpl. rewrite Htls, Hs. unfold bind_try, bind.
  destruct (record_delivery_available (out_id o) host (Some 250%N) (Some response) d Hav)
    as (d1 & k & row & -> & _ & _ & Hid & Hau & Ev).
  assert (Hrow : t_outbound (view d1) !! out_id o = None /\ receipt (out_id o) k row (view d1)).
  { rewrite Ev. split; [done|]. split; [apply lookup_insert_eq|]. unfold audit_of in Hau. by simplify_eq. }
  destruct Hrow as [Hn Hr]. exec_step; simpl.
  - destruct E as [ts ->]. split; [by apply lookup_alter_None | by exists k, row].
  - rewrite E. split; [done | by exists k, row].
Qed.
End Reclaim.

(** ** Concrete runs *)

Definition demo_waiting : Outbound := demo_job 7 "you@far.example" Queued 0.
Definition demo_worker_config : OutboundWorkerConfig :=
  mkWorkerConfig (from_secs 5) 1 (from_secs 60) (from_secs 3600) OutboundTransport_default 25.

Definition demo_pool : Pool :=
  mkPool (view (demo_db demo_waiting)) None (<[1%nat := Waiting]> (<[2%nat := Waiting]> ∅)) [].

(** The first worker claims job 7; then the second tries, finds it taken and
    commits nothing. *)
Lemma demo_race : exists p, rtc pool_step demo_pool p /\ po_granted p = [7%N].
Proof.
  eexists. split.
  - eapply rtc_l; [by eapply (StepBegin 1 7)|].
    eapply rtc_l; [by eapply (StepLocked 1); [reflexivity | eexists; split; [split|]]|].
    eapply rtc_l; [by eapply (StepLocked 1); [reflexivity | exists tt; split; [exists 0%Z|]]|].
    eapply rtc_l; [by eapply (StepCommit 1)|].
    eapply rtc_l; [by eapply (StepBegin 2 7)|].
    eapply rtc_l; [by eapply (StepLocked 2); [reflexivity | eexists; split; [split|]]|].
    eapply rtc_l; [by eapply (StepCommit 2)|]. apply rtc_refl.
  - reflexivity.
Qed.

Lemma claims_exclusive_witness :
  exists p, po_granted p = [7%N] /\ NoDup (po_granted p) /\ forall id, id ∈ po_granted p -> ~ queued id (po_tables p).
Proof.
  destruct demo_race as (p & Hr & Hg). exists p. split; [done|].
  apply (claims_exclusive demo_pool p); [apply demo_db_wf | done | done | | done].
  intros w x H. unfold demo_pool in H. cbn [po_workers] in H. apply lookup_insert_Some in H as [[_ <-]|[_ H]]; [done|].
  apply lookup_insert_Some in H as [[_ <-]|[_ H]]; [done|]. by rewrite lookup_empty in H.
Defined.

Lemma demo_takeover now answer :
  deliverable (demo_env now answer) demo_worker_config (view (demo_db demo_waiting)) demo_waiting demo_message
    (Some "me@near.example", ["you@far.example"]) ["mx1.far.example"; "mx2.far.example"].
Proof. split; [done..| by eexists | by intros h _]. Qed.

Lemma reclaim_allows_double_send_witness :
  exists d1 job d2 d3, claim 7 (demo_db demo_waiting) = (d1, Ok (Some job)) /\
    worker_tick (demo_env 5 (Ok "250 ok")) demo_worker_config d1 = (d2, tt) /\
    deliver_one (demo_env 0 (Ok "250 ok")) job demo_worker_config 0 d2 = (d3, Ok tt) /\
    exists k1 k2 row1 row2, k1 <> k2 /\ receipt 7 k1 row1 (view d3) /\ receipt 7 k2 row2 (view d3).
Proof.
  apply (reclaim_allows_double_send (demo_env 0 (Ok "250 ok")) (demo_env 5 (Ok "250 ok")) demo_worker_config demo_waiting
    demo_message (Some "me@near.example", ["you@far.example"]) ["mx1.far.example"; "mx2.far.example"]
    ["mx1.far.example"; "mx2.far.example"]);
    [constructor | apply demo_db_wf | done | done | apply demo_takeover | done | apply demo_takeover | done].
Defined.
