(* ===== verification/Policy.v ===== *)
(** * Policy: roles and permissions (src/src/auth/policy.rs)

    Grants, the compilation of the configured roles into effective grant sets,
    and the authorization decision.  A [HashMap] is the list of its entries in
    the iteration order of the run; the theorems hold for every order. *)

From S2P Require Import Prelude Text Db Config.
From Stdlib Require Import Ascii String.
#[local] Open Scope string_scope.

(** ** Verbs *)

Inductive Verb : Type := Read | Write | Delete.

#[export] Instance Verb_eq_dec : EqDecision Verb.
Proof. solve_decision. Defined.

#[export] Instance Verb_countable : Countable Verb.
Proof.
  apply (inj_countable' (fun v => match v with Read => 0 | Write => 1 | Delete => 2 end)%N
           (fun n => match n with 0%N => Read | 1%N => Write | _ => Delete end)).
  by intros [].
Defined.

(** [Verb::name]. *)
Definition Verb_name (v : Verb) : string :=
  match v with Read => "read" | Write => "write" | Delete => "delete" end.

(** Membership of a string in the alternatives of a [match] arm. *)
Definition one_of (s : string) (l : list string) : bool := existsb (String.eqb s) l.

(** [Verb::from_method]. *)
Definition from_method (method : string) : Verb :=
  if one_of method ["GET"; "HEAD"; "OPTIONS"] then Read
  else if one_of method ["DELETE"] then Delete
  else Write.

(** [Verb::parse]. *)
Definition Verb_parse (token : string) : option Verb :=
  let t := to_ascii_lowercase (trim token) in
  if one_of t ["read"; "get"; "r"] then Some Read
  else if one_of t ["write"; "post"; "put"; "patch"; "w"] then Some Write
  else if one_of t ["delete"; "del"; "d"] then Some Delete
  else None.

(** ** Grants *)

Inductive Grant : Type :=
| All
| AnyVerb (resource : string)
| AnyResource (v : Verb)
| Exact (resource : string) (v : Verb).

#[export] Instance Grant_eq_dec : EqDecision Grant.
Proof. solve_decision. Defined.

Definition Grant_code (g : Grant) : (unit + string) + (Verb + string * Verb) :=
  match g with
  | All => inl (inl tt)
  | AnyVerb r => inl (inr r)
  | AnyResource v => inr (inl v)
  | Exact r v => inr (inr (r, v))
  end.

Definition Grant_decode (c : (unit + string) + (Verb + string * Verb)) : Grant :=
  match c with
  | inl (inl _) => All
  | inl (inr r) => AnyVerb r
  | inr (inl v) => AnyResource v
  | inr (inr (r, v)) => Exact r v
  end.

#[export] Instance Grant_countable : Countable Grant.
Proof. apply (inj_countable' Grant_code Grant_decode). by intros []. Defined.

(** [Grant::parse]. *)
Definition Grant_parse (token : string) : option Grant :=
  let raw := trim token in
  if String.eqb raw "*" || String.eqb raw "*:*" || String.eqb (to_ascii_lowercase raw) "all"
  then Some All else
  match split_once ":"%char raw with
  | None => Some (AnyVerb raw)
  | Some (l, r) =>
      let lhs := trim l in
      let rhs := trim r in
      if String.eqb rhs "*" || is_empty rhs then
        Some (if String.eqb lhs "*" then All else AnyVerb (to_ascii_lowercase lhs))
      else if String.eqb lhs "*" then AnyResource <$> Verb_parse rhs
      else (fun v => Exact (to_ascii_lowercase lhs) v) <$> Verb_parse rhs
  end.

(** [Grant::matches]. *)
Definition matches (g : Grant) (resource : string) (verb : Verb) : bool :=
  match g with
  | All => true
  | AnyVerb r => String.eqb r resource
  | AnyResource v => bool_decide (v = verb)
  | Exact r v => String.eqb r resource && bool_decide (v = verb)
  end.

(** ** Routes *)

Record RouteTarget : Type := mkRouteTarget { rt_resource : string; rt_verb : Verb }.

(** [resource_for_path]. *)
Definition resource_for_path (path : string) : option string :=
  let seg := unwrap_or "" (head (split_char "/"%char (trim_start_matches (is_char "/"%char) path))) in
  if is_empty seg then None else Some (to_ascii_lowercase seg).

(** [route_target]. *)
Definition route_target (path method : string) : option RouteTarget :=
  match resource_for_path path with
  | None => None
  | Some resource => Some (mkRouteTarget resource (from_method method))
  end.

(** ** Compilation *)

Record AuthPolicy : Type := mkAuthPolicy {
  role_grants : gmap string (gset Grant);
  public : gset string;
}.

(** [entry(key).or_default()]. *)
Definition grants_of (m : gmap string (gset Grant)) (key : string) : gset Grant := default ∅ (m !! key).
Definition list_of (m : gmap string (list string)) (key : string) : list string := default [] (m !! key).

(** The direct grants: one [entry] per lowercased name, one [insert] per token
    that parses. *)
Definition direct_step (m : gmap string (gset Grant)) (nc : string * RoleConfig)
  : gmap string (gset Grant) :=
  let key := to_ascii_lowercase (fst nc) in
  <[key := foldl (fun s token => match Grant_parse token with Some g => {[g]} ∪ s | None => s end)
             (grants_of m key) (grants (snd nc))]> m.

Definition direct_grants (roles : list (string * RoleConfig)) : gmap string (gset Grant) :=
  foldl direct_step ∅ roles.

(** The [extends] lists. *)
Definition extends_step (m : gmap string (list string)) (nc : string * RoleConfig)
  : gmap string (list string) :=
  let key := to_ascii_lowercase (fst nc) in
  <[key := (list_of m key ++ map to_ascii_lowercase (extends (snd nc)))%list]> m.

Definition extends_lists (roles : list (string * RoleConfig)) : gmap string (list string) :=
  foldl extends_step ∅ roles.

(** What one role merges from the snapshot. *)
Definition merge_role (snapshot : gmap string (gset Grant)) (role : string) (deps : list string)
  : gset Grant :=
  foldl (fun merged dep => match snapshot !! dep with Some dg => merged ∪ dg | None => merged end)
    (grants_of snapshot role) deps.

(** The body of the [for] loop over [extends]. *)
Definition round_step (snapshot : gmap string (gset Grant))
    (acc : gmap string (gset Grant) * bool) (rd : string * list string)
  : gmap string (gset Grant) * bool :=
  let '(effective, changed) := acc in
  let merged := merge_role snapshot (fst rd) (snd rd) in
  if Nat.eqb (size merged) (size (grants_of snapshot (fst rd))) then (effective, changed)
  else (<[fst rd := grants_of effective (fst rd) ∪ merged]> effective, true).

(** One turn of the [while] loop: the new sets, and whether any grew. *)
Definition round (deps : list (string * list string)) (snapshot : gmap string (gset Grant))
  : gmap string (gset Grant) * bool :=
  foldl (round_step snapshot) (snapshot, false) deps.

(** [while changed && guard < 10_000], from the turn with that much guard left. *)
Fixpoint fixpoint_loop (guard : nat) (deps : list (string * list string))
    (effective : gmap string (gset Grant)) : gmap string (gset Grant) :=
  match guard with
  | O => effective
  | S guard' =>
      let '(effective', changed) := round deps effective in
      if changed then fixpoint_loop guard' deps effective' else effective'
  end.

Definition GUARD : nat := N.to_nat 10000.

(** [AuthPolicy::build]. *)
Definition build (roles : list (string * RoleConfig)) (public_resources : list string) : AuthPolicy :=
  {| role_grants := fixpoint_loop GUARD (map_to_list (extends_lists roles)) (direct_grants roles);
     public := list_to_set (map to_ascii_lowercase public_resources) |}.

(** [AuthPolicy::is_public]. *)
Definition is_public (p : AuthPolicy) (resource : string) : bool :=
  bool_decide (to_ascii_lowercase resource ∈ public p).

(** [AuthPolicy::allows]. *)
Definition allows (p : AuthPolicy) (roles : list string) (target : RouteTarget) : bool :=
  let resource := to_ascii_lowercase (rt_resource target) in
  if bool_decide (resource ∈ public p) then true
  else existsb (fun role =>
         match role_grants p !! to_ascii_lowercase role with
         | Some grants => existsb (fun g => matches g resource (rt_verb target)) (elements grants)
         | None => false
         end) roles.
