(* ===== verification/PolicyFacts.v ===== *)
(** * PolicyFacts: the compiled policy is the closure of the configuration

    [build] iterates a merge until nothing grows or the guard is spent; the sets
    it stops at are exactly the grants reachable along [extends]. *)

From S2P Require Import Prelude Text Db Config Policy.
From Stdlib Require Import Ascii String.
#[local] Open Scope string_scope.

(** ** What the configuration says *)

(** The role [r] is granted [g] by a token of its own. *)
Definition granted (roles : list (string * RoleConfig)) (r : string) (g : Grant) : Prop :=
  exists name cfg token, (name, cfg) ∈ roles /\ to_ascii_lowercase name = r /\
    token ∈ grants cfg /\ Grant_parse token = Some g.

(** The role [r] extends the role [r']. *)
Definition extends_edge (roles : list (string * RoleConfig)) (r r' : string) : Prop :=
  exists name cfg e, (name, cfg) ∈ roles /\ to_ascii_lowercase name = r /\
    e ∈ extends cfg /\ to_ascii_lowercase e = r'.

Lemma grants_of_insert m k s r : grants_of (<[k := s]> m) r = if decide (k = r) then s else grants_of m r.
Proof. unfold grants_of. rewrite lookup_insert. by case_decide. Qed.

Lemma token_fold s tokens g :
  g ∈ foldl (fun s token => match Grant_parse token with Some g => {[g]} ∪ s | None => s end) s tokens <->
  g ∈ (s : gset Grant) \/ exists token, token ∈ tokens /\ Grant_parse token = Some g.
Proof.
  revert s. induction tokens as [|t tokens IH]; intros s; simpl; [set_solver|].
  rewrite IH. destruct (Grant_parse t) as [g'|] eqn:E; set_solver.
Qed.

Lemma granted_cons nc roles r g :
  granted (nc :: roles) r g <->
  (to_ascii_lowercase (fst nc) = r /\ exists token, token ∈ grants (snd nc) /\ Grant_parse token = Some g)
  \/ granted roles r g.
Proof.
  unfold granted. destruct nc as [n c]. simpl. split.
  - intros (name & cfg & token & Hin & Hn & Ht & Hp). apply elem_of_cons in Hin as [[= -> ->]|Hin]; eauto 10.
  - intros [(Hn & token & Ht & Hp)|(name & cfg & token & Hin & Hn & Ht & Hp)];
      [exists n, c, token | exists name, cfg, token]; set_solver.
Qed.

Lemma extends_edge_cons nc roles r r' :
  extends_edge (nc :: roles) r r' <->
  (to_ascii_lowercase (fst nc) = r /\ r' ∈ map to_ascii_lowercase (extends (snd nc)))
  \/ extends_edge roles r r'.
Proof.
  unfold extends_edge. destruct nc as [n c]. simpl. rewrite list_elem_of_fmap. split.
  - intros (name & cfg & e & Hin & Hn & He & Hl). apply elem_of_cons in Hin as [[= -> ->]|Hin]; eauto 10.
  - intros [(Hn & e & He & Hl)|(name & cfg & e & Hin & Hn & He & Hl)];
      [exists n, c, e | exists name, cfg, e]; set_solver.
Qed.

Lemma direct_grants_fold roles m r g :
  g ∈ grants_of (foldl direct_step m roles) r <-> g ∈ grants_of m r \/ granted roles r g.
Proof.
  revert m. induction roles as [|nc roles IH]; intros m; simpl.
  { split; [auto|]. intros [?|(? & ? & ? & H & _)]; [done|set_solver]. }
  rewrite IH, granted_cons. unfold direct_step. rewrite grants_of_insert.
  case_decide as Hk; [subst; rewrite token_fold|]; naive_solver.
Qed.

Lemma direct_grants_spec roles r g : g ∈ grants_of (direct_grants roles) r <-> granted roles r g.
Proof.
  unfold direct_grants. rewrite direct_grants_fold. unfold grants_of at 1.
  rewrite lookup_empty. set_solver.
Qed.

Lemma extends_lists_fold roles m r r' :
  r' ∈ list_of (foldl extends_step m roles) r <-> r' ∈ list_of m r \/ extends_edge roles r r'.
Proof.
  revert m. induction roles as [|nc roles IH]; intros m; simpl.
  { split; [auto|]. intros [?|(? & ? & ? & H & _)]; [done|set_solver]. }
  rewrite IH, extends_edge_cons. unfold extends_step, list_of at 1. rewrite lookup_insert.
  case_decide as Hk; [subst; simpl; rewrite elem_of_app|fold (list_of m r)]; naive_solver.
Qed.

Lemma extends_lists_spec roles r r' : r' ∈ list_of (extends_lists roles) r <-> extends_edge roles r r'.
Proof.
  unfold extends_lists. rewrite extends_lists_fold. unfold list_of at 1.
  rewrite lookup_empty. set_solver.
Qed.

(** ** One round *)

Lemma merge_role_spec snapshot role deps g :
  g ∈ merge_role snapshot role deps <->
  g ∈ grants_of snapshot role \/ exists dep, dep ∈ deps /\ g ∈ grants_of snapshot dep.
Proof.
  unfold merge_role. generalize (grants_of snapshot role) as s.
  induction deps as [|dep deps IH]; intros s; simpl; [set_solver|].
  rewrite IH. destruct (snapshot !! dep) as [dg|] eqn:E.
  - assert (grants_of snapshot dep = dg) by (unfold grants_of; by rewrite E). set_solver.
  - assert (grants_of snapshot dep = ∅) by (unfold grants_of; by rewrite E). set_solver.
Qed.

(** Equal sizes mean that nothing was merged. *)
Lemma merge_role_same snapshot role deps :
  Nat.eqb (size (merge_role snapshot role deps)) (size (grants_of snapshot role)) = true ->
  merge_role snapshot role deps = grants_of snapshot role.
Proof.
  intros Hs. apply Nat.eqb_eq in Hs. symmetry. apply set_subseteq_size_eq; [|lia].
  intros g Hg. apply merge_role_spec. by left.
Qed.

Lemma round_fold snapshot l acc r g :
  (forall r', grants_of snapshot r' ⊆ grants_of (fst acc) r') ->
  g ∈ grants_of (fst (foldl (round_step snapshot) acc l)) r <->
  g ∈ grants_of (fst acc) r \/ exists ds, (r, ds) ∈ l /\ g ∈ merge_role snapshot r ds.
Proof.
  revert acc. induction l as [|[role ds] l IH]; intros [eff ch] Hsub; simpl in *; [set_solver|].
  destruct (Nat.eqb _ _) eqn:E; rewrite IH; simpl; try done.
  - apply merge_role_same in E. split; [set_solver|].
    intros [?|(ds' & Hin & Hg)]; [by left|]. apply elem_of_cons in Hin as [[= -> ->]|Hin].
    + left. apply Hsub. by rewrite <- E.
    + right. eauto.
  - rewrite grants_of_insert. case_decide; subst; set_solver.
  - intros r'. rewrite grants_of_insert. case_decide; subst; set_solver.
Qed.

Lemma round_unchanged snapshot l acc :
  snd (foldl (round_step snapshot) acc l) = false ->
  snd acc = false /\ fst (foldl (round_step snapshot) acc l) = fst acc /\
  forall r ds, (r, ds) ∈ l -> merge_role snapshot r ds = grants_of snapshot r.
Proof.
  revert acc. induction l as [|[role ds] l IH]; intros [eff ch] Hs; simpl in *.
  { split_and!; [done..|]. set_solver. }
  destruct (Nat.eqb _ _) eqn:E; apply IH in Hs as (H1 & H2 & H3); simpl in *; [|done].
  split_and!; [done..|]. intros r ds' Hin. apply elem_of_cons in Hin as [[= -> ->]|Hin];
    [by apply merge_role_same | auto].
Qed.

(** ** The loop *)

Section Loop.
Context (roles : list (string * RoleConfig)).
Abbreviation deps := (map_to_list (extends_lists roles)).
Abbreviation edge := (extends_edge roles).

Lemma elem_of_deps r ds : (r, ds) ∈ deps -> forall r', r' ∈ ds <-> edge r r'.
Proof.
  intros Hin r'. apply elem_of_map_to_list in Hin. rewrite <- extends_lists_spec.
  unfold list_of. by rewrite Hin.
Qed.

Lemma edge_in_deps r r' : edge r r' -> exists ds, (r, ds) ∈ deps /\ r' ∈ ds.
Proof.
  rewrite <- extends_lists_spec. unfold list_of.
  destruct (extends_lists roles !! r) as [ds|] eqn:E; simpl; [|set_solver].
  intros Hr. exists ds. split; [by apply elem_of_map_to_list | done].
Qed.

(** A round adds to each role what the roles it extends had. *)
Lemma round_spec eff r g :
  g ∈ grants_of (fst (round deps eff)) r <->
  g ∈ grants_of eff r \/ exists r', edge r r' /\ g ∈ grants_of eff r'.
Proof.
  unfold round. rewrite round_fold by done. simpl. split.
  - intros [?|(ds & Hin & Hg)]; [by left|]. apply merge_role_spec in Hg as [?|(dep & Hd & Hg)]; [by left|].
    right. exists dep. split; [|done]. by eapply elem_of_deps.
  - intros [?|(r' & He & Hg)]; [by left|]. right. apply edge_in_deps in He as (ds & Hin & Hr).
    exists ds. split; [done|]. apply merge_role_spec. eauto.
Qed.

Lemma round_closed eff r r' :
  snd (round deps eff) = false -> edge r r' -> grants_of eff r' ⊆ grants_of eff r.
Proof.
  intros Hs He. apply round_unchanged in Hs as (_ & _ & Hm).
  apply edge_in_deps in He as (ds & Hin & Hr). rewrite <- (Hm _ _ Hin).
  intros g Hg. apply merge_role_spec. eauto.
Qed.

Lemma loop_sound n eff r g :
  g ∈ grants_of (fixpoint_loop n deps eff) r ->
  exists r', rtc edge r r' /\ g ∈ grants_of eff r'.
Proof.
  revert eff. induction n as [|n IH]; intros eff; simpl; [by exists r|].
  destruct (round deps eff) as [eff' ch] eqn:E.
  assert (Hr : forall r, g ∈ grants_of eff' r ->
            g ∈ grants_of eff r \/ exists r', edge r r' /\ g ∈ grants_of eff r').
  { intros r0. rewrite <- round_spec, E. done. }
  assert (Hlift : forall r0, rtc edge r r0 -> g ∈ grants_of eff' r0 ->
            exists r', rtc edge r r' /\ g ∈ grants_of eff r').
  { intros r0 Hr0 Hg. apply Hr in Hg as [Hg|(r' & He & Hg)]; [by exists r0|].
    exists r'. split; [by eapply rtc_r | done]. }
  destruct ch; [|by apply Hlift]. intros Hg. apply IH in Hg as (r0 & Hr0 & Hg). by eapply Hlift.
Qed.

Lemma loop_complete n k eff r r' g :
  (k <= n)%nat -> nsteps edge k r r' -> g ∈ grants_of eff r' ->
  g ∈ grants_of (fixpoint_loop n deps eff) r.
Proof.
  revert k eff r'. induction n as [|n IH]; intros k eff r' Hk Hs Hg; simpl.
  { assert (k = 0%nat) as -> by lia. by inversion Hs; subst. }
  destruct (round deps eff) as [eff' ch] eqn:E.
  assert (Hr : forall r, g ∈ grants_of eff r \/ (exists r', edge r r' /\ g ∈ grants_of eff r') ->
            g ∈ grants_of eff' r).
  { intros r0. rewrite <- round_spec, E. done. }
  destruct ch.
  - destruct k as [|k]; [apply (IH 0%nat _ r'); [lia|done|auto]|].
    apply nsteps_inv_r in Hs as (r0 & Hs & He). apply (IH k _ r0); [lia|done|]. eauto.
  - apply Hr. left. clear Hk Hr IH. assert (Hc : snd (round deps eff) = false) by by rewrite E.
    induction Hs as [|k r r0 r' He Hs IH]; [done|]. eapply round_closed; eauto.
Qed.
End Loop.

(** ** Short paths *)

Section Paths.
Context {A : Type} `{EqDecision A} (R : relation A).

Inductive path : A -> list A -> A -> Prop :=
| path_nil x : path x [] x
| path_cons x y l z : R x y -> path y l z -> path x (x :: l) z.

Lemma path_suffix x l z w :
  path x l z -> w ∈ l -> exists l', path w l' z /\ l' `suffix_of` l.
Proof.
  induction 1 as [|x y l z Hxy Hp IH]; [set_solver|]. intros Hw.
  destruct (decide (w = x)) as [->|Hne]; [exists (x :: l); split; [by econstructor | done]|].
  destruct IH as (l' & Hl' & Hs); [set_solver|]. exists l'. split; [done|]. by apply suffix_cons_r.
Qed.

Lemma rtc_path x z : rtc R x z -> exists l, path x l z /\ NoDup l.
Proof.
  induction 1 as [x|x y z Hxy _ (l & Hl & Hn)]; [exists []; split; constructor|].
  destruct (decide (x ∈ l)) as [Hin|Hni].
  - destruct (path_suffix _ _ _ _ Hl Hin) as (l' & Hl' & [k ->]). exists l'.
    split; [done|]. by apply NoDup_app in Hn as (_ & _ & ?).
  - exists (x :: l). split; [by econstructor | by constructor].
Qed.

Lemma path_nsteps x l z : path x l z -> nsteps R (List.length l) x z.
Proof. induction 1; simpl; econstructor; eauto. Qed.

Lemma path_sources x l z : path x l z -> forall w, w ∈ l -> exists w', R w w'.
Proof. induction 1 as [|x y l z Hxy _ IH]; intros w Hw; [set_solver|]. set_solver. Qed.
End Paths.

(** A role reachable along [extends] is reachable in at most as many steps as
    there are roles. *)
Lemma extends_short roles r r' :
  rtc (extends_edge roles) r r' ->
  exists k, (k <= List.length roles)%nat /\ nsteps (extends_edge roles) k r r'.
Proof.
  intros Hr. apply rtc_path in Hr as (l & Hp & Hn). exists (List.length l).
  split; [|by apply path_nsteps].
  rewrite <- (length_map (fun nc : string * RoleConfig => to_ascii_lowercase (fst nc)) roles).
  apply submseteq_length, NoDup_submseteq; [done|]. intros w Hw.
  destruct (path_sources _ _ _ _ Hp w Hw) as (w' & name & cfg & e & Hin & Hl & _).
  apply list_elem_of_fmap. by exists (name, cfg).
Qed.

(** ** The compiled policy *)

Lemma build_grants roles pub r g :
  (N.of_nat (List.length roles) <= 10000)%N ->
  g ∈ grants_of (role_grants (build roles pub)) r <->
  exists r', rtc (extends_edge roles) r r' /\ granted roles r' g.
Proof.
  intros Hlen. unfold build. cbn [role_grants]. split.
  - intros Hg. apply loop_sound in Hg as (r' & Hr & Hg). exists r'. by rewrite <- direct_grants_spec.
  - intros (r' & Hr & Hg). apply extends_short in Hr as (k & Hk & Hs).
    eapply loop_complete; [|exact Hs|by apply direct_grants_spec].
    unfold GUARD. lia.
Qed.

(** C6: the decision is the configuration's: a request is allowed exactly when
    its resource is public, or a role of the caller reaches along [extends] a
    role with a token that parses to a grant matching the resource and verb. *)
Theorem policy_exact roles pub caller target :
  (N.of_nat (List.length roles) <= 10000)%N ->
  allows (build roles pub) caller target = true <->
  to_ascii_lowercase (rt_resource target) ∈ map to_ascii_lowercase pub \/
  exists role r' g, role ∈ caller /\ rtc (extends_edge roles) (to_ascii_lowercase role) r' /\
    granted roles r' g /\ matches g (to_ascii_lowercase (rt_resource target)) (rt_verb target) = true.
Proof.
  intros Hlen. pose proof (fun r g => build_grants roles pub r g Hlen) as Hb.
  unfold allows, grants_of in *. change (public (build roles pub))
    with (list_to_set (map to_ascii_lowercase pub) : gset string).
  generalize dependent (role_grants (build roles pub)). intros m Hb.
  case_bool_decide as Hp; rewrite elem_of_list_to_set in Hp; [tauto|].
  rewrite existsb_exists. split.
  - intros (role & Hin & Hm). right. destruct (m !! _) as [gs|] eqn:E; [|done].
    apply existsb_exists in Hm as (g & Hg & Hm). apply list_elem_of_In, elem_of_elements in Hg.
    destruct (proj1 (Hb (to_ascii_lowercase role) g)) as (r' & Hr & Hgr); [by rewrite E|].
    exists role, r', g. split_and!; try done. by apply list_elem_of_In.
  - intros [?|(role & r' & g & Hin & Hr & Hg & Hm)]; [done|]. exists role.
    split; [by apply list_elem_of_In|].
    assert (Hgm : g ∈ default ∅ (m !! to_ascii_lowercase role)) by (apply Hb; eauto).
    destruct (m !! to_ascii_lowercase role) as [gs|]; simpl in Hgm; [|set_solver].
    apply existsb_exists. exists g. split; [|done]. by apply list_elem_of_In, elem_of_elements.
Qed.

Definition demo_roles : list (string * RoleConfig) :=
  [("Viewer", mkRoleConfig ["domains:read"] []);
   ("editor", mkRoleConfig ["records:write"] ["VIEWER"; "editor"])].

Lemma policy_exact_witness :
  (N.of_nat (List.length demo_roles) <= 10000)%N /\
  (allows (build demo_roles ["health"]) ["Editor"] (mkRouteTarget "domains" Read) = true <->
   to_ascii_lowercase "domains" ∈ map to_ascii_lowercase ["health"] \/
   exists role r' g, role ∈ ["Editor"] /\ rtc (extends_edge demo_roles) (to_ascii_lowercase role) r' /\
     granted demo_roles r' g /\ matches g (to_ascii_lowercase "domains") Read = true).
Proof.
  split; [by vm_compute|].
  apply (policy_exact demo_roles ["health"] ["Editor"] (mkRouteTarget "domains" Read)). by vm_compute.
Defined.

(** The order in which the role map is iterated does not matter. *)
Lemma granted_perm roles roles' r g : roles ≡ₚ roles' -> granted roles r g <-> granted roles' r g.
Proof. intros Hp. unfold granted. by setoid_rewrite Hp. Qed.

(** A bare resource token is stored as written while the requests it is
    compared with are lowercased: one with an upper-case letter grants nothing. *)
Lemma bare_grant_uppercase_grants_nothing token resource verb :
  split_once ":"%char (trim token) = None ->
  to_ascii_lowercase (trim token) <> trim token -> to_ascii_lowercase (trim token) <> "all" ->
  exists g, Grant_parse token = Some g /\ matches g (to_ascii_lowercase resource) verb = false.
Proof.
  intros Hs Hl Ha. exists (AnyVerb (trim token)). unfold Grant_parse.
  destruct (String.eqb_spec (trim token) "*") as [E|_]; [by rewrite E in Hl|].
  destruct (String.eqb_spec (trim token) "*:*") as [E|_]; [by rewrite E in Hl|].
  destruct (String.eqb_spec (to_ascii_lowercase (trim token)) "all"); [done|]. simpl. rewrite Hs.
  split; [done|]. apply String.eqb_neq. intros E. apply Hl.
  by rewrite E, to_ascii_lowercase_idem.
Qed.

Lemma bare_grant_uppercase_witness :
  exists g, Grant_parse "Domains" = Some g /\ matches g (to_ascii_lowercase "Domains") Read = false.
Proof. by apply (bare_grant_uppercase_grants_nothing "Domains" "Domains" Read). Defined.
