(* ===== verification/Keys.v ===== *)
(** * Keys: verification keys (src/src/auth/keys.rs)

    The cached JWK set and its resolution of a token header to a key, and the
    fetcher that locates and downloads a set.  jsonwebtoken, reqwest and serde
    are the classes [Jwt] and [Http]; an [Http] value is what the network and the
    clock answer during one call.  A [RwLock] may be poisoned; then it cannot be
    read or written. *)

From S2P Require Import Prelude Text Db Config Send.
From Stdlib Require Import Ascii String.
#[local] Open Scope string_scope.

(** ** jsonwebtoken *)

Inductive Algorithm : Type :=
| HS256 | HS384 | HS512 | ES256 | ES384 | RS256 | RS384 | RS512 | PS256 | PS384 | PS512 | EdDSA.

#[export] Instance Algorithm_eq_dec : EqDecision Algorithm.
Proof. solve_decision. Defined.

(** The fields of a token header the program reads. *)
Record Header : Type := mkHeader { hd_alg : Algorithm; hd_kid : option string }.

(** A validation request: the fields the program sets on [Validation::new]. *)
Record Validation : Type := mkValidation {
  val_algorithms : list Algorithm;
  val_leeway : N;
  val_issuer : option string;
  val_audience : option (list string);
}.

(** [JwkSet::find] returns a key of the set with that id. *)
Class Jwt := {
  DecodingKey : Type;
  Jwk : Type;
  key_id : Jwk -> option string;
  from_secret : string -> DecodingKey;
  from_jwk : Jwk -> option DecodingKey;
  jwk_find : list Jwk -> string -> option Jwk;
  jwk_find_spec : forall set kid j, jwk_find set kid = Some j -> j ∈ set /\ key_id j = Some kid;
  decode_header : string -> result Header string;
  decode : string -> DecodingKey -> Validation -> result Json string;
  parse_jwks : string -> result (list Jwk) string;   (* serde_json::from_str *)
  jwks_from_value : Json -> result (list Jwk) string; (* serde_json::from_value *)
}.

Inductive AuthError : Type :=
| AlgorithmDisallowed (alg : Algorithm)
| UnknownKid
| SourceUnavailable
| Verify (e : string).

(** What reqwest, serde_json and the clock answer during one call. *)
Record Http : Type := mkHttp {
  http_now : N;
  http_send : string -> option (string * string) -> result (result string string) string;
  http_json : string -> result Json string;
}.

(** The header names and values reqwest accepts. *)
Class HeaderSyntax := {
  header_name : string -> option string;
  header_value : string -> option string;
}.

(** ** URLs *)

(** [join_url]. *)
Definition join_url (base path : string) : string :=
  if starts_with "http://" path || starts_with "https://" path then path else
  let base := trim_end_matches (is_char "/"%char) base in
  let path := trim_start_matches (is_char "/"%char) path in
  if is_empty path then base else base +:+ "/" +:+ path.

(** ** The fetcher *)

Record HttpKeysFetcher : Type := mkFetcher {
  hf_base : string;
  hf_discovery : bool;
  hf_discovery_path : string;
  hf_jwks_path_override : option string;
  hf_auth_header : option (string * string);
  hf_resolved : option string;      (* the content of the lock *)
  hf_poisoned : bool;
}.

Section Keys.
Context `{!Jwt}.

Section Credential.
Context `{!HeaderSyntax}.

(** [janux_credential]. *)
Definition janux_credential (token header : option string) (bearer : bool)
  : option (string * string) :=
  match token with
  | None => None
  | Some token =>
      let token := trim token in
      if is_empty token then None else
      let name := match trim <$> header with
                  | Some n => if is_empty n then None else Some n
                  | None => None
                  end in
      let hname := match name with
                   | Some n => unwrap_or "authorization" (header_name n)
                   | None => "authorization"
                   end in
      let value := if bearer then "Bearer " +:+ token else token in
      match header_value value with
      | Some v => Some (hname, v)
      | None => None
      end
  end.

Definition DISCOVERY_PATH : string := "/.well-known/openid-configuration".

(** [HttpKeysFetcher::jwks]. *)
Definition HttpKeysFetcher_jwks (url : string) (token header : option string) (bearer : bool)
  : HttpKeysFetcher :=
  {| hf_base := url; hf_discovery := false; hf_discovery_path := DISCOVERY_PATH;
     hf_jwks_path_override := None; hf_auth_header := janux_credential token header bearer;
     hf_resolved := None; hf_poisoned := false |}.

(** [HttpKeysFetcher::issuer]. *)
Definition HttpKeysFetcher_issuer (issuer : string) (discovery_path jwks_path_override : option string)
    (token header : option string) (bearer : bool) : HttpKeysFetcher :=
  {| hf_base := issuer;
     hf_discovery := match jwks_path_override with None => true | Some _ => false end;
     hf_discovery_path := unwrap_or DISCOVERY_PATH discovery_path;
     hf_jwks_path_override := jwks_path_override;
     hf_auth_header := janux_credential token header bearer;
     hf_resolved := None; hf_poisoned := false |}.
End Credential.

(** The cached location, if the lock can be read and holds one. *)
Definition cached_location (f : HttpKeysFetcher) : option string :=
  if hf_poisoned f then None else hf_resolved f.

Definition remember_location (url : string) (f : HttpKeysFetcher) : HttpKeysFetcher :=
  if hf_poisoned f then f else
  mkFetcher (hf_base f) (hf_discovery f) (hf_discovery_path f) (hf_jwks_path_override f)
    (hf_auth_header f) (Some url) (hf_poisoned f).

(** [client.get(url).send().await?.text().await?], errors under [prefix]. *)
Definition get_text (http : Http) (prefix url : string) (auth : option (string * string))
  : result string string :=
  match http_send http url auth with
  | Err e => Err (prefix +:+ "http: " +:+ e)
  | Ok (Err e) => Err (prefix +:+ "body: " +:+ e)
  | Ok (Ok text) => Ok text
  end.

(** [jwks_location]. *)
Definition jwks_location (http : Http) (f : HttpKeysFetcher)
  : HttpKeysFetcher * result string string :=
  match hf_jwks_path_override f with
  | Some override_path => (f, Ok (join_url (hf_base f) override_path))
  | None =>
      if negb (hf_discovery f) then (f, Ok (hf_base f)) else
      match cached_location f with
      | Some url => (f, Ok url)
      | None =>
          match get_text http "discovery " (join_url (hf_base f) (hf_discovery_path f)) (hf_auth_header f) with
          | Err e => (f, Err e)
          | Ok text =>
              match http_json http text with
              | Err e => (f, Err ("discovery parse: " +:+ e))
              | Ok doc =>
                  match json_get "jwks_uri" doc ≫= json_as_str with
                  | None => (f, Err "discovery document missing `jwks_uri`")
                  | Some jwks_uri =>
                      let jwks_uri := if starts_with "http" jwks_uri then jwks_uri
                                      else join_url (hf_base f) jwks_uri in
                      (remember_location jwks_uri f, Ok jwks_uri)
                  end
              end
          end
      end
  end.

(** [HttpKeysFetcher::fetch]. *)
Definition fetch (http : Http) (f : HttpKeysFetcher) : HttpKeysFetcher * result (list Jwk) string :=
  let '(f', r) := jwks_location http f in
  (f', match r with
       | Err e => Err e
       | Ok url =>
           match get_text http "" url (hf_auth_header f') with
           | Err e => Err e
           | Ok text =>
               match parse_jwks text with
               | Err e => Err ("jwks parse: " +:+ e)
               | Ok [] => Err "empty JWKS"
               | Ok set => Ok set
               end
           end
       end).

(** ** The key set *)

Record CachedSet : Type := mkCachedSet { cs_jwk_set : list Jwk; cs_fetched_at : N }.

Record KeySet : Type := mkKeySet {
  ks_cache : option CachedSet;
  ks_poisoned : bool;
  ks_fetcher : option HttpKeysFetcher;
  ks_ttl : N;
}.

Inductive KeyMaterial : Type :=
| Secret (key : DecodingKey)
| Set_ (ks : KeySet).

(** [KeySet::static_set], [KeySet::remote], [KeySet::is_remote]. *)
Definition static_set (now : N) (set : list Jwk) : KeySet :=
  mkKeySet (Some (mkCachedSet set now)) false None 0.
Definition remote (fetcher : HttpKeysFetcher) (ttl : N) : KeySet :=
  mkKeySet None false (Some fetcher) ttl.
Definition is_remote (ks : KeySet) : bool :=
  match ks_fetcher ks with Some _ => true | None => false end.

(** [KeySet::current]. *)
Definition current (ks : KeySet) : option (list Jwk) :=
  if ks_poisoned ks then None else cs_jwk_set <$> ks_cache ks.

(** [KeySet::should_refetch]; [Instant::elapsed] does not go below zero. *)
Definition should_refetch (now : N) (ks : KeySet) : bool :=
  if ks_poisoned ks then true else
  match ks_cache ks with
  | None => true
  | Some c => (ks_ttl ks <=? now - cs_fetched_at c)%N
  end.

(** [KeySet::store]. *)
Definition store (now : N) (set : list Jwk) (ks : KeySet) : KeySet :=
  if ks_poisoned ks then ks
  else mkKeySet (Some (mkCachedSet set now)) (ks_poisoned ks) (ks_fetcher ks) (ks_ttl ks).

Definition with_fetcher (f : HttpKeysFetcher) (ks : KeySet) : KeySet :=
  mkKeySet (ks_cache ks) (ks_poisoned ks) (Some f) (ks_ttl ks).

(** [pick_key]. *)
Definition pick_key (set : list Jwk) (header : Header) : option DecodingKey :=
  match hd_kid header with
  | Some kid => jwk_find set kid ≫= from_jwk
  | None =>
      match filter (fun k => key_id k = None) set with
      | [k] => from_jwk k
      | _ => None
      end
  end.

(** Step 3b and 4 of [resolve]. *)
Definition resolve_cached (ks : KeySet) (header : Header) : result DecodingKey AuthError :=
  match current ks with
  | Some set => ok_or UnknownKid (pick_key set header)
  | None => Err SourceUnavailable
  end.

(** [KeySet::resolve]. *)
Definition resolve (http : Http) (header : Header) (ks : KeySet)
  : KeySet * result DecodingKey AuthError :=
  match current ks ≫= (fun set => pick_key set header) with
  | Some key => (ks, Ok key)
  | None =>
      match ks_fetcher ks with
      | None => (ks, resolve_cached ks header)
      | Some fetcher =>
          if should_refetch (http_now http) ks then
            let '(fetcher', r) := fetch http fetcher in
            let ks' := with_fetcher fetcher' ks in
            match r with
            | Ok set =>
                let ks'' := store (http_now http) set ks' in
                (ks'', match current ks'' ≫= (fun fresh => pick_key fresh header) with
                       | Some key => Ok key
                       | None => Err UnknownKid
                       end)
            | Err _ => (ks', resolve_cached ks' header)
            end
          else (ks, resolve_cached ks header)
      end
  end.

(** One turn of the loop [spawn_refresh] starts. *)
Definition refresh_once (http : Http) (ks : KeySet) : KeySet :=
  match ks_fetcher ks with
  | None => ks
  | Some fetcher =>
      let '(fetcher', r) := fetch http fetcher in
      let ks' := with_fetcher fetcher' ks in
      match r with
      | Ok set => store (http_now http) set ks'
      | Err _ => ks'
      end
  end.
End Keys.
