(* ===== verification/KeysFacts.v ===== *)
(** * KeysFacts: the key cache answers with the right key *)

From S2P Require Import Prelude Text Db Config Send Keys.
From Stdlib Require Import Ascii String.
#[local] Open Scope string_scope.

Section Facts.
Context `{!Jwt}.

(** What a key of a set has to be for a header: the one with the header's id,
    or the only one without an id. *)
Definition key_for (set : list Jwk) (header : Header) (key : DecodingKey) : Prop :=
  exists j, j ∈ set /\ from_jwk j = Some key /\ key_id j = hd_kid header /\
    (hd_kid header = None -> forall j', j' ∈ set -> key_id j' = None -> j' = j).

Lemma pick_key_sound set header key : pick_key set header = Some key -> key_for set header key.
Proof.
  unfold pick_key, key_for. destruct (hd_kid header) as [kid|].
  - destruct (jwk_find set kid) as [j|] eqn:E; simpl; [|done].
    apply jwk_find_spec in E as [Hin Hk]. intros Hf. exists j. by split_and!.
  - destruct (filter _ set) as [|k [|? ?]] eqn:E; [done| |done]. intros Hf.
    assert (Hall : forall j', j' ∈ set -> key_id j' = None -> j' = k).
    { intros j' Hj Hn. assert (j' ∈ filter (fun k => key_id k = None) set) as Hx
        by (by apply list_elem_of_filter). rewrite E in Hx. set_solver. }
    assert (Hk : k ∈ filter (fun k => key_id k = None) set) by (rewrite E; set_solver).
    apply list_elem_of_filter in Hk as [Hn Hk]. exists k. by split_and!.
Qed.

Lemma current_with_fetcher f ks : current (with_fetcher f ks) = current ks.
Proof. done. Qed.

Lemma current_store now set ks :
  current (store now set ks) = if ks_poisoned ks then current ks else Some set.
Proof. unfold store, current. by destruct (ks_poisoned ks) eqn:E; rewrite ?E. Qed.

Lemma resolve_cached_sound ks header key :
  resolve_cached ks header = Ok key -> exists set, current ks = Some set /\ key_for set header key.
Proof.
  unfold resolve_cached. destruct (current ks) as [set|]; [|done].
  destruct (pick_key set header) eqn:E; [|done]. intros [= <-].
  exists set. split; [done|]. by apply pick_key_sound.
Qed.

Lemma resolve_key_for http header ks ks' key :
  resolve http header ks = (ks', Ok key) ->
  exists set, current ks' = Some set /\ key_for set header key.
Proof.
  unfold resolve. destruct (current ks ≫= _) as [k|] eqn:E.
  { intros [= <- <-]. destruct (current ks) as [set|]; [|done]. exists set.
    split; [done|]. by apply pick_key_sound. }
  destruct (ks_fetcher ks) as [f|]; [|intros [= <- Hr]; by apply resolve_cached_sound].
  destruct (should_refetch _ ks); [|intros [= <- Hr]; by apply resolve_cached_sound].
  destruct (fetch http f) as [f' [set|e]]; [|intros [= <- Hr]; by apply resolve_cached_sound].
  destruct (current (store _ _ _) ≫= _) as [k|] eqn:E2; [|done]. intros [= <- <-].
  destruct (current (store _ _ _)) as [fresh|]; [|done]. exists fresh.
  split; [done|]. by apply pick_key_sound.
Qed.

(** ** Sequences of requests and background refreshes *)

Inductive key_event : Type :=
| Request (http : Http) (header : Header)
| Refresh (http : Http).

Definition key_step (ks : KeySet) (e : key_event) : KeySet :=
  match e with
  | Request http header => fst (resolve http header ks)
  | Refresh http => refresh_once http ks
  end.

Definition event_http (e : key_event) : Http :=
  match e with Request http _ => http | Refresh http => http end.

(** Where a fetcher looks: everything of it but the discovered location. *)
Definition source (f : HttpKeysFetcher) :=
  (hf_base f, hf_discovery f, hf_discovery_path f, hf_jwks_path_override f, hf_auth_header f).

(** A set that some event's network answer delivers from the key set's source. *)
Definition delivered (ks : KeySet) (es : list key_event) (set : list Jwk) : Prop :=
  exists e f f', e ∈ es /\ Some (source f) = source <$> ks_fetcher ks /\ fetch (event_http e) f = (f', Ok set).

Lemma fetch_source http f : source (fst (fetch http f)) = source f.
Proof.
  assert (E : source (fst (jwks_location http f)) = source f).
  { unfold jwks_location, remember_location. repeat (case_match; simpl); try done; unfold source; simpl; congruence. }
  rewrite <- E. unfold fetch. by destruct (jwks_location http f).
Qed.

Lemma key_step_source ks e : source <$> ks_fetcher (key_step ks e) = source <$> ks_fetcher ks.
Proof.
  assert (Hst : forall now set ks', ks_fetcher (store now set ks') = ks_fetcher ks') by (intros; unfold store; by case_match).
  destruct e as [http header|http]; simpl; [unfold resolve; destruct (current ks ≫= _); [done|] | unfold refresh_once];
    destruct (ks_fetcher ks) as [f|] eqn:K; simpl; rewrite ?K; try done; [destruct (should_refetch _ _); [|by simpl; rewrite K]|];
    rewrite <- (fetch_source http f); destruct (fetch http f) as [f' [set|]]; simpl; by rewrite ?Hst.
Qed.

Lemma fetch_nonempty http f f' set : fetch http f = (f', Ok set) -> set <> [].
Proof.
  unfold fetch. destruct (jwks_location http f) as [f1 [url|]]; [|done].
  destruct (get_text _ _ _ _) as [text|]; [|done].
  destruct (parse_jwks text) as [[|k l]|]; naive_solver.
Qed.

(** After a step the set is the one before it, or a freshly delivered one. *)
Lemma key_step_current ks e :
  current (key_step ks e) = current ks \/
  exists set, current (key_step ks e) = Some set /\ delivered ks [e] set.
Proof.
  assert (Hst : forall http f f' set now, ks_fetcher ks = Some f -> fetch http f = (f', Ok set) -> event_http e = http ->
    current (store now set (with_fetcher f' ks)) = current ks \/
    exists s, current (store now set (with_fetcher f' ks)) = Some s /\ delivered ks [e] s).
  { intros http f f' set now Hk Hf He. rewrite current_store. simpl.
    destruct (ks_poisoned ks); [by left|]. right. exists set. split; [done|].
    exists e, f, f'. rewrite He, Hk. split; [set_solver | done]. }
  destruct e as [http header|http]; simpl.
  - unfold resolve. destruct (current ks ≫= _); [by left|].
    destruct (ks_fetcher ks) as [f|] eqn:Hk; [|by left]. destruct (should_refetch _ _); [|by left].
    destruct (fetch http f) as [f' [set|]] eqn:E; [|by left]. simpl. by eapply Hst.
  - unfold refresh_once. destruct (ks_fetcher ks) as [f|] eqn:Hk; [|by left].
    destruct (fetch http f) as [f' [set|]] eqn:E; [|by left]. by eapply Hst.
Qed.

Lemma delivered_mono ks ks' es es' set :
  es ⊆ es' -> source <$> ks_fetcher ks = source <$> ks_fetcher ks' -> delivered ks es set -> delivered ks' es' set.
Proof. intros Hs Hk (e & f & f' & Hin & Hf & Hx). exists e, f, f'. rewrite <- Hk. auto. Qed.

Lemma key_run_current es ks :
  current (foldl key_step ks es) = current ks \/
  exists set, current (foldl key_step ks es) = Some set /\ delivered ks es set.
Proof.
  revert ks. induction es as [|e es IH]; intros ks; simpl; [by left|].
  destruct (IH (key_step ks e)) as [->|(set & -> & Hd)].
  - destruct (key_step_current ks e) as [->|(set & -> & Hd)]; [by left|].
    right. exists set. split; [done|]. eapply delivered_mono; [| |done]; [set_solver | done].
  - right. exists set. split; [done|]. eapply delivered_mono; [| |done]; [set_solver | apply key_step_source].
Qed.

(** C32: a key that [resolve] returns belongs to the set cached when it returns,
    and is the key the header asks for: the one with its [kid], or, without one,
    the only key of the set that has no id. *)
Theorem resolve_sound http header ks ks' key :
  resolve http header ks = (ks', Ok key) ->
  exists set, current ks' = Some set /\ key_for set header key.
Proof. apply resolve_key_for. Qed.

(** C33: the cache keeps the last good set: whatever requests and refreshes do
    and however the network fails, a set once cached is only ever replaced by a
    non-empty set its own source delivered, never dropped. *)
Theorem cache_last_known_good es ks set0 :
  current ks = Some set0 ->
  exists set, current (foldl key_step ks es) = Some set /\
    (set = set0 \/ (set <> [] /\ delivered ks es set)).
Proof.
  intros H0. destruct (key_run_current es ks) as [E|(set & E & Hd)].
  - exists set0. rewrite E. auto.
  - exists set. split; [done|]. right. split; [|done].
    destruct Hd as (e & f & f' & _ & _ & Hf). by eapply fetch_nonempty.
Qed.

(** While the cached set is younger than the ttl a request never reaches the
    network: its answer is that of the cache, for every network. *)
Lemma fresh_cache_no_fetch http header ks :
  should_refetch (http_now http) ks = false ->
  resolve http header ks = (ks, resolve_cached ks header).
Proof.
  intros Hs. unfold resolve. rewrite Hs.
  destruct (current ks ≫= _) as [k|] eqn:E; [|by destruct (ks_fetcher ks)].
  unfold resolve_cached. destruct (current ks) as [set|]; [|done]. simpl in E. by rewrite E.
Qed.

(** Discovery runs at most once: a location found through it is the answer
    of every later call, whatever the network says then. *)
Lemma discovery_once http http' f f' url :
  hf_poisoned f = false -> jwks_location http f = (f', Ok url) ->
  jwks_location http' f' = (f', Ok url).
Proof.
  intros Hp. unfold jwks_location at 1.
  destruct (hf_jwks_path_override f) as [p|] eqn:Eo.
  { intros [= <- <-]. unfold jwks_location. by rewrite Eo. }
  destruct (hf_discovery f) eqn:Ed; simpl; last first.
  { intros [= <- <-]. unfold jwks_location. by rewrite Eo, Ed. }
  destruct (cached_location f) as [u|] eqn:Ec.
  { intros [= <- <-]. unfold jwks_location. by rewrite Eo, Ed, Ec. }
  destruct (get_text _ _ _ _) as [text|]; [|done]. destruct (http_json http text) as [doc|]; [|done].
  destruct (_ ≫= json_as_str) as [uri|]; [|done]. intros [= <- <-].
  unfold jwks_location, remember_location, cached_location. rewrite Hp. simpl. by rewrite Eo, Ed.
Qed.
End Facts.

(** ** A concrete key set *)

#[export] Program Instance demo_jwt : Jwt := {|
  DecodingKey := string;
  Jwk := option string * string;
  key_id := fst;
  from_secret := id;
  from_jwk := fun j => Some (snd j);
  jwk_find := fun set kid => find (fun j => bool_decide (fst j = Some kid)) set;
  decode_header := fun token => if String.eqb token "good" then Ok (mkHeader HS256 (Some "k1")) else Err "bad";
  decode := fun token key v =>
    if String.eqb key "s1" then Ok (JObject [("sub", JString "me"); ("role", JArray [JString "viewer"])])
    else Err "signature";
  parse_jwks := fun text => Ok [(Some "k1", text)];
  jwks_from_value := fun _ => Err "unsupported";
|}.
Next Obligation.
  intros set kid j Hf. apply find_some in Hf as [Hin Hk].
  split; [by apply list_elem_of_In | by apply bool_decide_eq_true in Hk].
Qed.

Definition demo_http : Http := mkHttp 50 (fun _ _ => Ok (Ok "s1")) (fun _ => Err "no document").
Definition demo_keys : KeySet :=
  mkKeySet (Some (mkCachedSet [(Some "k0", "s0")] 0)) false
    (Some (mkFetcher "https://keys.example/jwks" false "" None None None false)) 10.

Lemma resolve_sound_witness :
  exists set, current (fst (resolve demo_http (mkHeader HS256 (Some "k1")) demo_keys)) = Some set /\
    key_for set (mkHeader HS256 (Some "k1")) "s1".
Proof. by apply (resolve_sound demo_http (mkHeader HS256 (Some "k1")) demo_keys). Defined.

Lemma cache_last_known_good_witness :
  exists set, current (foldl key_step demo_keys [Refresh demo_http]) = Some set /\
    (set = [(Some "k0", "s0")] \/ (set <> [] /\ delivered demo_keys [Refresh demo_http] set)).
Proof. by apply (cache_last_known_good [Refresh demo_http] demo_keys). Defined.

Lemma fresh_cache_no_fetch_witness :
  resolve (mkHttp 5 (fun _ _ => Err "down") (fun _ => Err "down")) (mkHeader HS256 (Some "k0")) demo_keys =
  (demo_keys, Ok "s0").
Proof.
  by apply (fresh_cache_no_fetch (mkHttp 5 (fun _ _ => Err "down") (fun _ => Err "down"))
    (mkHeader HS256 (Some "k0")) demo_keys).
Defined.

Definition demo_discovery : Http :=
  mkHttp 0 (fun _ _ => Ok (Ok "{}")) (fun _ => Ok (JObject [("jwks_uri", JString "keys")])).
Definition demo_issuer : HttpKeysFetcher :=
  mkFetcher "https://id.example/" true "/.well-known/openid-configuration" None None None false.

Lemma discovery_once_witness :
  jwks_location demo_http (fst (jwks_location demo_discovery demo_issuer)) =
  (fst (jwks_location demo_discovery demo_issuer), Ok "https://id.example/keys").
Proof. by apply (discovery_once demo_discovery demo_http demo_issuer). Defined.
