(* ===== verification/Auth.v ===== *)
(** * Auth: authentication and the guard (src/src/auth/mod.rs, guard.rs)

    The service built from the configuration, token verification, the decision
    for a request and the guard that renders a rejection. *)

From S2P Require Import Prelude Text Db Config Send Policy Keys.
From Stdlib Require Import Ascii String.
#[local] Open Scope string_scope.

(** ** Claims *)

Record VerifiedClaims : Type := mkClaims { vc_subject : option string; vc_roles : list string }.

(** [path.split('.').try_fold(root, |cur, seg| cur.get(seg))]. *)
Definition walk (root : Json) (path : string) : option Json :=
  foldl (fun cur seg => cur ≫= json_get seg) (Some root) (split_char "."%char path).

(** [field_str]. *)
Definition field_str (value : Json) (path : string) : option string := walk value path ≫= json_as_str.

(** [BTreeSet::insert]: ascending by bytes, no duplicates. *)
Fixpoint btree_insert (s : string) (l : list string) : list string :=
  match l with
  | [] => [s]
  | x :: l' =>
      match String.compare s x with
      | Lt => s :: l
      | Eq => l
      | Gt => x :: btree_insert s l'
      end
  end.

(** [collect_roles]. *)
Definition collect_roles (value : Json) (path : string) (out : list string) : list string :=
  match walk value path with
  | None => out
  | Some v =>
      let out := match json_as_str v with Some s => btree_insert s out | None => out end in
      match json_as_array v with
      | Some arr =>
          foldl (fun out item => match json_as_str item with Some x => btree_insert x out | None => out end)
            out arr
      | None => out
      end
  end.

(** [VerifiedClaims::extract]. *)
Definition extract (raw : Json) (subject_claim : string) (role_claims : list string) : VerifiedClaims :=
  {| vc_subject := field_str raw subject_claim;
     vc_roles := foldl (fun roles field => collect_roles raw field roles) [] role_claims |}.

Inductive Decision : Type :=
| Continue (claims : option VerifiedClaims)
| Unauthenticated (detail : string)
| Forbidden (detail : string).

Inductive AuthBuildError : Type :=
| NoKeyMaterial
| UnknownAlgorithm (name : string)
| JwksParse (e : string)
| NoSecret.

(** The parts of a request the guard reads; an [Authorization] header whose value
    is not text is [Some None]. *)
Record Request : Type := mkRequest {
  rq_path : string;
  rq_method : string;
  rq_authorization : option (option string);
}.

(** [extract_bearer]. *)
Definition extract_bearer (req : Request) : option string :=
  match rq_authorization req with
  | Some (Some value) =>
      match split_whitespace (trim value) with
      | [scheme; token] => if eq_ignore_ascii_case scheme "bearer" then Some token else None
      | _ => None
      end
  | _ => None
  end.

(** [parse_algorithm]. *)
Definition parse_algorithm (name : string) : option Algorithm :=
  let n := to_ascii_uppercase name in
  if String.eqb n "HS256" then Some HS256
  else if String.eqb n "HS384" then Some HS384
  else if String.eqb n "HS512" then Some HS512
  else if String.eqb n "ES256" then Some ES256
  else if String.eqb n "ES384" then Some ES384
  else if String.eqb n "RS256" then Some RS256
  else if String.eqb n "RS384" then Some RS384
  else if String.eqb n "RS512" then Some RS512
  else if String.eqb n "PS256" then Some PS256
  else if String.eqb n "PS384" then Some PS384
  else if String.eqb n "PS512" then Some PS512
  else if String.eqb n "EDDSA" then Some EdDSA
  else None.

(** [build_algorithms]. *)
Definition build_algorithms (keys : KeyConfig) : result (list Algorithm) AuthBuildError :=
  let names := match kc_algorithms keys with
               | [] => default_algorithms keys
               | names => names
               end in
  collect (map (fun n => ok_or (UnknownAlgorithm n) (parse_algorithm n)) names).

(** base64's two alphabets. *)
Class Base64 := {
  standard_decode : string -> option string;
  url_safe_decode : string -> option string;
}.

(** ** Responses *)

Record ApiProblem : Type := mkProblem {
  pb_status : N;
  pb_type : string;
  pb_detail : option string;
}.

(** A response under construction: the status line and the rendered body, a
    problem document or a handler's payload. *)
Record Response (P : Type) : Type := mkResponse {
  res_status : option N;
  res_body : option (ApiProblem + P);
}.
Arguments mkResponse {P} res_status res_body.
Arguments res_status {P} r.
Arguments res_body {P} r.

(** [write_rejection]. *)
Definition write_rejection {P} (status : N) (detail : string) (res : Response P) : Response P :=
  mkResponse (Some status) (Some (inl (mkProblem status "authentication_error" (Some detail)))).

Section Auth.
Context `{!Jwt}.

Record AuthService : Type := mkAuthService {
  as_enabled : bool;
  as_issuer : option string;
  as_audience : list string;
  as_leeway : N;
  as_algorithms : list Algorithm;
  as_subject_claim : string;
  as_role_claims : list string;
  as_policy : AuthPolicy;
  as_key_material : KeyMaterial;
  as_fail_closed : bool;
}.

Definition with_key_material (k : KeyMaterial) (s : AuthService) : AuthService :=
  mkAuthService (as_enabled s) (as_issuer s) (as_audience s) (as_leeway s) (as_algorithms s)
    (as_subject_claim s) (as_role_claims s) (as_policy s) k (as_fail_closed s).

Definition empty_key : DecodingKey := from_secret "z".

(** [AuthService::disabled]. *)
Definition disabled : AuthService :=
  {| as_enabled := false; as_issuer := None; as_audience := []; as_leeway := 60;
     as_algorithms := [HS256]; as_subject_claim := "sub"; as_role_claims := ["role"];
     as_policy := Policy.build [] default_public;
     as_key_material := Secret empty_key; as_fail_closed := true |}.

(** [resolve_secret_bytes]; [env] is the process environment. *)
Definition resolve_secret_bytes `{!Base64} (env : string -> option string) (keys : KeyConfig)
  : result string AuthBuildError :=
  match (match kc_secret_env keys with
         | Some var =>
             let v := trim (unwrap_or var (env var)) in
             if is_empty v then None else Some v
         | None => None
         end) with
  | Some v => Ok v
  | None =>
      match kc_secret_b64 keys with
      | Some b64 =>
          match standard_decode (trim b64) with
          | Some bytes => Ok bytes
          | None => ok_or NoSecret (url_safe_decode (trim b64))
          end
      | None => ok_or NoSecret (kc_secret keys)
      end
  end.

(** [build_key_material]. *)
Definition build_key_material `{!Base64, !HeaderSyntax} (env : string -> option string) (now : N)
    (cfg : AuthConfig) : result KeyMaterial AuthBuildError :=
  let tc := ac_keys cfg in
  match kc_kind tc with
  | KindSecret => map_ok (fun bytes => Secret (from_secret bytes)) (resolve_secret_bytes env tc)
  | KindJwks =>
      match kc_jwks tc with
      | None => Err NoKeyMaterial
      | Some value =>
          match jwks_from_value value with
          | Err e => Err (JwksParse e)
          | Ok [] => Err NoKeyMaterial
          | Ok set => Ok (Set_ (static_set now set))
          end
      end
  | KindJwksRemote =>
      match kc_jwks_url tc with
      | None => Err NoKeyMaterial
      | Some url =>
          let fetcher := HttpKeysFetcher_jwks url (kc_janux_token tc) (kc_janux_auth_header tc)
                           (kc_janux_bearer tc) in
          Ok (Set_ (remote fetcher (from_secs (kc_cache_ttl_secs tc))))
      end
  | KindIssuer =>
      match kc_issuer tc with
      | None => Err NoKeyMaterial
      | Some issuer =>
          let fetcher := HttpKeysFetcher_issuer issuer (kc_discovery_path tc) (kc_jwks_path tc)
                           (kc_janux_token tc) (kc_janux_auth_header tc) (kc_janux_bearer tc) in
          Ok (Set_ (remote fetcher (from_secs (kc_cache_ttl_secs tc))))
      end
  end.

(** [AuthService::build]; the role map in the iteration order of the run. *)
Definition build `{!Base64, !HeaderSyntax} (env : string -> option string) (now : N) (cfg : AuthConfig)
  : result AuthService AuthBuildError :=
  if negb (ac_enabled cfg) then Ok disabled else
  match build_algorithms (ac_keys cfg) with
  | Err e => Err e
  | Ok algorithms =>
      match build_key_material env now cfg with
      | Err e => Err e
      | Ok key_material =>
          Ok {| as_enabled := ac_enabled cfg; as_issuer := ac_issuer cfg;
                as_audience := ac_audience cfg; as_leeway := ac_clock_skew_secs cfg;
                as_algorithms := algorithms; as_subject_claim := ac_subject_claim cfg;
                as_role_claims := ac_role_claims cfg;
                as_policy := Policy.build (map_to_list (ac_roles cfg)) (ac_public cfg);
                as_key_material := key_material; as_fail_closed := kc_fail_closed (ac_keys cfg) |}
      end
  end.

(** The validation [verify] asks of [decode]. *)
Definition validation (s : AuthService) : Validation :=
  {| val_algorithms := as_algorithms s; val_leeway := as_leeway s; val_issuer := as_issuer s;
     val_audience := match as_audience s with [] => None | aud => Some aud end |}.

(** The signing key, resolved through the cache for a set. *)
Definition signing_key (http : Http) (header : Header) (s : AuthService)
  : AuthService * result DecodingKey AuthError :=
  match as_key_material s with
  | Secret k => (s, Ok k)
  | Set_ ks => let '(ks', r) := resolve http header ks in (with_key_material (Set_ ks') s, r)
  end.

(** [AuthService::verify]. *)
Definition verify (http : Http) (token : string) (s : AuthService)
  : AuthService * result VerifiedClaims AuthError :=
  match decode_header token with
  | Err e => (s, Err (Verify e))
  | Ok header =>
      if negb (bool_decide (hd_alg header ∈ as_algorithms s)) then
        (s, Err (AlgorithmDisallowed (hd_alg header)))
      else
        let '(s', r) := signing_key http header s in
        (s', match r with
             | Err e => Err e
             | Ok key =>
                 match decode token key (validation s) with
                 | Err e => Err (Verify e)
                 | Ok claims => Ok (extract claims (as_subject_claim s) (as_role_claims s))
                 end
             end)
  end.

(** [AuthService::authorize]. *)
Definition authorize (s : AuthService) (roles : list string) (target : RouteTarget) : bool :=
  allows (as_policy s) roles target.

(** [AuthService::enforce]. *)
Definition enforce (http : Http) (req : Request) (s : AuthService) : AuthService * Decision :=
  if negb (as_enabled s) then (s, Continue None) else
  match route_target (rq_path req) (rq_method req) with
  | None => (s, Continue None)
  | Some target =>
      if is_public (as_policy s) (rt_resource target) then (s, Continue None) else
      match extract_bearer req with
      | None => (s, Unauthenticated "missing bearer token on `Authorization`")
      | Some token =>
          let '(s', r) := verify http token s in
          (s', match r with
               | Ok claims =>
                   if allows (as_policy s) (vc_roles claims) target then Continue (Some claims)
                   else Forbidden "authenticated roles do not permit this route"
               | Err SourceUnavailable =>
                   if as_fail_closed s then Unauthenticated "verification key source is unavailable"
                   else Continue None
               | Err _ => Unauthenticated "invalid or expired token"
               end)
      end
  end.

(** ** The guard *)

(** What the guard leaves behind: the principal in the depot, the response, and
    whether the remaining handlers are skipped. *)
Record Guarded (P : Type) : Type := mkGuarded {
  g_principal : option VerifiedClaims;
  g_response : Response P;
  g_skipped : bool;
}.
Arguments mkGuarded {P} g_principal g_response g_skipped.
Arguments g_principal {P} g.
Arguments g_response {P} g.
Arguments g_skipped {P} g.

(** [AuthGuard::handle]. *)
Definition guard {P} (http : Http) (req : Request) (res : Response P) (s : AuthService)
  : AuthService * Guarded P :=
  let '(s', decision) := enforce http req s in
  (s', match decision with
       | Continue claims => mkGuarded claims res false
       | Unauthenticated detail => mkGuarded None (write_rejection 401 detail res) true
       | Forbidden detail => mkGuarded None (write_rejection 403 detail res) true
       end).
End Auth.
Arguments mkGuarded {P} g_principal g_response g_skipped.
Arguments g_principal {P} g.
Arguments g_response {P} g.
Arguments g_skipped {P} g.
