(* ===== verification/AuthFacts.v ===== *)
(** * AuthFacts: who gets past the guard *)

From S2P Require Import Prelude Text Db Config Send Policy Keys KeysFacts Auth.
From Stdlib Require Import Ascii String Sorting.Sorted.
#[local] Open Scope string_scope.

(** ** Role claims *)

Definition ascending : list string -> Prop := Sorted (fun a b => String.compare a b = Lt).

Lemma btree_insert_elem s l x : x ∈ btree_insert s l <-> x = s \/ x ∈ l.
Proof.
  induction l as [|y l IH]; simpl; [set_solver|].
  destruct (String.compare s y) eqn:E; [|set_solver|set_solver].
  apply String.compare_eq_iff in E. subst. set_solver.
Qed.

Lemma btree_insert_ascending s l : ascending l -> ascending (btree_insert s l).
Proof.
  induction 1 as [|y l Hs IH Hh]; simpl; [by repeat constructor|].
  destruct (String.compare s y) eqn:E; [by constructor|by repeat constructor|].
  constructor; [done|]. rewrite String.compare_antisym in E.
  destruct l as [|z l]; simpl in *.
  - constructor. by destruct (String.compare y s).
  - inversion Hh; subst. destruct (String.compare s z); constructor; try done;
      by destruct (String.compare y s).
Qed.

(** The role names a claim holds: a string, or the strings of an array. *)
Definition names_role (v : Json) (r : string) : Prop :=
  v = JString r \/ exists arr, v = JArray arr /\ JString r ∈ arr.

Lemma array_fold arr out r :
  r ∈ foldl (fun out item => match json_as_str item with Some x => btree_insert x out | None => out end) out arr
  <-> r ∈ out \/ JString r ∈ arr.
Proof.
  revert out. induction arr as [|item arr IH]; intros out; simpl; [set_solver|]. rewrite IH.
  destruct item; simpl; rewrite ?btree_insert_elem; set_solver.
Qed.

Lemma array_fold_ascending arr out :
  ascending out ->
  ascending (foldl (fun out item => match json_as_str item with Some x => btree_insert x out | None => out end) out arr).
Proof.
  revert out. induction arr as [|item arr IH]; intros out Ho; simpl; [done|]. apply IH.
  destruct (json_as_str item); [by apply btree_insert_ascending | done].
Qed.

Lemma collect_roles_elem raw field out r :
  r ∈ collect_roles raw field out <-> r ∈ out \/ exists v, walk raw field = Some v /\ names_role v r.
Proof.
  unfold collect_roles, names_role. destruct (walk raw field) as [v|]; [|set_solver].
  destruct v; simpl; rewrite ?btree_insert_elem, ?array_fold; naive_solver.
Qed.

Lemma collect_roles_ascending raw field out : ascending out -> ascending (collect_roles raw field out).
Proof.
  intros Ho. unfold collect_roles. destruct (walk raw field) as [v|]; [|done].
  destruct v; simpl; auto using btree_insert_ascending, array_fold_ascending.
Qed.

(** C34: the roles of a principal are exactly the strings found under the
    configured claims, a string or the string elements of an array, ascending and
    without duplicates; an object, a number or a missing claim contributes none. *)
Theorem extract_roles_exact raw subject_claim role_claims :
  let roles := vc_roles (extract raw subject_claim role_claims) in
  ascending roles /\
  forall r, r ∈ roles <-> exists field v, field ∈ role_claims /\ walk raw field = Some v /\ names_role v r.
Proof.
  simpl. assert (G : forall out, ascending out ->
    ascending (foldl (fun roles field => collect_roles raw field roles) out role_claims) /\
    forall r, r ∈ foldl (fun roles field => collect_roles raw field roles) out role_claims <->
      r ∈ out \/ exists field v, field ∈ role_claims /\ walk raw field = Some v /\ names_role v r).
  { induction role_claims as [|field fields IH]; intros out Ho; simpl; [set_solver|].
    destruct (IH (collect_roles raw field out)) as [Ha Hr]; [by apply collect_roles_ascending|].
    split; [done|]. intros r. rewrite Hr, collect_roles_elem. set_solver. }
  destruct (G []) as [Ha Hr]; [constructor|]. split; [done|]. intros r. rewrite Hr. set_solver.
Qed.

(** ** Algorithms *)

Lemma collect_Ok {A B E} (f : A -> result B E) l bs :
  collect (map f l) = Ok bs <-> Forall2 (fun a b => f a = Ok b) l bs.
Proof.
  revert bs. induction l as [|a l IH]; intros bs; simpl.
  { split; [by intros [= <-] | by inversion 1]. }
  destruct (f a) as [b|e] eqn:Ef; [|split; [done | inversion 1; congruence]].
  destruct (collect (map f l)) as [bs'|] eqn:Ec.
  - split; [intros [= <-]; constructor; [done | by apply IH] |].
    inversion 1 as [|? ? ? ? H1 H2]; subst. apply IH in H2. congruence.
  - split; [done|]. inversion 1 as [|? ? ? ? H1 H2]; subst. apply IH in H2. congruence.
Qed.

(** The allow-list is the configured names, or the defaults, one by one. *)
Lemma build_algorithms_exact keys algs :
  build_algorithms keys = Ok algs <->
  Forall2 (fun n a => parse_algorithm n = Some a)
    (match kc_algorithms keys with [] => default_algorithms keys | names => names end) algs.
Proof.
  unfold build_algorithms. rewrite collect_Ok.
  split; intros HF; (eapply Forall2_impl; [exact HF|]); intros n a; cbv beta;
    destruct (parse_algorithm n); unfold ok_or; intros Hr; inversion Hr; subst; reflexivity.
Qed.

Section Facts.
Context `{!Jwt}.

(** ** Verification *)

(** The key is the configured secret, or the one the cached set has for the
    header. *)
Definition configured_key (material : KeyMaterial) (s' : AuthService) (header : Header) (key : DecodingKey)
  : Prop :=
  match material with
  | Secret k => key = k
  | Set_ _ => exists ks' set, as_key_material s' = Set_ ks' /\ current ks' = Some set /\ key_for set header key
  end.

Lemma signing_key_ok http header s s' key :
  signing_key http header s = (s', Ok key) -> configured_key (as_key_material s) s' header key.
Proof.
  unfold signing_key, configured_key. destruct (as_key_material s) as [k|ks]; [by intros [= _ <-]|].
  destruct (resolve http header ks) as [ks' r] eqn:E. intros [= <- ->].
  apply resolve_key_for in E as (set & Hc & Hk). by exists ks', set.
Qed.

(** A verified token: a permitted algorithm, a configured key, and a signature,
    issuer, audience and lifetime that jsonwebtoken accepted. *)
Definition verified (s s' : AuthService) (token : string) (claims : VerifiedClaims) : Prop :=
  exists header key raw, decode_header token = Ok header /\ hd_alg header ∈ as_algorithms s /\
    configured_key (as_key_material s) s' header key /\
    decode token key (validation s) = Ok raw /\
    claims = extract raw (as_subject_claim s) (as_role_claims s).

Lemma verify_ok http token s s' claims :
  verify http token s = (s', Ok claims) -> verified s s' token claims.
Proof.
  unfold verify, verified. destruct (decode_header token) as [header|]; [|done].
  case_bool_decide as Ha; simpl; [|done].
  destruct (signing_key http header s) as [s1 r] eqn:E. destruct r as [key|]; [|done].
  destruct (decode token key (validation s)) as [raw|] eqn:Ed; [|done].
  intros [= <- <-]. apply signing_key_ok in E. by exists header, key, raw.
Qed.

(** With authentication enabled and failing closed, a request for a resource
    that is not public reaches the handlers only with a bearer token that
    verifies, under an allowed algorithm and a configured key, and whose roles
    the policy permits on that resource and verb. *)
Lemma guarded_access http req s s' target claims :
  as_enabled s = true -> as_fail_closed s = true ->
  route_target (rq_path req) (rq_method req) = Some target ->
  is_public (as_policy s) (rt_resource target) = false ->
  enforce http req s = (s', Continue claims) ->
  exists token c, extract_bearer req = Some token /\ claims = Some c /\
    verified s s' token c /\ allows (as_policy s) (vc_roles c) target = true.
Proof.
  intros He Hf Ht Hp. unfold enforce. rewrite He, Ht, Hp, Hf. simpl.
  destruct (extract_bearer req) as [token|]; [|done].
  destruct (verify http token s) as [s1 [c|e]] eqn:E; [|by destruct e].
  destruct (allows _ _ _) eqn:Ea; [|done]. intros [= <- <-].
  apply verify_ok in E. by exists token, c.
Qed.

(** A request passes without a principal exactly when authentication is off,
    the path names no resource, the resource is public, or the service fails
    open while it has no verification key at all. *)
Lemma anonymous_access http req s :
  snd (enforce http req s) = Continue None <->
  as_enabled s = false \/
  route_target (rq_path req) (rq_method req) = None \/
  (exists target, route_target (rq_path req) (rq_method req) = Some target /\
     is_public (as_policy s) (rt_resource target) = true) \/
  (as_fail_closed s = false /\ exists token, extract_bearer req = Some token /\
     snd (verify http token s) = Err SourceUnavailable).
Proof.
  unfold enforce. destruct (as_enabled s); simpl; [|by split; auto].
  destruct (route_target _ _) as [target|]; simpl; [|by split; auto].
  destruct (is_public _ _) eqn:Ep; simpl; [by split; eauto 10|].
  destruct (extract_bearer req) as [token|]; simpl; last first.
  { split; [done|]. intros [?|[?|[(t & ? & ?)|(? & t & ? & ?)]]]; congruence. }
  destruct (verify http token s) as [s1 r] eqn:Ev; simpl.
  assert (Hrest : (true = false \/ Some target = None \/
      (exists t, Some target = Some t /\ is_public (as_policy s) (rt_resource t) = true) \/
      (as_fail_closed s = false /\ exists t, Some token = Some t /\ snd (verify http t s) = Err SourceUnavailable))
      <-> as_fail_closed s = false /\ r = Err SourceUnavailable).
  { split.
    - intros [?|[?|[(t & ? & ?)|(? & t & ? & Hv)]]]; try congruence. simplify_eq. by rewrite Ev in Hv.
    - intros [? ->]. right. right. right. split; [done|]. exists token. by rewrite Ev. }
  rewrite Hrest. destruct r as [c|e].
  - destruct (allows _ _ _); (split; [done|]; by intros []).
  - destruct e; try (split; [done|]; by intros []).
    by destruct (as_fail_closed s); split; try done; intros [].
Qed.

(** The guard either leaves the response alone and lets the handlers run, or
    skips them all behind a 401 or 403 problem document whose status is the
    response's. *)
Lemma guard_rejects_or_passes {P} http req (res : Response P) s :
  let g := snd (guard http req res s) in
  (g_skipped g = false /\ g_response g = res /\ snd (enforce http req s) = Continue (g_principal g)) \/
  (g_skipped g = true /\ g_principal g = None /\
   exists status detail, (status = 401 \/ status = 403)%N /\
     g_response g = mkResponse (Some status)
       (Some (inl (mkProblem status "authentication_error" (Some detail))))).
Proof.
  unfold guard. destruct (enforce http req s) as [s' [c|d|d]]; simpl; [by left|right..]; split_and!; try done; eauto 10.
Qed.

(** When the variable named by [secret_env] is not set, the name itself is
    the HMAC secret: the service starts, with a key anyone who reads the
    configuration schema can guess. *)
Lemma unset_secret_env_is_the_secret `{!Base64} env keys var :
  kc_secret_env keys = Some var -> env var = None -> is_empty (trim var) = false ->
  resolve_secret_bytes env keys = Ok (trim var).
Proof. intros H1 H2 H3. unfold resolve_secret_bytes. by rewrite H1, H2; simpl; rewrite H3. Qed.
End Facts.

(** ** Concrete services *)

Definition demo_service : AuthService :=
  {| as_enabled := true; as_issuer := None; as_audience := []; as_leeway := 30;
     as_algorithms := [HS256]; as_subject_claim := "sub"; as_role_claims := ["role"];
     as_policy := mkAuthPolicy {["viewer" := {[Exact "domains" Read]}]} ∅;
     as_key_material := Set_ demo_keys; as_fail_closed := true |}.
Definition demo_request : Request := mkRequest "/Domains/x" "GET" (Some (Some "Bearer good")).

Lemma guarded_access_witness :
  exists token c, extract_bearer demo_request = Some token /\
    Some (mkClaims (Some "me") ["viewer"]) = Some c /\
    verified demo_service (fst (enforce demo_http demo_request demo_service)) token c /\
    allows (as_policy demo_service) (vc_roles c) (mkRouteTarget "domains" Read) = true.
Proof.
  apply (guarded_access demo_http demo_request demo_service
    (fst (enforce demo_http demo_request demo_service))); by vm_compute.
Defined.

#[export] Instance demo_base64 : Base64 := {| standard_decode := fun _ => None; url_safe_decode := fun _ => None |}.

Lemma unset_secret_env_witness :
  resolve_secret_bytes (fun _ => None)
    (mkKeyConfig KindSecret None None (Some "ZONEMAIL_SECRET") None None None None None None None true 0 0 true [])
  = Ok "ZONEMAIL_SECRET".
Proof. by apply (unset_secret_env_is_the_secret (fun _ => None) _ "ZONEMAIL_SECRET"). Defined.
