(* ===== verification/Services.v ===== *)
(** * Services: the listener control plane (src/src/services.rs)

    The manager's slots behind one lock, the commands that start and stop
    listeners, and the boot modes.  A [JoinHandle] is the number of its task; the
    world records which tasks were spawned and not aborted, so that a leaked or
    doubled listener is visible.  Whether a spawn succeeds is an argument. *)

From S2P Require Import Prelude Text Db Config.
From Stdlib Require Import Ascii String.
#[local] Open Scope string_scope.

Inductive Service : Type := Api | Smtp | Smtps | Dns.

#[export] Instance Service_eq_dec : EqDecision Service.
Proof. solve_decision. Defined.

(** [Service::all]. *)
Definition all_services : list Service := [Api; Smtp; Smtps; Dns].

(** [Service::parse]. *)
Definition Service_parse (s : string) : option Service :=
  let t := to_ascii_lowercase (trim s) in
  if String.eqb t "api" then Some Api
  else if String.eqb t "smtp" then Some Smtp
  else if String.eqb t "smtps" then Some Smtps
  else if String.eqb t "dns" then Some Dns
  else None.

(** [Service::as_str]. *)
Definition Service_as_str (s : Service) : string :=
  match s with Api => "api" | Smtp => "smtp" | Smtps => "smtps" | Dns => "dns" end.

Inductive Status : Type := Idle | Running.

#[export] Instance Status_eq_dec : EqDecision Status.
Proof. solve_decision. Defined.

(** [BootMode::services], in one order of its [HashSet]. *)
Definition mode_services (m : BootMode) : list Service :=
  match m with
  | ModeFull => [Api; Smtp; Dns]
  | ModeApi => [Api]
  | ModeSmtp => [Smtp]
  | ModeDns => [Dns]
  | ModeOff => []
  end.

Record ServiceReport : Type := mkServiceReport { sr_service : Service; sr_status : Status }.

Record ServiceResult : Type := mkServiceResult {
  res_service : Service;
  res_now : Status;
  res_changed : bool;
}.

Record Slot : Type := mkSlot { slot_status : Status; slot_handle : option N }.

Definition idle_slot : Slot := mkSlot Idle None.

Section Manager.
Context `{!SocketAddrs}.

Record Inner : Type := mkInner {
  in_api : Slot; in_dns : Slot; in_smtp : Slot; in_smtps : Slot;
  in_api_addr : SocketAddr; in_dns_addr : SocketAddr; in_smtp_addr : SocketAddr;
  in_smtps_addr : option SocketAddr;
}.

(** [Inner::slot_mut]: reading and writing the slot of a service. *)
Definition slot (i : Inner) (svc : Service) : Slot :=
  match svc with Api => in_api i | Dns => in_dns i | Smtp => in_smtp i | Smtps => in_smtps i end.

Definition set_slot (svc : Service) (s : Slot) (i : Inner) : Inner :=
  match svc with
  | Api => mkInner s (in_dns i) (in_smtp i) (in_smtps i) (in_api_addr i) (in_dns_addr i) (in_smtp_addr i) (in_smtps_addr i)
  | Dns => mkInner (in_api i) s (in_smtp i) (in_smtps i) (in_api_addr i) (in_dns_addr i) (in_smtp_addr i) (in_smtps_addr i)
  | Smtp => mkInner (in_api i) (in_dns i) s (in_smtps i) (in_api_addr i) (in_dns_addr i) (in_smtp_addr i) (in_smtps_addr i)
  | Smtps => mkInner (in_api i) (in_dns i) (in_smtp i) s (in_api_addr i) (in_dns_addr i) (in_smtp_addr i) (in_smtps_addr i)
  end.

(** [Inner::addr]. *)
Definition addr (i : Inner) (svc : Service) : option SocketAddr :=
  match svc with
  | Api => Some (in_api_addr i)
  | Dns => Some (in_dns_addr i)
  | Smtp => Some (in_smtp_addr i)
  | Smtps => in_smtps_addr i
  end.

(** [Inner::status_of]. *)
Definition inner_status (i : Inner) (svc : Service) : Status := slot_status (slot i svc).

(** The manager and the tasks alive. *)
Record World : Type := mkWorld {
  w_inner : Inner;
  w_tasks : gset N;
  w_next : N;
}.

(** [ServiceManager::new]; [None] is the panic of an [expect] on an address. *)
Definition manager_new (cfg : Config) : option World :=
  match dns_addr cfg, smtp_addr cfg, api_addr cfg with
  | Ok dns, Ok smtp, Ok api =>
      Some (mkWorld (mkInner idle_slot idle_slot idle_slot idle_slot api dns smtp
                       (smtps_addr (cfg_smtp_tls cfg) (cfg_host cfg))) ∅ 0)
  | _, _, _ => None
  end.

(** A spawned task gets a number of its own. *)
Definition spawn_task : M World N := fun w =>
  (mkWorld (w_inner w) ({[w_next w]} ∪ w_tasks w) (w_next w + 1), w_next w).

(** [JoinHandle::abort]. *)
Definition abort_task (h : N) : M World unit := fun w =>
  (mkWorld (w_inner w) (w_tasks w ∖ {[h]}) (w_next w), tt).

Definition update_slot (svc : Service) (s : Slot) : M World unit := fun w =>
  (mkWorld (set_slot svc s (w_inner w)) (w_tasks w) (w_next w), tt).

Definition get_inner : M World Inner := fun w => (w, w_inner w).

Section Commands.
Context (spawn : Service -> SocketAddr -> result unit string).

(** [ServiceManager::start]. *)
Definition start (svc : Service) : M World (result ServiceResult string) :=
  let! i := get_inner in
  match addr i svc with
  | None => ret (Err ("service '" +:+ Service_as_str svc +:+ "' is not configured"))
  | Some a =>
      match slot_status (slot i svc) with
      | Running => ret (Ok (mkServiceResult svc Running false))
      | Idle =>
          match spawn svc a with
          | Err e => ret (Err e)
          | Ok _ =>
              let! handle := spawn_task in
              let! _ := update_slot svc (mkSlot Running (Some handle)) in
              ret (Ok (mkServiceResult svc Running true))
          end
      end
  end.

(** [ServiceManager::stop]. *)
Definition stop (svc : Service) : M World (result ServiceResult string) :=
  let! i := get_inner in
  match slot_handle (slot i svc) with
  | Some handle =>
      let! _ := abort_task handle in
      let! _ := update_slot svc (mkSlot Idle None) in
      ret (Ok (mkServiceResult svc Idle true))
  | None => ret (Ok (mkServiceResult svc Idle false))
  end.

(** [ServiceManager::status_of], [list], [smtps_configured]. *)
Definition status_of (svc : Service) : M World Status :=
  let! i := get_inner in ret (inner_status i svc).

Definition list_services : M World (list ServiceReport) :=
  let! i := get_inner in
  ret (map (fun svc => mkServiceReport svc (inner_status i svc)) all_services).

Definition smtps_configured : M World bool :=
  let! i := get_inner in
  ret (match in_smtps_addr i with Some _ => true | None => false end).

(** Membership in a mode's set. *)
Definition wants (mode : BootMode) (svc : Service) : bool := bool_decide (svc ∈ mode_services mode).

(** [ServiceManager::apply_mode]. *)
Definition apply_mode (mode : BootMode) : M World (list ServiceReport) :=
  let! configured := smtps_configured in
  let smtps_wanted := configured && wants mode Smtp in
  let! _ := for_each all_services (fun svc =>
    let want := match svc with Smtps => smtps_wanted | _ => wants mode svc end in
    if want then let! _ := start svc in ret tt
    else let! _ := stop svc in ret tt) in
  list_services.

(** [ServiceManager::boot], iterating the mode's set in [order]. *)
Definition boot (order : list Service) (mode : BootMode) : M World unit :=
  let! _ := for_each order (fun svc => let! _ := start svc in ret tt) in
  let! configured := smtps_configured in
  if configured && wants mode Smtp then let! _ := start Smtps in ret tt
  else ret tt.

(** [ServiceManager::stop_all]. *)
Definition stop_all : M World unit :=
  for_each all_services (fun svc => let! _ := stop svc in ret tt).
End Commands.
End Manager.
