(* ===== verification/ServicesFacts.v ===== *)
(** * ServicesFacts: every listener has one owner

    The manager's invariant over any sequence of commands, and what a mode
    brings up. *)

From S2P Require Import Prelude Text Db Config Services.
From Stdlib Require Import Ascii String.
#[local] Open Scope string_scope.

Lemma elem_of_all_services svc : svc ∈ all_services.
Proof. destruct svc; set_solver. Qed.

Lemma NoDup_all_services : NoDup all_services.
Proof. by apply (bool_decide_unpack _). Qed.

Section Facts.
Context `{!SocketAddrs}.

Lemma slot_set_slot svc svc' s i : slot (set_slot svc s i) svc' = if decide (svc = svc') then s else slot i svc'.
Proof. by destruct svc, svc'. Qed.

Lemma addr_set_slot svc svc' s i : addr (set_slot svc s i) svc' = addr i svc'.
Proof. by destruct svc, svc'. Qed.

(** A slot is running exactly when it holds a handle, the tasks alive are exactly
    the handles held, and no two slots hold the same one. *)
Record manager_inv (w : World) : Prop := {
  mi_running : forall svc, slot_status (slot (w_inner w) svc) = Running <->
                 is_Some (slot_handle (slot (w_inner w) svc));
  mi_tasks : forall h, h ∈ w_tasks w <-> exists svc, slot_handle (slot (w_inner w) svc) = Some h;
  mi_unique : forall svc svc' h, slot_handle (slot (w_inner w) svc) = Some h ->
                slot_handle (slot (w_inner w) svc') = Some h -> svc = svc';
  mi_fresh : forall h, h ∈ w_tasks w -> (h < w_next w)%N;
}.

Section Commands.
Context (spawn : Service -> SocketAddr -> result unit string).

Lemma start_spec svc w :
  (exists r, start spawn svc w = (w, r)) \/
  (slot_status (slot (w_inner w) svc) = Idle /\
   start spawn svc w =
     (mkWorld (set_slot svc (mkSlot Running (Some (w_next w))) (w_inner w))
        ({[w_next w]} ∪ w_tasks w) (w_next w + 1),
      Ok (mkServiceResult svc Running true))).
Proof.
  unfold start, get_inner, bind. destruct (addr (w_inner w) svc); [|by left; eexists].
  destruct (slot_status _) eqn:E; [|by left; eexists]. destruct (spawn svc s); [|by left; eexists].
  by right.
Qed.

Lemma start_inv svc w : manager_inv w -> manager_inv (fst (start spawn svc w)).
Proof.
  intros I. destruct (start_spec svc w) as [[r ->]|[Hidle ->]]; [done|]. destruct I as [I1 I2 I3 I4]. simpl.
  assert (Hn : slot_handle (slot (w_inner w) svc) = None).
  { apply eq_None_not_Some. intros Hs. apply I1 in Hs. congruence. }
  assert (Hf : forall svc', slot_handle (slot (w_inner w) svc') <> Some (w_next w)).
  { intros svc' Hs. assert (w_next w ∈ w_tasks w) as Hx by (apply I2; eauto). apply I4 in Hx. lia. }
  split; simpl.
  - intros svc'. rewrite slot_set_slot. case_decide; [simpl; split; eauto | apply I1].
  - intros h. rewrite elem_of_union, elem_of_singleton, I2. split.
    + intros [->|(svc' & Hs)]; [exists svc; rewrite slot_set_slot; by case_decide|].
      exists svc'. rewrite slot_set_slot. case_decide; [congruence | done].
    + intros (svc' & Hs). rewrite slot_set_slot in Hs. case_decide; simpl in Hs; [left; congruence | eauto].
  - intros s1 s2 h. rewrite !slot_set_slot. repeat case_decide; simpl; intros Ha Hb; subst; try done.
    + injection Ha as <-. by apply Hf in Hb.
    + injection Hb as <-. by apply Hf in Ha.
    + eauto.
  - intros h. rewrite elem_of_union, elem_of_singleton. intros [->|Hh]; [lia|]. apply I4 in Hh. lia.
Qed.

Lemma stop_spec svc w :
  (slot_handle (slot (w_inner w) svc) = None /\
   stop svc w = (w, Ok (mkServiceResult svc Idle false))) \/
  (exists h, slot_handle (slot (w_inner w) svc) = Some h /\
   stop svc w = (mkWorld (set_slot svc idle_slot (w_inner w)) (w_tasks w ∖ {[h]}) (w_next w),
                 Ok (mkServiceResult svc Idle true))).
Proof.
  unfold stop, get_inner, bind. destruct (slot_handle _) as [h|] eqn:E; [right; by eexists | by left].
Qed.

Lemma stop_inv svc w : manager_inv w -> manager_inv (fst (stop svc w)).
Proof.
  intros I. destruct (stop_spec svc w) as [[_ ->]|(h & Hh & ->)]; [done|]. destruct I as [I1 I2 I3 I4].
  split; simpl.
  - intros svc'. rewrite slot_set_slot. case_decide; [|apply I1]. simpl. split; [done | by intros []].
  - intros h'. rewrite elem_of_difference, elem_of_singleton, I2. split.
    + intros [(svc' & Hs) Hne]. exists svc'. rewrite slot_set_slot. case_decide; [congruence | done].
    + intros (svc' & Hs). rewrite slot_set_slot in Hs. case_decide as Hd; [done|].
      split; [eauto|]. intros ->. apply Hd. eauto.
  - intros s1 s2 h'. rewrite !slot_set_slot. repeat case_decide; try done; eauto.
  - intros h'. rewrite elem_of_difference. intros [H1 _]. auto.
Qed.

Abbreviation keeps_inv := (evolves (fun w : World => w) (kept manager_inv)).

Lemma keeps_start svc : keeps_inv (start spawn svc).
Proof. intros w Hw. by apply start_inv. Qed.

Lemma keeps_stop svc : keeps_inv (stop svc).
Proof. intros w Hw. by apply stop_inv. Qed.

Lemma keeps_get : keeps_inv get_inner.
Proof. by intros w. Qed.

#[local] Hint Resolve keeps_start keeps_stop keeps_get : zm.

(** A command of the control plane. *)
Inductive command : Type :=
| CStart (svc : Service)
| CStop (svc : Service)
| CMode (mode : BootMode)
| CBoot (order : list Service) (mode : BootMode)
| CStopAll.

Definition run_command (c : command) : M World unit :=
  match c with
  | CStart svc => let! _ := start spawn svc in ret tt
  | CStop svc => let! _ := stop svc in ret tt
  | CMode mode => let! _ := apply_mode spawn mode in ret tt
  | CBoot order mode => boot spawn order mode
  | CStopAll => stop_all
  end.

Lemma keeps_command c : keeps_inv (run_command c).
Proof.
  destruct c; simpl; unfold apply_mode, boot, stop_all, smtps_configured, list_services; evolve.
Qed.

Lemma keeps_commands cs : keeps_inv (for_each cs run_command).
Proof. pose proof keeps_command. evolve. Qed.

(** ** Modes *)

(** What [want] asks of each service. *)
Definition as_wanted (b : bool) : Status := if b then Running else Idle.

Definition mode_body (want : Service -> bool) (svc : Service) : M World unit :=
  if want svc then let! _ := start spawn svc in ret tt else let! _ := stop svc in ret tt.

Context (Hspawn : forall svc a, spawn svc a = Ok tt).

Lemma start_status svc w :
  is_Some (addr (w_inner w) svc) ->
  inner_status (w_inner (fst (start spawn svc w))) svc = Running /\
  (forall svc', svc' <> svc -> inner_status (w_inner (fst (start spawn svc w))) svc' = inner_status (w_inner w) svc') /\
  (forall svc', addr (w_inner (fst (start spawn svc w))) svc' = addr (w_inner w) svc').
Proof.
  intros [a Ha]. unfold start, get_inner, bind, inner_status. rewrite Ha.
  destruct (slot_status (slot (w_inner w) svc)) eqn:E; [|by simpl].
  rewrite Hspawn. simpl. rewrite slot_set_slot, decide_True by done. split; [done|]. split.
  - intros svc' Hne. by rewrite slot_set_slot, decide_False.
  - intros svc'. apply addr_set_slot.
Qed.

Lemma stop_status svc w :
  manager_inv w ->
  inner_status (w_inner (fst (stop svc w))) svc = Idle /\
  (forall svc', svc' <> svc -> inner_status (w_inner (fst (stop svc w))) svc' = inner_status (w_inner w) svc') /\
  (forall svc', addr (w_inner (fst (stop svc w))) svc' = addr (w_inner w) svc').
Proof.
  intros I. destruct (stop_spec svc w) as [[Hn ->]|(h & Hh & ->)]; unfold inner_status; simpl.
  - split; [|done]. destruct (slot_status _) eqn:E; [done|]. apply (mi_running _ I) in E. rewrite Hn in E. by destruct E.
  - rewrite slot_set_slot, decide_True by done. split; [done|]. split.
    + intros svc' Hne. by rewrite slot_set_slot, decide_False.
    + intros svc'. apply addr_set_slot.
Qed.

Lemma mode_loop want l w :
  NoDup l -> manager_inv w -> (forall svc, want svc = true -> is_Some (addr (w_inner w) svc)) ->
  let w' := fst (for_each l (mode_body want) w) in
  (forall svc, inner_status (w_inner w') svc =
     if bool_decide (svc ∈ l) then as_wanted (want svc) else inner_status (w_inner w) svc) /\
  (forall svc, addr (w_inner w') svc = addr (w_inner w) svc).
Proof.
  intros Hnd. revert w. induction Hnd as [|svc l Hni Hnd IH]; intros w I Hw.
  { split; [|done]. intros svc. by rewrite bool_decide_false by set_solver. }
  simpl. unfold bind.
  assert (Hs : let w1 := fst (mode_body want svc w) in
    manager_inv w1 /\ inner_status (w_inner w1) svc = as_wanted (want svc) /\
    (forall svc', svc' <> svc -> inner_status (w_inner w1) svc' = inner_status (w_inner w) svc') /\
    (forall svc', addr (w_inner w1) svc' = addr (w_inner w) svc')).
  { unfold mode_body. destruct (want svc) eqn:E; rewrite fst_bind_ret.
    - split; [by apply start_inv|]. apply start_status. auto.
    - split; [by apply stop_inv|]. by apply stop_status. }
  destruct (mode_body want svc w) as [w1 []]. simpl in Hs. destruct Hs as (I1 & H1 & H2 & H3).
  destruct (IH w1 I1) as [HS HA]. { intros s Hs. rewrite H3. auto. }
  split; [|intros s; by rewrite HA].
  intros s. rewrite HS. destruct (decide (s = svc)) as [->|Hne].
  - by rewrite bool_decide_false, bool_decide_true by set_solver.
  - rewrite H2 by done. by rewrite (bool_decide_ext (s ∈ l) (s ∈ svc :: l)) by set_solver.
Qed.

(** The services up in a mode: those it names, and a configured SMTPS with SMTP. *)
Definition mode_target (configured : bool) (mode : BootMode) (svc : Service) : bool :=
  match svc with Smtps => configured && wants mode Smtp | _ => wants mode svc end.

Definition configured (i : Inner) : bool := match in_smtps_addr i with Some _ => true | None => false end.

Lemma mode_target_addr i mode svc : mode_target (configured i) mode svc = true -> is_Some (addr i svc).
Proof.
  unfold mode_target, configured. destruct svc; simpl; eauto. by destruct (in_smtps_addr i); eauto.
Qed.

Lemma apply_mode_result mode w :
  manager_inv w ->
  snd (apply_mode spawn mode w) =
    map (fun svc => mkServiceReport svc (as_wanted (mode_target (configured (w_inner w)) mode svc))) all_services.
Proof.
  intros I. set (want := mode_target (configured (w_inner w)) mode).
  destruct (mode_loop want all_services w NoDup_all_services I (mode_target_addr _ _)) as [HS _].
  assert (E : snd (apply_mode spawn mode w) =
    snd (list_services (fst (for_each all_services (mode_body want) w)))).
  { unfold apply_mode. unfold bind at 1. unfold smtps_configured, get_inner, bind at 1, ret at 1. cbv beta iota.
    unfold bind at 1. change (for_each all_services _ w) with (for_each all_services (mode_body want) w).
    by destruct (for_each all_services (mode_body want) w). }
  rewrite E. unfold list_services, get_inner, bind, ret. cbn [snd fst].
  apply map_ext_in. intros svc _. by rewrite HS, bool_decide_true by apply elem_of_all_services.
Qed.

(** Booting an idle manager: the loop over the mode's set, in any order. *)
Lemma boot_statuses mode order w :
  manager_inv w -> (forall svc, inner_status (w_inner w) svc = Idle) -> order ≡ₚ mode_services mode ->
  forall svc, inner_status (w_inner (fst (boot spawn order mode w))) svc =
    as_wanted (mode_target (configured (w_inner w)) mode svc).
Proof.
  intros I Hidle Hord svc.
  assert (Hnd : NoDup order) by (rewrite Hord; destruct mode; by apply (bool_decide_unpack _)).
  assert (Hsm : Smtps ∉ order) by (rewrite Hord; destruct mode; set_solver).
  assert (Hel : forall s, s ∈ order <-> wants mode s = true).
  { intros s. unfold wants. by rewrite bool_decide_eq_true, Hord. }
  set (up := fun s : Service => match s with Smtps => false | _ => true end).
  assert (El : for_each order (fun s => let! _ := start spawn s in ret tt) w = for_each order (mode_body up) w).
  { apply for_each_ext. intros s Hs w0. unfold mode_body. by destruct s. }
  destruct (mode_loop up order w Hnd I) as [HS HA].
  { intros s. by destruct s; simpl; eauto. }
  unfold boot, bind at 1. rewrite El.
  destruct (for_each order (mode_body up) w) as [w1 []]. simpl in HS, HA.
  unfold smtps_configured, get_inner, bind at 1 2, ret at 1.
  assert (Ec : configured (w_inner w1) = configured (w_inner w)).
  { specialize (HA Smtps). unfold configured. simpl in HA. by rewrite HA. }
  assert (Hrest : forall s, s <> Smtps -> inner_status (w_inner w1) s = as_wanted (wants mode s)).
  { intros s Hs. rewrite HS, Hidle. destruct (wants mode s) eqn:Ew.
    - rewrite bool_decide_true by by apply Hel. by destruct s.
    - rewrite bool_decide_false; [done|]. rewrite Hel. congruence. }
  fold (configured (w_inner w1)). destruct (configured (w_inner w1) && wants mode Smtp) eqn:Eb.
  - rewrite fst_bind_ret. destruct (start_status Smtps w1) as (H1 & H2 & _).
    { apply andb_true_iff in Eb as [Eb _]. unfold configured in Eb. simpl. by destruct (in_smtps_addr (w_inner w1)); eauto. }
    destruct (decide (svc = Smtps)) as [->|Hne].
    + rewrite H1. simpl. by rewrite <- Ec, Eb.
    + rewrite H2, Hrest by done. by destruct svc.
  - simpl. destruct (decide (svc = Smtps)) as [->|Hne].
    + rewrite HS, bool_decide_false, Hidle by done. simpl. by rewrite <- Ec, Eb.
    + rewrite Hrest by done. by destruct svc.
Qed.

(** C19: whatever commands arrive, in whatever order, and whichever spawns fail,
    a service reports [Running] exactly when its slot owns a task, the tasks
    spawned and not aborted are exactly those owned, and none is owned twice: no
    listener is doubled and none is leaked. *)
Theorem manager_owns_its_tasks cs w :
  manager_inv w -> manager_inv (fst (for_each cs run_command w)).
Proof. apply keeps_commands. Qed.

(** Applying a mode brings up exactly the services it names, with a
    configured SMTPS following SMTP, and stops the rest, whatever ran before. *)
Lemma apply_mode_exact mode w :
  manager_inv w ->
  snd (apply_mode spawn mode w) =
    map (fun svc => mkServiceReport svc (as_wanted (mode_target (configured (w_inner w)) mode svc))) all_services.
Proof. apply apply_mode_result. Qed.

(** Booting an idle manager reaches the same statuses whatever the iteration
    order of the mode's [HashSet]. *)
Lemma boot_order_irrelevant mode order order' w :
  manager_inv w -> (forall svc, inner_status (w_inner w) svc = Idle) ->
  order ≡ₚ mode_services mode -> order' ≡ₚ mode_services mode ->
  forall svc, inner_status (w_inner (fst (boot spawn order mode w))) svc =
              inner_status (w_inner (fst (boot spawn order' mode w))) svc.
Proof. intros I Hi Ho Ho' svc. by rewrite !boot_statuses. Qed.
End Commands.
End Facts.

(** ** A concrete manager *)

#[export] Instance demo_addrs : SocketAddrs := {| SocketAddr := string; parse_socket_addr := Ok |}.

Definition demo_world : World :=
  mkWorld (mkInner idle_slot idle_slot idle_slot idle_slot "a:1" "a:2" "a:3" (Some "a:4")) ∅ 0.
Definition demo_spawn (svc : Service) (a : SocketAddr) : result unit string := Ok tt.

Lemma demo_world_inv : manager_inv demo_world.
Proof.
  split; simpl.
  - intros []; simpl; (split; [done | by intros []]).
  - intros h. split; [set_solver|]. by intros [[] ?].
  - by intros [].
  - set_solver.
Qed.

Lemma manager_owns_its_tasks_witness :
  manager_inv (fst (for_each [CBoot [Dns; Api; Smtp] ModeFull; CStop Dns; CMode ModeApi]
    (run_command demo_spawn) demo_world)).
Proof. apply (manager_owns_its_tasks demo_spawn), demo_world_inv. Defined.

Lemma apply_mode_exact_witness :
  snd (apply_mode demo_spawn ModeSmtp demo_world) =
  [mkServiceReport Api Idle; mkServiceReport Smtp Running; mkServiceReport Smtps Running; mkServiceReport Dns Idle].
Proof. by apply (apply_mode_exact demo_spawn (fun _ _ => eq_refl) ModeSmtp), demo_world_inv. Defined.

Lemma boot_order_irrelevant_witness :
  forall svc, inner_status (w_inner (fst (boot demo_spawn [Dns; Smtp; Api] ModeFull demo_world))) svc =
              inner_status (w_inner (fst (boot demo_spawn [Api; Smtp; Dns] ModeFull demo_world))) svc.
Proof.
  apply (boot_order_irrelevant demo_spawn (fun _ _ => eq_refl)); [apply demo_world_inv | by intros [] | | done].
  simpl. apply (bool_decide_unpack _). by vm_compute.
Defined.
