(* ===== verification/Email.v ===== *)
(** * Email: inbound SMTP (src/src/email.rs)

    The connection-scoped handler smtpd calls for [RCPT TO] and [DATA], and the
    TLS posture of the listeners.  The handler's state is the recipients it has
    accepted on the connection; smtpd's session is the sequence of its calls. *)

From S2P Require Import Prelude Text Db Engine Config Send.
From Stdlib Require Import Ascii String.
#[local] Open Scope string_scope.

(** [address_to_string] and [address_list_to_strings] are the functions of
    src/src/send.rs, written out again in src/src/email.rs. *)
Definition address_to_string (addr : ParsedAddress) : string :=
  match addr with
  | AddrList l => unwrap_or "" (head l ≫= addr_address)
  | AddrGroup groups => unwrap_or "" (find_map (fun g => head (group_addresses g) ≫= addr_address) groups)
  end.

Definition address_list_to_strings (addr : ParsedAddress) : list string :=
  match addr with
  | AddrList l => omap addr_address l
  | AddrGroup groups => omap addr_address (flat_map group_addresses groups)
  end.

Inductive SmtpResponse : Type := Default.
Inductive SmtpError : Type := SmtpAbort.

(** The characters [handle_rcpt] strips around an address. *)
Definition is_bracket (c : ascii) : bool :=
  Ascii.eqb c "<"%char || Ascii.eqb c ">"%char || Ascii.eqb c " "%char.

Section Email.
Context `{!UnicodeLower, !MailParser, HO : DbOps D}.

(** The address a [RCPT TO] argument names. *)
Definition clean_email (to : string) : string := to_lowercase (trim_matches is_bracket to).

(** [handle_rcpt]: the recipients accepted so far, before and after. *)
Definition handle_rcpt (to : string) (recipients : list string)
  : M D (list string * result SmtpResponse SmtpError) :=
  let clean := clean_email to in
  let! r := exec (GetMailbox clean) in
  let mailbox_exists := is_ok r in
  if mailbox_exists then ret ((recipients ++ [clean])%list, Ok Default)
  else ret (recipients, Err SmtpAbort).

(** The columns extracted from a payload. *)
Definition inbound_message (data : bytes) : NewMessage :=
  let parsed := parse_mail data in
  let from_address := address_to_string <$> (parsed ≫= pm_from) in
  {| nm_mail_from := unwrap_or "" from_address;
     nm_raw := data;
     nm_subject := parsed ≫= pm_subject;
     nm_message_id_header := parsed ≫= pm_message_id;
     nm_content_type := parsed ≫= pm_content_type;
     nm_from_address := from_address;
     nm_to := unwrap_or [] (address_list_to_strings <$> (parsed ≫= pm_to));
     nm_cc := unwrap_or [] (address_list_to_strings <$> (parsed ≫= pm_cc));
     nm_bcc := unwrap_or [] (address_list_to_strings <$> (parsed ≫= pm_bcc)) |}.

(** [message_id_header.as_deref().map(str::trim).filter(|m| !m.is_empty())]. *)
Definition dedup_key (header : option string) : option string :=
  match trim <$> header with
  | Some m => if is_empty m then None else Some m
  | None => None
  end.

Definition has_message_id (key : string) (m : Message) : bool :=
  bool_decide (msg_message_id_header m = Some key).

(** An already stored copy, by [Message-ID]; a failed lookup is no copy. *)
Definition find_duplicate (header : option string) : M D (option N) :=
  match dedup_key header with
  | None => ret None
  | Some key =>
      let! r := exec (FirstMessage (has_message_id key)) in
      ret (match r with
           | Ok (Some existing) => Some (msg_id existing)
           | Ok None => None
           | Err _ => None
           end)
  end.

(** Reuse the stored copy, or store the message. *)
Definition store_message (n : NewMessage) : M D (result N SmtpError) :=
  let! dup := find_duplicate (nm_message_id_header n) in
  match dup with
  | Some id => ret (Ok id)
  | None =>
      let! r := exec (CreateMessage n) in
      ret (match r with Ok created => Ok (msg_id created) | Err _ => Err SmtpAbort end)
  end.

(** One [Inbound] row per accepted recipient. *)
Definition link_recipients (message_id : N) (recipients : list string) : M D (result unit SmtpError) :=
  for_each_try recipients (fun recipient =>
    let! r := exec (CreateInbound message_id recipient) in
    ret (match r with Ok _ => Ok tt | Err _ => Err SmtpAbort end)).

(** Best-effort forwarding. *)
Definition forward_recipients (message_id : N) (recipients : list string) : M D unit :=
  for_each recipients (fun recipient =>
    let! r := exec (GetMailbox recipient) in
    match r with
    | Ok mailbox =>
        match mb_forward_to mailbox with
        | Some forward_to => let! _ := enqueue_forward message_id recipient forward_to in ret tt
        | None => ret tt
        end
    | Err _ => ret tt
    end).

(** [handle_email]: the handler's recipients are taken, so none remain. *)
Definition handle_email (data : bytes) (recipients : list string)
  : M D (list string * result SmtpResponse SmtpError) :=
  let recipients := match recipients with [] => ["unknown"] | l => l end in
  let! r := store_message (inbound_message data) in
  match r with
  | Err e => ret ([], Err e)
  | Ok message_id =>
      let! r := link_recipients message_id recipients in
      match r with
      | Err e => ret ([], Err e)
      | Ok _ =>
          let! _ := forward_recipients message_id recipients in
          ret ([], Ok Default)
      end
  end.

(** The calls smtpd makes on one connection. *)
Inductive SmtpEvent : Type :=
| Rcpt (to : string)
| Data_ (data : bytes).

(** [new_handler] starts a connection with no recipient. *)
Definition new_handler : list string := [].

Fixpoint session (recipients : list string) (events : list SmtpEvent) : M D (list (result SmtpResponse SmtpError)) :=
  match events with
  | [] => ret []
  | e :: events' =>
      let! rr := match e with
                 | Rcpt to => handle_rcpt to recipients
                 | Data_ data => handle_email data recipients
                 end in
      let! rest := session (fst rr) events' in
      ret (snd rr :: rest)
  end.
End Email.

(** ** Listener TLS *)

Section Tls.
Context `{!TlsFiles, !SocketAddrs}.

Inductive TlsMode : Type :=
| Disabled
| Explicit (id : Identity)
| Required (id : Identity)
| Implicit (id : Identity).

Record SmtpConfig : Type := mkSmtpConfig {
  sm_bind_addr : SocketAddr;
  sm_require_auth : bool;
  sm_tls_mode : TlsMode;
}.

(** [build_starttls_mode]. *)
Definition build_starttls_mode (mode : StartTlsMode) (identity : option Identity) : TlsMode :=
  match mode with
  | StartTlsNone => Disabled
  | StartTlsOptional => match identity with Some id => Explicit id | None => Disabled end
  | StartTlsRequired => match identity with Some id => Required id | None => Disabled end
  end.

(** [build_smtp_config]. *)
Definition build_smtp_config (bind_addr : SocketAddr) (tls : SmtpTlsConfig) (identity : option Identity)
  : SmtpConfig :=
  mkSmtpConfig bind_addr false (build_starttls_mode (st_mode tls) identity).

(** [build_smtps_config]. *)
Definition build_smtps_config (bind_addr : SocketAddr) (identity : option Identity) : option SmtpConfig :=
  match identity with
  | None => None
  | Some id => Some (mkSmtpConfig bind_addr false (Implicit id))
  end.

(** The configuration [run_mail_server] binds with. *)
Definition run_mail_server_config (bind_addr : SocketAddr) (tls_mode : TlsMode) : SmtpConfig :=
  mkSmtpConfig bind_addr false tls_mode.
End Tls.
