(* ===== verification/EmailFacts.v ===== *)
(** * EmailFacts: no open relay, nothing lost

    What an SMTP session can do to the store, for every engine and every client. *)

From S2P Require Import Prelude Text Db Engine Config Send Concrete Email.
From Stdlib Require Import Ascii String Strings.Byte.
#[local] Open Scope string_scope.

(** A job that forwards a received message: from a mailbox, to the address that
    mailbox is configured to forward to. *)
Definition forwards (mailboxes : gmap string Mailbox) (o : Outbound) : Prop :=
  exists mb, mailboxes !! out_sender_id o = Some mb /\ mb_forward_to mb = Some (out_rcpt_to o) /\
    out_status o = Queued /\ out_attempts o = 0%N /\ out_next_attempt_at o = None.

(** A received message's link: to a provisioned mailbox, or to nobody. *)
Definition addressed (mailboxes : gmap string Mailbox) (i : Inbound) : Prop :=
  is_Some (mailboxes !! in_rcpt_to i) \/ in_rcpt_to i = "unknown".

(** What a session may do: add messages, links as [linkable] allows, forwarding
    jobs. *)
Section Effect.
Context (linkable : gmap string Mailbox -> Inbound -> Prop).

Record inbound_effect (t t' : Tables) : Prop := {
  ie_domains : t_domains t' = t_domains t;
  ie_mailboxes : t_mailboxes t' = t_mailboxes t;
  ie_records : t_records t' = t_records t;
  ie_delivery : t_delivery t' = t_delivery t;
  ie_messages : t_messages t ⊆ t_messages t';
  ie_inbound : t_inbound t ⊆ t_inbound t';
  ie_outbound : t_outbound t ⊆ t_outbound t';
  ie_links : forall k i, t_inbound t' !! k = Some i -> t_inbound t !! k = Some i \/ linkable (t_mailboxes t) i;
  ie_jobs : forall k o, t_outbound t' !! k = Some o -> t_outbound t !! k = Some o \/ forwards (t_mailboxes t) o;
}.

#[local] Instance inbound_effect_preorder : PreOrder inbound_effect.
Proof.
  split.
  - intros t. split; auto.
  - intros t1 t2 t3 [] []. split; try congruence; try by etrans.
    + intros k i Hi. destruct (ie_links1 k i Hi) as [Hi'|Hi']; [auto|]. right. congruence.
    + intros k o Ho. destruct (ie_jobs1 k o Ho) as [Ho'|Ho']; [auto|]. right. congruence.
Qed.

Lemma effect_read t t' : t' = t -> inbound_effect t t'.
Proof. by intros ->. Qed.

Lemma effect_message t k m :
  t_messages t !! k = None -> inbound_effect t (on_messages <[k := m]> t).
Proof. intros Hk. split; simpl; auto. by apply insert_subseteq. Qed.

Lemma effect_link t k i :
  t_inbound t !! k = None -> linkable (t_mailboxes t) i -> inbound_effect t (on_inbound <[k := i]> t).
Proof.
  intros Hk Ha. split; simpl; auto; [by apply insert_subseteq|].
  intros k' i'. rewrite lookup_insert_Some. intros [[_ <-]|[_ Hi]]; auto.
Qed.

Lemma effect_job t k o :
  t_outbound t !! k = None -> forwards (t_mailboxes t) o -> inbound_effect t (on_outbound <[k := o]> t).
Proof.
  intros Hk Ha. split; simpl; auto; [by apply insert_subseteq|].
  intros k' o'. rewrite lookup_insert_Some. intros [[_ <-]|[_ Ho]]; auto.
Qed.

End Effect.
#[export] Existing Instance inbound_effect_preorder.

Section Facts.
Context `{!UnicodeLower, !MailParser, HE : DbEngine D}.

(** ** Recipients *)

(** Every accepted recipient is a provisioned mailbox. *)
Definition provisioned (mailboxes : gmap string Mailbox) (recipients : list string) : Prop :=
  Forall (fun r => is_Some (mailboxes !! r)) recipients.

Lemma handle_rcpt_spec to recipients d d' rs r :
  handle_rcpt to recipients d = (d', (rs, r)) ->
  view d' = view d /\
  ((r = Ok Default /\ rs = (recipients ++ [clean_email to])%list /\
    is_Some (t_mailboxes (view d) !! clean_email to)) \/
   (r = Err SmtpAbort /\ rs = recipients)).
Proof.
  unfold handle_rcpt, bind. exec_step; simpl; intros [= <- <- <-].
  - destruct E as [Ev Hm]. split; [done|]. left. eauto.
  - auto.
Qed.

Lemma handle_rcpt_available to recipients d :
  available d -> is_Some (t_mailboxes (view d) !! clean_email to) ->
  exists d', handle_rcpt to recipients d = (d', ((recipients ++ [clean_email to])%list, Ok Default)).
Proof.
  intros Hav Hm. destruct (exec_enabled (GetMailbox (clean_email to)) d Hav Hm) as (d' & mb & E & _).
  exists d'. unfold handle_rcpt, bind. by rewrite E.
Qed.

(** ** Messages *)

Lemma store_message_effect linkable n : evolves view (inbound_effect linkable) (store_message n).
Proof.
  unfold store_message, find_duplicate. evolve.
  - apply evolves_exec; [typeclasses eauto|]. intros t o t' [-> _]. by apply effect_read.
  - apply evolves_exec; [typeclasses eauto|]. intros t m t' (k & ts & Hk & -> & ->). by apply effect_message.
Qed.

Lemma link_recipients_effect linkable mid rs d :
  (forall i, in_rcpt_to i ∈ rs -> linkable (t_mailboxes (view d)) i) ->
  inbound_effect linkable (view d) (view (fst (link_recipients mid rs d))).
Proof.
  unfold link_recipients. revert d. induction rs as [|r rs IH]; intros d Hp; [done|]. simpl.
  unfold bind_try at 1, bind at 1 2. exec_step; simpl; [|by rewrite E].
  destruct E as (k & ts & Hk & -> & Ev).
  assert (He : inbound_effect linkable (view d) (view d0)).
  { rewrite Ev. apply effect_link; [done|]. apply Hp. simpl. set_solver. }
  etrans; [exact He|]. apply IH. rewrite (ie_mailboxes _ _ _ He). set_solver.
Qed.

Lemma forward_recipients_effect linkable mid rs : evolves view (inbound_effect linkable) (forward_recipients mid rs).
Proof.
  unfold forward_recipients. apply evolves_for_each; [typeclasses eauto|].
  intros recipient d. unfold bind. exec_step; [|by rewrite <- E].
  destruct E as [Ev Hm]. rewrite <- Ev in Hm |- *. destruct (mb_forward_to r) as [fwd|] eqn:Ef; [|done].
  unfold enqueue_forward, bind. exec_step; simpl; [|by rewrite E].
  destruct E as (k & ts & Hk & -> & ->). apply effect_job; [done|]. by exists r.
Qed.

(** The recipients a payload is filed under. *)
Definition filed_under (rs : list string) : list string := match rs with [] => ["unknown"] | l => l end.

Lemma handle_email_links linkable data rs d :
  (forall i, in_rcpt_to i ∈ filed_under rs -> linkable (t_mailboxes (view d)) i) ->
  inbound_effect linkable (view d) (view (fst (handle_email data rs d))).
Proof.
  intros Hl. unfold handle_email, bind.
  pose proof (store_message_effect linkable (inbound_message data) d) as H1.
  destruct (store_message _ d) as [d1 [mid|]]; [|done]. simpl in H1. fold (filed_under rs).
  rewrite <- (ie_mailboxes _ _ _ H1) in Hl.
  pose proof (link_recipients_effect linkable mid (filed_under rs) d1 Hl) as H2.
  destruct (link_recipients mid (filed_under rs) d1) as [d2 [|]]; simpl in H2; [|by etrans].
  pose proof (forward_recipients_effect linkable mid (filed_under rs) d2) as H3.
  destruct (forward_recipients mid (filed_under rs) d2). simpl in *. etrans; [exact H1|]. by etrans.
Qed.

Lemma handle_email_effect data rs d :
  provisioned (t_mailboxes (view d)) rs ->
  inbound_effect addressed (view d) (view (fst (handle_email data rs d))).
Proof.
  intros Hp. apply handle_email_links. intros i Hi. unfold addressed. destruct rs as [|r rs]; [set_solver|].
  left. eapply Forall_forall in Hp; [exact Hp|done].
Qed.

Lemma handle_email_clears data rs d : fst (snd (handle_email data rs d)) = [].
Proof.
  unfold handle_email, bind. destruct (store_message _ d) as [d1 [mid|]]; [|done].
  destruct (link_recipients _ _ d1) as [d2 [|]]; [|done]. by destruct (forward_recipients _ _ d2).
Qed.

Lemma session_effect events rs d :
  provisioned (t_mailboxes (view d)) rs -> inbound_effect addressed (view d) (view (fst (session rs events d))).
Proof.
  revert rs d. induction events as [|e events IH]; intros rs d Hp; [done|]. simpl. unfold bind at 1.
  assert (Hstep : forall d1 rr, (match e with Rcpt to => handle_rcpt to rs | Data_ data => handle_email data rs end) d = (d1, rr) ->
    inbound_effect addressed (view d) (view d1) /\ provisioned (t_mailboxes (view d1)) (fst rr)).
  { intros d1 [rs1 r1] E. destruct e as [to|data].
    - apply handle_rcpt_spec in E as [Ev [(_ & -> & Hm)|(_ & ->)]]; rewrite Ev; split; try done.
      apply Forall_app. split; [done|]. by constructor.
    - pose proof (handle_email_effect data rs d Hp) as He. pose proof (handle_email_clears data rs d) as Hc.
      rewrite E in He, Hc. simpl in *. subst. split; [done|]. constructor. }
  destruct (_ d) as [d1 rr]. destruct (Hstep d1 rr eq_refl) as [He Hp1].
  rewrite fst_bind_ret. etrans; [exact He|]. by apply IH.
Qed.

(** ** What an accepted payload leaves *)

(** The links added for a message: one per recipient, in order. *)
Definition linked (mid : N) (rs : list string) (t t' : Tables) : Prop :=
  exists links, map_to_list (t_inbound t') ≡ₚ links ++ map_to_list (t_inbound t) /\
    map (fun kr => (in_message_id (snd kr), in_rcpt_to (snd kr))) links = map (fun r => (mid, r)) rs.

Lemma link_recipients_ok mid rs d d' :
  link_recipients mid rs d = (d', Ok tt) ->
  linked mid rs (view d) (view d') /\ t_messages (view d') = t_messages (view d).
Proof.
  unfold link_recipients. revert d. induction rs as [|r rs IH]; intros d; simpl.
  { intros [= <-]. split; [|done]. by exists []. }
  unfold bind_try at 1, bind at 1 2. exec_step; simpl; [|done].
  destruct E as (k & ts & Hk & -> & Ev). intros Hr.
  apply IH in Hr as [(links & Hp & Hl) Hm]. rewrite Ev in Hp, Hm. simpl in Hp, Hm.
  split; [|done]. exists ((k, mkInbound k mid r ts ts) :: links). split; [|simpl; by rewrite Hl].
  rewrite Hp, map_to_list_insert by done. simpl. by rewrite Permutation_middle.
Qed.

Lemma forward_recipients_frame mid rs d :
  let t' := view (fst (forward_recipients mid rs d)) in
  t_messages t' = t_messages (view d) /\ t_inbound t' = t_inbound (view d).
Proof.
  revert d. change (evolves view (fun t t' => t_messages t' = t_messages t /\ t_inbound t' = t_inbound t)
    (forward_recipients mid rs)).
  assert (PreOrder (fun t t' => t_messages t' = t_messages t /\ t_inbound t' = t_inbound t)).
  { split; [done|]. intros ? ? ? [] []. split; congruence. }
  unfold forward_recipients, enqueue_forward. evolve;
    (apply evolves_exec; [typeclasses eauto|]).
  - by intros t r t' [-> _].
  - by intros t r t' (k & ts & _ & _ & ->).
Qed.

(** The message a payload is filed under: itself, or a stored copy of its id. *)
Definition filed (data : bytes) (mid : N) (t t' : Tables) : Prop :=
  (exists ts, t_messages t !! mid = None /\
     t_messages t' = <[mid := message_row (inbound_message data) mid ts]> (t_messages t)) \/
  (t_messages t' = t_messages t /\ exists m key, t_messages t !! mid = Some m /\
     dedup_key (nm_message_id_header (inbound_message data)) = Some key /\
     msg_message_id_header m = Some key).

Lemma store_message_ok data d d' mid :
  store_message (inbound_message data) d = (d', Ok mid) -> wf_tables (view d) ->
  filed data mid (view d) (view d') /\ t_inbound (view d') = t_inbound (view d).
Proof.
  intros Hrun W. unfold store_message, bind in Hrun.
  set (n := inbound_message data) in *.
  assert (Hdup : forall d1 dup, find_duplicate (nm_message_id_header n) d = (d1, dup) ->
    view d1 = view d /\ match dup with
      | Some id => exists m key, t_messages (view d) !! id = Some m /\
          dedup_key (nm_message_id_header n) = Some key /\ msg_message_id_header m = Some key
      | None => True end).
  { intros d1 dup. unfold find_duplicate. destruct (dedup_key _) as [key|]; [|by intros [= <- <-]].
    unfold bind. exec_step; [|by intros [= <- <-]]. destruct E as [Ev Hk].
    destruct r as [m|]; intros [= <- <-]; [|done]. split; [done|]. destruct Hk as [k Hk].
    apply keep_Some in Hk as [Hk Hh]. apply bool_decide_eq_true in Hh.
    exists m, key. by rewrite (wf_messages _ W _ _ Hk). }
  destruct (find_duplicate _ d) as [d1 dup]. destruct (Hdup d1 dup eq_refl) as [Ev Hd].
  destruct dup as [id|].
  - injection Hrun as <- <-. rewrite Ev. split; [|done]. right. split; [done|]. exact Hd.
  - revert Hrun. exec_step; intros Hrun; [|done]. injection Hrun as <- <-.
    destruct E as (k & ts & Hk & -> & ->). rewrite Ev in Hk |- *. simpl. split; [|done]. left. eauto.
Qed.

Lemma handle_email_ok data rs d d' rs' :
  handle_email data rs d = (d', (rs', Ok Default)) -> wf_tables (view d) ->
  exists mid, filed data mid (view d) (view d') /\
    linked mid (match rs with [] => ["unknown"] | l => l end) (view d) (view d').
Proof.
  intros Hrun W. unfold handle_email, bind in Hrun.
  destruct (store_message _ d) as [d1 [mid|]] eqn:E1; [|done].
  apply store_message_ok in E1 as [Hf Hi]; [|done].
  set (rs0 := match rs with [] => ["unknown"] | l => l end) in *.
  destruct (link_recipients mid rs0 d1) as [d2 [[]|]] eqn:E2; [|done].
  apply link_recipients_ok in E2 as [Hl Hm].
  pose proof (forward_recipients_frame mid rs0 d2) as [Hm3 Hi3].
  destruct (forward_recipients mid rs0 d2) as [d3 []]. injection Hrun as <- <-. simpl in *.
  exists mid. unfold filed, linked in *. rewrite Hm3, Hi3, Hm. rewrite Hi in Hl. done.
Qed.

(** A recipient is accepted only if it is a provisioned mailbox after the
    brackets are stripped and the case is folded, and a provisioned one is
    accepted while the store is available. *)
Lemma rcpt_accepts_provisioned to recipients d :
  (forall d' rs, handle_rcpt to recipients d = (d', (rs, Ok Default)) ->
     is_Some (t_mailboxes (view d) !! clean_email to) /\ rs = (recipients ++ [clean_email to])%list) /\
  (available d -> is_Some (t_mailboxes (view d) !! clean_email to) ->
     exists d', handle_rcpt to recipients d = (d', ((recipients ++ [clean_email to])%list, Ok Default))).
Proof.
  split; [|apply handle_rcpt_available].
  intros d' rs E. apply handle_rcpt_spec in E as [_ [(_ & -> & Hm)|[[=] _]]]. done.
Qed.

(** C7: no open relay: whatever a client sends on a connection, the session only
    adds messages, links them to provisioned mailboxes (or to nobody), and queues
    jobs from a provisioned mailbox to the very address that mailbox forwards to. *)
Theorem session_no_open_relay events d :
  inbound_effect addressed (view d) (view (fst (session new_handler events d))).
Proof. apply session_effect. constructor. Qed.

(** C15: a payload the server acknowledges is filed: its message is stored, or a
    stored message has its [Message-ID], and exactly one link per accepted
    recipient is added. *)
Theorem accepted_email_is_filed data rs d d' rs' :
  handle_email data rs d = (d', (rs', Ok Default)) -> wf_tables (view d) ->
  exists mid, filed data mid (view d) (view d') /\
    linked mid (match rs with [] => ["unknown"] | l => l end) (view d) (view d').
Proof. apply handle_email_ok. Qed.

(** A payload whose [Message-ID] is already stored is not kept, whatever its
    bytes: the message table does not change. *)
Lemma duplicate_id_discards_payload data rs d d' rs' m k key :
  available d -> wf_tables (view d) ->
  dedup_key (nm_message_id_header (inbound_message data)) = Some key ->
  t_messages (view d) !! k = Some m -> msg_message_id_header m = Some key ->
  handle_email data rs d = (d', (rs', Ok Default)) ->
  t_messages (view d') = t_messages (view d).
Proof.
  intros Hav W Hk Hm Hid. unfold handle_email, store_message, find_duplicate. rewrite Hk. unfold bind.
  destruct (exec_enabled (FirstMessage (has_message_id key)) d Hav I) as (d1 & o & -> & _ & Ev & Ho).
  destruct o as [m'|]; last first.
  { assert (keep (has_message_id key) (t_messages (view d)) !! k = Some m) as Hx.
    { apply keep_Some. split; [done|]. by apply bool_decide_eq_true. }
    by rewrite Ho, lookup_empty in Hx. }
  unfold ret at 1 2. set (rs0 := match rs with [] => ["unknown"] | l => l end).
  destruct (link_recipients _ rs0 d1) as [d2 [[]|]] eqn:E2; [|done].
  apply link_recipients_ok in E2 as [_ Hm2].
  pose proof (forward_recipients_frame (msg_id m') rs0 d2) as [Hm3 _].
  destruct (forward_recipients _ rs0 d2) as [d3 []]. intros [= <- <-]. simpl in *. congruence.
Qed.
End Facts.

Section TlsFacts.
Context `{!TlsFiles, !SocketAddrs}.

(** A configured TLS posture is never downgraded: with the identity the
    daemon loads at boot, a STARTTLS mode other than none gives a TLS listener,
    and a configured SMTPS port gives an implicit-TLS one. *)
Lemma tls_not_downgraded tls id addr :
  identity tls = Ok id ->
  (st_mode tls <> StartTlsNone -> sm_tls_mode (build_smtp_config addr tls id) <> Disabled) /\
  (smtps_enabled tls = true -> is_Some (build_smtps_config addr id)).
Proof.
  intros Hid. assert (Hn : needs_cert tls = true -> is_Some id).
  { intros Hn. unfold identity in Hid. rewrite Hn in Hid. simpl in Hid. repeat case_match; simplify_eq; eauto. }
  unfold needs_cert in Hn. split.
  - intros Hm. destruct Hn as [i ->].
    { by rewrite bool_decide_false. }
    simpl. by destruct (st_mode tls).
  - intros Hs. destruct Hn as [i ->]; [|by eexists].
    unfold smtps_enabled in Hs. rewrite Hs. apply orb_true_r.
Qed.
End TlsFacts.

(** ** A concrete session *)

#[export] Existing Instance ascii_only_lower.

(** A parser that reads one byte as the [Message-ID]. *)
Definition byte_parser : MailParser := {| parse_mail := fun data =>
  match data with
  | x01 :: _ => Some (mkParsedMail None None None (Some "id-1") None None None)
  | _ => None
  end |}.

Definition demo_mailbox : Mailbox := mkMailbox "me@near.example" "near.example" (Some "me@home.example") 0 0.
Definition demo_mail_db : MemDb :=
  mkMemDb (on_mailboxes <["me@near.example" := demo_mailbox]>
    (on_messages <[1%N := mkMessage 1 "" [x01; x02] None (Some "id-1") None None [] [] [] 0 0]> empty_tables)) 9 [].

Lemma demo_mail_wf : wf_tables (view demo_mail_db).
Proof. split; simpl; auto with wf. apply (wf_unique _ wf_empty). Qed.

Lemma rcpt_accepts_provisioned_witness :
  exists d', handle_rcpt "<Me@Near.example>" [] demo_mail_db =
    (d', (([] ++ [clean_email "<Me@Near.example>"])%list, Ok Default)).
Proof.
  apply (rcpt_accepts_provisioned "<Me@Near.example>" [] demo_mail_db); [constructor | by eexists].
Defined.

Definition demo_data : M MemDb (list string * result SmtpResponse SmtpError) :=
  @handle_email byte_parser MemDb _ [x01; x03] ["me@near.example"].

Lemma accepted_email_is_filed_witness :
  exists mid, @filed byte_parser [x01; x03] mid (view demo_mail_db) (view (fst (demo_data demo_mail_db))) /\
    linked mid ["me@near.example"] (view demo_mail_db) (view (fst (demo_data demo_mail_db))).
Proof.
  apply (@accepted_email_is_filed byte_parser MemDb _ [x01; x03] ["me@near.example"] demo_mail_db _ []);
    [by vm_compute | apply demo_mail_wf].
Defined.

Lemma duplicate_id_discards_payload_witness :
  t_messages (view (fst (demo_data demo_mail_db))) = t_messages (view demo_mail_db).
Proof.
  apply (@duplicate_id_discards_payload byte_parser MemDb _ [x01; x03] ["me@near.example"] demo_mail_db _ []
    (mkMessage 1 "" [x01; x02] None (Some "id-1") None None [] [] [] 0 0) 1%N "id-1");
    [constructor | apply demo_mail_wf | done | done | done | by vm_compute].
Defined.

#[export] Instance demo_tls : TlsFiles := {|
  Identity := bytes; read_file := fun _ => Ok []; from_pkcs8 := fun cert _ => Ok cert |}.

#[export] Instance demo_smtp_addrs : SocketAddrs := {| SocketAddr := string; parse_socket_addr := Ok |}.

Definition demo_bind : @SocketAddr demo_smtp_addrs := "a:25".
Definition demo_identity : @Identity demo_tls := [].

Lemma tls_not_downgraded_witness :
  let tls := mkSmtpTlsConfig StartTlsRequired 465 (Some (CertFiles "c" "k")) in
  (st_mode tls <> StartTlsNone -> sm_tls_mode (build_smtp_config demo_bind tls (Some demo_identity)) <> Disabled) /\
  (smtps_enabled tls = true -> is_Some (build_smtps_config demo_bind (Some demo_identity))).
Proof.
  by apply (tls_not_downgraded (mkSmtpTlsConfig StartTlsRequired 465 (Some (CertFiles "c" "k"))) (Some demo_identity) demo_bind).
Defined.
