(* ===== verification/Dns.v ===== *)
(** * Dns: the authoritative responder (src/src/dns.rs)

    The answer to a parsed query: which stored records match, how their values
    become record data, and the response header.  hickory's names are a class;
    [Ipv4Addr::from_str] and [str::parse::<u16>] are written out. *)

From S2P Require Import Prelude Text Db Engine Config.
From Stdlib Require Import Ascii String.
#[local] Open Scope string_scope.

(** ** Numbers *)

Definition is_digit (c : ascii) : bool := ((48 <=? code c) && (code c <=? 57))%N.

(** The value of a string of digits. *)
Fixpoint digits_value (s : string) (acc : N) : N :=
  match s with
  | EmptyString => acc
  | String c s' => digits_value s' (acc * 10 + (code c - 48))
  end.

(** One octet of [Ipv4Addr::from_str]: one to three digits, no leading zero, at
    most 255. *)
Definition parse_octet (s : string) : option N :=
  if is_empty s || negb (string_forall is_digit s) || (3 <? String.length s)%nat then None
  else if (1 <? String.length s)%nat && starts_with "0" s then None
  else let n := digits_value s 0 in
       if (n <=? 255)%N then Some n else None.

Record Ipv4 : Type := mkIpv4 { ip_a : N; ip_b : N; ip_c : N; ip_d : N }.

(** [Ipv4Addr::from_str]. *)
Definition Ipv4_from_str (s : string) : option Ipv4 :=
  match split_char "."%char s with
  | [a; b; c; d] =>
      match parse_octet a, parse_octet b, parse_octet c, parse_octet d with
      | Some a, Some b, Some c, Some d => Some (mkIpv4 a b c d)
      | _, _, _, _ => None
      end
  | _ => None
  end.

(** [str::parse::<u16>]: an optional plus sign and digits, at most 65535. *)
Definition parse_u16 (s : string) : option N :=
  let digits := match s with
                | String c s' => if Ascii.eqb c "+"%char then s' else s
                | EmptyString => s
                end in
  if is_empty digits || negb (string_forall is_digit digits) then None
  else let n := digits_value digits 0 in
       if (n <=? 65535)%N then Some n else None.

(** ** hickory *)

Class Hickory := {
  Name : Type;
  Name_from_str : string -> option Name;
  Name_to_string : Name -> string;
}.

Section Dns.
Context `{!Hickory}.

Inductive RData : Type :=
| RD_A (a : Ipv4)
| RD_TXT (txt : list string)
| RD_MX (preference : N) (exchange : Name)
| RD_PTR (name : Name).

Record Query : Type := mkQuery { q_name : Name; q_type : HickoryRecordType }.

(** The fields of a request the handler reads. *)
Record DnsRequest : Type := mkDnsRequest {
  dq_id : N;
  dq_op_code : N;
  dq_recursion_desired : bool;
  dq_queries : list Query;
}.

Inductive ResponseCode : Type := NoError | NXDomain.

Record Answer : Type := mkAnswer { an_name : Name; an_ttl : N; an_rdata : RData }.

Record DnsResponse : Type := mkDnsResponse {
  dr_id : N;
  dr_op_code : N;
  dr_recursion_desired : bool;
  dr_recursion_available : bool;
  dr_authoritative : bool;
  dr_queries : list Query;
  dr_response_code : ResponseCode;
  dr_answers : list Answer;
}.

(** [parse_rdata]. *)
Definition parse_rdata (qtype : HickoryRecordType) (value : string) : option RData :=
  match qtype with
  | H_A => RD_A <$> Ipv4_from_str value
  | H_TXT => Some (RD_TXT [value])
  | H_MX =>
      match split_whitespace value with
      | [p; x] => RD_MX (unwrap_or 10%N (parse_u16 p)) <$> Name_from_str x
      | _ => None
      end
  | H_PTR => RD_PTR <$> Name_from_str value
  | _ => None
  end.

(** The stored name a query asks for. *)
Definition clean_name (name : Name) : string :=
  trim_end_matches (is_char "."%char) (Name_to_string name).

End Dns.

(** [hickory_proto::op::Message::from_vec] and [to_vec]. *)
Class DnsWire `{!Hickory} := {
  Message_from_vec : bytes -> option DnsRequest;
  Message_to_vec : DnsResponse -> result bytes string;
}.

Section Server.
Context `{!Hickory, !DnsWire, HO : DbOps D}.

Definition record_matches (name : string) (rt : RecordType) (r : Record_) : bool :=
  String.eqb (rec_domain_id r) name && bool_decide (rec_record_type r = rt).

(** [query_records]; [None] is the panic of [RecordType::from]. *)
Definition query_records (name : string) (qtype : HickoryRecordType) : M D (option (list Record_)) :=
  match RecordType_from_hickory qtype with
  | None => ret None
  | Some rt =>
      let! r := exec (QueryRecords (record_matches name rt)) in
      ret (Some (unwrap_or [] (ok r)))
  end.

(** The answers of one question. *)
Definition answers_for (q : Query) (records : list Record_) : list Answer :=
  omap (fun r => (fun rdata => mkAnswer (q_name q) (rec_ttl r) rdata) <$> parse_rdata (q_type q) (rec_value r))
    records.

(** What one question adds to the response. *)
Definition add_question (q : Query) (records : list Record_) (res : DnsResponse) : DnsResponse :=
  {| dr_id := dr_id res; dr_op_code := dr_op_code res;
     dr_recursion_desired := dr_recursion_desired res;
     dr_recursion_available := dr_recursion_available res;
     dr_authoritative := dr_authoritative res;
     dr_queries := (dr_queries res ++ [q])%list;
     dr_response_code := match records with [] => NXDomain | _ => NoError end;
     dr_answers := match records with
                   | [] => dr_answers res
                   | _ => (dr_answers res ++ answers_for q records)%list
                   end |}.

(** The loop over the questions; [None]: the task panicked. *)
Fixpoint answer_queries (queries : list Query) (res : DnsResponse) : M D (option DnsResponse) :=
  match queries with
  | [] => ret (Some res)
  | q :: queries' =>
      let! records := query_records (clean_name (q_name q)) (q_type q) in
      match records with
      | None => ret None
      | Some records => answer_queries queries' (add_question q records res)
      end
  end.

Inductive DnsOutcome : Type :=
| Ignored                     (* the packet does not parse *)
| Panicked
| Unsent (e : string)         (* the response does not encode, or [send_to] fails *)
| Reply (packet : bytes).

(** [handle_dns_query]; [send_to] is what the socket answers. *)
Definition handle_dns_query (send_to : string -> bytes -> result unit string) (peer : string) (req_bytes : bytes)
  : M D DnsOutcome :=
  match Message_from_vec req_bytes with
  | None => ret Ignored
  | Some request =>
      let response :=
        {| dr_id := dq_id request; dr_op_code := dq_op_code request;
           dr_recursion_desired := dq_recursion_desired request;
           dr_recursion_available := false; dr_authoritative := true;
           dr_queries := []; dr_response_code := NoError; dr_answers := [] |} in
      let! r := answer_queries (dq_queries request) response in
      ret (match r with
           | None => Panicked
           | Some response =>
               match Message_to_vec response with
               | Err e => Unsent e
               | Ok res_bytes =>
                   match send_to peer res_bytes with
                   | Err e => Unsent e
                   | Ok _ => Reply res_bytes
                   end
               end
           end)
  end.
End Server.

(** ** The socket loop *)

(** What [recv_from] yields: an error, or a peer and the datagram it sent. *)
Inductive Received : Type :=
| RecvError (e : string)
| Datagram (peer : string) (packet : bytes).

(** The buffer [recv_from] fills; the rest of a longer datagram is lost. *)
Definition buffer_size : nat := 512.

(** [let req_bytes = buf[..len].to_vec()]. *)
Definition received_bytes (packet : bytes) : bytes := take buffer_size packet.

Section Loop.
Context `{!Hickory, !DnsWire, HO : DbOps D}.

(** The loop of [run_dns_server]: an error is skipped, a datagram becomes a task
    of its own. *)
Definition dns_tasks (received : list Received) : list (string * bytes) :=
  omap (fun r => match r with
                 | RecvError _ => None
                 | Datagram peer packet => Some (peer, received_bytes packet)
                 end) received.

(** One task; its error is logged, its panic ends it alone. *)
Definition run_dns_task (send_to : string -> bytes -> result unit string) (task : string * bytes)
  : M D (string * DnsOutcome) :=
  let '(peer, req_bytes) := task in
  let! outcome := handle_dns_query send_to peer req_bytes in
  ret (peer, outcome).

(** The tasks in the order the runtime schedules them. *)
Fixpoint run_dns_tasks (send_to : string -> bytes -> result unit string) (tasks : list (string * bytes))
  : M D (list (string * DnsOutcome)) :=
  match tasks with
  | [] => ret []
  | task :: tasks' =>
      let! r := run_dns_task send_to task in
      let! rs := run_dns_tasks send_to tasks' in
      ret (r :: rs)
  end.
End Loop.
