(* ===== verification/DnsFacts.v ===== *)
(** * DnsFacts: the answers are the stored records *)

From S2P Require Import Prelude Text Db Engine Config Dns.
From Stdlib Require Import Ascii String.
#[local] Open Scope string_scope.

(** ** Addresses *)

(** [Display] of an [Ipv4Addr]. *)
Definition Ipv4_to_string (ip : Ipv4) : string :=
  show_N (ip_a ip) +:+ "." +:+ show_N (ip_b ip) +:+ "." +:+ show_N (ip_c ip) +:+ "." +:+ show_N (ip_d ip).

Definition octets : list N := map N.of_nat (seq 0 256).
Definition digit_chars : list ascii := map (fun n => ascii_of_N (N.of_nat n)) (seq 48 10).

Lemma octet_elem n : (n <= 255)%N -> n ∈ octets.
Proof.
  intros Hn. unfold octets. apply list_elem_of_fmap. exists (N.to_nat n).
  split; [lia|]. apply elem_of_seq. lia.
Qed.

Lemma digit_elem c : is_digit c = true -> c ∈ digit_chars.
Proof.
  unfold is_digit, code. rewrite andb_true_iff, !N.leb_le. intros [H1 H2]. unfold digit_chars.
  apply list_elem_of_fmap. exists (N.to_nat (N_of_ascii c)). rewrite N2Nat.id, ascii_N_embedding.
  split; [done|]. apply elem_of_seq. lia.
Qed.

Definition octet_text_ok (n : N) : bool :=
  bool_decide (parse_octet (show_N n) = Some n) &&
  string_forall (fun c => negb (Ascii.eqb c "."%char)) (show_N n).

Lemma octet_texts : forallb octet_text_ok octets = true.
Proof. by vm_compute. Qed.

Lemma octet_text n : (n <= 255)%N ->
  parse_octet (show_N n) = Some n /\ string_forall (fun c => negb (Ascii.eqb c "."%char)) (show_N n) = true.
Proof.
  intros Hn. pose proof octet_texts as H. rewrite forallb_forall in H.
  specialize (H n). apply octet_elem, list_elem_of_In in Hn. specialize (H Hn).
  apply andb_true_iff in H as [H1 H2]. by apply bool_decide_eq_true in H1.
Qed.

(** Every text that parses as an octet is the octet's own text. *)
Definition parses_to_itself (s : string) : bool :=
  match parse_octet s with Some n => String.eqb (show_N n) s && (n <=? 255)%N | None => true end.

Definition short_digit_strings : list string :=
  flat_map (fun a => String a "" :: flat_map (fun b => String a (String b "") ::
    map (fun c => String a (String b (String c ""))) digit_chars) digit_chars) digit_chars.

Lemma short_digit_strings_ok : forallb parses_to_itself short_digit_strings = true.
Proof. by vm_compute. Qed.

Lemma short_digits_elem s :
  is_empty s = false -> string_forall is_digit s = true -> (String.length s <= 3)%nat ->
  s ∈ short_digit_strings.
Proof.
  intros He Hd Hl. unfold short_digit_strings. rewrite list_elem_of_In, in_flat_map.
  destruct s as [|a s]; [done|]. simpl in Hd. apply andb_true_iff in Hd as [Ha Hd].
  exists a. split; [by apply list_elem_of_In, digit_elem|]. destruct s as [|b s]; [by left|]. right.
  simpl in Hd. apply andb_true_iff in Hd as [Hb Hd]. apply in_flat_map. exists b.
  split; [by apply list_elem_of_In, digit_elem|]. destruct s as [|c s]; [by left|]. right.
  simpl in Hd. apply andb_true_iff in Hd as [Hc Hd]. apply in_map_iff. exists c.
  split; [|by apply list_elem_of_In, digit_elem]. destruct s; [done|]. simpl in Hl. lia.
Qed.

Lemma parse_octet_canonical s n : parse_octet s = Some n -> s = show_N n /\ (n <= 255)%N.
Proof.
  intros Hp. pose proof Hp as Hp'. unfold parse_octet in Hp'.
  destruct (is_empty s) eqn:He; [done|]. destruct (string_forall is_digit s) eqn:Hd; [|done].
  destruct (Nat.ltb_spec 3 (String.length s)) as [|Hl]; [done|].
  pose proof short_digit_strings_ok as H. rewrite forallb_forall in H.
  specialize (H s). rewrite <- list_elem_of_In in H. specialize (H (short_digits_elem s He Hd Hl)).
  unfold parses_to_itself in H. rewrite Hp in H. apply andb_true_iff in H as [H1 H2].
  apply String.eqb_eq in H1. apply N.leb_le in H2. done.
Qed.

(** Parsing and printing an address are inverse. *)
Lemma ipv4_roundtrip s ip :
  Ipv4_from_str s = Some ip <->
  s = Ipv4_to_string ip /\ (ip_a ip <= 255 /\ ip_b ip <= 255 /\ ip_c ip <= 255 /\ ip_d ip <= 255)%N.
Proof.
  unfold Ipv4_from_str, Ipv4_to_string. split.
  - pose proof (join_split "."%char s) as Hj. destruct (split_char _ s) as [|a [|b [|c [|d [|? ?]]]]]; try done.
    destruct (parse_octet a) as [na|] eqn:Ea; [|done]. destruct (parse_octet b) as [nb|] eqn:Eb; [|done].
    destruct (parse_octet c) as [nc|] eqn:Ec; [|done]. destruct (parse_octet d) as [nd|] eqn:Ed; [|done].
    intros [= <-]. apply parse_octet_canonical in Ea as [-> ?], Eb as [-> ?], Ec as [-> ?], Ed as [-> ?].
    simpl in *. by rewrite <- Hj.
  - destruct ip as [a b c d]. simpl. intros (-> & Ha & Hb & Hc & Hd).
    apply octet_text in Ha as [Pa Na], Hb as [Pb Nb], Hc as [Pc Nc], Hd as [Pd Nd].
    assert (Hdot : forall x, "." +:+ x = String "."%char x) by done. rewrite !Hdot.
    rewrite (split_char_app _ (show_N a)), (split_char_app _ (show_N b)), (split_char_app _ (show_N c)),
      (split_char_none _ (show_N d)) by done.
    by rewrite Pa, Pb, Pc, Pd.
Qed.

(** ** Values *)

Lemma digit_char_value x : (x < 10)%N -> (code (pretty.pretty_N_char x) - 48 = x)%N.
Proof.
  intros Hx. assert (x = 0 \/ x = 1 \/ x = 2 \/ x = 3 \/ x = 4 \/ x = 5 \/ x = 6 \/ x = 7 \/ x = 8 \/ x = 9)%N as Hc by lia.
  by repeat destruct Hc as [->|Hc]; [..|subst].
Qed.

Lemma digits_value_pretty x s : digits_value (pretty.pretty_N_go x s) 0 = digits_value s x.
Proof.
  revert s. induction (N.lt_wf_0 x) as [x _ IH]. intros s. destruct (decide (x = 0)%N) as [->|Hx].
  { by rewrite pretty.pretty_N_go_0. }
  rewrite pretty.pretty_N_go_step by lia. rewrite IH by (apply N.div_lt; lia). simpl.
  rewrite digit_char_value by (apply N.mod_lt; lia). f_equal. pose proof (N.div_mod x 10 ltac:(lia)). lia.
Qed.

Lemma digits_value_show n : digits_value (show_N n) 0 = n.
Proof.
  unfold show_N, pretty.pretty, pretty.pretty_N. destruct (decide (n = 0)%N) as [->|Hn]; [done|].
  apply digits_value_pretty.
Qed.

(** A digit of the printed number. *)
Lemma digit_char_digit x : (x < 10)%N -> is_digit (pretty.pretty_N_char x) = true.
Proof.
  intros Hx. assert (x = 0 \/ x = 1 \/ x = 2 \/ x = 3 \/ x = 4 \/ x = 5 \/ x = 6 \/ x = 7 \/ x = 8 \/ x = 9)%N as Hc by lia.
  by repeat destruct Hc as [->|Hc]; [..|subst].
Qed.

Lemma digits_pretty x s : string_forall is_digit s = true -> string_forall is_digit (pretty.pretty_N_go x s) = true.
Proof.
  revert s. induction (N.lt_wf_0 x) as [x _ IH]. intros s Hs. destruct (decide (x = 0)%N) as [->|Hx].
  { by rewrite pretty.pretty_N_go_0. }
  rewrite pretty.pretty_N_go_step by lia. apply IH; [apply N.div_lt; lia|]. simpl.
  by rewrite digit_char_digit by (apply N.mod_lt; lia).
Qed.

Lemma digits_show n : string_forall is_digit (show_N n) = true.
Proof.
  unfold show_N, pretty.pretty, pretty.pretty_N. destruct (decide (n = 0)%N) as [->|Hn]; [done|]. by apply digits_pretty.
Qed.

Lemma pretty_nonempty x s : (s <> "" -> pretty.pretty_N_go x s <> "")%string.
Proof.
  revert s. induction (N.lt_wf_0 x) as [x _ IH]. intros s Hs. destruct (decide (x = 0)%N) as [->|Hx].
  { by rewrite pretty.pretty_N_go_0. }
  rewrite pretty.pretty_N_go_step by lia. apply IH; [apply N.div_lt; lia | done].
Qed.

Lemma show_nonempty n : show_N n <> "".
Proof.
  unfold show_N, pretty.pretty, pretty.pretty_N. destruct (decide (n = 0)%N) as [->|Hn]; [done|].
  rewrite pretty.pretty_N_go_step by lia. by apply pretty_nonempty.
Qed.

Lemma parse_u16_show n : (n <= 65535)%N -> parse_u16 (show_N n) = Some n.
Proof.
  intros Hn. unfold parse_u16. pose proof (digits_show n) as Hd. pose proof (digits_value_show n) as Hv.
  pose proof (show_nonempty n) as Hne. destruct (show_N n) as [|c s] eqn:E; [done|].
  assert (Ascii.eqb c "+" = false) as ->.
  { destruct (Ascii.eqb_spec c "+") as [->|]; [|done]. by simpl in Hd. }
  cbn [is_empty orb]. rewrite Hd. cbn [negb]. rewrite Hv. by apply N.leb_le in Hn as ->.
Qed.

(** A word: visible ASCII characters. *)
Definition visible (c : ascii) : bool := ((33 <=? code c) && (code c <=? 126))%N.
Definition is_word (s : string) : bool := negb (is_empty s) && string_forall visible s.

Lemma split_visible a s cur : visible a = true -> split_ws_go (String a s) cur = split_ws_go s (String a cur).
Proof.
  unfold visible. rewrite andb_true_iff, !N.leb_le. intros [H1 H2].
  assert (E1 : ws1 a = false).
  { unfold ws1. rewrite orb_false_iff, andb_false_iff, !N.leb_gt, N.eqb_neq. split; [right; lia | lia]. }
  assert (E2 : forall b, ws2 a b = false).
  { intros b. unfold ws2. destruct (N.eqb_spec (code a) 194); [lia|done]. }
  assert (E3 : forall b c, ws3 a b c = false).
  { intros b c. unfold ws3. destruct (N.eqb_spec (code a) 225); [lia|]. destruct (N.eqb_spec (code a) 226); [lia|].
    by destruct (N.eqb_spec (code a) 227); [lia|]. }
  cbn [split_ws_go]. rewrite E1. destruct s as [|b [|c s]]; [done|by rewrite E2|]. by rewrite E2, E3.
Qed.

Lemma split_visibles w s cur : string_forall visible w = true ->
  split_ws_go (w +:+ s) cur = split_ws_go s (rev_append w cur).
Proof.
  revert cur. induction w as [|a w IH]; intros cur Hw; [done|]. simpl in Hw. apply andb_true_iff in Hw as [Ha Hw].
  change (String a w +:+ s) with (String a (w +:+ s)). rewrite split_visible by done. by rewrite IH.
Qed.

Lemma flush_word w : is_word w = true -> flush (rev_append w "") = [w].
Proof.
  unfold is_word. destruct (is_empty w) eqn:E; [done|]. intros _.
  fold (string_rev w). pose proof (string_rev_rev w) as Hr. unfold flush. destruct (string_rev w) eqn:Er; [|by rewrite <- Hr].
  by destruct w.
Qed.

(** Two words and a blank between them. *)
Lemma split_two_words u w : is_word u = true -> is_word w = true -> split_whitespace (u +:+ String " " w) = [u; w].
Proof.
  intros Hu Hw. pose proof Hu as Hu'. pose proof Hw as Hw'. unfold is_word in Hu', Hw'.
  apply andb_true_iff in Hu' as [_ Hu'], Hw' as [_ Hw'].
  unfold split_whitespace. rewrite split_visibles by done. cbn [split_ws_go]. change (ws1 " "%char) with true. cbv iota.
  rewrite flush_word by done. simpl. f_equal. rewrite <- (string_app_nil w) at 1. rewrite split_visibles by done. by apply flush_word.
Qed.

Lemma show_word n : is_word (show_N n) = true.
Proof.
  unfold is_word. pose proof (show_nonempty n). pose proof (digits_show n) as Hd. apply andb_true_iff. split.
  - by destruct (show_N n).
  - revert Hd. generalize (show_N n). intros s. induction s as [|c s IH]; simpl; [done|].
    rewrite !andb_true_iff. intros [Hc Hs]. split; [|auto]. unfold is_digit in Hc. unfold visible.
    rewrite andb_true_iff, !N.leb_le in *. lia.
Qed.

(** C36: the value stored for a record is read back as the data it presents: an
    [A] value exactly when it is the canonical dotted quad of an address, an [MX]
    value of a preference and an exchange with that preference and exchange, a
    [TXT] value as itself, a [PTR] value as its name; no other type has data. *)
Theorem record_values_roundtrip `{!Hickory} :
  (forall v rdata, parse_rdata H_A v = Some rdata <-> exists a b c d,
     (a <= 255 /\ b <= 255 /\ c <= 255 /\ d <= 255)%N /\ rdata = RD_A (mkIpv4 a b c d) /\
     v = show_N a +:+ "." +:+ show_N b +:+ "." +:+ show_N c +:+ "." +:+ show_N d) /\
  (forall preference w exchange, (preference <= 65535)%N -> is_word w = true -> Name_from_str w = Some exchange ->
     parse_rdata H_MX (show_N preference +:+ String " " w) = Some (RD_MX preference exchange)) /\
  (forall v rdata, parse_rdata H_TXT v = Some rdata <-> rdata = RD_TXT [v]) /\
  (forall v rdata, parse_rdata H_PTR v = Some rdata <-> exists name, Name_from_str v = Some name /\ rdata = RD_PTR name) /\
  (forall qtype v, qtype ∉ [H_A; H_TXT; H_MX; H_PTR] -> parse_rdata qtype v = None).
Proof.
  split_and!.
  - intros v rdata. simpl. rewrite fmap_Some. setoid_rewrite ipv4_roundtrip. unfold Ipv4_to_string. split.
    + intros ([a b c d] & [-> Hb] & ->). by exists a, b, c, d.
    + intros (a & b & c & d & Hb & -> & ->). by exists (mkIpv4 a b c d).
  - intros p w x Hp Hw Hx. unfold parse_rdata. rewrite split_two_words by (done || apply show_word).
    by rewrite parse_u16_show, Hx.
  - intros v rdata. simpl. split; congruence.
  - intros v rdata. simpl. rewrite fmap_Some. naive_solver.
  - intros qtype v Hn. destruct qtype; try done; set_solver.
Qed.

(** ** Answers *)

Section Facts.
Context `{!Hickory, HE : DbEngine D}.

Lemma query_records_available name qtype rt d :
  available d -> RecordType_from_hickory qtype = Some rt ->
  exists d' records, query_records name qtype d = (d', Some records) /\ available d' /\
    view d' = view d /\ records ≡ₚ rows (keep (record_matches name rt) (t_records (view d))).
Proof.
  intros Hav Hrt. unfold query_records. rewrite Hrt.
  destruct (exec_enabled (QueryRecords (record_matches name rt)) d Hav I) as (d' & rs & E & Ha & Hv & Hr).
  exists d', rs. unfold bind. rewrite E. done.
Qed.

Lemma query_records_read name qtype d : view (fst (query_records name qtype d)) = view d.
Proof.
  unfold query_records. destruct (RecordType_from_hickory qtype); [|done].
  rewrite (fst_bind_ret _ (fun r => Some (unwrap_or [] (ok r)))). exec_step; simpl; [by destruct E | done].
Qed.

Lemma answer_queries_read qs res d : view (fst (answer_queries qs res d)) = view d.
Proof.
  revert res d. induction qs as [|q qs IH]; intros res d; simpl; [done|]. unfold bind.
  pose proof (query_records_read (clean_name (q_name q)) (q_type q) d) as Hq.
  destruct (query_records _ _ d) as [d1 [rs|]]; simpl in *; [|done]. by rewrite IH.
Qed.

Lemma handle_dns_query_read `{!DnsWire} send_to peer packet d :
  view (fst (handle_dns_query send_to peer packet d)) = view d.
Proof.
  unfold handle_dns_query. destruct (Message_from_vec packet) as [request|]; [|done]. unfold bind.
  set (res := mkDnsResponse _ _ _ _ _ _ _ _). pose proof (answer_queries_read (dq_queries request) res d) as Hv.
  by destruct (answer_queries (dq_queries request) res d).
Qed.

(** The header fields and the echoed questions. *)
Definition echoes (rd : bool) (id op : N) (qs : list Query) (res : DnsResponse) : Prop :=
  dr_id res = id /\ dr_op_code res = op /\ dr_recursion_desired res = rd /\
  dr_recursion_available res = false /\ dr_authoritative res = true /\ dr_queries res = qs.

Lemma answer_queries_echo qs res d d' res' rd id op qs0 :
  echoes rd id op qs0 res -> answer_queries qs res d = (d', Some res') ->
  echoes rd id op (qs0 ++ qs) res'.
Proof.
  revert res d qs0. induction qs as [|q qs IH]; intros res d qs0 He; simpl.
  { intros [= <- <-]. by rewrite app_nil_r. }
  unfold bind. destruct (query_records _ _ d) as [d1 [rs|]]; [|done]. intros Hr.
  apply IH with (qs0 := (qs0 ++ [q])%list) in Hr; [by rewrite <- app_assoc in Hr|].
  destruct He as (? & ? & ? & ? & ? & ?). repeat split; simpl; congruence.
Qed.

(** ** The server *)

(** The records a question asks for: those stored under its name, without the
    root dot, and its type, in some order. *)
Definition asked_records (t : Tables) (q : Query) (records : list Record_) : Prop :=
  NoDup (map rec_id records) /\ exists rt, RecordType_from_hickory (q_type q) = Some rt /\
    forall r, r ∈ records <-> t_records t !! rec_id r = Some r /\ rec_record_type r = rt /\
      rec_domain_id r = trim_end_matches (is_char "."%char) (Name_to_string (q_name q)).

(** Their answers: the name asked, the record's ttl and the value as [parse_rdata]
    reads it; a value it does not read is left out. *)
Fixpoint zone_answers (q : Query) (records : list Record_) : list Answer :=
  match records with
  | [] => []
  | r :: records' =>
      match parse_rdata (q_type q) (rec_value r) with
      | Some rdata => mkAnswer (q_name q) (rec_ttl r) rdata :: zone_answers q records'
      | None => zone_answers q records'
      end
  end.

Lemma answers_for_zone q records : answers_for q records = zone_answers q records.
Proof.
  unfold answers_for. induction records as [|r l IH]; simpl; [done|].
  destruct (parse_rdata _ _); simpl; [f_equal|]; exact IH.
Qed.

Lemma matching_rows (m : gmap N Record_) name rt :
  keyed rec_id m -> NoDup (map rec_id (rows (keep (record_matches name rt) m))) /\
  forall r, r ∈ rows (keep (record_matches name rt) m) <->
    m !! rec_id r = Some r /\ rec_record_type r = rt /\ rec_domain_id r = name.
Proof.
  intros K. split.
  - unfold rows. rewrite map_map.
    assert (E : map (fun kr : N * Record_ => rec_id kr.2) (map_to_list (keep (record_matches name rt) m)) =
            (map_to_list (keep (record_matches name rt) m)).*1).
    { apply list_fmap_ext. intros i [k r] Hi. apply list_elem_of_lookup_2, elem_of_map_to_list in Hi.
      apply keep_Some in Hi as [Hi _]. exact (K _ _ Hi). }
    rewrite E. apply NoDup_fst_map_to_list.
  - intros r. rewrite elem_of_rows. unfold record_matches. split.
    + intros [k Hk]. apply keep_Some in Hk as [Hk Hp]. apply andb_true_iff in Hp as [Hn Ht].
      apply String.eqb_eq in Hn. apply bool_decide_eq_true in Ht. by rewrite (K _ _ Hk).
    + intros (Hk & Ht & Hn). exists (rec_id r). apply keep_Some. split; [done|].
      apply andb_true_iff. split; [by apply String.eqb_eq | by apply bool_decide_eq_true].
Qed.

Lemma found_asked t q rt records :
  wf_tables t -> RecordType_from_hickory (q_type q) = Some rt ->
  records ≡ₚ rows (keep (record_matches (clean_name (q_name q)) rt) (t_records t)) -> asked_records t q records.
Proof.
  intros W Hrt Hp. destruct (matching_rows (t_records t) (clean_name (q_name q)) rt (wf_records _ W)) as [Hnd Hin].
  split; [by rewrite Hp|]. exists rt. split; [done|]. intros r. by rewrite Hp, Hin.
Qed.

(** The response of the zone [t] to a request: its header, its questions, the
    answers of each in turn, and the code of the last. *)
Definition zone_response (t : Tables) (request : DnsRequest) (res : DnsResponse) : Prop :=
  echoes (dq_recursion_desired request) (dq_id request) (dq_op_code request) (dq_queries request) res /\
  exists found, Forall2 (asked_records t) (dq_queries request) found /\
    dr_answers res = List.concat (zip_with zone_answers (dq_queries request) found) /\
    dr_response_code res = match last found with Some [] => NXDomain | _ => NoError end.

Definition known_type (q : Query) : bool :=
  match RecordType_from_hickory (q_type q) with Some _ => true | None => false end.

(** What a packet gets from the zone [t]: nothing if it does not parse or asks for
    a type the program does not know, otherwise the zone's response if that
    encodes and the socket takes it. *)
Definition zone_outcome `{!DnsWire} (send_to : string -> bytes -> result unit string) (t : Tables)
    (peer : string) (packet : bytes) (out : DnsOutcome) : Prop :=
  match Message_from_vec packet with
  | None => out = Ignored
  | Some request =>
      if decide (Forall (fun q => known_type q = true) (dq_queries request))
      then exists res, zone_response t request res /\
        match out with
        | Reply answer => Message_to_vec res = Ok answer /\ send_to peer answer = Ok tt
        | Unsent e => Message_to_vec res = Err e \/
            exists answer, Message_to_vec res = Ok answer /\ send_to peer answer = Err e
        | _ => False
        end
      else out = Panicked
  end.

Lemma answer_queries_zone qs res d :
  available d -> wf_tables (view d) ->
  exists d' r, answer_queries qs res d = (d', r) /\ available d' /\ view d' = view d /\
    if decide (Forall (fun q => known_type q = true) qs)
    then exists res' found, r = Some res' /\ Forall2 (asked_records (view d)) qs found /\
      dr_answers res' = (dr_answers res ++ List.concat (zip_with zone_answers qs found))%list /\
      dr_response_code res' = match last found with
                              | Some [] => NXDomain | Some _ => NoError | None => dr_response_code res end
    else r = None.
Proof.
  revert res d. induction qs as [|q qs IH]; intros res d Hav W; cbn [answer_queries].
  { exists d, (Some res). split_and!; try done.
    case_decide as Hn; [|by destruct Hn; constructor]. exists res, []. split_and!; try done. by rewrite app_nil_r. }
  unfold bind. destruct (RecordType_from_hickory (q_type q)) as [rt|] eqn:Ert; last first.
  { clear IH. exists d, None. unfold query_records. rewrite Ert. split_and!; try done.
    case_decide as Hk; [|done]. exfalso. apply Forall_cons_1 in Hk as [Hk _].
    unfold known_type in Hk. by rewrite Ert in Hk. }
  destruct (query_records_available (clean_name (q_name q)) (q_type q) rt d Hav Ert) as (d1 & rs & -> & Ha & Ev & Hr).
  destruct (IH (add_question q rs res) d1 Ha (eq_ind_r wf_tables W Ev)) as (d' & r & -> & Ha' & Ev' & Hres).
  clear IH. exists d', r. split_and!; [done..|congruence|]. rewrite Ev in Hres.
  assert (Hq : known_type q = true) by (unfold known_type; by rewrite Ert).
  destruct (decide (Forall (fun q => known_type q = true) qs)) as [Hk|Hk]; last first.
  { case_decide as Hk'; [|done]. by apply Forall_cons_1 in Hk' as [_ ?]. }
  case_decide as Hn; [|by destruct Hn; constructor]. destruct Hres as (res' & found & -> & Hf & Han & Hc).
  exists res', (rs :: found). split_and!; [done | by constructor; [eapply found_asked|] | |].
  - rewrite Han. simpl. rewrite answers_for_zone. destruct rs; simpl; [done|]. by rewrite <- app_assoc.
  - rewrite Hc, last_cons. destruct (last found); [done|]. by destruct rs.
Qed.

Lemma handle_dns_query_zone `{!DnsWire} send_to peer packet d :
  available d -> wf_tables (view d) -> exists d' out, handle_dns_query send_to peer packet d = (d', out) /\ available d' /\
    view d' = view d /\ zone_outcome send_to (view d) peer packet out.
Proof.
  intros Hav W. unfold handle_dns_query, zone_outcome.
  destruct (Message_from_vec packet) as [request|]; [|by exists d, Ignored].
  unfold bind. set (res0 := mkDnsResponse _ _ _ _ _ _ _ _).
  destruct (answer_queries_zone (dq_queries request) res0 d Hav W) as (d' & r & E & Ha & Ev & Hr). rewrite E.
  eexists d', _. split_and!; try done. destruct (decide _) as [Hk|Hk]; [|by rewrite Hr].
  destruct Hr as (res' & found & -> & Hf & Han & Hc). exists res'.
  split; [|destruct (Message_to_vec res') as [answer|e]; [destruct (send_to peer answer) as [[]|e] eqn:Es|]; eauto].
  split.
  - by apply (answer_queries_echo _ _ _ _ _ (dq_recursion_desired request) (dq_id request) (dq_op_code request) []) in E.
  - exists found. split_and!; [done..|]. rewrite Hc. by destruct (last found).
Qed.

Section Loop.
Context `{!DnsWire}.

(** C13: the server loses no datagram and answers each from the zone, whatever
    else it receives: with the store available and sound, in whatever order the
    runtime runs the tasks, every datagram has its own outcome, decided by its first 512
    bytes: the response holding exactly the stored records of the names and types
    asked whose values [parse_rdata] reads, sent if it encodes and the socket
    takes it; no reply if it does not, if the packet does not parse, or if it asks
    for a type the program does not know, which panics its task alone.  The store
    is not changed. *)
Theorem dns_server_serves_zone send_to received tasks d :
  available d -> wf_tables (view d) -> tasks ≡ₚ dns_tasks received ->
  exists d' outs, run_dns_tasks send_to tasks d = (d', outs) /\ view d' = view d /\
    Forall2 (fun task out => fst out = fst task /\
      zone_outcome send_to (view d) (fst task) (snd task) (snd out)) tasks outs /\
    map fst outs ≡ₚ omap (fun r => match r with Datagram peer _ => Some peer | RecvError _ => None end) received.
Proof.
  intros Hav W Hp.
  assert (Hrun : exists d' outs, run_dns_tasks send_to tasks d = (d', outs) /\ view d' = view d /\
    Forall2 (fun task out => fst out = fst task /\
      zone_outcome send_to (view d) (fst task) (snd task) (snd out)) tasks outs).
  { clear Hp. revert d Hav W. induction tasks as [|[peer packet] tasks IH]; intros d Hav W; [by exists d, []|].
    simpl. unfold bind at 1, run_dns_task. unfold bind at 1.
    destruct (handle_dns_query_zone send_to peer packet d Hav W) as (d1 & out & -> & Ha & Ev & Ho). simpl.
    destruct (IH d1 Ha (eq_ind_r wf_tables W Ev)) as (d' & outs & E & Ev' & Hf). unfold bind. rewrite E, Ev in *.
    exists d', ((peer, out) :: outs). split_and!; [done..|]. by constructor. }
  destruct Hrun as (d' & outs & E & Ev & Hf). exists d', outs. split_and!; [done..|].
  assert (Hm : map fst outs = map fst tasks).
  { clear -Hf. induction Hf as [|t o ts os [Ht _] _ IH]; simpl; [done|]. by rewrite Ht, IH. }
  rewrite Hm, Hp. clear. induction received as [|[e|peer packet] l IH]; simpl; [done..|]. by rewrite IH.
Qed.
End Loop.

(** A question whose type hickory knows and the program does not makes the
    handler panic before any reply is sent. *)
Lemma dns_unknown_type_panics `{!DnsWire} send_to peer packet id op rd q qs d :
  Message_from_vec packet = Some (mkDnsRequest id op rd (q :: qs)) -> RecordType_from_hickory (q_type q) = None ->
  snd (handle_dns_query send_to peer packet d) = Panicked.
Proof.
  intros Hp Hn. unfold handle_dns_query. rewrite Hp. unfold answer_queries, query_records, bind. simpl. by rewrite Hn.
Qed.
End Facts.

(** ** A concrete zone *)

#[export] Instance demo_hickory : Hickory := {|
  Name := string; Name_from_str := Some; Name_to_string := fun s => s +:+ "." |}.

Definition demo_zone : MemDb :=
  mkMemDb (on_records <[1%N := mkRecord 1 "near.example" RT_A "192.0.2.7" 300 0 0]> empty_tables) 0 [].
Lemma demo_zone_wf : wf_tables (view demo_zone).
Proof.
  apply (stmt_wf (CreateRecord "near.example" RT_A "192.0.2.7" 300) empty_tables (mkRecord 1 "near.example" RT_A "192.0.2.7" 300 0 0));
    [|apply wf_empty].
  exists 1%N, 0%Z. split_and!; [done| |done..]. intros (k & r & Hk & _). cbn [t_records empty_tables] in Hk. by rewrite lookup_empty in Hk.
Qed.
Definition demo_name : @Name demo_hickory := "near.example".
Definition demo_dns : DnsRequest := mkDnsRequest 77 0 true [mkQuery demo_name H_A].

(** A wire format that reads the empty packet as the demo request, one byte as a
    question of a type the program does not know, and writes empty packets. *)
#[export] Instance demo_wire : DnsWire := {|
  Message_from_vec := fun packet =>
    match packet with
    | [] => Some demo_dns
    | [_] => Some (mkDnsRequest 1 0 false [mkQuery demo_name (H_Other 53)])
    | _ => None
    end;
  Message_to_vec := fun _ => Ok [] |}.
Definition demo_socket (peer : string) (packet : bytes) : result unit string := Ok tt.
Definition demo_received : list Received :=
  [Datagram "198.51.100.1:53" [Byte.x01]; RecvError "reset"; Datagram "198.51.100.2:53" []].
Definition demo_tasks : list (string * bytes) := [("198.51.100.2:53", []); ("198.51.100.1:53", [Byte.x01])].

Lemma dns_unknown_type_panics_witness :
  snd (handle_dns_query demo_socket "198.51.100.1:53" [Byte.x01] demo_zone) = Panicked.
Proof. by apply (dns_unknown_type_panics demo_socket _ _ 1 0 false (mkQuery demo_name (H_Other 53)) []). Defined.

Lemma dns_server_serves_zone_witness :
  exists d' outs, run_dns_tasks demo_socket demo_tasks demo_zone = (d', outs) /\ view d' = view demo_zone /\
    Forall2 (fun task out => fst out = fst task /\
      zone_outcome demo_socket (view demo_zone) (fst task) (snd task) (snd out)) demo_tasks outs /\
    map fst outs ≡ₚ ["198.51.100.1:53"; "198.51.100.2:53"].
Proof.
  apply (dns_server_serves_zone demo_socket demo_received demo_tasks demo_zone); [constructor | apply demo_zone_wf | apply Permutation_swap].
Defined.

Lemma record_values_roundtrip_witness :
  parse_rdata H_A "192.0.2.7" = Some (RD_A (mkIpv4 192 0 2 7)) /\
  parse_rdata H_MX "10 mx.near.example" = Some (RD_MX 10 ("mx.near.example" : @Name demo_hickory)) /\
  parse_rdata H_AAAA "2001:db8::1" = None.
Proof.
  destruct record_values_roundtrip as (HA & HMX & _ & _ & HN). split_and!.
  - apply HA. by exists 192%N, 0%N, 2%N, 7%N.
  - by apply (HMX 10%N "mx.near.example").
  - apply HN. set_solver.
Defined.
