(* ===== verification/ConfigFacts.v ===== *)
(** * ConfigFacts: configurations read back, and the defaults of missing settings *)

From S2P Require Import Prelude Text Db Engine Config ConfigSerde Dns DnsFacts.
From Stdlib Require Import Ascii String.
#[local] Open Scope string_scope.

(** ** Containers *)

Lemma de_option_ser {A} (ser : A -> Json) (de : Json -> option A) o :
  (forall x, o = Some x -> ser x <> JNull /\ de (ser x) = Some x) -> de_option de (ser_option ser o) = Some o.
Proof.
  destruct o as [x|]; [|done]. intros Hx. destruct (Hx x eq_refl) as [Hn Hd]. simpl.
  unfold de_option. destruct (ser x) eqn:E; [done|..]; by rewrite Hd.
Qed.

Lemma de_vec_ser {A} (ser : A -> Json) (de : Json -> option A) l :
  Forall (fun x => de (ser x) = Some x) l -> de_vec de (ser_vec ser l) = Some l.
Proof. simpl. induction 1 as [|x l Hx _ IH]; simpl; [done|]. by rewrite Hx; simpl; rewrite IH. Qed.

Lemma de_map_fold {A} (ser : A -> Json) (de : Json -> option A) l (acc : gmap string A) :
  (forall x, de (ser x) = Some x) ->
  foldl (fun acc kv => m ← acc; x ← de (snd kv); Some (<[fst kv := x]> m)) (Some acc)
    (map (fun kr => (fst kr, ser (snd kr))) l) = Some (foldl (fun m kr => <[fst kr := snd kr]> m) acc l).
Proof. intros Hx. revert acc. induction l as [|[k x] l IH]; intros acc; simpl; [done|]. by rewrite Hx; simpl; rewrite IH. Qed.

Lemma insert_all {A} (l : list (string * A)) (acc : gmap string A) :
  NoDup l.*1 -> (forall k, k ∈ l.*1 -> acc !! k = None) ->
  foldl (fun m kr => <[fst kr := snd kr]> m) acc l = list_to_map l ∪ acc.
Proof.
  revert acc. induction l as [|[k x] l IH]; intros acc Hnd Hacc; simpl; [by rewrite (left_id_L ∅ _)|].
  apply NoDup_cons in Hnd as [Hk Hnd]. rewrite IH; [|done|].
  - rewrite <- insert_union_r; [by rewrite insert_union_l|]. by apply not_elem_of_list_to_map.
  - intros k' Hk'. rewrite lookup_insert_ne; [apply Hacc; set_solver|]. intros ->. done.
Qed.

Lemma de_map_ser {A} (ser : A -> Json) (de : Json -> option A) (m : gmap string A) :
  (forall x, de (ser x) = Some x) ->
  de_map de (JObject (map (fun kr => (fst kr, ser (snd kr))) (map_to_list m))) = Some m.
Proof.
  intros Hx. simpl. rewrite de_map_fold by done. f_equal. rewrite insert_all.
  - by rewrite list_to_map_to_list, (right_id_L ∅ _).
  - apply NoDup_fst_map_to_list.
  - intros k _. apply lookup_empty.
Qed.

Section Facts.
Context `{!Format}.

Lemma de_strings l : de_vec de_string (ser_vec JString l) = Some l.
Proof. apply de_vec_ser, Forall_true. apply fmt_string. Qed.

Lemma de_opt_string o : de_option de_string (ser_option JString o) = Some o.
Proof. apply de_option_ser. intros x _. split; [done|]. apply fmt_string. Qed.

Lemma de_struct_get names fields get :
  de_struct names (JObject fields) = Some get -> forall name, get name = json_get name (JObject fields).
Proof. destruct (fmt_struct names fields) as (g & -> & Hg). by intros [= <-]. Qed.

(** Open a struct on an object and read its fields. *)
Ltac open_struct :=
  match goal with
  | |- context [de_struct ?names (JObject ?fields)] =>
      let get := fresh "get" in let Hg := fresh "Hg" in
      destruct (fmt_struct names fields) as (get & -> & Hg); cbn [mbind option_bind];
      rewrite !Hg; clear Hg;
      cbn [json_get find fst snd fmap option_fmap option_map field field_or mbind option_bind
           String.eqb Ascii.eqb Bool.eqb]
  end.

(** ** Round trips *)

Lemma BootMode_rt m : BootMode_de (BootMode_ser m) = Some m.
Proof. unfold BootMode_de, BootMode_ser. rewrite fmt_variant. by destruct m. Qed.

Lemma KeysKind_rt k : KeysKind_de (KeysKind_ser k) = Some k.
Proof. unfold KeysKind_de, KeysKind_ser. rewrite fmt_variant. by destruct k. Qed.

Lemma StartTlsMode_rt m : StartTlsMode_de (StartTlsMode_ser m) = Some m.
Proof. unfold StartTlsMode_de, StartTlsMode_ser. rewrite fmt_variant. by destruct m. Qed.

Lemma OutboundTlsMode_rt m : OutboundTlsMode_de (OutboundTlsMode_ser m) = Some m.
Proof. unfold OutboundTlsMode_de, OutboundTlsMode_ser. rewrite fmt_variant. by destruct m. Qed.

Lemma RecordType_rt rt : RecordType_de (RecordType_ser rt) = Some rt.
Proof. unfold RecordType_de, RecordType_ser. rewrite fmt_variant. by destruct rt. Qed.

Lemma MailboxEntry_rt e : MailboxEntry_de (MailboxEntry_ser e) = Some e.
Proof.
  unfold MailboxEntry_de. destruct e as [s|id fwd]; cbn [MailboxEntry_ser]; [by rewrite fmt_string|].
  rewrite fmt_not_string. open_struct. rewrite fmt_string. cbn [mbind option_bind]. by rewrite de_opt_string.
Qed.

(** ** Widths *)

Definition dto_typed (r : RecordDTO) : Prop := (dto_ttl r < u32_modulus)%N.
Definition keys_typed (k : KeyConfig) : Prop :=
  (kc_refresh_interval_secs k < u64_modulus /\ kc_cache_ttl_secs k < u64_modulus)%N.
Definition relay_typed (r : OutboundRelay) : Prop := (relay_port r < u16_modulus)%N.

(** Every number of a configuration fits its Rust type. *)
Record config_typed (c : Config) : Prop := {
  ct_dns : (cfg_dns c < u16_modulus)%N;
  ct_smtp : (cfg_smtp c < u16_modulus)%N;
  ct_api : (cfg_api c < u16_modulus)%N;
  ct_records : Forall dto_typed (cfg_records c);
  ct_skew : (ac_clock_skew_secs (cfg_auth c) < u64_modulus)%N;
  ct_keys : keys_typed (ac_keys (cfg_auth c));
  ct_smtps : (st_smtps_port (cfg_smtp_tls c) < u16_modulus)%N;
  ct_relay : forall r, ot_relay (cfg_outbound c) = Some r -> relay_typed r;
}.

Ltac read_fields :=
  repeat (first [ rewrite fmt_string | rewrite de_opt_string | rewrite de_strings | rewrite fmt_bool
                | rewrite fmt_u16 by done | rewrite fmt_u32 by done | rewrite fmt_u64 by done
                | rewrite BootMode_rt | rewrite KeysKind_rt | rewrite StartTlsMode_rt | rewrite OutboundTlsMode_rt
                | rewrite RecordType_rt ]; cbn [mbind option_bind]).

Lemma RecordDTO_rt r : dto_typed r -> RecordDTO_de (RecordDTO_ser r) = Some r.
Proof. intros Hr. unfold RecordDTO_de, RecordDTO_ser, ser_num. open_struct. read_fields. by destruct r. Qed.

Lemma RoleConfig_rt r : RoleConfig_de (RoleConfig_ser r) = Some r.
Proof. unfold RoleConfig_de, RoleConfig_ser. open_struct. read_fields. by destruct r. Qed.

Lemma KeyConfig_rt k : keys_typed k -> kc_jwks k <> Some JNull -> KeyConfig_de (KeyConfig_ser k) = Some k.
Proof.
  intros [H1 H2] Hj. unfold KeyConfig_de, KeyConfig_ser, ser_num. open_struct. read_fields.
  rewrite (de_option_ser id Some); [|intros x Hx; split; [intros He; apply Hj; by rewrite Hx, <- He|done]]. cbn [mbind option_bind].
  read_fields. by destruct k.
Qed.

Lemma AuthConfig_rt a :
  (ac_clock_skew_secs a < u64_modulus)%N -> keys_typed (ac_keys a) -> kc_jwks (ac_keys a) <> Some JNull ->
  AuthConfig_de (AuthConfig_ser a) = Some a.
Proof.
  intros Hs Hk Hj. unfold AuthConfig_de, AuthConfig_ser, ser_num. open_struct. read_fields.
  unfold OneOrManyStrings_de. unfold ser_vec at 1. rewrite fmt_array_not_string. fold (ser_vec JString (ac_audience a)).
  read_fields. rewrite KeyConfig_rt by done. cbn [mbind option_bind].
  rewrite (de_map_ser RoleConfig_ser RoleConfig_de _ RoleConfig_rt). by destruct a.
Qed.

Lemma CertSource_rt c : CertSource_ser c <> JNull /\ CertSource_de (CertSource_ser c) = Some c.
Proof.
  destruct c as [cert key|server key domain]; (split; [done|]); unfold CertSource_de, CertSource_ser.
  - rewrite (fmt_tagged "kind" _ "files") by done. cbn [mbind option_bind]. simpl String.eqb. cbv iota.
    open_struct. by read_fields.
  - rewrite (fmt_tagged "kind" _ "acme") by done. cbn [mbind option_bind]. simpl String.eqb. cbv iota.
    open_struct. by read_fields.
Qed.

Lemma SmtpTlsConfig_rt t : (st_smtps_port t < u16_modulus)%N -> SmtpTlsConfig_de (SmtpTlsConfig_ser t) = Some t.
Proof.
  intros Hp. unfold SmtpTlsConfig_de, SmtpTlsConfig_ser, ser_num. open_struct. read_fields.
  rewrite de_option_ser by (intros; apply CertSource_rt). by destruct t.
Qed.

Lemma OutboundRelay_rt r : relay_typed r -> OutboundRelay_ser r <> JNull /\ OutboundRelay_de (OutboundRelay_ser r) = Some r.
Proof.
  intros Hp. split; [done|]. unfold OutboundRelay_de, OutboundRelay_ser, ser_num. open_struct. read_fields. by destruct r.
Qed.

Lemma OutboundTransport_rt t :
  (forall r, ot_relay t = Some r -> relay_typed r) -> OutboundTransport_de (OutboundTransport_ser t) = Some t.
Proof.
  intros Hr. unfold OutboundTransport_de, OutboundTransport_ser. open_struct. read_fields.
  rewrite de_option_ser by (intros; by apply OutboundRelay_rt, Hr). cbn [mbind option_bind]. read_fields. by destruct t.
Qed.

(** C14: the names, renames, tags and defaults agree between writing and reading:
    every configuration whose numbers fit their types is read back as it was
    written, in every format; the one exception is an inline key set of JSON
    [null], which reads as none. *)
Theorem config_roundtrip c :
  config_typed c -> kc_jwks (ac_keys (cfg_auth c)) <> Some JNull -> Config_de (Config_ser c) = Some c.
Proof.
  intros [] Hj. unfold Config_de, Config_ser, ser_num. open_struct. read_fields.
  rewrite (de_vec_ser RecordDTO_ser) by (eapply Forall_impl; [exact ct_records0 | apply RecordDTO_rt]). cbn [mbind option_bind].
  rewrite (de_vec_ser MailboxEntry_ser) by (apply Forall_true, MailboxEntry_rt). cbn [mbind option_bind].
  rewrite (de_option_ser BootMode_ser) by (intros x _; split; [done | apply BootMode_rt]). cbn [mbind option_bind].
  rewrite AuthConfig_rt by done. cbn [mbind option_bind]. rewrite SmtpTlsConfig_rt by done. cbn [mbind option_bind].
  rewrite OutboundTransport_rt by done. by destruct c.
Qed.

(** ** What a reading establishes *)

Ltac read_inv H :=
  repeat (let x := fresh "x" in let Hx := fresh "Hx" in apply bind_Some in H as (x & Hx & H)); injection H as <-.

(** ** Defaults *)

(** A name the table does not have names, in what was read, the default's value. *)
Definition absent_default {A} (ser : A -> Json) (d : A) (fields : list (string * Json)) (x : A) : Prop :=
  forall name, json_get name (JObject fields) = None -> json_get name (ser x) = json_get name (ser d).

Lemma field_or_absent {A} (d : A) de get (x : A) (fields : list (string * Json)) name :
  (forall name, get name = json_get name (JObject fields)) -> json_get name (JObject fields) = None ->
  field_or d de (get name) = Some x -> x = d.
Proof. intros Hg Hn. rewrite Hg, Hn. by intros [= <-]. Qed.

Ltac absent_fields :=
  intros name Hn; unfold Config_ser, AuthConfig_ser, KeyConfig_ser, SmtpTlsConfig_ser, OutboundTransport_ser;
  cbn [json_get find fst];
  repeat match goal with
         | |- context [String.eqb ?s name] =>
             destruct (String.eqb_spec s name) as [<-|_];
             [ match goal with
               | Hg : (forall name, ?get name = json_get name (JObject ?fields)), Hx : field_or _ _ (?get s) = Some ?x |- _ =>
                   rewrite (field_or_absent _ _ _ _ _ _ Hg Hn Hx); reflexivity
               end | ]
         end; try reflexivity.

Ltac read_struct H :=
  apply bind_Some in H as (get & Hget & H); pose proof (de_struct_get _ _ _ Hget) as Hg; read_inv H.

Lemma KeyConfig_absent fields k :
  KeyConfig_de (JObject fields) = Some k -> absent_default KeyConfig_ser KeyConfig_default fields k.
Proof. unfold KeyConfig_de. intros H0. read_struct H0. absent_fields. Qed.

Lemma AuthConfig_absent fields a :
  AuthConfig_de (JObject fields) = Some a -> absent_default AuthConfig_ser AuthConfig_default fields a.
Proof. unfold AuthConfig_de. intros H0. read_struct H0. absent_fields. Qed.

Lemma AuthConfig_keys_absent fields a t :
  AuthConfig_de (JObject fields) = Some a -> json_get "keys" (JObject fields) = Some (JObject t) ->
  absent_default KeyConfig_ser KeyConfig_default t (ac_keys a).
Proof.
  unfold AuthConfig_de. intros H0 Ht. read_struct H0. rewrite !Hg in *. simpl.
  match goal with H : field_or _ KeyConfig_de _ = Some _ |- _ => rewrite Ht in H; by apply KeyConfig_absent end.
Qed.

Lemma SmtpTlsConfig_absent fields t :
  SmtpTlsConfig_de (JObject fields) = Some t -> absent_default SmtpTlsConfig_ser SmtpTlsConfig_default fields t.
Proof. unfold SmtpTlsConfig_de. intros H0. read_struct H0. absent_fields. Qed.

Lemma OutboundTransport_absent fields t :
  OutboundTransport_de (JObject fields) = Some t ->
  absent_default OutboundTransport_ser OutboundTransport_default fields t.
Proof. unfold OutboundTransport_de. intros H0. read_struct H0. absent_fields. Qed.

(** C31: every setting falls back on its own: a field missing from the merged
    table, or from its [auth], [auth.keys], [smtp_tls] or [outbound] table, has
    the default's value whatever else is set, and with no source at all the
    configuration is [Config::default()]. *)
Theorem missing_settings_default fields c :
  Config_load (Ok (JObject fields)) = Ok c ->
  absent_default Config_ser Config_default fields c /\
  (forall t, json_get "auth" (JObject fields) = Some (JObject t) ->
     absent_default AuthConfig_ser AuthConfig_default t (cfg_auth c) /\
     (forall t', json_get "keys" (JObject t) = Some (JObject t') ->
        absent_default KeyConfig_ser KeyConfig_default t' (ac_keys (cfg_auth c)))) /\
  (forall t, json_get "smtp_tls" (JObject fields) = Some (JObject t) ->
     absent_default SmtpTlsConfig_ser SmtpTlsConfig_default t (cfg_smtp_tls c)) /\
  (forall t, json_get "outbound" (JObject fields) = Some (JObject t) ->
     absent_default OutboundTransport_ser OutboundTransport_default t (cfg_outbound c)) /\
  (fields = [] -> c = Config_default).
Proof.
  unfold Config_load. destruct (Config_de _) as [c'|] eqn:E; [|done]. intros [= <-].
  unfold Config_de in E. read_struct E. split; [absent_fields|]. rewrite !Hg in *. split_and!.
  - intros t Ht. match goal with H : field_or _ AuthConfig_de _ = Some _ |- _ => rewrite Ht in H; simpl in H;
      split; [by apply AuthConfig_absent | intros t' Ht'; by eapply AuthConfig_keys_absent] end.
  - intros t Ht. match goal with H : field_or _ SmtpTlsConfig_de _ = Some _ |- _ => rewrite Ht in H; by apply SmtpTlsConfig_absent end.
  - intros t Ht. match goal with H : field_or _ OutboundTransport_de _ = Some _ |- _ => rewrite Ht in H; by apply OutboundTransport_absent end.
  - intros ->. simpl in *. simplify_eq. done.
Qed.
End Facts.

(** ** A concrete format: JSON, strictly *)

(** An unsigned integer of a width. *)
Definition json_unsigned (modulus : N) (v : Json) : option N :=
  match v with
  | JNumber repr => let n := digits_value repr 0 in if (n <? modulus)%N then Some n else None
  | _ => None
  end.

Lemma json_unsigned_show m n : (n < m)%N -> json_unsigned m (JNumber (show_N n)) = Some n.
Proof. intros Hn. simpl. rewrite digits_value_show. by apply N.ltb_lt in Hn as ->. Qed.

#[export] Program Instance json_format : Format := {|
  de_string := json_as_str;
  de_bool := fun v => match v with JBool b => Some b | _ => None end;
  de_u16 := json_unsigned u16_modulus;
  de_u32 := json_unsigned u32_modulus;
  de_u64 := json_unsigned u64_modulus;
  de_variant := json_as_str;
  de_struct := fun _ v => match v with JObject _ => Some (fun name => json_get name v) | _ => None end;
  de_tagged := fun tag v => t ← json_get tag v; s ← json_as_str t; Some (s, v);
|}.
Solve Obligations with first [ done | apply json_unsigned_show | by eexists ].
Next Obligation. intros tag fields t Ht. unfold json_get in Ht |- *. by rewrite Ht. Qed.

Definition demo_config : Config :=
  mkConfig "127.0.0.1" 5353 2525 8081 "turso:zonemail.db" ["near.example"]
    [mkRecordDTO "near.example" RT_MX "10 mx.near.example" 300] [Simple "a@near.example"; Detailed "b@near.example" None]
    (Some ModeSmtp)
    (mkAuthConfig true (Some "iss") ["aud"] 30 "sub" ["role"; "groups"] default_public
       (mkKeyConfig KindJwksRemote None None None (Some (JObject [])) (Some "https://k.example/jwks") None None None None None
          true 300 300 true ["RS256"])
       {[ "viewer" := mkRoleConfig ["domains:read"] []; "editor" := mkRoleConfig ["domains:write"] ["viewer"] ]})
    (mkSmtpTlsConfig StartTlsOptional 465 (Some (CertFiles "c.pem" "k.pem")))
    (mkOutboundTransport TlsRequired (Some (mkOutboundRelay (Some "smtp.example.com") 587 (Some "me") None (Some "PASS"))) false).

Lemma demo_config_typed : config_typed demo_config.
Proof. split; try done; [by repeat constructor|]. by intros r [= <-]. Qed.

Lemma config_roundtrip_witness : Config_de (Config_ser demo_config) = Some demo_config.
Proof. apply (config_roundtrip demo_config); [apply demo_config_typed | done]. Defined.

(** A partial file: [smtp = 2525], [auth = { enabled = true, audience = "zm" }]. *)
Definition demo_table : list (string * Json) :=
  [("smtp", JNumber "2525"); ("auth", JObject [("enabled", JBool true); ("audience", JString "zm")])].
Definition demo_loaded : Config :=
  match Config_load (Ok (JObject demo_table)) with Ok c => c | Err _ => Config_default end.

Lemma missing_settings_default_witness :
  absent_default Config_ser Config_default demo_table demo_loaded /\
  absent_default AuthConfig_ser AuthConfig_default [("enabled", JBool true); ("audience", JString "zm")]
    (cfg_auth demo_loaded).
Proof.
  destruct (missing_settings_default demo_table demo_loaded) as (Hc & Ha & _); [by vm_compute|].
  split; [exact Hc|]. by apply Ha.
Defined.

(** A port that does not fit is an error, not a wrapped port. *)
Example oversized_port : is_ok (Config_load (Ok (JObject [("smtp", JNumber "65561")]))) = false.
Proof. done. Qed.
