(* ===== verification/App.v ===== *)
(** * App: initialisation and seeding (src/src/app.rs)

    Opening the store, the tolerance for an existing schema, building the
    authenticator and seeding the tables from the configuration. *)

From S2P Require Import Prelude Text Db Engine Config Send Policy Keys Auth.
From Stdlib Require Import Ascii String.
#[local] Open Scope string_scope.

(** [push_schema]'s outcome: an "already exists" error is not one. *)
Definition schema_ready (r : result unit string) : result unit string :=
  match r with
  | Ok _ => Ok tt
  | Err e => if contains "already exists" e then Ok tt else Err e
  end.

Definition auth_error (e : AuthBuildError) : string :=
  match e with
  | NoKeyMaterial => "`auth.enabled = true` but no verification key material is configured"
  | UnknownAlgorithm n => "a configured algorithm `" +:+ n +:+ "` is unknown (expected e.g. `HS256`, `RS256`, `ES256`)"
  | JwksParse e => "could not parse the inline JWKS set: " +:+ e
  | NoSecret => "the `secret` source did not resolve to bytes (check `secret`/`secret_b64`/`secret_env` and the environment)"
  end.

Section Seed.
Context `{!UnicodeLower, HO : DbOps D}.

(** One configured domain. *)
Definition seed_domain (domain_id : string) : M D (result unit string) :=
  let! r := exec (GetDomain domain_id) in
  let domain_exists := is_ok r in
  if negb domain_exists then
    let? _ := exec (CreateDomain domain_id) in ret (Ok tt)
  else ret (Ok tt).

(** One configured mailbox; an address that is not one is skipped. *)
Definition seed_mailbox (now : Timestamp) (entry : MailboxEntry) : M D (result unit string) :=
  match Mailbox_try_from now (entry_address entry) with
  | Err _ => ret (Ok tt)
  | Ok mailbox =>
      let id := to_lowercase (mb_id mailbox) in
      let! r := exec (GetMailbox id) in
      let exists_ := is_ok r in
      if negb exists_ then
        let? _ := exec (CreateMailbox id (mb_domain_id mailbox) (entry_forward_to entry)) in ret (Ok tt)
      else ret (Ok tt)
  end.

(** One configured record. *)
Definition seed_record (now : Timestamp) (dto : RecordDTO) : M D (result unit string) :=
  let record := Record_from_dto now dto in
  let? _ := exec (CreateRecord (rec_domain_id record) (rec_record_type record) (rec_value record) (rec_ttl record)) in
  ret (Ok tt).

(** [seed_from_config]. *)
Definition seed_from_config (now : Timestamp) (config : Config) : M D (result unit string) :=
  let? _ := for_each_try (cfg_domains config) seed_domain in
  let? _ := for_each_try (cfg_mailboxes config) (seed_mailbox now) in
  for_each_try (cfg_records config) (seed_record now).

Section Init.
Context `{!Jwt, !Base64, !HeaderSyntax}.

Record AppState : Type := mkAppState { app_db : D; app_auth : AuthService }.

(** [AppState::from_driver]: authentication stays disabled. *)
Definition from_driver (db : result D string) (push_schema : M D (result unit string)) : result AppState string :=
  match db with
  | Err e => Err e
  | Ok db =>
      let '(db, schema) := push_schema db in
      match schema_ready schema with
      | Err e => Err e
      | Ok _ => Ok (mkAppState db disabled)
      end
  end.

(** [AppState::init]. *)
Definition init (db : result D string) (push_schema : M D (result unit string))
    (env : string -> option string) (clock : N) (now : Timestamp) (config : Config) : result AppState string :=
  match db with
  | Err e => Err e
  | Ok db =>
      let '(db, schema) := push_schema db in
      match schema_ready schema with
      | Err e => Err e
      | Ok _ =>
          match Auth.build env clock (cfg_auth config) with
          | Err e => Err (auth_error e)
          | Ok auth =>
              let '(db, seeded) := seed_from_config now config db in
              match seeded with
              | Err e => Err e
              | Ok _ => Ok (mkAppState db auth)
              end
          end
      end
  end.
End Init.
End Seed.
