(* ===== verification/AppFacts.v ===== *)
(** * AppFacts: what seeding establishes *)

From S2P Require Import Prelude Text Db Engine Config Send Email EmailFacts Policy Keys Auth App.
From Stdlib Require Import Ascii String.
#[local] Open Scope string_scope.

(** Seeding only adds rows. *)
Record seeds (t t' : Tables) : Prop := {
  sd_domains : t_domains t ⊆ t_domains t';
  sd_mailboxes : t_mailboxes t ⊆ t_mailboxes t';
  sd_records : t_records t ⊆ t_records t';
  sd_messages : t_messages t' = t_messages t;
  sd_inbound : t_inbound t' = t_inbound t;
  sd_outbound : t_outbound t' = t_outbound t;
  sd_delivery : t_delivery t' = t_delivery t;
}.

#[export] Instance seeds_preorder : PreOrder seeds.
Proof.
  split.
  - intros t. by split.
  - intros t1 t2 t3 [] []. split; try congruence; by etrans.
Qed.

(** [t] has the mailbox an entry names, if it names one. *)
Definition mailbox_seeded `{!UnicodeLower} (entry : MailboxEntry) (t : Tables) : Prop :=
  forall now mb, Mailbox_try_from now (entry_address entry) = Ok mb ->
  is_Some (t_mailboxes t !! to_lowercase (entry_address entry)).

Definition record_seeded (dto : RecordDTO) (t : Tables) : Prop :=
  exists k r, t_records t !! k = Some r /\
    same_triple (dto_domain_id dto) (dto_record_type dto) (dto_value dto) r = true.

Section Facts.
Context `{!UnicodeLower, HE : DbEngine D}.

Lemma try_from_id now id mb : Mailbox_try_from now id = Ok mb -> mb_id mb = id.
Proof.
  unfold Mailbox_try_from. destruct (_ !! _) as [dom|]; [|done]. destruct (is_empty dom); [done|].
  by intros [= <-].
Qed.

Lemma seed_domain_spec id d d' :
  seed_domain id d = (d', Ok tt) -> seeds (view d) (view d') /\ is_Some (t_domains (view d') !! id).
Proof.
  unfold seed_domain, bind_try, bind. exec_step; simpl.
  { destruct E as [Ev Hd]. intros [= <-]. rewrite Ev. split; [reflexivity | eauto]. }
  rewrite <- E. exec_step; [|done]. destruct E0 as (Hn & ts & -> & Ev). intros [= <-]. rewrite Ev. simpl. split.
  - split; simpl; try done. by apply insert_subseteq.
  - rewrite lookup_insert_eq. eauto.
Qed.

Lemma seed_mailbox_spec now entry d d' :
  seed_mailbox now entry d = (d', Ok tt) -> seeds (view d) (view d') /\ mailbox_seeded entry (view d').
Proof.
  unfold seed_mailbox, mailbox_seeded. destruct (Mailbox_try_from now (entry_address entry)) as [mb|] eqn:Em; last first.
  { intros [= <-]. split; [done|]. intros now' mb' Hm. unfold Mailbox_try_from in *.
    destruct (_ !! _) as [dom|]; [|done]. by destruct (is_empty dom). }
  rewrite (try_from_id _ _ _ Em). unfold bind_try, bind. exec_step; simpl.
  { destruct E as [Ev Hd]. intros [= <-]. rewrite Ev. split; [reflexivity | eauto]. }
  rewrite <- E. exec_step; [|done]. destruct E0 as (Hn & ts & -> & Ev). intros [= <-]. rewrite Ev. simpl. split.
  - split; simpl; try done. by apply insert_subseteq.
  - intros _ _ _. rewrite lookup_insert_eq. eauto.
Qed.

Lemma seed_record_spec now dto d d' :
  seed_record now dto d = (d', Ok tt) -> seeds (view d) (view d') /\ record_seeded dto (view d').
Proof.
  unfold seed_record, bind_try, bind. exec_step; [|done]. destruct E as (k & ts & Hn & _ & -> & Ev).
  intros [= <-]. rewrite Ev. simpl. split.
  - split; simpl; try done. by apply insert_subseteq.
  - exists k, (mkRecord k (dto_domain_id dto) (dto_record_type dto) (dto_value dto) (dto_ttl dto) ts ts).
    simpl. rewrite lookup_insert_eq. split; [done|]. by apply same_triple_spec.
Qed.

(** A loop of seeding steps: each item's fact holds at the end. *)
Lemma seed_loop {A} (body : A -> M D (result unit string)) (P : A -> Tables -> Prop) l d d' :
  (forall x d d', body x d = (d', Ok tt) -> seeds (view d) (view d') /\ P x (view d')) ->
  (forall x t t', seeds t t' -> P x t -> P x t') ->
  for_each_try l body d = (d', Ok tt) -> seeds (view d) (view d') /\ (forall x, x ∈ l -> P x (view d')).
Proof.
  intros Hb Hm. revert d. induction l as [|x l IH]; intros d; simpl.
  { intros [= <-]. split; [done|]. set_solver. }
  unfold bind_try, bind. destruct (body x d) as [d1 [[]|]] eqn:E; [|done]. intros Hr.
  apply Hb in E as [S1 P1]. apply IH in Hr as [S2 P2]. split; [by etrans|].
  intros y Hy. apply elem_of_cons in Hy as [->|Hy]; eauto.
Qed.

Lemma seeded_mono_domain x t t' : seeds t t' -> is_Some (t_domains t !! x) -> is_Some (t_domains t' !! x).
Proof. intros [Hd] [r Hr]. exists r. by eapply lookup_weaken. Qed.

Lemma seeded_mono_mailbox x t t' : seeds t t' -> mailbox_seeded x t -> mailbox_seeded x t'.
Proof. intros [_ Hd] Hs now mb Hm. destruct (Hs now mb Hm) as [r Hr]. exists r. by eapply lookup_weaken. Qed.

Lemma seeded_mono_record x t t' : seeds t t' -> record_seeded x t -> record_seeded x t'.
Proof. intros [_ _ Hd] (k & r & Hr & Hs). exists k, r. split; [by eapply lookup_weaken | done]. Qed.

Lemma seed_from_config_spec now cfg d d' :
  seed_from_config now cfg d = (d', Ok tt) ->
  seeds (view d) (view d') /\
  (forall id, id ∈ cfg_domains cfg -> is_Some (t_domains (view d') !! id)) /\
  (forall entry, entry ∈ cfg_mailboxes cfg -> mailbox_seeded entry (view d')) /\
  (forall dto, dto ∈ cfg_records cfg -> record_seeded dto (view d')).
Proof.
  unfold seed_from_config, bind_try, bind.
  destruct (for_each_try (cfg_domains cfg) seed_domain d) as [d1 [[]|]] eqn:E1; [|done].
  destruct (for_each_try (cfg_mailboxes cfg) (seed_mailbox now) d1) as [d2 [[]|]] eqn:E2; [|done]. intros E3.
  apply (seed_loop _ (fun id t => is_Some (t_domains t !! id))) in E1 as [S1 P1];
    [|apply seed_domain_spec|apply seeded_mono_domain].
  apply (seed_loop _ mailbox_seeded) in E2 as [S2 P2]; [|apply seed_mailbox_spec|apply seeded_mono_mailbox].
  apply (seed_loop _ record_seeded) in E3 as [S3 P3]; [|apply seed_record_spec|apply seeded_mono_record].
  split; [by etrans; [|etrans]|]. split; [|split; [|done]].
  - intros id Hid. eapply seeded_mono_domain; [exact S3|]. eapply seeded_mono_domain; [exact S2|]. auto.
  - intros e He. eapply seeded_mono_mailbox; [exact S3|]. auto.
Qed.

(** A configured mailbox receives mail: after a successful seeding, whatever
    the case of its address in the configuration, a [RCPT TO] for it in any case
    the lowering folds is accepted. *)
Lemma seeded_mailbox_accepts_mail now cfg d d' entry mb to rs :
  seed_from_config now cfg d = (d', Ok tt) -> entry ∈ cfg_mailboxes cfg ->
  Mailbox_try_from now (entry_address entry) = Ok mb ->
  clean_email to = to_lowercase (entry_address entry) -> available d' ->
  exists d'', handle_rcpt to rs d' = (d'', ((rs ++ [clean_email to])%list, Ok Default)).
Proof.
  intros Hs Hin Hmb Hto Hav. apply seed_from_config_spec in Hs as (_ & _ & Hm & _).
  apply handle_rcpt_available; [done|]. rewrite Hto. by eapply Hm.
Qed.

(** C40: seeding is not repeatable: once a configuration with a DNS record has
    been seeded, seeding it again on the same store always fails, so a daemon
    restarted with that configuration does not come up. *)
Theorem reseeding_records_fails now now' cfg d d' dto :
  seed_from_config now cfg d = (d', Ok tt) -> dto ∈ cfg_records cfg ->
  is_ok (snd (seed_from_config now' cfg d')) = false.
Proof.
  intros Hs Hin. pose proof Hs as Hs0. apply seed_from_config_spec in Hs as (_ & _ & _ & Hr).
  specialize (Hr dto Hin). destruct (seed_from_config now' cfg d') as [d'' [[]|e]] eqn:E; [|done].
  exfalso. unfold seed_from_config, bind_try, bind in E.
  destruct (for_each_try (cfg_domains cfg) seed_domain d') as [d1 [[]|]] eqn:E1; [|done].
  destruct (for_each_try (cfg_mailboxes cfg) (seed_mailbox now') d1) as [d2 [[]|]] eqn:E2; [|done].
  apply (seed_loop _ (fun id t => is_Some (t_domains t !! id))) in E1 as [S1 _];
    [|apply seed_domain_spec|apply seeded_mono_domain].
  apply (seed_loop _ mailbox_seeded) in E2 as [S2 _]; [|apply seed_mailbox_spec|apply seeded_mono_mailbox].
  assert (Hr2 : record_seeded dto (view d2)) by (eapply seeded_mono_record; [exact S2|]; by eapply seeded_mono_record).
  clear -Hr2 Hin E. revert d2 Hr2 E. induction (cfg_records cfg) as [|x l IH]; intros d2 Hr E; [set_solver|].
  simpl in E. unfold bind_try, bind in E. destruct (seed_record now' x d2) as [d3 [[]|]] eqn:Ex; [|done].
  destruct (decide (dto = x)) as [<-|Hne].
  - unfold seed_record, bind_try, bind in Ex. revert Ex. exec_step; [|done]. intros _.
    destruct E0 as (k & ts & Hk & Hc & _). apply Hc. destruct Hr as (k' & r' & Hk' & Hs).
    exists k', r'. split; [done|]. split; [congruence | done].
  - apply (IH ltac:(set_solver) d3); [|done]. eapply seeded_mono_record; [|exact Hr]. apply (seed_record_spec _ _ _ _ Ex).
Qed.
End Facts.

(** ** A concrete configuration *)

Definition demo_cfg : Config :=
  mkConfig "0.0.0.0" 53 25 8081 "" ["near.example"] [mkRecordDTO "near.example" RT_A "192.0.2.7" 300]
    [Simple "Me@near.example"] None AuthConfig_default SmtpTlsConfig_default OutboundTransport_default.
Definition demo_blank : MemDb := mkMemDb empty_tables 0 [].
Definition demo_seeded : MemDb := fst (seed_from_config 0 demo_cfg demo_blank).

Lemma seeded_mailbox_accepts_mail_witness :
  exists d'', handle_rcpt "<me@NEAR.example>" [] demo_seeded =
    (d'', (([] ++ [clean_email "<me@NEAR.example>"])%list, Ok Default)).
Proof.
  apply (seeded_mailbox_accepts_mail 0 demo_cfg demo_blank demo_seeded (Simple "Me@near.example")
    (mkMailbox "Me@near.example" "near.example" None 0 0)); [by vm_compute | simpl; set_solver | done | done | constructor].
Defined.

Lemma reseeding_records_fails_witness : is_ok (snd (seed_from_config 1 demo_cfg demo_seeded)) = false.
Proof.
  apply (reseeding_records_fails 0 1 demo_cfg demo_blank demo_seeded (mkRecordDTO "near.example" RT_A "192.0.2.7" 300));
    [by vm_compute | simpl; set_solver].
Defined.
