(* ===== verification/Runtime.v ===== *)
(** * Runtime: the daemon (src/src/runtime.rs, src/src/main.rs)

    Building the state and the manager, booting a mode, shutting down, and the
    worker configuration [main] starts the queue with. *)

From S2P Require Import Prelude Text Db Engine Config Send Policy Keys KeysFacts Auth AuthFacts Services ServicesFacts Email EmailFacts App AppFacts.
From Stdlib Require Import Ascii String.
#[local] Open Scope string_scope.

Section Daemon.
Context `{!UnicodeLower, HO : DbOps D, !Jwt, !Base64, !HeaderSyntax, !SocketAddrs, !TlsFiles}.

Record Daemon : Type := mkDaemon {
  dm_cfg : Config;
  dm_app : @AppState D _;
  dm_services : World;
}.

Inductive Built : Type :=
| BuildError (e : string)
| BuildPanic                    (* an [expect] on a bind address *)
| BuildOk (d : Daemon).

(** [Daemon::build]. *)
Definition Daemon_build (db : result D string) (push_schema : M D (result unit string))
    (env : string -> option string) (clock : N) (now : Timestamp) (cfg : Config) : Built :=
  match init db push_schema env clock now cfg with
  | Err e => BuildError e
  | Ok app =>
      match identity (cfg_smtp_tls cfg) with
      | Err e => BuildError ("failed to build SMTP TLS identity: " +:+ e)
      | Ok _ =>
          match manager_new cfg with
          | None => BuildPanic
          | Some services => BuildOk (mkDaemon cfg app services)
          end
      end
  end.

Definition on_services (f : World -> World) (d : Daemon) : Daemon :=
  mkDaemon (dm_cfg d) (dm_app d) (f (dm_services d)).

(** [Daemon::boot], [Daemon::shutdown]. *)
Definition Daemon_boot (spawn : Service -> SocketAddr -> result unit string) (order : list Service)
    (mode : BootMode) : Daemon -> Daemon :=
  on_services (fun w => fst (boot spawn order mode w)).
Definition Daemon_shutdown : Daemon -> Daemon := on_services (fun w => fst (stop_all w)).

(** The worker configuration of [main]: the defaults with the configured transport. *)
Definition main_worker_config (cfg : Config) : OutboundWorkerConfig :=
  let d := OutboundWorkerConfig_default in
  mkWorkerConfig (poll_interval d) (max_attempts d) (base_backoff d) (max_backoff d)
    (cfg_outbound cfg) (submission_port d).

(** ** Lifecycle *)

Lemma manager_new_inv cfg w : manager_new cfg = Some w -> manager_inv w /\ w_tasks w = ∅.
Proof.
  unfold manager_new. destruct (dns_addr cfg), (smtp_addr cfg), (api_addr cfg); try done.
  intros [= <-]. split; [|done]. split; simpl.
  - intros []; simpl; (split; [done | by intros []]).
  - intros h. split; [set_solver|]. by intros [[] ?].
  - by intros [].
  - set_solver.
Qed.

Lemma stop_loop l w :
  manager_inv w -> let w' := fst (for_each l (fun svc => let! _ := stop svc in ret tt) w) in
  manager_inv w' /\ forall svc, svc ∈ l \/ inner_status (w_inner w) svc = Idle -> inner_status (w_inner w') svc = Idle.
Proof.
  revert w. induction l as [|s l IH]; intros w I; cbv zeta; [set_solver|].
  rewrite for_each_cons, fst_bind_ret.
  pose proof (stop_inv s w I) as I1. destruct (stop_status s w I) as (Hs & Hne & _).
  destruct (stop s w) as [w1 r]. simpl in *. destruct (IH w1 I1) as [I2 Hi]. split; [done|].
  intros svc Hsvc. apply Hi. destruct (decide (svc = s)) as [->|Hd]; [by right|].
  rewrite (Hne svc Hd). set_solver.
Qed.

Lemma stop_all_idle w :
  manager_inv w -> w_tasks (fst (stop_all w)) = ∅ /\
  forall svc, inner_status (w_inner (fst (stop_all w))) svc = Idle.
Proof.
  intros I. destruct (stop_loop all_services w I) as [I' Hi].
  assert (Hidle : forall svc, inner_status (w_inner (fst (stop_all w))) svc = Idle).
  { intros svc. apply Hi. left. apply elem_of_all_services. }
  split; [|done]. apply set_eq. intros h. split; [|set_solver]. intros Hh. exfalso.
  apply (mi_tasks _ I') in Hh as [svc Hs]. specialize (Hidle svc).
  assert (slot_status (slot (w_inner (fst (stop_all w))) svc) = Running) as Hr.
  { apply (mi_running _ I'). by exists h. }
  unfold inner_status in Hidle. congruence.
Qed.

(** Building a daemon binds nothing; whatever it then boots and whichever
    spawns fail, shutting it down aborts every listener it started. *)
Lemma daemon_releases_listeners db push_schema env clock now cfg dm spawn order mode :
  Daemon_build db push_schema env clock now cfg = BuildOk dm ->
  w_tasks (dm_services dm) = ∅ /\
  w_tasks (dm_services (Daemon_shutdown (Daemon_boot spawn order mode dm))) = ∅.
Proof.
  unfold Daemon_build. destruct (init _ _ _ _ _ _) as [app|]; [|done].
  destruct (identity _); [|done]. destruct (manager_new cfg) as [w|] eqn:E; [|done]. intros [= <-]. simpl.
  apply manager_new_inv in E as [I Ht]. split; [done|]. apply stop_all_idle.
  apply (keeps_command spawn (CBoot order mode) w I).
Qed.
End Daemon.

(** ** A concrete daemon *)

#[export] Instance demo_headers : HeaderSyntax := {| header_name := Some; header_value := Some |}.

Definition demo_build (now : Timestamp) : Built (D := MemDb) :=
  Daemon_build (Ok demo_blank) (ret (Ok tt)) (fun _ => None) 0 now demo_cfg.
Definition demo_daemon_spawn (svc : Service) (addr : SocketAddr) : result unit string :=
  match svc with Smtps => Err "busy" | _ => Ok tt end.

Lemma daemon_releases_listeners_witness :
  exists dm, demo_build 0 = BuildOk dm /\
    w_tasks (dm_services (Daemon_boot demo_daemon_spawn all_services ModeFull dm)) <> ∅ /\
    w_tasks (dm_services dm) = ∅ /\
    w_tasks (dm_services (Daemon_shutdown (Daemon_boot demo_daemon_spawn all_services ModeFull dm))) = ∅.
Proof.
  destruct (demo_build 0) as [e| |dm] eqn:E; [vm_compute in E; discriminate..|]. exists dm. split; [done|].
  split; [vm_compute in E; injection E as <-; by vm_compute|].
  by apply (daemon_releases_listeners (Ok demo_blank) (ret (Ok tt)) (fun _ => None) 0 0 demo_cfg dm
    demo_daemon_spawn all_services ModeFull).
Defined.
