(* ===== verification/Listeners.v ===== *)
(** * Listeners: what the daemon's tasks serve (src/src/services.rs)

    The spawn closure of [ServiceManager::new], by the server each task runs: the
    API, an SMTP listener with its TLS mode, the DNS server, or nothing.  The
    closure never fails; binding happens inside the task. *)

From S2P Require Import Prelude Text Db Engine Config Send Policy Keys KeysFacts Auth AuthFacts Services ServicesFacts Email EmailFacts App AppFacts Runtime.
From Stdlib Require Import Ascii String.
#[local] Open Scope string_scope.

Section Spawn.
Context `{!SocketAddrs, !TlsFiles}.

Inductive Listener : Type :=
| ServeApi (a : SocketAddr)
| RunMailServer (c : SmtpConfig)
| RunDnsServer (a : SocketAddr)
| ListenerDown.

(** The task a service's spawn starts. *)
Definition spawn_listener (tls : SmtpTlsConfig) (identity : option Identity) (svc : Service) (a : SocketAddr)
  : result Listener string :=
  match svc with
  | Api => Ok (ServeApi a)
  | Smtp =>
      let config := build_smtp_config a tls identity in
      Ok (RunMailServer (run_mail_server_config a (sm_tls_mode config)))
  | Smtps =>
      match build_smtps_config a identity with
      | Some config => Ok (RunMailServer (run_mail_server_config a (sm_tls_mode config)))
      | None => Ok ListenerDown
      end
  | Dns => Ok (RunDnsServer a)
  end.

(** The spawn the manager is built with: the task's number stands for its handle. *)
Definition production_spawn (tls : SmtpTlsConfig) (identity : option Identity) (svc : Service) (a : SocketAddr)
  : result unit string :=
  match spawn_listener tls identity svc a with Ok _ => Ok tt | Err e => Err e end.

(** The spawn of the manager [Daemon::build] constructs, with the identity it
    loaded. *)
Definition daemon_spawn (cfg : Config) : Service -> SocketAddr -> result unit string :=
  production_spawn (cfg_smtp_tls cfg) (unwrap_or None (ok (identity (cfg_smtp_tls cfg)))).

(** The listener of a running service. *)
Definition listener_of (tls : SmtpTlsConfig) (identity : option Identity) (w : World) (svc : Service)
  : option Listener :=
  match inner_status (w_inner w) svc with
  | Running => addr (w_inner w) svc ≫= fun a => ok (spawn_listener tls identity svc a)
  | Idle => None
  end.

Lemma production_spawn_ok tls id svc a : production_spawn tls id svc a = Ok tt.
Proof. unfold production_spawn. destruct svc; simpl; try done. by destruct (build_smtps_config a id). Qed.

(** ** What the configuration asks for *)

(** The listener a configuration describes for a service. *)
Definition configured_listener (cfg : Config) (identity : option Identity) (svc : Service) : option Listener :=
  match svc with
  | Api => ServeApi <$> ok (api_addr cfg)
  | Dns => RunDnsServer <$> ok (dns_addr cfg)
  | Smtp => (fun a => RunMailServer (mkSmtpConfig a false (build_starttls_mode (st_mode (cfg_smtp_tls cfg)) identity)))
              <$> ok (smtp_addr cfg)
  | Smtps => a ← smtps_addr (cfg_smtp_tls cfg) (cfg_host cfg);
             id ← identity;
             Some (RunMailServer (mkSmtpConfig a false (Implicit id)))
  end.

(** A listener that keeps the TLS the configuration asks for. *)
Definition tls_kept (cfg : Config) (svc : Service) (l : Listener) : Prop :=
  match svc, l with
  | Smtp, RunMailServer c => st_mode (cfg_smtp_tls cfg) <> StartTlsNone -> sm_tls_mode c <> Disabled
  | Smtps, RunMailServer c => exists id, sm_tls_mode c = Implicit id
  | _, ListenerDown => False
  | _, _ => True
  end.

(** The addresses of a manager are those of the configuration it was built from. *)
Definition addrs_of (cfg : Config) (w : World) : Prop :=
  addr (w_inner w) Api = ok (api_addr cfg) /\ addr (w_inner w) Dns = ok (dns_addr cfg) /\
  addr (w_inner w) Smtp = ok (smtp_addr cfg) /\
  addr (w_inner w) Smtps = smtps_addr (cfg_smtp_tls cfg) (cfg_host cfg) /\
  is_Some (ok (api_addr cfg)) /\ is_Some (ok (dns_addr cfg)) /\ is_Some (ok (smtp_addr cfg)).

Lemma manager_new_addrs cfg w : manager_new cfg = Some w -> addrs_of cfg w.
Proof.
  unfold manager_new, addrs_of. destruct (dns_addr cfg), (smtp_addr cfg), (api_addr cfg); try done.
  intros [= <-]. simpl. by split_and!; eauto.
Qed.

Lemma identity_needed tls id : identity tls = Ok id -> needs_cert tls = true -> is_Some id.
Proof.
  intros Hid Hn. unfold identity in Hid. rewrite Hn in Hid. simpl in Hid. repeat case_match; simplify_eq; eauto.
Qed.

Lemma smtps_needs_cert tls host a : smtps_addr tls host = Some a -> needs_cert tls = true.
Proof.
  unfold smtps_addr, needs_cert, smtps_enabled. destruct (N.eqb _ 0); [done|]. intros _. apply orb_true_r.
Qed.

(** A running service has the listener its configuration describes. *)
Lemma listener_configured cfg id w svc :
  addrs_of cfg w -> identity (cfg_smtp_tls cfg) = Ok id -> inner_status (w_inner w) svc = Running ->
  listener_of (cfg_smtp_tls cfg) id w svc = configured_listener cfg id svc.
Proof.
  intros (Ha & Hd & Hs & Hss & _) Hid Hr. unfold listener_of, configured_listener. rewrite Hr.
  destruct svc; rewrite ?Ha, ?Hd, ?Hs, ?Hss; [by destruct (api_addr cfg)|by destruct (smtp_addr cfg)| |by destruct (dns_addr cfg)].
  destruct (smtps_addr _ _) as [a|] eqn:E; [|done]. apply smtps_needs_cert in E.
  destruct (identity_needed _ _ Hid E) as [i ->]. done.
Qed.

(** The configured listener keeps the configured TLS. *)
Lemma configured_tls_kept cfg id svc l :
  identity (cfg_smtp_tls cfg) = Ok id -> configured_listener cfg id svc = Some l -> tls_kept cfg svc l.
Proof.
  intros Hid. destruct svc; simpl.
  - by intros (a & _ & ->)%fmap_Some.
  - intros (a & _ & ->)%fmap_Some Hm. simpl. destruct (identity_needed _ _ Hid) as [i ->].
    { unfold needs_cert. by rewrite bool_decide_false. }
    by destruct (st_mode (cfg_smtp_tls cfg)).
  - destruct (smtps_addr _ _) as [a|]; [|done]. simpl. destruct id as [i|]; [|done]. intros [= <-]. by exists i.
  - by intros (a & _ & ->)%fmap_Some.
Qed.

(** ** Commands keep the addresses *)

Section Commands.
Context (spawn : Service -> SocketAddr -> result unit string).

Lemma addrs_command cfg c w : addrs_of cfg w -> addrs_of cfg (fst (run_command spawn c w)).
Proof.
  revert w. change (evolves (fun w : World => w) (kept (addrs_of cfg)) (run_command spawn c)).
  assert (Hset : forall svc s w, addrs_of cfg w -> forall ts n, addrs_of cfg (mkWorld (set_slot svc s (w_inner w)) ts n)).
  { intros svc s w Hw ts n. unfold addrs_of in *. cbn [w_inner]. by rewrite !addr_set_slot. }
  assert (Hstart : forall svc, evolves (fun w : World => w) (kept (addrs_of cfg)) (start spawn svc)).
  { intros svc w Hw. destruct (start_spec spawn svc w) as [[r ->]|[_ ->]]; [done|]. by apply Hset. }
  assert (Hstop : forall svc, evolves (fun w : World => w) (kept (addrs_of cfg)) (stop svc)).
  { intros svc w Hw. destruct (stop_spec svc w) as [[_ ->]|(h & _ & ->)]; [done|]. by apply Hset. }
  assert (Hget : evolves (fun w : World => w) (kept (addrs_of cfg)) get_inner) by by intros w.
  destruct c; simpl; unfold apply_mode, boot, stop_all, smtps_configured, list_services; evolve; auto.
Qed.

Lemma addrs_commands cfg cs w : addrs_of cfg w -> addrs_of cfg (fst (for_each cs (run_command spawn) w)).
Proof.
  revert w. change (evolves (fun w : World => w) (kept (addrs_of cfg)) (for_each cs (run_command spawn))).
  apply evolves_for_each; [typeclasses eauto|]. intros c w Hw. by apply addrs_command.
Qed.
End Commands.
End Spawn.

Section Boot.
Context `{!UnicodeLower, HO : DbOps D, !Jwt, !Base64, !HeaderSyntax, !SocketAddrs, !TlsFiles}.

Lemma build_inversion db push_schema env clock now cfg dm :
  Daemon_build db push_schema env clock now cfg = BuildOk dm ->
  exists app id w, init db push_schema env clock now cfg = Ok app /\ identity (cfg_smtp_tls cfg) = Ok id /\
    manager_new cfg = Some w /\ dm = mkDaemon cfg app w.
Proof.
  unfold Daemon_build. destruct (init _ _ _ _ _ _) as [app|]; [|done].
  destruct (identity _) as [id|]; [|done]. destruct (manager_new cfg) as [w|]; [|done]. intros [= <-]. eauto 10.
Qed.

Lemma manager_new_idle cfg w svc : manager_new cfg = Some w -> inner_status (w_inner w) svc = Idle.
Proof.
  unfold manager_new. destruct (dns_addr cfg), (smtp_addr cfg), (api_addr cfg); try done.
  intros [= <-]. by destruct svc.
Qed.

(** C20: a daemon that builds and boots runs exactly the services of its mode (a
    configured SMTPS follows SMTP), in whatever order the mode's set is iterated;
    and then and after any further commands every running service serves the
    listener its configuration describes: the configured addresses, a TLS
    listener wherever STARTTLS is asked for, implicit TLS on SMTPS, and never an
    SMTPS slot without a certificate. *)
Theorem booted_listeners_exact db push_schema env clock now cfg dm order mode cs :
  Daemon_build db push_schema env clock now cfg = BuildOk dm -> order ≡ₚ mode_services mode ->
  exists id, identity (cfg_smtp_tls cfg) = Ok id /\
    let spawn := production_spawn (cfg_smtp_tls cfg) id in
    let booted := dm_services (Daemon_boot spawn order mode dm) in
    let w := fst (for_each cs (run_command spawn) booted) in
    (forall svc, inner_status (w_inner booted) svc =
       as_wanted (mode_target (configured (w_inner (dm_services dm))) mode svc)) /\
    (forall svc, inner_status (w_inner w) svc = Running ->
       listener_of (cfg_smtp_tls cfg) id w svc = configured_listener cfg id svc) /\
    (forall svc l, listener_of (cfg_smtp_tls cfg) id w svc = Some l -> tls_kept cfg svc l).
Proof.
  intros Hb Hord. apply build_inversion in Hb as (app & id & w0 & _ & Hid & Hm & ->). exists id. split; [done|].
  simpl. set (spawn := production_spawn _ _). destruct (manager_new_inv _ _ Hm) as [I0 _].
  assert (HA : addrs_of cfg (fst (for_each cs (run_command spawn) (fst (boot spawn order mode w0))))).
  { apply addrs_commands, (addrs_command spawn cfg (CBoot order mode)), manager_new_addrs, Hm. }
  split; [|split].
  - apply boot_statuses; [intros; apply production_spawn_ok | done | intros; by eapply manager_new_idle | done].
  - intros svc Hr. by apply listener_configured.
  - intros svc l Hl. assert (Hr : inner_status (w_inner (fst (for_each cs (run_command spawn) (fst (boot spawn order mode w0))))) svc = Running).
    { unfold listener_of in Hl. by destruct (inner_status _ _). }
    rewrite listener_configured in Hl by done. by eapply configured_tls_kept.
Qed.
End Boot.

(** ** A concrete daemon with TLS *)

Definition demo_tls_cfg : Config :=
  mkConfig "0.0.0.0" 53 25 8081 "" ["near.example"] [] [Simple "Me@near.example"] None AuthConfig_default
    (mkSmtpTlsConfig StartTlsRequired 465 (Some (CertFiles "c" "k"))) OutboundTransport_default.
Definition demo_tls_build : Built (D := MemDb) :=
  Daemon_build (Ok demo_blank) (ret (Ok tt)) (fun _ => None) 0 0 demo_tls_cfg.

Lemma booted_listeners_exact_witness :
  exists dm, demo_tls_build = BuildOk dm /\
  exists id, identity (cfg_smtp_tls demo_tls_cfg) = Ok id /\
    let spawn := production_spawn (cfg_smtp_tls demo_tls_cfg) id in
    let booted := dm_services (Daemon_boot spawn [Smtp; Dns; Api] ModeFull dm) in
    let w := fst (for_each [CStop Smtp; CStart Smtp] (run_command spawn) booted) in
    (forall svc, inner_status (w_inner booted) svc =
       as_wanted (mode_target (configured (w_inner (dm_services dm))) ModeFull svc)) /\
    (forall svc, inner_status (w_inner w) svc = Running ->
       listener_of (cfg_smtp_tls demo_tls_cfg) id w svc = configured_listener demo_tls_cfg id svc) /\
    (forall svc l, listener_of (cfg_smtp_tls demo_tls_cfg) id w svc = Some l -> tls_kept demo_tls_cfg svc l).
Proof.
  destruct demo_tls_build as [e| |dm] eqn:E; [vm_compute in E; discriminate..|]. exists dm. split; [done|].
  apply (booted_listeners_exact (Ok demo_blank) (ret (Ok tt)) (fun _ => None) 0 0 demo_tls_cfg dm
    [Smtp; Dns; Api] ModeFull [CStop Smtp; CStart Smtp]); [exact E|].
  simpl. apply (bool_decide_unpack _). by vm_compute.
Defined.

(** In that boot every service comes up, SMTPS with implicit TLS. *)
Example demo_listeners :
  match demo_tls_build with
  | BuildOk dm =>
      let tls := cfg_smtp_tls demo_tls_cfg in
      let w := dm_services (Daemon_boot (production_spawn tls (Some [])) [Smtp; Dns; Api] ModeFull dm) in
      map (listener_of tls (Some []) w) all_services =
        [Some (ServeApi "0.0.0.0:8081"); Some (RunMailServer (mkSmtpConfig "0.0.0.0:25" false (Required [])));
         Some (RunMailServer (mkSmtpConfig "0.0.0.0:465" false (Implicit []))); Some (RunDnsServer "0.0.0.0:53")]
  | _ => False
  end.
Proof. by vm_compute. Qed.
