(* ===== verification/Api.v ===== *)
(** * Api: envelopes, paging, domains and mailboxes (src/src/api.rs)

    A handler is a state-passing function from what it extracts of the request
    to the response it renders.  What salvo extracts is an argument: [None] for a
    missing query parameter, an absent path parameter or a body that does not
    parse.  A [usize] is 64 bits wide.  The text of a timestamp is jiff's, a class. *)

From S2P Require Import Prelude Text Db Engine Config Send Keys Auth Services.
From Stdlib Require Import Ascii String.
#[local] Open Scope string_scope.

(** ** Problems *)

Definition bad_request (msg : string) : ApiProblem := mkProblem 400 "bad request" (Some msg).
Definition not_found (msg : string) : ApiProblem := mkProblem 404 "not_found" (Some msg).
Definition validation_error (msg : string) : ApiProblem := mkProblem 422 "validation_error" (Some msg).
Definition unauthorized : ApiProblem := mkProblem 401 "unauthorized" None.
Definition forbidden : ApiProblem := mkProblem 403 "forbidden" None.
Definition conflict (msg : string) : ApiProblem := mkProblem 409 "conflict" (Some msg).
Definition server_error (msg : string) : ApiProblem := mkProblem 500 "server_error" (Some msg).

(** ** Paging *)

Definition DEFAULT_PAGE_LIMIT : N := 50.
Definition MAX_PAGE_LIMIT : N := 200.

Record Page (T : Type) : Type := mkPage {
  pg_items : list T;
  pg_limit : N;
  pg_offset : N;
  pg_next_offset : option N;
}.
Arguments mkPage {T}.
Arguments pg_items {T}.
Arguments pg_limit {T}.
Arguments pg_offset {T}.
Arguments pg_next_offset {T}.

(** [Page::from_all]. *)
Definition from_all {T} (rows : list T) (limit offset : N) : Page T :=
  let end_ := u64_saturating_add offset limit in
  let has_more := (end_ <? N.of_nat (List.length rows))%N in
  {| pg_items := take (N.to_nat limit) (drop (N.to_nat offset) rows);
     pg_limit := limit; pg_offset := offset;
     pg_next_offset := if has_more then Some end_ else None |}.

Definition i64_max : N := 2 ^ 63 - 1.

(** [page_params], on the two query parameters. *)
Definition page_params (limit offset : option N) : N * N :=
  (N.max 1 (N.min (unwrap_or DEFAULT_PAGE_LIMIT limit) MAX_PAGE_LIMIT),
   N.min (unwrap_or 0%N offset) i64_max).

(** ** Wire projections *)

(** [Display] of a [jiff::Timestamp]. *)
Class TimestampText := { show_ts : Timestamp -> string }.

Record DomainDTO : Type := mkDomainDTO { dd_id : string; dd_created_at : string; dd_updated_at : string }.

Record MailboxDTO : Type := mkMailboxDTO {
  md_id : string; md_domain_id : string; md_created_at : string; md_updated_at : string;
  md_forward_to : option string;
}.

Record RecordApiDTO : Type := mkRecordApiDTO {
  rd_id : N; rd_domain_id : string; rd_record_type : string; rd_value : string; rd_ttl : N;
  rd_created_at : string; rd_updated_at : string;
}.

Record MessageDTO : Type := mkMessageDTO {
  mm_id : N; mm_direction : option string; mm_mail_from : string; mm_subject : option string;
  mm_message_id_header : option string; mm_content_type : option string;
  mm_from_address : option string; mm_to : list string; mm_cc : list string; mm_bcc : list string;
  mm_created_at : string; mm_updated_at : string;
}.

Record SendResult : Type := mkSendResult { sr_message_id : N; sr_outbound_ids : list N }.

Record HealthInfo : Type := mkHealthInfo { hi_service : string; hi_version : string; hi_status : string }.

(** Everything a handler renders on success. *)
Inductive Payload : Type :=
| PDomain (d : DomainDTO)
| PDomains (p : Page DomainDTO)
| PMailbox (m : MailboxDTO)
| PMailboxes (p : Page MailboxDTO)
| PRecord (r : RecordApiDTO)
| PRecords (p : Page RecordApiDTO)
| PSend (s : SendResult)
| PMessage (m : MessageDTO)
| PMessages (p : Page MessageDTO)
| PServices (l : list ServiceReport)
| PService (s : ServiceResult)
| PHealth (h : HealthInfo)
| PUnit.

(** [ApiResponse]. *)
Record ApiResponse : Type := mkApiResponse { ar_ok : bool; ar_data : Payload }.

Definition Reply : Type := Response ApiResponse.

(** [res.status_code(..); res.render(Json(..))] on success and on failure. *)
Definition reply_ok (data : Payload) : Reply :=
  mkResponse (Some 200%N) (Some (inr (mkApiResponse true data))).
Definition reply_problem (status : N) (problem : ApiProblem) : Reply :=
  mkResponse (Some status) (Some (inl problem)).

(** The two most common failures. *)
Definition parse_failure : Reply :=
  reply_problem 400 (validation_error "Failed to parse request body").
Definition reply_500 (e : string) : Reply := reply_problem 500 (server_error e).

(** ** Request bodies *)

Record NewDomain : Type := mkNewDomain { nd_id : string }.
Record PatchDomain : Type := mkPatchDomain { pd_note : option string }.
Record NewMailbox : Type := mkNewMailbox {
  nb_id : string; nb_domain_id : option string; nb_forward_to : option string }.
Record PatchMailbox : Type := mkPatchMailbox {
  pb_domain_id : option string; pb_note : option string; pb_forward_to : option string }.

Section Api.
Context `{!UnicodeLower, !TimestampText, HO : DbOps D}.

Definition DomainDTO_from (d : Domain) : DomainDTO :=
  mkDomainDTO (dom_id d) (show_ts (dom_created_at d)) (show_ts (dom_updated_at d)).

Definition MailboxDTO_from (m : Mailbox) : MailboxDTO :=
  mkMailboxDTO (mb_id m) (mb_domain_id m) (show_ts (mb_created_at m)) (show_ts (mb_updated_at m))
    (mb_forward_to m).

(** ** Domains *)

(** [list_domains]. *)
Definition list_domains (limit offset : option N) : M D Reply :=
  let '(limit, offset) := page_params limit offset in
  let! r := exec QueryDomains in
  ret (match r with
       | Ok domains => reply_ok (PDomains (from_all (map DomainDTO_from domains) limit offset))
       | Err e => reply_500 e
       end).

(** [render_domain_created]. *)
Definition render_domain_created (d : Domain) : Reply := reply_ok (PDomain (DomainDTO_from d)).

(** [create_domain]. *)
Definition create_domain (body : option NewDomain) : M D Reply :=
  match body with
  | None => ret parse_failure
  | Some body =>
      let domain_id := trim (nd_id body) in
      if is_empty domain_id then ret (reply_problem 400 (bad_request "domain id must not be empty")) else
      let! r := exec (GetDomain domain_id) in
      match r with
      | Ok domain => ret (render_domain_created domain)
      | Err _ =>
          let! c := exec (CreateDomain domain_id) in
          match c with
          | Ok domain => ret (render_domain_created domain)
          | Err e =>
              let! r := exec (GetDomain domain_id) in
              ret (match r with
                   | Ok domain => render_domain_created domain
                   | Err _ => reply_500 e
                   end)
          end
      end
  end.

Definition domain_not_found (id : string) : Reply :=
  reply_problem 404 (not_found ("domain '" +:+ id +:+ "' not found")).

(** [get_domain]. *)
Definition get_domain (param : option string) : M D Reply :=
  let domain_id := unwrap_or "" param in
  let! r := exec (GetDomain domain_id) in
  ret (match r with
       | Ok domain => reply_ok (PDomain (DomainDTO_from domain))
       | Err _ => domain_not_found domain_id
       end).

(** [patch_domain]. *)
Definition patch_domain (param : option string) (body : option PatchDomain) : M D Reply :=
  let domain_id := unwrap_or "" param in
  match body with
  | None => ret parse_failure
  | Some _ =>
      let! r := exec (GetDomain domain_id) in
      ret (match r with
           | Ok domain => reply_ok (PDomain (DomainDTO_from domain))
           | Err _ => domain_not_found domain_id
           end)
  end.

(** [delete_domain]. *)
Definition delete_domain (param : option string) : M D Reply :=
  let domain_id := unwrap_or "" param in
  let! r := exec (GetDomain domain_id) in
  match r with
  | Err _ => ret (domain_not_found domain_id)
  | Ok _ =>
      let! r := exec (DeleteDomain domain_id) in
      ret (match r with Ok _ => reply_ok PUnit | Err e => reply_500 e end)
  end.

(** ** Mailboxes *)

(** [list_mailboxes]. *)
Definition list_mailboxes (limit offset : option N) (domain_filter : option string) : M D Reply :=
  let '(limit, offset) := page_params limit offset in
  let! r := exec (QueryMailboxes (fun m =>
    match domain_filter with Some d => String.eqb (mb_domain_id m) d | None => true end)) in
  ret (match r with
       | Ok rows => reply_ok (PMailboxes (from_all (map MailboxDTO_from rows) limit offset))
       | Err e => reply_500 e
       end).

(** [mailbox_resolve]. *)
Definition mailbox_resolve (existing incoming : Mailbox) : Reply :=
  if bool_decide (mb_forward_to existing = mb_forward_to incoming) &&
     String.eqb (mb_domain_id existing) (mb_domain_id incoming)
  then reply_ok (PMailbox (MailboxDTO_from existing))
  else reply_problem 409 (conflict ("mailbox '" +:+ mb_id existing +:+ "' already exists with a different configuration")).

(** The mailbox a body asks for, or the 400 it gets. *)
Definition new_mailbox (now : Timestamp) (body : NewMailbox) : result Mailbox Reply :=
  let mailbox_id := to_lowercase (trim (nb_id body)) in
  if is_empty mailbox_id then Err (reply_problem 400 (bad_request "email address must not be empty")) else
  match Mailbox_try_from now mailbox_id with
  | Err InvalidFormat => Err (reply_problem 400 (bad_request "invalid email address (missing domain part)"))
  | Ok mailbox =>
      let ok_domain := match nb_domain_id body with
                       | Some d => String.eqb (to_lowercase (trim d)) (mb_domain_id mailbox)
                       | None => true
                       end in
      if ok_domain then
        Ok (mkMailbox (mb_id mailbox) (mb_domain_id mailbox) (nb_forward_to body)
              (mb_created_at mailbox) (mb_updated_at mailbox))
      else Err (reply_problem 400 (bad_request "domain_id does not match the domain part of the address"))
  end.

(** [create_mailbox]. *)
Definition create_mailbox (now : Timestamp) (body : option NewMailbox) : M D Reply :=
  match body with
  | None => ret parse_failure
  | Some body =>
      match new_mailbox now body with
      | Err reply => ret reply
      | Ok mailbox =>
          let! r := exec (GetMailbox (mb_id mailbox)) in
          match r with
          | Ok existing => ret (mailbox_resolve existing mailbox)
          | Err _ =>
              let! c := exec (CreateMailbox (mb_id mailbox) (mb_domain_id mailbox) (mb_forward_to mailbox)) in
              match c with
              | Ok created => ret (reply_ok (PMailbox (MailboxDTO_from created)))
              | Err e =>
                  let! r := exec (GetMailbox (mb_id mailbox)) in
                  ret (match r with
                       | Ok existing => mailbox_resolve existing mailbox
                       | Err _ => reply_500 e
                       end)
              end
          end
      end
  end.

Definition mailbox_not_found (id : string) : Reply :=
  reply_problem 404 (not_found ("mailbox '" +:+ id +:+ "' not found")).

(** [get_mailbox]. *)
Definition get_mailbox (param : option string) : M D Reply :=
  let mailbox_id := unwrap_or "" param in
  let! r := exec (GetMailbox mailbox_id) in
  ret (match r with
       | Ok mailbox => reply_ok (PMailbox (MailboxDTO_from mailbox))
       | Err _ => mailbox_not_found mailbox_id
       end).

(** [patch_mailbox]. *)
Definition patch_mailbox (param : option string) (body : option PatchMailbox) : M D Reply :=
  let mailbox_id := unwrap_or "" param in
  match body with
  | None => ret parse_failure
  | Some body =>
      let! r := exec (GetMailbox mailbox_id) in
      match r with
      | Err _ => ret (mailbox_not_found mailbox_id)
      | Ok mailbox =>
          let ok_domain := match pb_domain_id body with
                           | Some d => String.eqb (to_lowercase (trim d)) (mb_domain_id mailbox)
                           | None => true
                           end in
          if negb ok_domain then
            ret (reply_problem 400 (bad_request "domain_id does not match the domain part of the address"))
          else
            let new_forward_to := match pb_forward_to body with
                                  | Some f => Some f
                                  | None => mb_forward_to mailbox
                                  end in
            let! u := exec (UpdateMailbox (mb_id mailbox) (mb_domain_id mailbox) new_forward_to) in
            match u with
            | Err e => ret (reply_500 e)
            | Ok _ =>
                let! r := exec (GetMailbox mailbox_id) in
                ret (match r with
                     | Ok updated => reply_ok (PMailbox (MailboxDTO_from updated))
                     | Err _ => reply_500 "mailbox vanished after update"
                     end)
            end
      end
  end.

(** [delete_mailbox]. *)
Definition delete_mailbox (param : option string) : M D Reply :=
  let mailbox_id := unwrap_or "" param in
  let! r := exec (GetMailbox mailbox_id) in
  match r with
  | Err _ => ret (mailbox_not_found mailbox_id)
  | Ok _ =>
      let! r := exec (DeleteMailbox mailbox_id) in
      ret (match r with Ok _ => reply_ok PUnit | Err e => reply_500 e end)
  end.
End Api.
