(* ===== verification/ApiRecords.v ===== *)
(** * ApiRecords: DNS record handlers (src/src/api.rs) *)

From S2P Require Import Prelude Text Db Engine Config Send Keys Auth Services Api.
From Stdlib Require Import Ascii String.
#[local] Open Scope string_scope.

Definition DEFAULT_RECORD_TTL : N := 3600.

(** Text that needs no escape inside a JSON string. *)
Definition json_plain (s : string) : bool :=
  string_forall (fun c => (32 <=? code c)%N && negb (code c =? 34)%N && negb (code c =? 92)%N) s.

(** serde_json's reading of the JSON string literal with that content between
    its quotes; text that needs no escape stands for itself. *)
Class SerdeString := {
  json_string : string -> option string;
  json_string_plain : forall s, json_plain s = true -> json_string s = Some s;
}.

Record NewRecord : Type := mkNewRecord {
  nr_domain_id : string; nr_record_type : string; nr_value : string; nr_ttl : option N }.

Record PatchRecord : Type := mkPatchRecord {
  pr_domain_id : option string; pr_record_type : option string; pr_value : option string; pr_ttl : option N }.

(** [default_record_ttl], the [serde] default of the field. *)
Definition body_ttl (b : NewRecord) : N := unwrap_or DEFAULT_RECORD_TTL (nr_ttl b).

Section Records.
Context `{!UnicodeLower, !TimestampText, !SerdeString, HO : DbOps D}.

(** [record_type_to_string]: the variant's name without its quotes. *)
Definition record_type_to_string (rt : RecordType) : string := RecordType_name rt.

(** [parse_record_type]. *)
Definition parse_record_type (s : string) : result RecordType ApiProblem :=
  ok_or (bad_request ("unknown record type '" +:+ s +:+ "'")) (json_string s ≫= RecordType_of_name).

Definition RecordApiDTO_from (r : Record_) : RecordApiDTO :=
  mkRecordApiDTO (rec_id r) (rec_domain_id r) (record_type_to_string (rec_record_type r)) (rec_value r)
    (rec_ttl r) (show_ts (rec_created_at r)) (show_ts (rec_updated_at r)).

(** [validate_record_fields]. *)
Definition validate_record_fields (domain_id value : string) : M D (result unit ApiProblem) :=
  if is_empty (trim value) then ret (Err (bad_request "value must not be empty")) else
  let! r := exec (GetDomain domain_id) in
  ret (match r with
       | Err _ => Err (bad_request ("domain '" +:+ domain_id +:+ "' is not provisioned"))
       | Ok _ => Ok tt
       end).

(** The records [list_records] keeps. *)
Definition list_filter (domain : option string) (rt : option RecordType) (r : Record_) : bool :=
  match domain with Some d => eq_ignore_ascii_case (rec_domain_id r) d | None => true end &&
  match rt with Some t => bool_decide (rec_record_type r = t) | None => true end.

(** [list_records]. *)
Definition list_records (limit offset : option N) (domain type_ : option string) : M D Reply :=
  let '(limit, offset) := page_params limit offset in
  let domain_filter := (fun d => to_lowercase (trim d)) <$> domain in
  match (match type_ with
         | Some raw => map_ok Some (parse_record_type (trim raw))
         | None => Ok None
         end) with
  | Err problem => ret (reply_problem 400 problem)
  | Ok type_filter =>
      let! r := exec (QueryRecords (fun _ => true)) in
      ret (match r with
           | Ok records =>
               let kept := List.filter (list_filter domain_filter type_filter) records in
               reply_ok (PRecords (from_all (map RecordApiDTO_from kept) limit offset))
           | Err e => reply_500 e
           end)
  end.

(** [record_resolve]: [None] when no row matches. *)
Definition record_resolve (rows : list Record_) (rt : RecordType) (value : string) (ttl : N) : option Reply :=
  match find (fun r => bool_decide (rec_record_type r = rt) && String.eqb (rec_value r) value) rows with
  | Some existing =>
      if N.eqb (rec_ttl existing) ttl then Some (reply_ok (PRecord (RecordApiDTO_from existing)))
      else Some (reply_problem 409 (conflict ("a " +:+ record_type_to_string rt
             +:+ " record for this domain with value '" +:+ value
             +:+ "' already exists with a different ttl")))
  | None => None
  end.

Definition of_domain (domain_id : string) (r : Record_) : bool := String.eqb (rec_domain_id r) domain_id.

(** [create_record], after its body was normalized and checked. *)
Definition insert_record (domain_id : string) (rt : RecordType) (value : string) (ttl : N) : M D Reply :=
  let! duplicates := exec (QueryRecords (of_domain domain_id)) in
  match duplicates with
  | Err e => ret (reply_500 e)
  | Ok rows =>
      match record_resolve rows rt value ttl with
      | Some reply => ret reply
      | None =>
          let! c := exec (CreateRecord domain_id rt value ttl) in
          match c with
          | Ok created => ret (reply_ok (PRecord (RecordApiDTO_from created)))
          | Err e =>
              let! raced := exec (QueryRecords (of_domain domain_id)) in
              ret (match raced with
                   | Ok rows =>
                       match record_resolve rows rt value ttl with
                       | Some reply => reply
                       | None => reply_500 e
                       end
                   | Err _ => reply_500 e
                   end)
          end
      end
  end.

(** [create_record]. *)
Definition create_record (body : option NewRecord) : M D Reply :=
  match body with
  | None => ret parse_failure
  | Some body =>
      let domain_id := to_lowercase (trim (nr_domain_id body)) in
      let value := trim (nr_value body) in
      match parse_record_type (trim (nr_record_type body)) with
      | Err problem => ret (reply_problem 400 problem)
      | Ok record_type =>
          let! v := validate_record_fields domain_id value in
          match v with
          | Err problem => ret (reply_problem (pb_status problem) problem)
          | Ok _ => insert_record domain_id record_type value (body_ttl body)
          end
      end
  end.

Definition record_not_found (id : N) : Reply :=
  reply_problem 404 (not_found ("record '" +:+ show_N id +:+ "' not found")).
Definition no_record : Reply := reply_problem 404 (not_found "record not found").

(** [get_record]. *)
Definition get_record (param : option N) : M D Reply :=
  match param with
  | None => ret no_record
  | Some record_id =>
      let! r := exec (GetRecord record_id) in
      ret (match r with
           | Ok record => reply_ok (PRecord (RecordApiDTO_from record))
           | Err _ => record_not_found record_id
           end)
  end.

(** The fields of a record with a patch layered over it. *)
Definition patched_type (body : PatchRecord) (record : Record_) : result RecordType ApiProblem :=
  match pr_record_type body with
  | Some t => parse_record_type (trim t)
  | None => Ok (rec_record_type record)
  end.

Definition patched (body : PatchRecord) (rt : RecordType) (record : Record_) : Record_ :=
  mkRecord (rec_id record)
    (match pr_domain_id body with Some d => to_lowercase (trim d) | None => rec_domain_id record end)
    rt
    (match pr_value body with Some v => trim v | None => rec_value record end)
    (unwrap_or (rec_ttl record) (pr_ttl body))
    (rec_created_at record) (rec_updated_at record).

(** [patch_record], once the patched row is known. *)
Definition update_record (record_id : N) (record : Record_) : M D Reply :=
  let! collisions := exec (QueryRecords (of_domain (rec_domain_id record))) in
  match collisions with
  | Err e => ret (reply_500 e)
  | Ok rows =>
      if existsb (fun r => negb (N.eqb (rec_id r) record_id)
                           && bool_decide (rec_record_type r = rec_record_type record)
                           && String.eqb (rec_value r) (rec_value record)) rows
      then ret (reply_problem 409 (conflict "a record with the same domain, type, and value already exists"))
      else
        let! u := exec (UpdateRecord (rec_id record) (rec_domain_id record) (rec_record_type record)
                          (rec_value record) (rec_ttl record)) in
        match u with
        | Err e => ret (reply_500 e)
        | Ok _ =>
            let! r := exec (GetRecord record_id) in
            ret (match r with
                 | Ok updated => reply_ok (PRecord (RecordApiDTO_from updated))
                 | Err _ => reply_500 "record vanished after update"
                 end)
        end
  end.

(** [patch_record]. *)
Definition patch_record (param : option N) (body : option PatchRecord) : M D Reply :=
  match param with
  | None => ret no_record
  | Some record_id =>
      match body with
      | None => ret parse_failure
      | Some body =>
          let! r := exec (GetRecord record_id) in
          match r with
          | Err _ => ret (record_not_found record_id)
          | Ok record =>
              match patched_type body record with
              | Err problem => ret (reply_problem 400 problem)
              | Ok rt =>
                  let record := patched body rt record in
                  let! v := validate_record_fields (rec_domain_id record) (rec_value record) in
                  match v with
                  | Err problem => ret (reply_problem (pb_status problem) problem)
                  | Ok _ => update_record record_id record
                  end
              end
          end
      end
  end.

(** [delete_record]. *)
Definition delete_record (param : option N) : M D Reply :=
  match param with
  | None => ret no_record
  | Some record_id =>
      let! r := exec (GetRecord record_id) in
      match r with
      | Err _ => ret (record_not_found record_id)
      | Ok _ =>
          let! r := exec (DeleteRecord record_id) in
          ret (match r with Ok _ => reply_ok PUnit | Err e => reply_500 e end)
      end
  end.
End Records.
