(* ===== verification/ApiMail.v ===== *)
(** * ApiMail: sending, messages and service control (src/src/api.rs) *)

From S2P Require Import Prelude Text Db Engine Config Send Keys Auth Services Api.
From Stdlib Require Import Ascii String.
#[local] Open Scope string_scope.

(** ** Sending *)

Record SendEmail : Type := mkSendEmail {
  se_from : string; se_to : list string; se_cc : list string; se_bcc : list string;
  se_subject : option string; se_body : string; se_content_type : option string }.

(** lettre's address and content-type parsers and its message builder. *)
Class LettreBuilder `{!Lettre} := {
  LettreMailbox : Type;
  ContentType : Type;
  parse_mailbox : string -> result LettreMailbox string;
  parse_content_type : string -> result ContentType string;
  build_message : LettreMailbox -> list LettreMailbox -> list LettreMailbox -> list LettreMailbox ->
    option ContentType -> option string -> string -> result LettreMessage string;
}.

(** First-seen order, by exact text. *)
Definition push_new (acc : list string) (r : string) : list string :=
  if bool_decide (r ∈ acc) then acc else (acc ++ [r])%list.

Definition recipients_of (b : SendEmail) : list string :=
  foldl push_new [] (se_to b ++ se_cc b ++ se_bcc b)%list.

Section Mail.
Context `{!UnicodeLower, !TimestampText, !Lettre, !LettreBuilder, !MailParser, HO : DbOps D}.

(** [parse_addrs]. *)
Definition parse_addrs (addrs : list string) : result (list LettreMailbox) string :=
  collect (map parse_mailbox addrs).

(** [build_send_message]. *)
Definition build_send_message (from : string) (to cc bcc : list string) (subject : option string)
    (body : string) (content_type : option string) : result LettreMessage string :=
  match parse_mailbox from with
  | Err e => Err ("invalid From address '" +:+ from +:+ "': " +:+ e)
  | Ok from =>
      match parse_addrs to, parse_addrs cc, parse_addrs bcc with
      | Err e, _, _ => Err e
      | Ok _, Err e, _ => Err e
      | Ok _, Ok _, Err e => Err e
      | Ok to, Ok cc, Ok bcc =>
          match (match content_type with
                 | Some ct => map_ok Some (map_err (fun e => "invalid content_type '" +:+ ct +:+ "': " +:+ e)
                                             (parse_content_type ct))
                 | None => Ok None
                 end) with
          | Err e => Err e
          | Ok ct => map_err (fun e => "failed to build message: " +:+ e)
                       (build_message from to cc bcc ct subject body)
          end
      end
  end.

(** The loop over the recipients after the first. *)
Fixpoint enqueue_rest (message_id : N) (sender : string) (recipients : list string) (ids : list N)
  : M D (result (list N) string) :=
  match recipients with
  | [] => ret (Ok ids)
  | r :: recipients' =>
      let? id := enqueue_forward message_id sender r in
      enqueue_rest message_id sender recipients' (ids ++ [id])%list
  end.

(** [send_email]. *)
Definition send_email (body : option SendEmail) : M D Reply :=
  match body with
  | None => ret parse_failure
  | Some body =>
      match recipients_of body with
      | [] => ret (reply_problem 400
                (bad_request "no recipients: at least one of to, cc, or bcc is required"))
      | first :: rest =>
          let sender := se_from body in
          let! r := exec (GetMailbox sender) in
          match r with
          | Err _ => ret (reply_problem 409
                      (conflict ("sender '" +:+ sender +:+ "' is not a provisioned mailbox")))
          | Ok _ =>
              match build_send_message sender (se_to body) (se_cc body) (se_bcc body) (se_subject body)
                      (se_body body) (se_content_type body) with
              | Err e => ret (reply_problem 400 (bad_request e))
              | Ok message =>
                  let! r := enqueue_outbound sender first message in
                  match r with
                  | Err e => ret (reply_500 e)
                  | Ok (message_id, first_outbound) =>
                      let! r := enqueue_rest message_id sender rest [first_outbound] in
                      ret (match r with
                           | Err e => reply_500 e
                           | Ok ids => reply_ok (PSend (mkSendResult message_id ids))
                           end)
                  end
              end
          end
      end
  end.

(** ** Messages *)

Inductive MessageDirection : Type := DBoth | DInbound | DOutbound.

Record ListMessagesQuery : Type := mkListMessagesQuery {
  lq_direction : option MessageDirection; lq_limit : option N; lq_offset : option N }.

Definition MessageDTO_from (m : Message) : MessageDTO :=
  mkMessageDTO (msg_id m) None (msg_mail_from m) (msg_subject m) (msg_message_id_header m)
    (msg_content_type m) (msg_from_address m) (msg_to m) (msg_cc m) (msg_bcc m)
    (show_ts (msg_created_at m)) (show_ts (msg_updated_at m)).

Definition with_direction (dir : option string) (m : MessageDTO) : MessageDTO :=
  mkMessageDTO (mm_id m) dir (mm_mail_from m) (mm_subject m) (mm_message_id_header m)
    (mm_content_type m) (mm_from_address m) (mm_to m) (mm_cc m) (mm_bcc m) (mm_created_at m) (mm_updated_at m).

(** [Vec::dedup]: drop consecutive repeats. *)
Fixpoint dedup (l : list N) : list N :=
  match l with
  | [] => []
  | x :: l' =>
      match l' with
      | [] => [x]
      | y :: _ => if N.eqb x y then dedup l' else x :: dedup l'
      end
  end.

(** The messages of the ids, in order, skipping those that cannot be read. *)
Fixpoint load_messages (dirs : gmap N string) (ids : list N) (items : list MessageDTO) : M D (list MessageDTO) :=
  match ids with
  | [] => ret items
  | id :: ids' =>
      let! r := exec (GetMessage id) in
      match r with
      | Ok message => load_messages dirs ids' (items ++ [with_direction (dirs !! id) (MessageDTO_from message)])%list
      | Err _ => load_messages dirs ids' items
      end
  end.

Definition want_in (direction : option MessageDirection) : bool :=
  match direction with Some DOutbound => false | _ => true end.
Definition want_out (direction : option MessageDirection) : bool :=
  match direction with Some DInbound => false | _ => true end.

(** A query run only if it is wanted. *)
Definition when {A} (b : bool) (s : stmt (list A)) : M D (result (list A) string) :=
  if b then exec s else ret (Ok []).

(** [load_mailbox_messages]. *)
Definition load_mailbox_messages (mailbox_id : string) (direction : option MessageDirection)
  : M D (result (list MessageDTO) string) :=
  let key := to_lowercase mailbox_id in
  let? inbounds := when (want_in direction) (QueryInbound (fun i => String.eqb (in_rcpt_to i) key)) in
  let? outbounds := when (want_out direction) (QueryOutbound (fun o => String.eqb (out_sender_id o) key)) in
  let ids := (map in_message_id inbounds ++ map out_message_id outbounds)%list in
  let dirs := foldl (fun m o => <[out_message_id o := "outbound"]> m)
                (foldl (fun m i => <[in_message_id i := "inbound"]> m) ∅ inbounds) outbounds in
  let! items := load_messages dirs (dedup (sort_by_key id ids)) [] in
  ret (Ok items).

(** [ensure_mailbox_exists]: the 404 it renders, if any. *)
Definition ensure_mailbox_exists (mailbox_id : string) : M D (option Reply) :=
  let! r := exec (GetMailbox (to_lowercase mailbox_id)) in
  ret (match r with Ok _ => None | Err _ => Some (mailbox_not_found mailbox_id) end).

(** The body shared by the three listings. *)
Definition list_messages (mailbox_id : string) (direction : option MessageDirection) (limit offset : N)
  : M D Reply :=
  let! missing := ensure_mailbox_exists mailbox_id in
  match missing with
  | Some reply => ret reply
  | None =>
      let! r := load_mailbox_messages mailbox_id direction in
      ret (match r with
           | Ok items => reply_ok (PMessages (from_all items limit offset))
           | Err e => reply_500 e
           end)
  end.

(** [list_mailbox_messages]: [query] is the whole query string parsed, [None] when
    any parameter of it does not parse; [limit] and [offset] are the parameters
    parsed one by one. *)
Definition list_mailbox_messages (param : option string) (query : option ListMessagesQuery)
    (limit offset : option N) : M D Reply :=
  let mailbox_id := unwrap_or "" param in
  let direction := query ≫= lq_direction in
  let '(l, o) := match query with
                 | Some q => (unwrap_or DEFAULT_PAGE_LIMIT (lq_limit q), unwrap_or 0%N (lq_offset q))
                 | None => page_params limit offset
                 end in
  list_messages mailbox_id direction l o.

(** [list_mailbox_inbox], [list_mailbox_sent]. *)
Definition list_mailbox_inbox (param : option string) (limit offset : option N) : M D Reply :=
  let '(l, o) := page_params limit offset in
  list_messages (unwrap_or "" param) (Some DInbound) l o.
Definition list_mailbox_sent (param : option string) (limit offset : option N) : M D Reply :=
  let '(l, o) := page_params limit offset in
  list_messages (unwrap_or "" param) (Some DOutbound) l o.

Definition message_not_found (id : N) : Reply :=
  reply_problem 404 (not_found ("message '" +:+ show_N id +:+ "' not found")).

(** [get_message]. *)
Definition get_message (param : option N) : M D Reply :=
  let message_id := unwrap_or 0%N param in
  let! r := exec (GetMessage message_id) in
  ret (match r with
       | Ok message => reply_ok (PMessage (MessageDTO_from message))
       | Err _ => message_not_found message_id
       end).

(** [delete_message]. *)
Definition delete_message (param : option N) : M D Reply :=
  let message_id := unwrap_or 0%N param in
  let! r := exec (GetMessage message_id) in
  match r with
  | Err _ => ret (message_not_found message_id)
  | Ok _ =>
      let! r := exec (DeleteInboundOf message_id) in
      match r with
      | Err e => ret (reply_500 e)
      | Ok _ =>
          let! r := exec (DeleteOutboundOf message_id) in
          match r with
          | Err e => ret (reply_500 e)
          | Ok _ =>
              let! r := exec (DeleteMessage message_id) in
              ret (match r with Ok _ => reply_ok PUnit | Err e => reply_500 e end)
          end
      end
  end.
End Mail.

(** ** Health and services *)

(** [health]; the version is the build's. *)
Definition health (version : string) : Reply :=
  reply_ok (PHealth (mkHealthInfo "zonemail" version "healthy")).

Section ServiceHandlers.
Context `{!SocketAddrs} (spawn : Service -> SocketAddr -> result unit string).

Definition unknown_service (name : string) : Reply :=
  reply_problem 400 (bad_request ("unknown service '" +:+ name
    +:+ "'; expected one of 'api', 'smtp', 'smtps', 'dns'")).

(** The derived [Debug] name of a service. *)
Definition Service_debug (s : Service) : string :=
  match s with Api => "Api" | Smtp => "Smtp" | Smtps => "Smtps" | Dns => "Dns" end.

(** [extract_manager]: the 500 of a router built without the manager. *)
Definition extract_manager (injected : bool) : option Reply :=
  if injected then None else Some (reply_500 "service manager not injected").

(** [list_services]. *)
Definition list_services_handler (injected : bool) : M World Reply :=
  match extract_manager injected with
  | Some reply => ret reply
  | None => let! l := list_services in ret (reply_ok (PServices l))
  end.

(** [start_service]. *)
Definition start_service (injected : bool) (param : option string) : M World Reply :=
  match extract_manager injected with
  | Some reply => ret reply
  | None =>
      let name := unwrap_or "" param in
      match Service_parse name with
      | None => ret (unknown_service name)
      | Some svc =>
          let! r := start spawn svc in
          ret (match r with
               | Ok result => reply_ok (PService result)
               | Err e => reply_500 ("failed to start " +:+ Service_debug svc +:+ ": " +:+ e)
               end)
      end
  end.

(** [stop_service]. *)
Definition stop_service (injected : bool) (param : option string) : M World Reply :=
  match extract_manager injected with
  | Some reply => ret reply
  | None =>
      let name := unwrap_or "" param in
      match Service_parse name with
      | None => ret (unknown_service name)
      | Some svc =>
          let! r := stop svc in
          ret (match r with
               | Ok result => reply_ok (PService result)
               | Err e => reply_500 ("failed to stop " +:+ Service_debug svc +:+ ": " +:+ e)
               end)
      end
  end.

(** [set_mode]. *)
Definition set_mode (injected : bool) (body : option BootMode) : M World Reply :=
  match extract_manager injected with
  | Some reply => ret reply
  | None =>
      match body with
      | None => ret (reply_problem 400 (bad_request "invalid mode; expected one of full|smtp|dns|api-only"))
      | Some mode => let! l := apply_mode spawn mode in ret (reply_ok (PServices l))
      end
  end.
End ServiceHandlers.
