(* ===== verification/ApiCalls.v ===== *)
(** * ApiCalls: the API's handlers as one type of calls (src/src/api.rs)

    A call is a handler with what it extracts of the request; the router, the
    theorems about sequences of calls and those about races range over it. *)

From S2P Require Import Prelude Text Db Engine Config Send Keys Auth Services Api ApiRecords ApiMail.
From Stdlib Require Import Ascii String.
#[local] Open Scope string_scope.

(** The handlers that use the store. *)
Inductive ApiCall : Type :=
| ListDomains (limit offset : option N)
| CreateDomainCall (body : option NewDomain)
| GetDomainCall (id : option string)
| PatchDomainCall (id : option string) (body : option PatchDomain)
| DeleteDomainCall (id : option string)
| ListMailboxes (limit offset : option N) (domain : option string)
| CreateMailboxCall (now : Timestamp) (body : option NewMailbox)
| GetMailboxCall (id : option string)
| PatchMailboxCall (id : option string) (body : option PatchMailbox)
| DeleteMailboxCall (id : option string)
| ListRecords (limit offset : option N) (domain type_ : option string)
| CreateRecordCall (body : option NewRecord)
| GetRecordCall (id : option N)
| PatchRecordCall (id : option N) (body : option PatchRecord)
| DeleteRecordCall (id : option N)
| SendEmailCall (body : option SendEmail)
| ListMessages (id : option string) (query : option ListMessagesQuery) (limit offset : option N)
| ListInbox (id : option string) (limit offset : option N)
| ListSent (id : option string) (limit offset : option N)
| GetMessageCall (id : option N)
| DeleteMessageCall (id : option N).

Section Calls.
Context `{!UnicodeLower, !TimestampText, !SerdeString, !Lettre, !LettreBuilder, !MailParser, HO : DbOps D}.

Definition run_call (c : ApiCall) : M D Reply :=
  match c with
  | ListDomains l o => list_domains l o
  | CreateDomainCall b => create_domain b
  | GetDomainCall i => get_domain i
  | PatchDomainCall i b => patch_domain i b
  | DeleteDomainCall i => delete_domain i
  | ListMailboxes l o d => list_mailboxes l o d
  | CreateMailboxCall n b => create_mailbox n b
  | GetMailboxCall i => get_mailbox i
  | PatchMailboxCall i b => patch_mailbox i b
  | DeleteMailboxCall i => delete_mailbox i
  | ListRecords l o d t => list_records l o d t
  | CreateRecordCall b => create_record b
  | GetRecordCall i => get_record i
  | PatchRecordCall i b => patch_record i b
  | DeleteRecordCall i => delete_record i
  | SendEmailCall b => send_email b
  | ListMessages i q l o => list_mailbox_messages i q l o
  | ListInbox i l o => list_mailbox_inbox i l o
  | ListSent i l o => list_mailbox_sent i l o
  | GetMessageCall i => get_message i
  | DeleteMessageCall i => delete_message i
  end.

Definition run_calls (cs : list ApiCall) : M D unit :=
  for_each cs (fun c => let! _ := run_call c in ret tt).
End Calls.
