(* ===== verification/ApiConcrete.v ===== *)
(** * ApiConcrete: instances of the libraries the API handlers use, and a store *)

From S2P Require Import Prelude Text Db Engine Config Send Concrete EmailFacts Api ApiRecords ApiMail.
From Stdlib Require Import Ascii String.
#[local] Open Scope string_scope.

#[export] Instance demo_ts_text : TimestampText := {| show_ts := fun _ => "1970-01-01T00:00:00Z" |}.

#[export] Program Instance demo_serde : SerdeString := {|
  json_string := fun s => if json_plain s then Some s else None |}.
Next Obligation. intros s Hs. simpl. by rewrite Hs. Qed.

#[export] Instance demo_builder : LettreBuilder := {|
  LettreMailbox := string;
  ContentType := string;
  parse_mailbox := fun s => if contains "@" s then Ok s else Err "missing domain";
  parse_content_type := Ok;
  build_message := fun from _ _ _ _ _ _ => Ok (Some from, []);
|}.

(** A provisioned domain with one mailbox and one record, and another domain. *)
Definition demo_api_tables : Tables :=
  on_records <[1%N := mkRecord 1 "near.example" RT_A "192.0.2.7" 300 0 0]>
    (on_mailboxes <["me@near.example" := demo_mailbox]>
      (on_domains <["far.example" := mkDomain "far.example" 0 0]>
        (on_domains <["near.example" := mkDomain "near.example" 0 0]> empty_tables))).
Definition demo_api_db : MemDb := mkMemDb demo_api_tables 9 [].

Lemma demo_api_wf : wf_tables demo_api_tables.
Proof.
  split; simpl; auto with wf. apply (unique_write empty_tables); [|apply (wf_unique _ wf_empty)].
  intros (k & r & Hk & _). simpl in Hk. by rewrite lookup_empty in Hk.
Qed.

Definition demo_send : SendEmail :=
  mkSendEmail "me@near.example" ["you@far.example"; "you@far.example"] ["her@far.example"] [] None "hello" None.
