(* ===== verification/ApiFacts.v ===== *)
(** * ApiFacts: paging, and the invariants of the store under the API *)

From S2P Require Import Prelude Text Db Engine Config Send SendPure SendFacts Keys Auth Services Concrete Email EmailFacts Api ApiRecords ApiMail ApiCalls ApiConcrete.
From Stdlib Require Import Ascii String Sorting.Sorted.
#[local] Open Scope string_scope.

(** ** Paging *)

Lemma from_all_next {T} (rows : list T) limit offset :
  (N.of_nat (List.length rows) < u64_modulus)%N ->
  pg_next_offset (from_all rows limit offset) =
    if (offset + limit <? N.of_nat (List.length rows))%N then Some (offset + limit)%N else None.
Proof.
  intros Hl. unfold from_all, u64_saturating_add, u64_max. simpl.
  destruct (N.ltb_spec (offset + limit) (N.of_nat (List.length rows))).
  - rewrite N.min_l by lia. by destruct (N.ltb_spec (offset + limit) (N.of_nat (List.length rows))); [|lia].
  - destruct (N.ltb_spec (N.min (offset + limit) (u64_modulus - 1)) (N.of_nat (List.length rows))); [lia|done].
Qed.

(** A page of no rows points at itself: [list_mailbox_messages] takes [limit]
    unclamped, so a client that asks for zero and follows never ends. *)
Lemma zero_limit_never_ends {T} (rows : list T) offset :
  (offset < N.of_nat (List.length rows))%N -> (N.of_nat (List.length rows) < u64_modulus)%N ->
  pg_next_offset (from_all rows 0 offset) = Some offset /\ pg_items (from_all rows 0 offset) = [].
Proof.
  intros H1 H2. rewrite from_all_next, N.add_0_r by done. apply N.ltb_lt in H1. by rewrite H1.
Qed.

(** ** Every call *)

Section Calls.
Context `{!UnicodeLower, !TimestampText, !SerdeString, !Lettre, !LettreBuilder, !MailParser, HE : DbEngine D}.

(** The statements that write a reference. *)
Definition writes_ref {A} (s : stmt A) : bool :=
  match s with
  | CreateRecord _ _ _ _ | UpdateRecord _ _ _ _ _ | CreateOutbound _ | CreateInbound _ _ | CreateDelivery _ _ _ _
  | UpdateOutbound _ _ => true
  | _ => false
  end.

(** The calls that may execute one. *)
Definition ref_call (c : ApiCall) : bool :=
  match c with CreateRecordCall _ | PatchRecordCall _ _ | SendEmailCall _ => true | _ => false end.

(** A relation the statements respect is respected by the calls. *)
Lemma plain_calls_evolve (R : Tables -> Tables -> Prop) `{!PreOrder R} c :
  (forall A (s : stmt A), writes_ref s = false -> evolves view R (exec s)) ->
  ref_call c = false -> evolves view R (run_call c).
Proof.
  intros Hs Hc.
  assert (Hload : forall dirs ids items, evolves view R (load_messages dirs ids items)).
  { intros dirs ids. induction ids; intros items; simpl; evolve; auto. }
  assert (Hwhen : forall A b (s : stmt (list A)), writes_ref s = false -> evolves view R (when b s)).
  { intros A b s Hw. unfold when. evolve; auto. }
  destruct c; simpl in Hc |- *; try done; unfold list_domains, create_domain, get_domain, patch_domain,
    delete_domain, list_mailboxes, create_mailbox, get_mailbox, patch_mailbox, delete_mailbox, list_records,
    get_record, delete_record, list_mailbox_messages, list_mailbox_inbox, list_mailbox_sent, list_messages,
    ensure_mailbox_exists, load_mailbox_messages, get_message, delete_message; evolve; auto.
Qed.

Lemma calls_evolve (R : Tables -> Tables -> Prop) `{!PreOrder R} c :
  (forall A (s : stmt A), evolves view R (exec s)) -> evolves view R (run_call c).
Proof.
  intros Hs. destruct (ref_call c) eqn:Hc; [|apply plain_calls_evolve; auto].
  assert (Hrest : forall mid sender rs ids, evolves view R (enqueue_rest mid sender rs ids)).
  { intros mid sender rs. induction rs; intros ids; simpl; unfold enqueue_forward; evolve; auto. }
  destruct c; try done; simpl; unfold create_record, insert_record, patch_record, update_record,
    validate_record_fields, send_email, enqueue_outbound; evolve; auto.
Qed.

(** ** References *)

Section Refs.
(** Links excused from naming a mailbox. *)
Context (orphan : Inbound -> Prop).

(** Every reference the program relies on names a row that exists. *)
Record refs_ok (t : Tables) : Prop := {
  ref_records : forall k r, t_records t !! k = Some r -> is_Some (t_domains t !! rec_domain_id r);
  ref_outbound : forall k o, t_outbound t !! k = Some o -> is_Some (t_mailboxes t !! out_sender_id o);
  ref_delivery : forall k s, t_delivery t !! k = Some s -> is_Some (t_outbound t !! ds_outbound_id s);
  ref_inbound : forall k i, t_inbound t !! k = Some i ->
    is_Some (t_mailboxes t !! in_rcpt_to i) \/ orphan i;
}.

Lemma keep_is_Some `{Countable K} {V} (p : V -> bool) (m : gmap K V) k v :
  m !! k = Some v -> p v = true -> is_Some (keep p m !! k).
Proof. intros Hk Hp. exists v. by apply keep_Some. Qed.

Lemma refs_delete_outbound p t : refs_ok t -> refs_ok (delete_outbound_where p t).
Proof.
  intros [R1 R2 R3 R4]. split; simpl; auto.
  - intros k o Ho. apply keep_Some in Ho as [Ho _]. eauto.
  - intros k s Hs. apply keep_Some in Hs as [Hs Hg]. apply bool_decide_eq_true in Hg.
    destruct (R3 k s Hs) as [o Ho]. eapply keep_is_Some; [exact Ho|]. apply negb_true_iff.
    destruct (p o) eqn:Ep; [|done]. exfalso.
    assert (keep p (t_outbound t) !! ds_outbound_id s = Some o) by by apply keep_Some. congruence.
Qed.

Lemma owned_false (p : Mailbox -> bool) t id :
  negb (negb (bool_decide (keep p (t_mailboxes t) !! id = None))) = true ->
  is_Some (t_mailboxes t !! id) -> is_Some (keep (fun m => negb (p m)) (t_mailboxes t) !! id).
Proof.
  rewrite negb_involutive. intros Hn%bool_decide_eq_true [m Hm]. eapply keep_is_Some; [exact Hm|].
  destruct (p m) eqn:Ep; [|done]. exfalso.
  assert (keep p (t_mailboxes t) !! id = Some m) by by apply keep_Some. congruence.
Qed.

Lemma refs_delete_mailboxes p t : refs_ok t -> refs_ok (delete_mailboxes_where p t).
Proof.
  intros R. set (owned := fun id => negb (bool_decide (keep p (t_mailboxes t) !! id = None))).
  pose proof (refs_delete_outbound (fun o => owned (out_sender_id o)) t R) as [R1 R2 R3 R4].
  split; simpl in *; auto.
  - intros k o Ho. apply keep_Some in Ho as [Ho Hn]. apply owned_false; [done|]. by eapply (ref_outbound _ R).
  - intros k i Hi. apply keep_Some in Hi as [Hi Hn]. destruct (R4 k i Hi) as [Hm|?]; [left|by right].
    by apply owned_false.
Qed.

Lemma refs_delete_domain id t : refs_ok t -> refs_ok (delete_domain_row id t).
Proof.
  intros R. pose proof (refs_delete_mailboxes (fun m => String.eqb (mb_domain_id m) id) t R) as [R1 R2 R3 R4].
  split; simpl in *; auto.
  intros k r Hr. apply keep_Some in Hr as [Hr Hn]. apply negb_true_iff, String.eqb_neq in Hn.
  rewrite lookup_delete_ne by done. eauto.
Qed.

Lemma refs_sub t t' :
  t_domains t ⊆ t_domains t' -> t_mailboxes t ⊆ t_mailboxes t' ->
  t_records t' = t_records t -> t_outbound t' = t_outbound t -> t_delivery t' = t_delivery t ->
  t_inbound t' = t_inbound t -> refs_ok t -> refs_ok t'.
Proof.
  intros Hd Hm Hr Ho Hs Hi [R1 R2 R3 R4].
  assert (Hw : forall V (m m' : gmap string V) k, m ⊆ m' -> is_Some (m !! k) -> is_Some (m' !! k)).
  { intros V m m' k Hsub [v Hv]. exists v. by eapply lookup_weaken. }
  split; rewrite ?Hr, ?Ho, ?Hs, ?Hi; eauto.
  intros k i Hk. destruct (R4 k i Hk); eauto.
Qed.

Lemma refs_stmt {A} (s : stmt A) t a t' :
  writes_ref s = false -> stmt_spec s t a t' -> refs_ok t -> refs_ok t'.
Proof.
  intros Hw Hs R. destruct s; simpl in Hw, Hs; try done;
    repeat match goal with
           | H : exists _, _ |- _ => destruct H as [? H]
           | H : _ /\ _ |- _ => destruct H
           end; subst; try done; try (by apply refs_delete_domain || by apply refs_delete_mailboxes || by apply refs_delete_outbound);
    try (eapply refs_sub; [..|exact R]; simpl; try done; by apply insert_subseteq).
  - destruct R as [R1 R2 R3 R4]. split; simpl; auto.
    + intros k o Ho. destruct (R2 k o Ho) as [m Hm]. rewrite lookup_alter. case_decide; subst; rewrite Hm; eauto.
    + intros k i Hi. destruct (R4 k i Hi) as [[m Hm]|?]; [left|by right].
      rewrite lookup_alter. case_decide; subst; rewrite Hm; eauto.
  - destruct R as [R1 R2 R3 R4]. split; simpl; auto.
    intros k r Hr. apply lookup_delete_Some in Hr as [_ Hr]. eauto.
  - destruct R as [R1 R2 R3 R4]. split; simpl; auto.
    intros k i Hi. apply keep_Some in Hi as [Hi _]. eauto.
Qed.

(** With the referenced row present, the writes of a reference keep the rest. *)
Definition with_domain (id : string) (t : Tables) : Prop := is_Some (t_domains t !! id) /\ refs_ok t.
Definition with_mailbox (id : string) (t : Tables) : Prop := is_Some (t_mailboxes t !! id) /\ refs_ok t.

Lemma keeps_read {A} (P : Tables -> Prop) (s : stmt A) :
  (forall t a t', stmt_spec s t a t' -> t' = t) -> evolves view (kept P) (exec s).
Proof.
  intros Hs. apply evolves_exec; [typeclasses eauto|]. intros t a t' Ht. by rewrite (Hs _ _ _ Ht).
Qed.

Lemma domain_create_record dom rt v ttl :
  evolves view (kept (with_domain dom)) (exec (CreateRecord dom rt v ttl)).
Proof.
  apply evolves_exec; [typeclasses eauto|]. intros t r t' (k & ts & _ & _ & -> & ->) [Hd [R1 R2 R3 R4]].
  split; [done|]. split; simpl; auto. intros k' r'. rewrite lookup_insert_Some. intros [[_ <-]|[_ Hr]]; eauto.
Qed.

Lemma domain_update_record k dom rt v ttl :
  evolves view (kept (with_domain dom)) (exec (UpdateRecord k dom rt v ttl)).
Proof.
  apply evolves_exec; [typeclasses eauto|]. intros t [] t' (_ & ts & ->) [Hd [R1 R2 R3 R4]].
  split; [done|]. split; simpl; auto. intros k' r'. rewrite lookup_alter_Some.
  intros [(_ & r & _ & ->)|[_ Hr]]; eauto.
Qed.

Lemma mailbox_create_outbound sender n :
  no_sender_id n = sender -> evolves view (kept (with_mailbox sender)) (exec (CreateOutbound n)).
Proof.
  intros <-. apply evolves_exec; [typeclasses eauto|]. intros t o t' (k & ts & Hk & -> & ->) [Hm [R1 R2 R3 R4]].
  split; [done|]. split; simpl; auto.
  - intros k' o'. rewrite lookup_insert_Some. intros [[_ <-]|[_ Ho]]; eauto.
  - intros k' s Hs. destruct (R3 k' s Hs) as [o Ho]. rewrite lookup_insert. case_decide; eauto.
Qed.

Lemma mailbox_create_message sender n :
  evolves view (kept (with_mailbox sender)) (exec (CreateMessage n)).
Proof.
  apply evolves_exec; [typeclasses eauto|]. intros t m t' (k & ts & _ & -> & ->) [Hm R].
  split; [done|]. by eapply refs_sub; [..|exact R].
Qed.

Lemma insert_record_refs dom rt v ttl : evolves view (kept (with_domain dom)) (insert_record dom rt v ttl).
Proof.
  pose proof domain_create_record. unfold insert_record. evolve;
    (apply keeps_read; by intros ? ? ? [-> _]).
Qed.

Lemma update_record_refs k r : evolves view (kept (with_domain (rec_domain_id r))) (update_record k r).
Proof.
  pose proof domain_update_record. unfold update_record. evolve;
    (apply keeps_read; by intros ? ? ? [-> _]).
Qed.

Lemma validate_spec dom v d d' r :
  validate_record_fields dom v d = (d', r) ->
  view d' = view d /\ (r = Ok tt -> is_Some (t_domains (view d) !! dom)).
Proof.
  unfold validate_record_fields. destruct (is_empty _); [by intros [= <- <-]|].
  unfold bind. exec_step; intros [= <- <-]; [|by rewrite E]. destruct E as [-> Hd]. eauto.
Qed.

(** A validated write of a record. *)
Lemma validated_refs dom v (k : M D Reply) d :
  evolves view (kept (with_domain dom)) k -> refs_ok (view d) ->
  refs_ok (view (fst ((let! r := validate_record_fields dom v in
     match r with Err problem => ret (reply_problem (pb_status problem) problem) | Ok _ => k end) d))).
Proof.
  intros Hk R. unfold bind. destruct (validate_record_fields dom v d) as [d1 r] eqn:E.
  apply validate_spec in E as [Ev Hd]. destruct r as [[]|problem]; [|by rewrite <- Ev in R].
  apply (Hk d1). rewrite Ev. split; auto.
Qed.

Lemma send_email_refs b d : refs_ok (view d) -> refs_ok (view (fst (send_email b d))).
Proof.
  intros R. unfold send_email. destruct b as [b|]; [|done].
  destruct (recipients_of b) as [|first rest]; [done|]. unfold bind at 1. exec_step; [|simpl; by rewrite E].
  destruct E as [Ev Hm]. destruct (build_send_message _ _ _ _ _ _ _) as [message|]; [|simpl; by rewrite Ev].
  assert (Hk : forall mid rs ids, evolves view (kept (with_mailbox (se_from b))) (enqueue_rest mid (se_from b) rs ids)).
  { intros mid rs. induction rs; intros ids; simpl; unfold enqueue_forward; evolve; auto.
    by apply mailbox_create_outbound. }
  match goal with |- refs_ok (view (fst (?m d0))) =>
    assert (He : evolves view (kept (with_mailbox (se_from b))) m) end.
  { unfold enqueue_outbound. evolve; auto using mailbox_create_message. by apply mailbox_create_outbound. }
  apply (He d0). rewrite Ev. split; [eauto|done].
Qed.

Lemma call_refs c : evolves view (kept refs_ok) (run_call c).
Proof.
  destruct (ref_call c) eqn:Hc; last first.
  { apply plain_calls_evolve; [typeclasses eauto| |done]. intros A s Hw.
    apply evolves_exec; [typeclasses eauto|]. intros t a t' Hs R. by eapply refs_stmt. }
  intros d R. destruct c; try done; simpl.
  - destruct body as [b|]; [|done]. simpl. destruct (parse_record_type _) as [rt|]; [|done].
    apply validated_refs; [apply insert_record_refs | done].
  - destruct id as [k|]; [|done]. destruct body as [b|]; [|done]. simpl. unfold bind at 1.
    exec_step; [|simpl; by rewrite E]. destruct E as [Ev Hr].
    destruct (patched_type b r) as [rt|]; [|simpl; by rewrite Ev].
    apply validated_refs; [apply (update_record_refs _ (patched b rt r)) | by rewrite Ev].
  - by apply send_email_refs.
Qed.

End Refs.

(** The link [handle_email] files under nobody. *)
Definition unaddressed (i : Inbound) : Prop := in_rcpt_to i = "unknown".

(** C8: however the API is used, every record keeps a provisioned domain, every
    job a provisioned sender, every audit row its job and every received message
    its mailbox (unless SMTP filed it under nobody, as "unknown"), keys and the
    unique record triple are respected: creations are checked and deletions
    cascade.  Each call runs to its end before the next. *)
Theorem api_keeps_integrity cs d :
  wf_tables (view d) -> refs_ok unaddressed (view d) ->
  wf_tables (view (fst (run_calls cs d))) /\ refs_ok unaddressed (view (fst (run_calls cs d))).
Proof.
  intros W R. split; [revert W | revert R]; apply (evolves_for_each view (kept _));
    try typeclasses eauto; intros c; (apply evolves_bind; [typeclasses eauto| |intros; apply evolves_ret; typeclasses eauto]).
  - apply calls_evolve; [typeclasses eauto|]. intros. apply wf_exec.
  - apply call_refs.
Qed.
End Calls.

Lemma demo_api_refs : refs_ok unaddressed demo_api_tables.
Proof.
  split; simpl; intros k x Hx; try by rewrite lookup_empty in Hx.
  apply lookup_insert_Some in Hx as [[<- <-]|[_ Hx]]; [by eexists|by rewrite lookup_empty in Hx].
Qed.

Lemma api_keeps_integrity_witness :
  let d' := fst (run_calls [SendEmailCall (Some demo_send); DeleteMailboxCall (Some "me@near.example")] demo_api_db) in
  wf_tables (view demo_api_db) /\ refs_ok unaddressed (view demo_api_db) /\ wf_tables (view d') /\ refs_ok unaddressed (view d').
Proof.
  split; [apply demo_api_wf|]. split; [apply demo_api_refs|].
  apply (api_keeps_integrity [SendEmailCall (Some demo_send); DeleteMailboxCall (Some "me@near.example")] demo_api_db);
    [apply demo_api_wf | apply demo_api_refs].
Defined.
