(* ===== verification/ApiProps.v ===== *)
(** * ApiProps: creations through the API are exact and idempotent *)

From S2P Require Import Prelude Text Db Engine Config Send Concrete SendPure SendFacts Keys Auth Services Email EmailFacts Api ApiRecords ApiMail ApiCalls ApiConcrete ApiFacts.
From Stdlib Require Import Ascii String Sorting.Sorted.
#[local] Open Scope string_scope.

Section Creates.
Context `{!UnicodeLower, !TimestampText, !SerdeString, HE : DbEngine D}.

(** The first match of the rows of the domain is the row with the triple. *)
Lemma record_resolve_spec t rows_ dom rt v ttl :
  rows_ ≡ₚ rows (keep (of_domain dom) (t_records t)) ->
  (exists k r, t_records t !! k = Some r /\ same_triple dom rt v r = true /\
     record_resolve rows_ rt v ttl =
       Some (if N.eqb (rec_ttl r) ttl then reply_ok (PRecord (RecordApiDTO_from r))
             else reply_problem 409 (conflict ("a " +:+ record_type_to_string rt
                    +:+ " record for this domain with value '" +:+ v
                    +:+ "' already exists with a different ttl")))) \/
  ((forall k r, t_records t !! k = Some r -> same_triple dom rt v r = false) /\
   record_resolve rows_ rt v ttl = None).
Proof.
  intros Hp. unfold record_resolve. destruct (find _ rows_) as [r|] eqn:F.
  - left. apply find_some in F as [Hin Hm]. apply list_elem_of_In in Hin. rewrite Hp in Hin.
    apply elem_of_rows in Hin as [k Hk]. apply keep_Some in Hk as [Hk Hd].
    exists k, r. split; [done|]. split; [|by destruct (N.eqb _ _)].
    unfold same_triple. unfold of_domain in Hd. by rewrite Hd.
  - right. split; [|done]. intros k r Hk. apply not_true_iff_false. intros Hs.
    unfold same_triple in Hs. rewrite <- andb_assoc in Hs. apply andb_true_iff in Hs as [Hd Hm].
    assert (Hin : r ∈ rows_). { rewrite Hp. apply elem_of_rows. exists k. by apply keep_Some. }
    apply list_elem_of_In in Hin. rewrite (find_none _ _ F r Hin) in Hm. done.
Qed.

(** What [insert_record] may do: confirm the row, refuse another ttl, or add it. *)
Lemma insert_record_exact dom rt v ttl d :
  available d -> wf_tables (view d) ->
  let '(d', reply) := insert_record dom rt v ttl d in
  available d' /\
  ((exists k r, t_records (view d) !! k = Some r /\ same_triple dom rt v r = true /\ view d' = view d /\
     (rec_ttl r = ttl -> reply = reply_ok (PRecord (RecordApiDTO_from r))) /\
     (rec_ttl r <> ttl -> res_status reply = Some 409%N)) \/
  (exists k ts, t_records (view d) !! k = None /\
     (forall k' r, t_records (view d) !! k' = Some r -> same_triple dom rt v r = false) /\
     view d' = on_records <[k := mkRecord k dom rt v ttl ts ts]> (view d) /\
     reply = reply_ok (PRecord (RecordApiDTO_from (mkRecord k dom rt v ttl ts ts))))).
Proof.
  intros Hav W. unfold insert_record, bind. exec_on Hav; [|by specialize (Hen I)].
  destruct E as [Ev Hp]. destruct (record_resolve_spec _ _ dom rt v ttl Hp) as [(k & r1 & Hk & Hs & ->)|[Hn ->]].
  - split; [done|]. left. exists k, r1. split_and!; auto; simpl.
    + intros ->. by rewrite N.eqb_refl.
    + intros Hne%N.eqb_neq. by rewrite Hne.
  - rewrite <- Ev in Hn |- *. exec_on Ha; [split; [done|]; right|by specialize (Hen0 Hn)].
    destruct E as (k & ts & Hk & _ & -> & ->). by exists k, ts.
Qed.

(** What [create_record] does after its type parsed. *)
Lemma create_record_steps b rt d :
  available d -> wf_tables (view d) ->
  parse_record_type (trim (nr_record_type b)) = Ok rt ->
  let dom := to_lowercase (trim (nr_domain_id b)) in
  let v := trim (nr_value b) in
  exists d0, view d0 = view d /\ available d0 /\
    ((is_empty (trim v) = true \/ t_domains (view d) !! dom = None) /\
       (exists p, create_record (Some b) d = (d0, reply_problem 400 p)) \/
     (is_empty (trim v) = false /\ is_Some (t_domains (view d) !! dom)) /\
       create_record (Some b) d = insert_record dom rt v (body_ttl b) d0).
Proof.
  intros Hav W Hrt dom v. unfold create_record, validate_record_fields. rewrite Hrt. cbv zeta. fold dom v.
  destruct (is_empty (trim v)) eqn:Ee.
  { exists d. split_and!; [done..|]. left. split; [by left|]. by eexists. }
  unfold bind. exec_on Hav.
  - destruct E as [Ev Hd]. exists d0. split; [done|]. split; [done|]. right. split; [|done]. rewrite Hd. eauto.
  - exists d0. split; [done|]. split; [done|]. left. split; [|by eexists]. right.
    destruct (t_domains (view d) !! dom) eqn:Ed; [|done]. by specialize (Hen (ltac:(by eexists))).
Qed.

(** C25: a record creation is refused as 400, without effect, for a type that does
    not parse, an empty value or a domain that is not provisioned; otherwise it
    confirms the row with the same domain, type and value as 200 or, when the
    time to live differs, refuses as 409, without effect; and when no such row is
    there it adds exactly the normalized row and replies with it. *)
Theorem create_record_exact b d :
  available d -> wf_tables (view d) ->
  let '(d', reply) := create_record (Some b) d in
  let dom := to_lowercase (trim (nr_domain_id b)) in
  let v := trim (nr_value b) in
  match parse_record_type (trim (nr_record_type b)) with
  | Err p => view d' = view d /\ reply = reply_problem 400 p
  | Ok rt =>
      if is_empty (trim v) || bool_decide (t_domains (view d) !! dom = None)
      then view d' = view d /\ res_status reply = Some 400%N
      else
        (exists k r, t_records (view d) !! k = Some r /\ same_triple dom rt v r = true /\ view d' = view d /\
           (rec_ttl r = body_ttl b -> reply = reply_ok (PRecord (RecordApiDTO_from r))) /\
           (rec_ttl r <> body_ttl b -> res_status reply = Some 409%N)) \/
        (exists k ts, t_records (view d) !! k = None /\
           (forall k' r, t_records (view d) !! k' = Some r -> same_triple dom rt v r = false) /\
           view d' = on_records <[k := mkRecord k dom rt v (body_ttl b) ts ts]> (view d) /\
           reply = reply_ok (PRecord (RecordApiDTO_from (mkRecord k dom rt v (body_ttl b) ts ts))))
  end.
Proof.
  intros Hav W. destruct (parse_record_type (trim (nr_record_type b))) as [rt|p] eqn:Hrt;
    [|by unfold create_record; rewrite Hrt].
  destruct (create_record_steps b rt d Hav W Hrt) as (d0 & Ev & Ha & [[Hbad [p ->]]|[[He Hd] ->]]).
  - cbv zeta. destruct Hbad as [-> | Hn]; [done|]. by rewrite bool_decide_true, orb_true_r.
  - cbv zeta. rewrite He, bool_decide_false by by destruct Hd as [? ->]. cbn [orb]. rewrite <- Ev in W |- *.
    pose proof (insert_record_exact (to_lowercase (trim (nr_domain_id b))) rt (trim (nr_value b)) (body_ttl b) d0 Ha W) as Hi.
    destruct (insert_record _ _ _ _ d0). by destruct Hi.
Qed.

(** ** Retrying a creation *)

Lemma create_domain_found b row d :
  available d -> is_empty (trim (nd_id b)) = false -> t_domains (view d) !! trim (nd_id b) = Some row ->
  exists d', create_domain (Some b) d = (d', render_domain_created row) /\ view d' = view d.
Proof.
  intros Hav He Hr. unfold create_domain. rewrite He. unfold bind.
  destruct (exec_enabled (GetDomain (trim (nd_id b))) d Hav) as (d' & a & -> & Ha & Ev & Hs); [by eexists|].
  rewrite Hr in Hs. injection Hs as <-. by exists d'.
Qed.

Lemma create_domain_creates b d d1 reply :
  available d -> create_domain (Some b) d = (d1, reply) -> res_status reply = Some 200%N ->
  available d1 /\ is_empty (trim (nd_id b)) = false /\
  exists row, t_domains (view d1) !! trim (nd_id b) = Some row /\ reply = render_domain_created row.
Proof.
  intros Hav. unfold create_domain. destruct (is_empty _) eqn:He; [by intros [= <- <-]|]. unfold bind.
  exec_on Hav.
  { destruct E as [Ev Hd]. intros [= <- <-] _. rewrite Ev. eauto. }
  exec_on Ha.
  { destruct E0 as [_ (ts & -> & Ev)]. intros [= <- <-] _. rewrite Ev. split; [done|]. split; [done|].
    eexists. split; [|done]. simpl. by rewrite lookup_insert_eq. }
  exec_on Ha0; intros [= <- <-] Hst; [|done]. destruct E1 as [Ev Hd]. rewrite Ev. eauto.
Qed.

Lemma new_mailbox_later now now' b m :
  new_mailbox now b = Ok m ->
  exists m', new_mailbox now' b = Ok m' /\ mb_id m' = mb_id m /\ mb_domain_id m' = mb_domain_id m /\
    mb_forward_to m' = mb_forward_to m.
Proof.
  unfold new_mailbox, Mailbox_try_from. intros Hm. repeat (case_match; simplify_eq/=; try done); eauto.
Qed.

Lemma new_mailbox_id now b m : new_mailbox now b = Ok m -> mb_id m = to_lowercase (trim (nb_id b)).
Proof. unfold new_mailbox, Mailbox_try_from. intros Hm. by repeat (case_match; simplify_eq/=). Qed.

Lemma mailbox_resolve_same existing m :
  mb_domain_id existing = mb_domain_id m -> mb_forward_to existing = mb_forward_to m ->
  mailbox_resolve existing m = reply_ok (PMailbox (MailboxDTO_from existing)).
Proof. intros Hd Hf. unfold mailbox_resolve. by rewrite Hd, Hf, String.eqb_refl, bool_decide_true. Qed.

Lemma mailbox_resolve_200 existing m :
  res_status (mailbox_resolve existing m) = Some 200%N ->
  mb_domain_id existing = mb_domain_id m /\ mb_forward_to existing = mb_forward_to m /\
  mailbox_resolve existing m = reply_ok (PMailbox (MailboxDTO_from existing)).
Proof.
  unfold mailbox_resolve. destruct (bool_decide _ && _) eqn:E; [|done]. intros _.
  apply andb_true_iff in E as [E1%bool_decide_eq_true E2%String.eqb_eq]. done.
Qed.

Lemma create_mailbox_creates now b d d1 reply :
  available d -> create_mailbox now (Some b) d = (d1, reply) -> res_status reply = Some 200%N ->
  available d1 /\ exists m row, new_mailbox now b = Ok m /\ t_mailboxes (view d1) !! mb_id m = Some row /\
    mb_domain_id row = mb_domain_id m /\ mb_forward_to row = mb_forward_to m /\
    reply = reply_ok (PMailbox (MailboxDTO_from row)).
Proof.
  intros Hav. unfold create_mailbox. destruct (new_mailbox now b) as [m|r] eqn:Em; last first.
  { intros [= <- <-] Hst. exfalso. unfold new_mailbox in Em. by repeat case_match; simplify_eq/=. }
  unfold bind. exec_on Hav.
  { destruct E as [Ev Hm]. intros [= <- <-] Hst. apply mailbox_resolve_200 in Hst as (H1' & H2' & ->).
    rewrite Ev. split; [done|]. by exists m, r. }
  exec_on Ha.
  { destruct E0 as [_ (ts & -> & Ev)]. intros [= <- <-] _. rewrite Ev. split; [done|]. exists m. eexists.
    split; [done|]. simpl. by rewrite lookup_insert_eq. }
  exec_on Ha0; intros [= <- <-] Hst; [|done]. destruct E1 as [Ev Hm].
  apply mailbox_resolve_200 in Hst as (H1' & H2' & ->). rewrite Ev. split; [done|]. by exists m, r1.
Qed.

Lemma create_mailbox_found now b m row d :
  available d -> new_mailbox now b = Ok m -> t_mailboxes (view d) !! mb_id m = Some row ->
  mb_domain_id row = mb_domain_id m -> mb_forward_to row = mb_forward_to m ->
  exists d', create_mailbox now (Some b) d = (d', reply_ok (PMailbox (MailboxDTO_from row))) /\
    view d' = view d.
Proof.
  intros Hav Em Hr Hd Hf. unfold create_mailbox. rewrite Em. unfold bind.
  destruct (exec_enabled (GetMailbox (mb_id m)) d Hav) as (d' & a & -> & Ha & Ev & Hs); [by eexists|].
  rewrite Hr in Hs. injection Hs as <-. exists d'. by rewrite mailbox_resolve_same.
Qed.

(** A created or confirmed record is the row with its triple and time to live. *)
Lemma create_record_creates b d d1 reply :
  available d -> wf_tables (view d) -> create_record (Some b) d = (d1, reply) ->
  res_status reply = Some 200%N ->
  available d1 /\ exists rt k r, parse_record_type (trim (nr_record_type b)) = Ok rt /\
    is_empty (trim (trim (nr_value b))) = false /\
    is_Some (t_domains (view d1) !! to_lowercase (trim (nr_domain_id b))) /\
    t_records (view d1) !! k = Some r /\ rec_ttl r = body_ttl b /\
    same_triple (to_lowercase (trim (nr_domain_id b))) rt (trim (nr_value b)) r = true /\
    reply = reply_ok (PRecord (RecordApiDTO_from r)).
Proof.
  intros Hav W Hc Hst. destruct (parse_record_type (trim (nr_record_type b))) as [rt|p] eqn:Hrt; last first.
  { unfold create_record in Hc. rewrite Hrt in Hc. by injection Hc as <- <-. }
  destruct (create_record_steps b rt d Hav W Hrt) as (d0 & Ev & Ha & [[_ [p Hp]]|[[He Hd] Hi]]).
  { rewrite Hp in Hc. by injection Hc as <- <-. }
  rewrite Hi in Hc. rewrite <- Ev in W, Hd. cbv zeta in *.
  pose proof (insert_record_exact (to_lowercase (trim (nr_domain_id b))) rt (trim (nr_value b)) (body_ttl b) d0 Ha W) as Hx.
  rewrite Hc in Hx. destruct Hx as [Ha1 [(k & r & Hk & Hs & Ev1 & Heq & Hne)|(k & ts & Hk & _ & Ev1 & ->)]].
  - split; [done|]. exists rt, k, r. rewrite Ev1. destruct (decide (rec_ttl r = body_ttl b)) as [El|El].
    + by rewrite (Heq El).
    + by rewrite (Hne El) in Hst.
  - split; [done|]. exists rt, k. eexists. rewrite Ev1. simpl. rewrite lookup_insert_eq.
    split_and!; try done. by apply same_triple_spec.
Qed.

Lemma create_record_found b rt k r d :
  available d -> wf_tables (view d) -> parse_record_type (trim (nr_record_type b)) = Ok rt ->
  is_empty (trim (trim (nr_value b))) = false ->
  is_Some (t_domains (view d) !! to_lowercase (trim (nr_domain_id b))) ->
  t_records (view d) !! k = Some r -> rec_ttl r = body_ttl b ->
  same_triple (to_lowercase (trim (nr_domain_id b))) rt (trim (nr_value b)) r = true ->
  exists d', create_record (Some b) d = (d', reply_ok (PRecord (RecordApiDTO_from r))) /\ view d' = view d.
Proof.
  intros Hav W Hrt He Hd Hk Hl Hs.
  destruct (create_record_steps b rt d Hav W Hrt) as (d0 & Ev & Ha & [[[Hbad|Hbad] _]|[_ ->]]).
  { by rewrite He in Hbad. } { rewrite Hbad in Hd. by destruct Hd. }
  rewrite <- Ev in W, Hk |- *. cbv zeta.
  pose proof (insert_record_exact (to_lowercase (trim (nr_domain_id b))) rt (trim (nr_value b)) (body_ttl b) d0 Ha W) as Hx.
  destruct (insert_record _ _ _ _ d0) as [d' reply].
  destruct Hx as [_ [(k' & r' & Hk' & Hs' & Ev' & Heq & _)|(k' & ts & _ & Hn & _)]];
    [|by rewrite (Hn k r Hk) in Hs].
  assert (k = k') as <-.
  { eapply (wf_unique _ W); [done..|]. apply same_triple_spec in Hs as (-> & -> & ->). done. }
  rewrite Hk in Hk'. injection Hk' as <-. exists d'. by rewrite (Heq Hl).
Qed.
End Creates.

(** A creation and its retry: the same body, at any later instant. *)
Inductive create_retry : ApiCall -> ApiCall -> Prop :=
| RetryDomain b : create_retry (CreateDomainCall b) (CreateDomainCall b)
| RetryMailbox now now' b : create_retry (CreateMailboxCall now b) (CreateMailboxCall now' b)
| RetryRecord b : create_retry (CreateRecordCall b) (CreateRecordCall b).

Section Retries.
Context `{!UnicodeLower, !TimestampText, !SerdeString, !Lettre, !LettreBuilder, !MailParser, HE : DbEngine D}.

(** C24: creations are idempotent: repeating one that was answered 200, at any
    later instant, gets the same answer and changes nothing. *)
Theorem creates_idempotent c c' d d1 reply :
  create_retry c c' -> available d -> wf_tables (view d) ->
  run_call c d = (d1, reply) -> res_status reply = Some 200%N ->
  exists d2, run_call c' d1 = (d2, reply) /\ view d2 = view d1.
Proof.
  intros Hr Hav W Hc Hst. assert (W1 : wf_tables (view d1)).
  { replace d1 with (fst (run_call c d)) by by rewrite Hc. revert W. apply (calls_evolve (kept wf_tables)).
    intros. apply wf_exec. }
  destruct Hr as [[b|]|now now' [b|]|[b|]]; simpl in *; try by (injection Hc as <- <-).
  - destruct (create_domain_creates b d d1 reply) as (Ha & He & row & Hrow & ->); auto.
    by apply create_domain_found.
  - destruct (create_mailbox_creates now b d d1 reply) as (Ha & m & row & Hm & Hrow & Hd & Hf & ->); auto.
    destruct (new_mailbox_later now now' b m Hm) as (m' & Hm' & Hi' & Hd' & Hf').
    apply (create_mailbox_found now' b m'); congruence.
  - destruct (create_record_creates b d d1 reply) as (Ha & rt & k & r & Hrt & He & Hd & Hk & Hl & Hs & ->); auto.
    by apply (create_record_found b rt k).
Qed.

(** A mailbox the API answered 200 for receives mail at once: a [RCPT TO]
    for its address, in any case the lowering folds, is accepted. *)
Lemma created_mailbox_accepts_mail now b d d1 reply to rs :
  available d -> create_mailbox now (Some b) d = (d1, reply) -> res_status reply = Some 200%N ->
  clean_email to = to_lowercase (trim (nb_id b)) ->
  exists d2, handle_rcpt to rs d1 = (d2, ((rs ++ [clean_email to])%list, Ok Default)).
Proof.
  intros Hav Hc Hst Hto. destruct (create_mailbox_creates now b d d1 reply) as (Ha & m & row & Hm & Hrow & _); auto.
  apply handle_rcpt_available; [done|]. rewrite Hto, <- (new_mailbox_id now b m Hm). eauto.
Qed.
End Retries.

(** ** Concrete requests *)

Definition demo_new_record : NewRecord := mkNewRecord " Near.example" "A" "192.0.2.9" None.

Lemma create_record_exact_witness :
  available demo_api_db /\ wf_tables (view demo_api_db) /\
  exists k ts, t_records (view demo_api_db) !! k = None /\
    (forall k' r, t_records (view demo_api_db) !! k' = Some r ->
       same_triple "near.example" RT_A "192.0.2.9" r = false) /\
    view (fst (create_record (Some demo_new_record) demo_api_db)) =
      on_records <[k := mkRecord k "near.example" RT_A "192.0.2.9" 3600 ts ts]> (view demo_api_db) /\
    snd (create_record (Some demo_new_record) demo_api_db) =
      reply_ok (PRecord (RecordApiDTO_from (mkRecord k "near.example" RT_A "192.0.2.9" 3600 ts ts))).
Proof.
  split; [constructor|]. split; [apply demo_api_wf|].
  assert (Ha : available demo_api_db) by constructor.
  pose proof (create_record_exact demo_new_record demo_api_db Ha demo_api_wf) as H.
  destruct (create_record (Some demo_new_record) demo_api_db) as [d' reply] eqn:E.
  destruct H as [(k & r & Hk & Hs & _)|H]; [exfalso | exact H].
  simpl in Hk. apply lookup_insert_Some in Hk as [[<- <-]|[_ Hk]]; [done | by rewrite lookup_empty in Hk].
Defined.

Lemma creates_idempotent_witness :
  let c := CreateMailboxCall 0 (Some (mkNewMailbox "You@near.example" None None)) in
  let c' := CreateMailboxCall 7 (Some (mkNewMailbox "You@near.example" None None)) in
  exists d2, run_call c' (fst (run_call c demo_api_db)) = (d2, snd (run_call c demo_api_db)) /\
    view d2 = view (fst (run_call c demo_api_db)).
Proof.
  intros c c'.
  apply (creates_idempotent c c' demo_api_db (fst (run_call c demo_api_db)) (snd (run_call c demo_api_db)));
    [constructor | constructor | apply demo_api_wf | by destruct (run_call c demo_api_db) | by vm_compute].
Defined.

Lemma created_mailbox_accepts_mail_witness :
  let b := mkNewMailbox " You@near.example" None None in
  exists d2, handle_rcpt "<you@NEAR.example>" [] (fst (create_mailbox 0 (Some b) demo_api_db)) =
    (d2, (([] ++ [clean_email "<you@NEAR.example>"])%list, Ok Default)).
Proof.
  intros b. apply (created_mailbox_accepts_mail 0 b demo_api_db (fst (create_mailbox 0 (Some b) demo_api_db))
    (snd (create_mailbox 0 (Some b) demo_api_db)) "<you@NEAR.example>" []);
    [constructor | by destruct (create_mailbox 0 (Some b) demo_api_db) | by vm_compute | by vm_compute].
Defined.
