(* ===== verification/ApiMailFacts.v ===== *)
(** * ApiMailFacts: sending and listing messages, deletion of a domain *)

From S2P Require Import Prelude Text Db Engine Config Send Concrete SendPure SendFacts Keys Auth Services Email EmailFacts Dns Api ApiRecords ApiMail ApiCalls ApiConcrete ApiFacts.
From Stdlib Require Import Ascii String Sorting.Sorted.
#[local] Open Scope string_scope.

(** ** Recipients *)

Lemma push_new_spec acc r :
  NoDup acc -> NoDup (push_new acc r) /\ (forall x, x ∈ push_new acc r <-> x ∈ acc \/ x = r).
Proof.
  intros Hn. unfold push_new. case_bool_decide as Hin.
  - split; [done|]. intros x. split; [by left|]. by intros [?| ->].
  - split; [|set_solver]. apply NoDup_app. split_and!; [done|set_solver|apply NoDup_singleton].
Qed.

Lemma push_all_spec rs acc :
  NoDup acc -> NoDup (foldl push_new acc rs) /\ (forall x, x ∈ foldl push_new acc rs <-> x ∈ acc \/ x ∈ rs).
Proof.
  revert acc. induction rs as [|r rs IH]; intros acc Hn; simpl; [set_solver|].
  destruct (push_new_spec acc r Hn) as [Hn' Hin]. destruct (IH _ Hn') as [Hn2 Hin2].
  split; [done|]. intros x. rewrite Hin2, Hin, elem_of_cons. tauto.
Qed.

(** Each address once, whichever lists name it. *)
Lemma recipients_of_spec b :
  NoDup (recipients_of b) /\ (forall x, x ∈ recipients_of b <-> x ∈ se_to b \/ x ∈ se_cc b \/ x ∈ se_bcc b).
Proof.
  destruct (push_all_spec (se_to b ++ se_cc b ++ se_bcc b)%list []) as [Hn Hin]; [constructor|].
  split; [done|]. intros x. unfold recipients_of. rewrite Hin, !elem_of_app. set_solver.
Qed.

(** ** Queueing *)

(** The jobs [ids] are new, one for each recipient in order, due at once; nothing
    else changed. *)
Definition jobs_queued (mid : N) (sender : string) (ids : list N) (rs : list string) (t t' : Tables) : Prop :=
  NoDup ids /\ Forall (fun id => t_outbound t !! id = None) ids /\
  Forall2 (fun id r => exists ts,
    t_outbound t' !! id = Some (mkOutbound id mid r sender Queued 0 None None ts ts)) ids rs /\
  (forall k, k ∉ ids -> t_outbound t' !! k = t_outbound t !! k) /\
  on_outbound (fun _ => ∅) t' = on_outbound (fun _ => ∅) t.

Lemma jobs_queued_nil mid sender t : jobs_queued mid sender [] [] t t.
Proof. repeat split; constructor. Qed.

Lemma jobs_queued_cons mid sender id r ts ids rs t t' :
  t_outbound t !! id = None ->
  jobs_queued mid sender ids rs
    (on_outbound <[id := mkOutbound id mid r sender Queued 0 None None ts ts]> t) t' ->
  jobs_queued mid sender (id :: ids) (r :: rs) t t'.
Proof.
  intros Hid (Hn & Hf & H2 & Hk & Hrest). simpl in *. rewrite Forall_forall in Hf.
  assert (Hni : id ∉ ids). { intros Hin. specialize (Hf id Hin). by rewrite lookup_insert_eq in Hf. }
  repeat split.
  - by constructor.
  - constructor; [done|]. apply Forall_forall. intros k Hin. by apply Hf, lookup_insert_None in Hin as [? _].
  - constructor; [|done]. exists ts. by rewrite Hk, lookup_insert_eq.
  - intros k Hkn. apply not_elem_of_cons in Hkn as [Hne Hkn]. by rewrite Hk, lookup_insert_ne by done.
  - by rewrite Hrest.
Qed.

(** ** Deduplication of a sorted list *)

Lemma dedup_elem l x : x ∈ dedup l <-> x ∈ l.
Proof.
  induction l as [|y l IH]; simpl; [done|]. destruct l as [|z l]; [done|].
  destruct (N.eqb_spec y z) as [->|Hne]; rewrite ?IH, ?elem_of_cons, ?IH, ?elem_of_cons; tauto.
Qed.

Lemma dedup_sorted l : StronglySorted N.le l -> StronglySorted N.lt (dedup l).
Proof.
  induction 1 as [|y l Hs IH Hle]; simpl; [constructor|]. destruct l as [|z l]; [by repeat constructor|].
  destruct (N.eqb_spec y z) as [->|Hne]; [done|]. constructor; [done|]. rewrite Forall_forall in Hle |- *.
  intros x Hx. rewrite dedup_elem in Hx. apply elem_of_cons in Hx as [->|Hx].
  - assert (y <= z)%N by (apply Hle; set_solver). lia.
  - assert (y <= z)%N by (apply Hle; set_solver). assert (z <= x)%N; [|lia].
    inversion Hs as [|? ? _ Hz]; subst. rewrite Forall_forall in Hz. auto.
Qed.

(** The ids of a listing: each once, in increasing order. *)
Lemma listing_ids (l : list N) :
  StronglySorted N.lt (dedup (sort_by_key id l)) /\ (forall x, x ∈ dedup (sort_by_key id l) <-> x ∈ l).
Proof.
  split.
  - apply dedup_sorted, Sorted_StronglySorted; [intros ? ? ?; lia|]. apply (sort_by_key_sorted id).
  - intros x. by rewrite dedup_elem, sort_by_key_perm.
Qed.

Lemma sorted_omap {B} (f : N -> option B) (key : B -> N) l :
  (forall x y, f x = Some y -> key y = x) -> StronglySorted N.lt l ->
  StronglySorted N.lt (map key (omap f l)).
Proof.
  intros Hf. induction 1 as [|x l Hs IH Hlt]; simpl; [constructor|].
  destruct (f x) as [y|] eqn:E; [|done]. simpl. constructor; [done|]. rewrite (Hf x y E).
  rewrite Forall_forall in Hlt |- *. intros z Hz. apply list_elem_of_fmap in Hz as (w & -> & Hw).
  apply list_elem_of_omap in Hw as (v & Hv & Hfv). rewrite (Hf v w Hfv). auto.
Qed.

Section Mail.
Context `{!UnicodeLower, !TimestampText, !Lettre, !LettreBuilder, !MailParser, HE : DbEngine D}.

Lemma create_job mid sender r d :
  available d -> exists d' id ts, exec (CreateOutbound (queued_job mid sender r)) d =
      (d', Ok (mkOutbound id mid r sender Queued 0 None None ts ts)) /\ available d' /\
    t_outbound (view d) !! id = None /\
    view d' = on_outbound <[id := mkOutbound id mid r sender Queued 0 None None ts ts]> (view d).
Proof.
  intros Hav. destruct (exec_enabled (CreateOutbound (queued_job mid sender r)) d Hav I)
    as (d' & a & E & Ha & id & ts & Hid & -> & Ev). by exists d', id, ts.
Qed.

Lemma enqueue_rest_queues mid sender rs ids d :
  available d -> exists d' new, enqueue_rest mid sender rs ids d = (d', Ok (ids ++ new)%list) /\ available d' /\
    jobs_queued mid sender new rs (view d) (view d').
Proof.
  revert ids d. induction rs as [|r rs IH]; intros ids d Hav; simpl.
  - exists d, []. rewrite app_nil_r. split_and!; [done..|]. apply jobs_queued_nil.
  - unfold enqueue_forward, bind_try, bind.
    destruct (create_job mid sender r d Hav) as (d1 & id & ts & -> & Ha & Hid & Ev). simpl.
    destruct (IH (ids ++ [id])%list d1 Ha) as (d' & new & -> & Ha' & Hq).
    exists d', (id :: new). split; [by rewrite <- app_assoc|]. split; [done|].
    eapply jobs_queued_cons; [done|]. by rewrite <- Ev.
Qed.

(** The message a body asks for. *)
Definition message_of (b : SendEmail) : result LettreMessage string :=
  build_send_message (se_from b) (se_to b) (se_cc b) (se_bcc b) (se_subject b) (se_body b) (se_content_type b).

(** An accepted submission, step by step. *)
Lemma send_email_queues b message m d :
  available d -> recipients_of b <> [] -> t_mailboxes (view d) !! se_from b = Some m -> message_of b = Ok message ->
  exists d' mid ts ids, send_email (Some b) d = (d', reply_ok (PSend (mkSendResult mid ids))) /\ available d' /\
    t_messages (view d) !! mid = None /\
    jobs_queued mid (se_from b) ids (recipients_of b)
      (on_messages <[mid := message_row (outbound_message message) mid ts]> (view d)) (view d').
Proof.
  intros Hav Hne Hm Hb. unfold send_email. destruct (recipients_of b) as [|first rest]; [done|].
  unfold enqueue_outbound, bind.
  destruct (exec_enabled (GetMailbox (se_from b)) d Hav) as (d0 & a & -> & Ha0 & Ev & _); [by eexists|].
  unfold message_of in Hb. rewrite Hb.
  destruct (exec_enabled (CreateMessage (outbound_message message)) d0 Ha0 I)
    as (d1 & a1 & -> & Ha1 & mid & ts & Hmid & -> & Ev1). cbn beta iota.
  destruct (create_job mid (se_from b) first d1 Ha1) as (d2 & id & ts2 & E2 & Ha2 & Hid & Ev2).
  simpl. rewrite E2. simpl.
  destruct (enqueue_rest_queues mid (se_from b) rest [id] d2 Ha2) as (d3 & new & -> & Ha3 & Hq).
  exists d3, mid, ts, (id :: new). rewrite Ev in Hmid, Ev1. split_and!; [done..|].
  rewrite <- Ev1. eapply jobs_queued_cons; [done|]. by rewrite <- Ev2.
Qed.

(** A refused one changes nothing. *)
Lemma send_email_refused b d :
  available d -> let '(d', reply) := send_email (Some b) d in
  match recipients_of b, t_mailboxes (view d) !! se_from b, message_of b with
  | [], _, _ => view d' = view d /\ res_status reply = Some 400%N
  | _, None, _ => view d' = view d /\ res_status reply = Some 409%N
  | _, Some _, Err e => view d' = view d /\ reply = reply_problem 400 (bad_request e)
  | _, Some _, Ok _ => True
  end.
Proof.
  intros Hav. unfold send_email, message_of. destruct (recipients_of b) as [|first rest]; [done|]. unfold bind at 1.
  destruct (exec_available (GetMailbox (se_from b)) d Hav) as [Ha0 Hok]. simpl in Hok.
  exec_step; simpl in Ha0, Hok.
  - destruct E as [Ev ->]. destruct (build_send_message _ _ _ _ _ _ _) as [message|e]; [|done]. by case_match.
  - destruct (t_mailboxes (view d) !! se_from b) as [m|]; [|done]. by discriminate Hok; eexists.
Qed.

(** Every address of the request and its content type parse. *)
Definition well_addressed (b : SendEmail) : Prop :=
  (forall a, a = se_from b \/ a ∈ recipients_of b -> exists m, parse_mailbox a = Ok m) /\
  (forall ct, se_content_type b = Some ct -> exists c, parse_content_type ct = Ok c).

Lemma parse_addrs_spec addrs :
  match parse_addrs addrs with
  | Ok _ => forall a, a ∈ addrs -> exists m, parse_mailbox a = Ok m
  | Err _ => exists a e, a ∈ addrs /\ parse_mailbox a = Err e
  end.
Proof.
  unfold parse_addrs. induction addrs as [|a addrs IH]; simpl; [set_solver|].
  destruct (parse_mailbox a) as [m|e] eqn:Ea; [|exists a, e; set_solver].
  destruct (collect (map parse_mailbox addrs)) as [l|e].
  - intros x [->|Hx]%elem_of_cons; eauto.
  - destruct IH as (x & e' & Hx & He). exists x, e'. set_solver.
Qed.

Lemma message_of_parses b :
  match message_of b with
  | Ok _ => well_addressed b
  | Err e => well_addressed b -> exists e', e = "failed to build message: " +:+ e'
  end.
Proof.
  pose proof (proj2 (recipients_of_spec b)) as Hr. unfold message_of, build_send_message.
  assert (W : well_addressed b <->
    (forall a, a = se_from b \/ a ∈ se_to b \/ a ∈ se_cc b \/ a ∈ se_bcc b -> exists m, parse_mailbox a = Ok m) /\
    (forall ct, se_content_type b = Some ct -> exists c, parse_content_type ct = Ok c))
    by (unfold well_addressed; by setoid_rewrite Hr).
  pose proof (parse_addrs_spec (se_to b)) as Ht. pose proof (parse_addrs_spec (se_cc b)) as Hc.
  pose proof (parse_addrs_spec (se_bcc b)) as Hb.
  assert (Hno : forall a e, a = se_from b \/ a ∈ se_to b \/ a ∈ se_cc b \/ a ∈ se_bcc b ->
    parse_mailbox a = Err e -> ~ well_addressed b).
  { intros a e Ha He [Hm _]%W. destruct (Hm a Ha). congruence. }
  destruct (parse_mailbox (se_from b)) as [m|e] eqn:Ef; [|intros Hw; destruct (Hno (se_from b) e); auto].
  destruct (parse_addrs (se_to b)); [|destruct Ht as (x & e' & Ha & He); intros Hw; destruct (Hno x e'); tauto].
  destruct (parse_addrs (se_cc b)); [|destruct Hc as (x & e' & Ha & He); intros Hw; destruct (Hno x e'); tauto].
  destruct (parse_addrs (se_bcc b)); [|destruct Hb as (x & e' & Ha & He); intros Hw; destruct (Hno x e'); tauto].
  assert (Hall : forall x, x = se_from b \/ x ∈ se_to b \/ x ∈ se_cc b \/ x ∈ se_bcc b -> exists m, parse_mailbox x = Ok m).
  { intros x [->|[Ha|[Ha|Ha]]]; eauto. }
  destruct (se_content_type b) as [ct|]; simpl.
  - destruct (parse_content_type ct) as [c|] eqn:Ect; simpl; [|intros [_ Hct]%W; destruct (Hct ct); congruence].
    destruct (build_message _ _ _ _ _ _ _); simpl; [|eauto]. apply W. split; [done|]. intros ? [= <-]. eauto.
  - destruct (build_message _ _ _ _ _ _ _); simpl; [|eauto]. by apply W.
Qed.

(** C21: sending without a recipient is refused as 400, from an address that is
    not a mailbox as 409, and with a from, to, cc or bcc address or a content type
    that does not parse (or a message lettre refuses to build) as 400, all without
    effect; otherwise they all parse, one message is stored and one job per
    distinct recipient is queued from the sender, due at once, all for that
    message, and the reply lists them. *)
Theorem send_email_exact b d :
  available d ->
  let '(d', reply) := send_email (Some b) d in
  match recipients_of b, t_mailboxes (view d) !! se_from b, message_of b with
  | [], _, _ => view d' = view d /\ res_status reply = Some 400%N
  | _, None, _ => view d' = view d /\ res_status reply = Some 409%N
  | _, Some _, Err e => view d' = view d /\ reply = reply_problem 400 (bad_request e) /\
      (well_addressed b -> exists e', e = "failed to build message: " +:+ e')
  | rs, Some _, Ok message =>
      well_addressed b /\ NoDup rs /\ (forall r, r ∈ rs <-> r ∈ se_to b \/ r ∈ se_cc b \/ r ∈ se_bcc b) /\
      exists mid ts ids, t_messages (view d) !! mid = None /\
        jobs_queued mid (se_from b) ids rs
          (on_messages <[mid := message_row (outbound_message message) mid ts]> (view d)) (view d') /\
        reply = reply_ok (PSend (mkSendResult mid ids))
  end.
Proof.
  intros Hav. pose proof (send_email_refused b d Hav) as Hr. pose proof (send_email_queues b) as Hq.
  pose proof (recipients_of_spec b) as [Hn Hin]. pose proof (message_of_parses b) as Hp.
  destruct (recipients_of b) as [|first rest] eqn:Er; [done|].
  destruct (t_mailboxes (view d) !! se_from b) as [m|] eqn:Em; [|done].
  destruct (message_of b) as [message|e] eqn:Eb; [|by destruct (send_email _ _), Hr].
  destruct (Hq message m d Hav) as (d' & mid & ts & ids & -> & _ & Hmid & Hj); [done..|]. naive_solver.
Qed.

(** ** Listing *)

Definition listed (dirs : gmap N string) (t : Tables) (id : N) : option MessageDTO :=
  (fun m => with_direction (dirs !! id) (MessageDTO_from m)) <$> t_messages t !! id.

Lemma load_messages_exact dirs ids items d :
  available d -> exists d', load_messages dirs ids items d = (d', (items ++ omap (listed dirs (view d)) ids)%list) /\
    available d' /\ view d' = view d.
Proof.
  revert items d. induction ids as [|i ids IH]; intros items d Hav; simpl.
  - exists d. by rewrite app_nil_r.
  - unfold bind. destruct (exec_available (GetMessage i) d Hav) as [Ha Hok]. simpl in Hok.
    unfold listed at 1. exec_step; simpl in Ha, Hok.
    + destruct E as [Ev Hm]. rewrite Hm. simpl.
      destruct (IH (items ++ [with_direction (dirs !! i) (MessageDTO_from r)])%list d0 Ha) as (d' & -> & Ha' & Ev').
      exists d'. rewrite Ev', Ev, <- app_assoc. done.
    + destruct (t_messages (view d) !! i) as [m|]; [by discriminate Hok; eexists|]. simpl.
      destruct (IH items d0 Ha) as (d' & -> & Ha' & Ev'). exists d'. by rewrite Ev', E.
Qed.

Lemma when_exact {A} b (s : stmt (list A)) (p : A -> bool) (table : Tables -> gmap N A) d :
  available d -> enabled s (view d) ->
  (forall a t', stmt_spec s (view d) a t' -> t' = view d /\ a ≡ₚ rows (keep p (table (view d)))) ->
  exists d' l, when b s d = (d', Ok l) /\ available d' /\ view d' = view d /\
    (forall x, x ∈ l <-> b = true /\ exists k, table (view d) !! k = Some x /\ p x = true).
Proof.
  intros Hav Hen Hs. unfold when. destruct b.
  - destruct (exec_enabled s d Hav Hen) as (d' & l & -> & Ha & Hl). apply Hs in Hl as [Ev Hp].
    exists d', l. split_and!; [done..|]. intros x. rewrite Hp, elem_of_rows.
    split; [intros [k Hk]; apply keep_Some in Hk; eauto | intros [_ [k Hk]]; exists k; by apply keep_Some].
  - exists d, []. split_and!; [done..|]. intros x. split; [set_solver|]. by intros [? _].
Qed.

(** A message is received in a mailbox, sent from it. *)
Definition received (key : string) (t : Tables) (mid : N) : Prop :=
  exists k i, t_inbound t !! k = Some i /\ in_rcpt_to i = key /\ in_message_id i = mid.
Definition sent_by (key : string) (t : Tables) (mid : N) : Prop :=
  exists k o, t_outbound t !! k = Some o /\ out_sender_id o = key /\ out_message_id o = mid.

(** The last direction written for each id. *)
Lemma fold_directions {A} (f : A -> N) (dir : string) (l : list A) (m : gmap N string) k :
  foldl (fun m x => <[f x := dir]> m) m l !! k = if bool_decide (k ∈ map f l) then Some dir else m !! k.
Proof.
  revert m. induction l as [|x l IH]; intros m; simpl; [done|]. rewrite IH.
  destruct (decide (k ∈ map f l)); [by rewrite !bool_decide_true by set_solver|].
  rewrite (bool_decide_false (k ∈ map f l)) by done. destruct (decide (k = f x)) as [->|Hne].
  - by rewrite lookup_insert_eq, bool_decide_true by set_solver.
  - by rewrite lookup_insert_ne, bool_decide_false by set_solver.
Qed.

(** The directions of the listing over the rows of both queries. *)
Definition directions (ins : list Inbound) (outs : list Outbound) : gmap N string :=
  foldl (fun m o => <[out_message_id o := "outbound"]> m)
    (foldl (fun m i => <[in_message_id i := "inbound"]> m) ∅ ins) outs.

Lemma listed_Some ins outs t mid y :
  wf_tables t -> listed (directions ins outs) t mid = Some y ->
  mm_id y = mid /\ exists m, t_messages t !! mid = Some m /\
  (mid ∈ (map in_message_id ins ++ map out_message_id outs)%list ->
   y = with_direction (Some (if bool_decide (mid ∈ map out_message_id outs) then "outbound" else "inbound"))
         (MessageDTO_from m)).
Proof.
  intros W. unfold listed. rewrite fmap_Some. intros (m & Hm & ->). split; [by apply (wf_messages _ W)|].
  exists m. split; [done|]. intros Hin. f_equal. unfold directions. rewrite !fold_directions.
  case_bool_decide; [done|]. rewrite bool_decide_true; [done|]. set_solver.
Qed.

(** The messages a mailbox has in a direction: those it received, those it sent,
    or both. *)
Definition in_direction (direction : option MessageDirection) (key : string) (t : Tables) (mid : N) : Prop :=
  match direction with
  | Some DInbound => received key t mid
  | Some DOutbound => sent_by key t mid
  | Some DBoth | None => received key t mid \/ sent_by key t mid
  end.

(** Marked as sent in a listing of that direction. *)
Definition marked_sent (direction : option MessageDirection) (key : string) (t : Tables) (mid : N) : Prop :=
  match direction with Some DInbound => False | _ => sent_by key t mid end.

(** The listing of a mailbox in a direction: by increasing id, exactly the stored
    messages of that direction, each as stored with its mark. *)
Record is_listing (direction : option MessageDirection) (key : string) (t : Tables) (items : list MessageDTO) : Prop := {
  il_sorted : StronglySorted N.lt (map mm_id items);
  il_ids : forall mid, mid ∈ map mm_id items <->
    is_Some (t_messages t !! mid) /\ in_direction direction key t mid;
  il_items : forall y, y ∈ items -> exists m, t_messages t !! mm_id y = Some m /\
    (marked_sent direction key t (mm_id y) /\ y = with_direction (Some "outbound") (MessageDTO_from m) \/
     ~ marked_sent direction key t (mm_id y) /\ y = with_direction (Some "inbound") (MessageDTO_from m));
}.

Lemma load_mailbox_messages_listing mailbox_id direction d :
  available d -> wf_tables (view d) ->
  exists d' items, load_mailbox_messages mailbox_id direction d = (d', Ok items) /\ available d' /\
    view d' = view d /\ is_listing direction (to_lowercase mailbox_id) (view d) items.
Proof.
  intros Hav W. set (key := to_lowercase mailbox_id). unfold load_mailbox_messages, bind_try, bind. fold key.
  destruct (when_exact (want_in direction) (QueryInbound (fun i => String.eqb (in_rcpt_to i) key))
    (fun i => String.eqb (in_rcpt_to i) key) t_inbound d Hav I) as (d1 & ins & -> & Ha1 & Ev1 & Hi); [done|].
  destruct (when_exact (want_out direction) (QueryOutbound (fun o => String.eqb (out_sender_id o) key))
    (fun o => String.eqb (out_sender_id o) key) t_outbound d1 Ha1 I) as (d2 & outs & -> & Ha2 & Ev2 & Ho); [done|].
  cbv zeta. fold (directions ins outs). set (ids := (map in_message_id ins ++ map out_message_id outs)%list).
  destruct (listing_ids ids) as [Hs He].
  destruct (load_messages_exact (directions ins outs) (dedup (sort_by_key id ids)) [] d2 Ha2) as (d3 & -> & Ha3 & Ev3).
  eexists d3, _. split; [done|]. split; [done|]. rewrite Ev3, Ev2, Ev1 in *. rewrite app_nil_l.
  assert (Hout : forall mid, mid ∈ map out_message_id outs <-> marked_sent direction key (view d) mid).
  { intros mid. unfold marked_sent, sent_by. rewrite list_elem_of_fmap. setoid_rewrite Ho.
    setoid_rewrite String.eqb_eq. destruct direction as [[]|]; naive_solver. }
  assert (Hin : forall mid, mid ∈ map in_message_id ins <-> want_in direction = true /\ received key (view d) mid).
  { intros mid. unfold received. rewrite list_elem_of_fmap. setoid_rewrite Hi. setoid_rewrite String.eqb_eq. naive_solver. }
  assert (Hlink : forall mid, mid ∈ ids <-> in_direction direction key (view d) mid).
  { intros mid. unfold ids. rewrite elem_of_app, Hout, Hin. unfold in_direction, marked_sent.
    destruct direction as [[]|]; simpl; intuition done. }
  split; [done|]. split.
  - apply sorted_omap; [|done]. intros x y Hy. by eapply listed_Some.
  - intros mid. rewrite list_elem_of_fmap, <- Hlink, <- He. split.
    + intros (y & -> & Hy). apply list_elem_of_omap in Hy as (x & Hx & Hf).
      destruct (listed_Some _ _ _ _ _ W Hf) as (-> & m & Hm & _). by rewrite Hm.
    + intros [[m Hm] Hx]. destruct (listed (directions ins outs) (view d) mid) as [y|] eqn:Hf;
        [|by unfold listed in Hf; rewrite Hm in Hf].
      exists y. split; [by destruct (listed_Some _ _ _ _ _ W Hf) as [-> _]|]. apply list_elem_of_omap. eauto.
  - intros y Hy. apply list_elem_of_omap in Hy as (x & Hx & Hf).
    destruct (listed_Some _ _ _ _ _ W Hf) as (-> & m & Hm & Hd). exists m. split; [done|].
    rewrite Hd by (by apply He). rewrite <- Hout. case_bool_decide; auto.
Qed.

(** C29: the messages of a mailbox are exactly the stored ones it received
    ([Inbound]), it sent ([Outbound]), or either (both, or no direction given),
    each once, as stored, by increasing id and marked outbound if it is listed as
    sent and inbound otherwise, whatever the case of the mailbox in the request;
    listing changes nothing. *)
Theorem mailbox_listing_exact mailbox_id direction d :
  available d -> wf_tables (view d) ->
  exists d' items, load_mailbox_messages mailbox_id direction d = (d', Ok items) /\ view d' = view d /\
    is_listing direction (to_lowercase mailbox_id) (view d) items.
Proof.
  intros Hav W. destruct (load_mailbox_messages_listing mailbox_id direction d Hav W) as (d' & items & E & _ & Hl). eauto.
Qed.

(** ** Deleting a domain *)

Lemma keep_none `{Countable K} {V} (p : V -> bool) (m : gmap K V) k :
  bool_decide (keep p m !! k = None) = true <-> ~ exists v, m !! k = Some v /\ p v = true.
Proof.
  rewrite bool_decide_eq_true, eq_None_not_Some. unfold is_Some. by setoid_rewrite keep_Some.
Qed.

Lemma keep_found `{Countable K} {V} (p : V -> bool) (m : gmap K V) k :
  negb (bool_decide (keep p m !! k = None)) = true <-> exists v, m !! k = Some v /\ p v = true.
Proof.
  rewrite negb_true_iff, bool_decide_eq_false, not_eq_None_Some. unfold is_Some. by setoid_rewrite keep_Some.
Qed.

Lemma delete_domain_rows id t :
  let t' := delete_domain_row id t in
  let owned mb := exists m, t_mailboxes t !! mb = Some m /\ mb_domain_id m = id in
  let gone oid := exists o, t_outbound t !! oid = Some o /\ owned (out_sender_id o) in
  t_domains t' = delete id (t_domains t) /\ t_messages t' = t_messages t /\
  (forall k m, t_mailboxes t' !! k = Some m <-> t_mailboxes t !! k = Some m /\ mb_domain_id m <> id) /\
  (forall k r, t_records t' !! k = Some r <-> t_records t !! k = Some r /\ rec_domain_id r <> id) /\
  (forall k i, t_inbound t' !! k = Some i <-> t_inbound t !! k = Some i /\ ~ owned (in_rcpt_to i)) /\
  (forall k o, t_outbound t' !! k = Some o <-> t_outbound t !! k = Some o /\ ~ owned (out_sender_id o)) /\
  (forall k s, t_delivery t' !! k = Some s <-> t_delivery t !! k = Some s /\ ~ gone (ds_outbound_id s)).
Proof.
  simpl. split; [done|]. split; [done|]. setoid_rewrite keep_Some. setoid_rewrite negb_true_iff.
  setoid_rewrite negb_false_iff. setoid_rewrite keep_none. setoid_rewrite String.eqb_neq.
  setoid_rewrite String.eqb_eq. split_and!; intros k x; try done.
  setoid_rewrite keep_found. by setoid_rewrite String.eqb_eq.
Qed.

(** A name without records of its own is answered with none. *)
Lemma query_records_none name qtype d :
  (forall k r, t_records (view d) !! k = Some r -> rec_domain_id r <> name) ->
  snd (query_records name qtype d) = match RecordType_from_hickory qtype with Some _ => Some [] | None => None end.
Proof.
  intros Hn. unfold query_records. destruct (RecordType_from_hickory qtype) as [rt|]; [|done]. unfold bind.
  exec_step; [|done]. destruct E as [_ Hr]. simpl. f_equal. apply Permutation_nil_r. rewrite Hr.
  destruct (rows _) as [|x l] eqn:Ex; [done|]. exfalso.
  assert (x ∈ rows (keep (record_matches name rt) (t_records (view d)))) as Hx by (rewrite Ex; set_solver).
  apply elem_of_rows in Hx as [k Hk]. apply keep_Some in Hk as [Hk Hp]. unfold record_matches in Hp.
  apply andb_true_iff in Hp as [Hp _]. apply String.eqb_eq in Hp. by apply (Hn k x Hk).
Qed.

(** C27: deleting a domain that is not provisioned is 404, without effect.
    Deleting a provisioned one succeeds, takes its mailboxes and records, the jobs
    and received links of those mailboxes and the audit rows of those jobs with
    it and leaves every other row as it was; in that state, whatever the engine
    answers, SMTP refuses every recipient that was a mailbox of it, DNS finds
    nothing under its name, and deleting it again is 404. *)
Theorem delete_domain_exact id d :
  available d ->
  let '(d', reply) := delete_domain (Some id) d in
  let t := view d in let t' := view d' in
  match t_domains t !! id with
  | None => t' = t /\ reply = reply_problem 404 (not_found ("domain '" +:+ id +:+ "' not found"))
  | Some _ =>
      let owned mb := exists m, t_mailboxes t !! mb = Some m /\ mb_domain_id m = id in
      let gone oid := exists o, t_outbound t !! oid = Some o /\ owned (out_sender_id o) in
      reply = reply_ok PUnit /\ t_domains t' = delete id (t_domains t) /\ t_messages t' = t_messages t /\
      (forall k m, t_mailboxes t' !! k = Some m <-> t_mailboxes t !! k = Some m /\ mb_domain_id m <> id) /\
      (forall k r, t_records t' !! k = Some r <-> t_records t !! k = Some r /\ rec_domain_id r <> id) /\
      (forall k i, t_inbound t' !! k = Some i <-> t_inbound t !! k = Some i /\ ~ owned (in_rcpt_to i)) /\
      (forall k o, t_outbound t' !! k = Some o <-> t_outbound t !! k = Some o /\ ~ owned (out_sender_id o)) /\
      (forall k s, t_delivery t' !! k = Some s <-> t_delivery t !! k = Some s /\ ~ gone (ds_outbound_id s)) /\
      (forall to rs, owned (clean_email to) -> snd (handle_rcpt to rs d') = (rs, Err SmtpAbort)) /\
      (forall qtype, snd (query_records id qtype d') =
         match RecordType_from_hickory qtype with Some _ => Some [] | None => None end) /\
      res_status (snd (delete_domain (Some id) d')) = Some 404%N
  end.
Proof.
  intros Hav. unfold delete_domain at 1. cbn [unwrap_or]. unfold bind at 1. exec_on Hav; last first.
  { cbv zeta. destruct (t_domains (view d) !! id) eqn:Ek; [|done]. by specialize (Hen (ltac:(by eexists))). }
  destruct E as [Ev Hd]. cbv zeta. rewrite Hd, <- Ev. unfold bind at 1.
  destruct (exec_enabled (DeleteDomain id) d0 Ha I) as (d2 & [] & -> & _ & Ev2). cbn [stmt_spec] in Ev2.
  destruct (delete_domain_rows id (view d0)) as (Hx1 & Hx2 & Hx3 & Hx4 & Hx5 & Hx6 & Hx7). rewrite <- Ev2 in *.
  split; [done|]. do 7 (split; [done|]). split_and!.
  - intros to rs (m & Hm & Hdom). destruct (handle_rcpt to rs d2) as [d3 [rs' r']] eqn:Er.
    apply handle_rcpt_spec in Er as [_ [(_ & _ & m' & Hm')|[-> ->]]]; [|done]. exfalso.
    apply Hx3 in Hm' as [Hm' Hne]. congruence.
  - intros qtype. apply query_records_none. intros k r' Hr'. by apply Hx4 in Hr' as [_ Hr'].
  - unfold delete_domain, bind. cbn [unwrap_or]. exec_step; [|done]. exfalso. destruct E as [_ E].
    rewrite Hx1, lookup_delete_eq in E. done.
Qed.
End Mail.

(** ** Concrete requests *)

Lemma send_email_exact_witness :
  available demo_api_db /\ well_addressed demo_send /\
  NoDup (recipients_of demo_send) /\
  (forall r, r ∈ recipients_of demo_send <->
     r ∈ se_to demo_send \/ r ∈ se_cc demo_send \/ r ∈ se_bcc demo_send) /\
  exists mid ts ids, t_messages (view demo_api_db) !! mid = None /\
    jobs_queued mid "me@near.example" ids ["you@far.example"; "her@far.example"]
      (on_messages <[mid := message_row (outbound_message (Some "me@near.example", [])) mid ts]> (view demo_api_db))
      (view (fst (send_email (Some demo_send) demo_api_db))) /\
    snd (send_email (Some demo_send) demo_api_db) = reply_ok (PSend (mkSendResult mid ids)).
Proof.
  assert (Ha : available demo_api_db) by constructor. split; [done|].
  pose proof (send_email_exact demo_send demo_api_db Ha) as H.
  destruct (send_email (Some demo_send) demo_api_db) as [d' reply]. exact H.
Defined.

Definition demo_mailed : MemDb := fst (send_email (Some demo_send) demo_api_db).

Lemma demo_mailed_wf : wf_tables (view demo_mailed).
Proof.
  apply (calls_evolve (kept wf_tables) (SendEmailCall (Some demo_send)) (fun A s => wf_exec s) demo_api_db), demo_api_wf.
Qed.

Lemma mailbox_listing_exact_witness :
  exists d' items, load_mailbox_messages "Me@Near.example" (Some DOutbound) demo_mailed = (d', Ok items) /\
    view d' = view demo_mailed /\ is_listing (Some DOutbound) (to_lowercase "Me@Near.example") (view demo_mailed) items.
Proof.
  apply (mailbox_listing_exact "Me@Near.example" (Some DOutbound) demo_mailed); [constructor | apply demo_mailed_wf].
Defined.

Lemma delete_domain_exact_witness :
  let d' := fst (delete_domain (Some "near.example") demo_mailed) in
  (forall k r, t_records (view d') !! k = Some r <->
     t_records (view demo_mailed) !! k = Some r /\ rec_domain_id r <> "near.example") /\
  t_outbound (view d') = ∅ /\ t_outbound (view demo_mailed) <> ∅.
Proof.
  assert (Ha : available demo_mailed) by constructor.
  assert (Hd : exists x, t_domains (view demo_mailed) !! "near.example" = Some x) by (eexists; by vm_compute).
  pose proof (delete_domain_exact "near.example" demo_mailed Ha) as Hx. split; [|by vm_compute].
  destruct Hd as [x Hd]. destruct (delete_domain _ demo_mailed) as [d' reply]. cbv zeta in Hx. rewrite Hd in Hx. apply Hx.
Defined.
