(* ===== verification/Paging.v ===== *)
(** * Paging: a client that follows [next_offset] (src/src/api.rs)

    Every page is a request of its own that queries the store again, in whatever
    order the engine returns rows; the listing of a mailbox sorts them, so the
    pages fit together. *)

From S2P Require Import Prelude Text Db Engine Config Send Concrete SendPure SendFacts Keys Auth Services Email EmailFacts Api ApiRecords ApiMail ApiCalls ApiConcrete ApiFacts ApiMailFacts.
From Stdlib Require Import Ascii String Sorting.Sorted.
From stdpp Require Import sorting.
#[local] Open Scope string_scope.

Section Paging.
Context `{!UnicodeLower, !TimestampText, !SerdeString, !Lettre, !LettreBuilder, !MailParser, HE : DbEngine D}.

(** The page of a reply, when it is one. *)
Definition message_page (reply : Reply) : option (Page MessageDTO) :=
  match res_body reply with
  | Some (inr r) => match ar_data r with PMessages page => Some page | _ => None end
  | _ => None
  end.

(** Requests from an offset on, each for the page the last one named, until a
    page names none; [None] when a reply is not a page, or when there are still
    pages after [requests] of them. *)
Fixpoint follow_pages (fetch : N -> M D Reply) (requests : nat) (offset : N) : M D (option (list MessageDTO)) :=
  match requests with
  | O => ret None
  | S requests' =>
      let! reply := fetch offset in
      match message_page reply with
      | None => ret None
      | Some page =>
          match pg_next_offset page with
          | None => ret (Some (pg_items page))
          | Some next =>
              let! rest := follow_pages fetch requests' next in
              ret (app (pg_items page) <$> rest)
          end
      end
  end.

(** ** One listing *)

Lemma sorted_ids_unique (l1 l2 : list N) :
  StronglySorted N.lt l1 -> StronglySorted N.lt l2 -> (forall x, x ∈ l1 <-> x ∈ l2) -> l1 = l2.
Proof.
  assert (Hle : forall l, StronglySorted N.lt l -> StronglySorted N.le l).
  { induction 1 as [|x l _ IH Hx]; constructor; [done|]. eapply Forall_impl; [exact Hx|]. intros y. apply N.lt_le_incl. }
  assert (Hnd : forall l, StronglySorted N.lt l -> NoDup l).
  { induction 1 as [|x l _ IH Hx]; constructor; [|done]. intros Hin. rewrite Forall_forall in Hx.
    specialize (Hx x Hin). lia. }
  intros S1 S2 Hin. apply (StronglySorted_unique N.le); [by apply Hle..|]. apply NoDup_Permutation; auto.
Qed.

Lemma same_item direction key t y1 y2 :
  mm_id y1 = mm_id y2 ->
  (exists m, t_messages t !! mm_id y1 = Some m /\
    (marked_sent direction key t (mm_id y1) /\ y1 = with_direction (Some "outbound") (MessageDTO_from m) \/
     ~ marked_sent direction key t (mm_id y1) /\ y1 = with_direction (Some "inbound") (MessageDTO_from m))) ->
  (exists m, t_messages t !! mm_id y2 = Some m /\
    (marked_sent direction key t (mm_id y2) /\ y2 = with_direction (Some "outbound") (MessageDTO_from m) \/
     ~ marked_sent direction key t (mm_id y2) /\ y2 = with_direction (Some "inbound") (MessageDTO_from m))) ->
  y1 = y2.
Proof.
  intros E (m1 & Hm1 & Hy1) (m2 & Hm2 & Hy2). rewrite E in Hm1, Hy1. simplify_eq.
  destruct Hy1 as [[? ->]|[? ->]], Hy2 as [[? ->]|[? ->]]; done.
Qed.

(** The store determines the listing. *)
Lemma listing_unique direction key t l1 l2 :
  is_listing direction key t l1 -> is_listing direction key t l2 -> l1 = l2.
Proof.
  intros [S1 I1 Y1] [S2 I2 Y2].
  assert (E : map mm_id l1 = map mm_id l2).
  { apply sorted_ids_unique; [done..|]. intros x. by rewrite I1, I2. }
  clear S1 S2 I1 I2. revert l2 E Y2. induction l1 as [|y1 l1 IH]; intros [|y2 l2] E Y2; try done.
  injection E as E1 E2. f_equal; [|apply IH; set_solver].
  eapply same_item; [done | apply Y1; set_solver | apply Y2; set_solver].
Qed.

Lemma listing_length direction key t items :
  is_listing direction key t items -> (List.length items <= size (t_messages t))%nat.
Proof.
  intros [S1 I1 _]. rewrite <- (length_map mm_id), <- size_dom.
  rewrite <- (size_list_to_set (C := gset N)).
  - apply subseteq_size. intros x Hx. apply elem_of_list_to_set, I1 in Hx as [Hx _]. by apply elem_of_dom.
  - clear I1. induction S1 as [|x l _ IH Hx]; constructor; [|done]. intros Hin. rewrite Forall_forall in Hx.
    specialize (Hx x Hin). lia.
Qed.

(** ** Following the pages *)

(** The request for one page of a mailbox's messages. *)
Definition fetch_messages (mailbox_id : string) (direction : option MessageDirection) (limit offset : N) : M D Reply :=
  list_mailbox_messages (Some mailbox_id) (Some (mkListMessagesQuery direction (Some limit) (Some offset))) None None.

Lemma fetch_messages_page mailbox_id direction limit offset items d :
  available d -> wf_tables (view d) -> is_Some (t_mailboxes (view d) !! to_lowercase mailbox_id) ->
  is_listing direction (to_lowercase mailbox_id) (view d) items ->
  exists d', fetch_messages mailbox_id direction limit offset d =
      (d', reply_ok (PMessages (from_all items limit offset))) /\
    available d' /\ view d' = view d.
Proof.
  intros Hav W Hmb Hl. unfold fetch_messages, list_mailbox_messages, list_messages, ensure_mailbox_exists. simpl. unfold bind.
  destruct (exec_enabled (GetMailbox (to_lowercase mailbox_id)) d Hav Hmb) as (d1 & mb & -> & Ha & Ev & _). simpl.
  rewrite <- Ev in W, Hl. destruct (load_mailbox_messages_listing mailbox_id direction d1 Ha W) as (d2 & items' & -> & Ha2 & Ev2 & Hl').
  rewrite (listing_unique _ _ _ _ _ Hl' Hl). exists d2. split_and!; [done..|congruence].
Qed.

Lemma follow_pages_rest mailbox_id direction limit items requests offset d :
  available d -> wf_tables (view d) -> is_Some (t_mailboxes (view d) !! to_lowercase mailbox_id) ->
  is_listing direction (to_lowercase mailbox_id) (view d) items ->
  (0 < limit)%N -> (N.of_nat (List.length items) < u64_modulus)%N ->
  (List.length items - N.to_nat offset < requests)%nat ->
  exists d', follow_pages (fetch_messages mailbox_id direction limit) requests offset d =
      (d', Some (drop (N.to_nat offset) items)) /\ view d' = view d.
Proof.
  revert offset d. induction requests as [|n IH]; intros offset d Hav W Hmb Hl Hlim Hlen Hn; [lia|].
  cbn [follow_pages]. unfold bind at 1.
  destruct (fetch_messages_page mailbox_id direction limit offset items d Hav W Hmb Hl) as (d1 & -> & Ha & Ev).
  unfold message_page. cbn [res_body reply_ok ar_data]. rewrite from_all_next by done.
  destruct (N.ltb_spec (offset + limit) (N.of_nat (List.length items))).
  - rewrite <- Ev in W, Hmb, Hl. unfold bind.
    destruct (IH (offset + limit)%N d1 Ha W Hmb Hl Hlim Hlen) as (d2 & -> & Ev2); [lia|].
    exists d2. split; [|congruence]. unfold ret. do 2 f_equal. simpl. f_equal.
    rewrite N2Nat.inj_add, <- drop_drop. apply take_drop.
  - exists d1. split; [|done]. unfold ret. do 2 f_equal. simpl. apply take_ge. rewrite length_drop. lia.
Qed.

(** C37: while nothing else writes to the store, a client that asks for pages of
    any positive size and follows [next_offset] ends after at most as many requests as there are messages, plus
    one, and has then received exactly the mailbox's messages of the direction it
    asked for, each once and in order, although every page queries the store
    again and the engine may return rows in another order each time. *)
Theorem paging_is_complete mailbox_id direction limit d :
  available d -> wf_tables (view d) -> is_Some (t_mailboxes (view d) !! to_lowercase mailbox_id) ->
  (0 < limit)%N -> (N.of_nat (size (t_messages (view d))) < u64_modulus)%N ->
  exists d' items,
    follow_pages (fetch_messages mailbox_id direction limit) (S (size (t_messages (view d)))) 0 d = (d', Some items) /\
    view d' = view d /\ is_listing direction (to_lowercase mailbox_id) (view d) items.
Proof.
  intros Hav W Hmb Hlim Hsize.
  destruct (load_mailbox_messages_listing mailbox_id direction d Hav W) as (_ & items & _ & _ & _ & Hl).
  pose proof (listing_length _ _ _ _ Hl) as Hlen.
  destruct (follow_pages_rest mailbox_id direction limit items (S (size (t_messages (view d)))) 0 d)
    as (d' & E & Ev); [done..|lia|lia|]. exists d', items. by rewrite E.
Qed.
End Paging.

Definition demo_messages : Tables :=
  on_mailboxes <["me@near.example" := mkMailbox "me@near.example" "near.example" None 0 0]>
    (on_messages (fun _ => list_to_map (map (fun n => (n, message_row (mkNewMessage "" [] None None None None [] [] []) n 0)) [1; 2; 3]%N))
       (on_inbound (fun _ => list_to_map (map (fun n => (n, mkInbound n n "me@near.example" 0 0)) [1; 2; 3]%N)) empty_tables)).

Lemma demo_messages_wf : wf_tables demo_messages.
Proof.
  split; simpl; repeat apply keyed_insert; try done; try apply keyed_empty.
Qed.

Lemma paging_is_complete_witness :
  let d := mkMemDb demo_messages 0 [] in
  size (t_messages (view d)) = 3%nat /\
  exists d' items,
    follow_pages (fetch_messages "Me@near.example" (Some DInbound) 2) (S (size (t_messages (view d)))) 0 d = (d', Some items) /\
    view d' = view d /\ is_listing (Some DInbound) (to_lowercase "Me@near.example") (view d) items.
Proof.
  intros d. split; [by vm_compute|].
  apply (paging_is_complete "Me@near.example" (Some DInbound) 2 d);
    [constructor | apply demo_messages_wf | eexists; by vm_compute | lia | by vm_compute].
Defined.
