(* ===== verification/ApiPatchFacts.v ===== *)
(** * ApiPatchFacts: changing and removing rows *)

From S2P Require Import Prelude Text Db Engine Config Send SendFacts Concrete Keys Auth Services Email EmailFacts Api ApiRecords ApiMail ApiCalls ApiConcrete ApiFacts ApiProps.
From Stdlib Require Import Ascii String.
#[local] Open Scope string_scope.

Section Patch.
Context `{!UnicodeLower, !TimestampText, !SerdeString, !Lettre, !LettreBuilder, !MailParser, HE : DbEngine D}.

(** Another record with the triple of [r]. *)
Definition clashes (k : N) (r : Record_) (t : Tables) : Prop :=
  conflicting k (rec_domain_id r) (rec_record_type r) (rec_value r) t.

Lemma clashes_spec k r t :
  clashes k r t <-> exists k' r', t_records t !! k' = Some r' /\ k' <> k /\
    rec_domain_id r' = rec_domain_id r /\ rec_record_type r' = rec_record_type r /\ rec_value r' = rec_value r.
Proof. unfold clashes, conflicting. by setoid_rewrite same_triple_spec. Qed.

(** The row [update!] leaves of [r]. *)
Definition updated (r : Record_) (ts : Timestamp) (row : Record_) : Record_ :=
  update_record_row (rec_domain_id r) (rec_record_type r) (rec_value r) (rec_ttl r) ts row.

Lemma update_record_exact k row r d :
  available d -> wf_tables (view d) -> t_records (view d) !! k = Some row -> rec_id r = k ->
  let '(d', reply) := update_record k r d in
  (clashes k r (view d) /\ view d' = view d /\ res_status reply = Some 409%N) \/
  (~ clashes k r (view d) /\ exists ts, view d' = on_records <[k := updated r ts row]> (view d) /\
     reply = reply_ok (PRecord (RecordApiDTO_from (updated r ts row)))).
Proof.
  intros Hav W Hk Hid. unfold update_record, bind at 1.
  destruct (exec_enabled (QueryRecords (of_domain (rec_domain_id r))) d Hav I) as (d1 & rs & -> & Ha & Ev & Hr).
  set (p := fun x => _). destruct (existsb p rs) eqn:Ep.
  - left. split; [|done]. apply existsb_exists in Ep as (x & Hx & Hp). apply list_elem_of_In in Hx.
    rewrite Hr, elem_of_rows in Hx. destruct Hx as [kx Hx]. apply keep_Some in Hx as [Hx Hd].
    unfold p in Hp. rewrite !andb_true_iff in Hp. destruct Hp as [[Hne Ht] Hv].
    apply negb_true_iff, N.eqb_neq in Hne. unfold clashes, conflicting. exists kx, x. split_and!; [done| |].
    + by rewrite <- (wf_records _ W _ _ Hx).
    + unfold same_triple. unfold of_domain in Hd. by rewrite Hd, Ht, Hv.
  - assert (Hn : ~ clashes k r (view d)).
    { intros (kx & x & Hx & Hne & Hs). unfold same_triple in Hs. rewrite !andb_true_iff in Hs. destruct Hs as [[Hd Ht] Hv].
      assert (x ∈ rs) as Hin. { rewrite Hr. apply elem_of_rows. exists kx. by apply keep_Some. }
      apply list_elem_of_In in Hin. apply not_true_iff_false in Ep. apply Ep. apply existsb_exists. exists x.
      split; [done|]. unfold p. rewrite Ht, Hv, (wf_records _ W _ _ Hx). apply N.eqb_neq in Hne. by rewrite Hne. }
    unfold bind at 1. rewrite Hid.
    destruct (exec_enabled (UpdateRecord k (rec_domain_id r) (rec_record_type r) (rec_value r) (rec_ttl r)) d1 Ha)
      as (d2 & [] & -> & Ha2 & _ & ts & Ev2); [rewrite Ev; split; [by eexists|done]|].
    rewrite Ev in Ev2. unfold bind.
    assert (Hrow : t_records (view d2) !! k = Some (updated r ts row)).
    { rewrite Ev2. simpl. by rewrite lookup_alter_eq, Hk. }
    destruct (exec_enabled (GetRecord k) d2 Ha2) as (d3 & a & -> & _ & Ev3 & Hs); [simpl; by rewrite Hrow; eexists|].
    rewrite Hrow in Hs. injection Hs as <-. right. split; [done|]. exists ts. split; [|done]. rewrite Ev3, Ev2. unfold on_records. simpl.
    f_equal. apply map_eq. intros k'. rewrite lookup_alter, lookup_insert. repeat case_decide; subst; try done. by rewrite Hk.
Qed.

Lemma patch_record_updates k b d :
  available d -> wf_tables (view d) ->
  let '(d', reply) := patch_record (Some k) (Some b) d in
  match t_records (view d) !! k with
  | None => view d' = view d /\ reply = record_not_found k
  | Some row =>
      match patched_type b row with
      | Err p => view d' = view d /\ reply = reply_problem 400 p
      | Ok rt =>
          let r := patched b rt row in
          if is_empty (trim (rec_value r)) || bool_decide (t_domains (view d) !! rec_domain_id r = None)
          then view d' = view d /\ res_status reply = Some 400%N
          else
            (clashes k r (view d) /\ view d' = view d /\ res_status reply = Some 409%N) \/
            (~ clashes k r (view d) /\ exists ts, view d' = on_records <[k := updated r ts row]> (view d) /\
               reply = reply_ok (PRecord (RecordApiDTO_from (updated r ts row))))
      end
  end.
Proof.
  intros Hav W. unfold patch_record, bind at 1. exec_on Hav; last first.
  { destruct (t_records (view d) !! k) eqn:Ek; [|done]. by specialize (Hen (ltac:(by eexists))). }
  destruct E as [Ev Hk]. rewrite Hk. destruct (patched_type b r) as [rt|p]; [|done].
  cbv zeta. set (r' := patched b rt r). unfold validate_record_fields, bind at 1.
  destruct (is_empty (trim (rec_value r'))); [done|]. cbn [orb]. unfold bind at 1. rewrite <- Ev in W, Hk |- *. exec_on Ha.
  - destruct E as [Ev' Hd]. rewrite Hd. rewrite bool_decide_false by done. rewrite <- Ev' in W, Hk |- *.
    apply update_record_exact; [done..|]. exact (wf_records _ W _ _ Hk).
  - rewrite bool_decide_true; [done|]. destruct (t_domains (view d0) !! rec_domain_id r') eqn:Ed; [|done].
    by specialize (Hen0 (ltac:(by eexists))).
Qed.

(** C26: patching a record answers 404 for a row that is not there, 400 for a type
    that does not parse, an empty value or a domain that is not provisioned, 409
    when another row has the patched triple, each without effect; otherwise that
    row and no other changes: each of domain, type, value and ttl is the body's
    (trimmed, the domain in lower case) when the body has it and the row's when
    not, id and creation time stay, and the reply is the row as stored. *)
Theorem patch_record_exact k b d :
  available d -> wf_tables (view d) ->
  let '(d', reply) := patch_record (Some k) (Some b) d in
  match t_records (view d) !! k with
  | None => view d' = view d /\ res_status reply = Some 404%N
  | Some row =>
      match match pr_record_type b with Some text => parse_record_type (trim text) | None => Ok (rec_record_type row) end with
      | Err p => view d' = view d /\ reply = reply_problem 400 p
      | Ok rt =>
          let domain := match pr_domain_id b with Some text => to_lowercase (trim text) | None => rec_domain_id row end in
          let value := match pr_value b with Some text => trim text | None => rec_value row end in
          let ttl := match pr_ttl b with Some n => n | None => rec_ttl row end in
          if is_empty (trim value) || bool_decide (t_domains (view d) !! domain = None)
          then view d' = view d /\ res_status reply = Some 400%N
          else
            let taken := exists k' r', t_records (view d) !! k' = Some r' /\ k' <> k /\
              rec_domain_id r' = domain /\ rec_record_type r' = rt /\ rec_value r' = value in
            (taken /\ view d' = view d /\ res_status reply = Some 409%N) \/
            (~ taken /\ exists ts, let r := mkRecord k domain rt value ttl (rec_created_at row) ts in
               view d' = on_records <[k := r]> (view d) /\ reply = reply_ok (PRecord (RecordApiDTO_from r)))
      end
  end.
Proof.
  intros Hav W. pose proof (patch_record_updates k b d Hav W) as Hp.
  destruct (patch_record (Some k) (Some b) d) as [d' reply]. destruct (t_records (view d) !! k) as [row|] eqn:Hk.
  - fold (patched_type b row). destruct (patched_type b row) as [rt|p]; [|done]. cbv zeta.
    cbn [patched rec_value rec_domain_id rec_record_type] in Hp. destruct (_ || _); [done|].
    pose proof (clashes_spec k (patched b rt row) (view d)) as Hc.
    cbn [patched rec_value rec_domain_id rec_record_type] in Hc.
    destruct Hp as [[Hcl Hp]|(Hn & ts & Hv & Hr)]; [left|right]; (split; [by rewrite <- Hc|]); [done|]. exists ts.
    rewrite Hv, Hr. unfold updated, update_record_row. cbn [patched rec_value rec_domain_id rec_record_type rec_ttl].
    rewrite (wf_records _ W _ _ Hk). by destruct (pr_ttl b).
  - destruct Hp as [Hv ->]. done.
Qed.

(** Patching a mailbox: only its forward target can change, and only when the
    domain, if one is given, is its own. *)
Lemma patch_mailbox_exact id b d :
  available d -> wf_tables (view d) ->
  let '(d', reply) := patch_mailbox (Some id) (Some b) d in
  match t_mailboxes (view d) !! id with
  | None => view d' = view d /\ reply = mailbox_not_found id
  | Some m =>
      let fwd := match pb_forward_to b with Some f => Some f | None => mb_forward_to m end in
      if match pb_domain_id b with Some dom => String.eqb (to_lowercase (trim dom)) (mb_domain_id m) | None => true end
      then exists ts, view d' = on_mailboxes (alter (update_mailbox_row (mb_domain_id m) fwd ts) id) (view d) /\
             reply = reply_ok (PMailbox (MailboxDTO_from (update_mailbox_row (mb_domain_id m) fwd ts m)))
      else view d' = view d /\ res_status reply = Some 400%N
  end.
Proof.
  intros Hav W. unfold patch_mailbox. cbn [unwrap_or]. unfold bind at 1. exec_on Hav; last first.
  { destruct (t_mailboxes (view d) !! id) eqn:Ek; [|done]. by specialize (Hen (ltac:(by eexists))). }
  destruct E as [Ev Hm]. rewrite Hm. cbv zeta. destruct (match pb_domain_id b with Some _ => _ | None => _ end); [|done].
  cbn [negb]. set (fwd := match pb_forward_to b with Some _ => _ | None => _ end).
  rewrite (wf_mailboxes _ W _ _ Hm). unfold bind at 1. rewrite <- Ev in Hm |- *.
  destruct (exec_enabled (UpdateMailbox id (mb_domain_id r) fwd) d0 Ha) as (d2 & [] & -> & Ha2 & ts & Ev2); [by eexists|].
  assert (Hrow : t_mailboxes (view d2) !! id = Some (update_mailbox_row (mb_domain_id r) fwd ts r)).
  { rewrite Ev2. simpl. by rewrite lookup_alter_eq, Hm. }
  unfold bind. destruct (exec_enabled (GetMailbox id) d2 Ha2) as (d3 & a & -> & _ & Ev3 & Hs); [simpl; by rewrite Hrow; eexists|].
  rewrite Hrow in Hs. injection Hs as <-. exists ts. by rewrite Ev3, Ev2.
Qed.

(** C28: deleting a message that is there removes it, every link to it and every
    job that carries it with the job's audit, and nothing else; one that is not
    there is 404, without effect. *)
Theorem delete_message_exact id d :
  available d ->
  let '(d', reply) := delete_message (Some id) d in
  match t_messages (view d) !! id with
  | None => view d' = view d /\ reply = message_not_found id
  | Some _ =>
      reply = reply_ok PUnit /\ t_messages (view d') = delete id (t_messages (view d)) /\
      (forall k i, t_inbound (view d') !! k = Some i <->
         t_inbound (view d) !! k = Some i /\ in_message_id i <> id) /\
      (forall k o, t_outbound (view d') !! k = Some o <->
         t_outbound (view d) !! k = Some o /\ out_message_id o <> id) /\
      (forall k s, t_delivery (view d') !! k = Some s <-> t_delivery (view d) !! k = Some s /\
         forall o, t_outbound (view d) !! ds_outbound_id s = Some o -> out_message_id o <> id) /\
      t_domains (view d') = t_domains (view d) /\ t_mailboxes (view d') = t_mailboxes (view d) /\
      t_records (view d') = t_records (view d)
  end.
Proof.
  intros Hav. unfold delete_message. cbn [unwrap_or]. unfold bind at 1. exec_on Hav; last first.
  { destruct (t_messages (view d) !! id) eqn:Ek; [|done]. by specialize (Hen (ltac:(by eexists))). }
  destruct E as [Ev Hm]. rewrite Hm, <- Ev. unfold bind.
  destruct (exec_enabled (DeleteInboundOf id) d0 Ha I) as (d1 & [] & -> & Ha1 & Ev1).
  destruct (exec_enabled (DeleteOutboundOf id) d1 Ha1 I) as (d2 & [] & -> & Ha2 & Ev2).
  destruct (exec_enabled (DeleteMessage id) d2 Ha2 I) as (d3 & [] & -> & _ & Ev3).
  unfold ret. cbv beta iota. cbn [stmt_spec] in Ev1, Ev2, Ev3. rewrite Ev1 in Ev2. rewrite Ev2 in Ev3.
  split; [done|]. rewrite !Ev3. simpl. split_and!; try done.
  - intros k i. by rewrite keep_Some, negb_true_iff, N.eqb_neq.
  - intros k o. by rewrite keep_Some, negb_true_iff, N.eqb_neq.
  - intros k s. rewrite keep_Some, bool_decide_eq_true. split; intros [Hs Hn]; (split; [done|]).
    + intros o Ho He. assert (keep (fun o => N.eqb (out_message_id o) id) (t_outbound (view d0)) !! ds_outbound_id s = Some o) as Hx.
      { apply keep_Some. split; [done|]. by apply N.eqb_eq. }
      congruence.
    + apply eq_None_not_Some. intros [o Ho]. apply keep_Some in Ho as [Ho He]. apply N.eqb_eq in He. by apply (Hn o Ho).
Qed.
End Patch.

(** ** Concrete requests *)

Definition demo_patch : PatchRecord := mkPatchRecord None None (Some " 192.0.2.8") None.

Lemma patch_record_exact_witness :
  exists ts, view (fst (patch_record (Some 1%N) (Some demo_patch) demo_api_db)) =
    on_records <[1%N := mkRecord 1 "near.example" RT_A "192.0.2.8" 300 0 ts]> (view demo_api_db).
Proof.
  assert (Ha : available demo_api_db) by constructor.
  pose proof (patch_record_exact 1 demo_patch demo_api_db Ha demo_api_wf) as H.
  destruct (patch_record _ _ demo_api_db) as [d' reply]. destruct H as [[Hc _]|(_ & ts & Hv & _)]; [|by exists ts].
  exfalso. destruct Hc as (k & r & Hk & Hne & Hs). simpl in Hk.
  apply lookup_insert_Some in Hk as [[<- <-]|[_ Hk]]; [done | by rewrite lookup_empty in Hk].
Defined.

Lemma delete_message_exact_witness :
  t_messages (view (fst (delete_message (Some 1%N) demo_mail_db))) = delete 1%N (t_messages (view demo_mail_db)).
Proof.
  assert (Ha : available demo_mail_db) by constructor.
  pose proof (delete_message_exact 1 demo_mail_db Ha) as H.
  destruct (delete_message _ demo_mail_db) as [d' reply]. by destruct H as (_ & Hm & _).
Defined.
