(* ===== verification/Submission.v ===== *)
(** * Submission: from the API to the recipient's server

    The API handler that queues a message and the worker that drains the queue,
    together: what the first answers 200 for, the second delivers. *)

From S2P Require Import Prelude Text Db Engine Config Send Concrete SendPure SendFacts Delivery Progress Keys Auth Services Email EmailFacts Api ApiRecords ApiMail ApiCalls ApiConcrete ApiFacts ApiMailFacts.
From Stdlib Require Import Ascii String.
#[local] Open Scope string_scope.

Lemma Forall2_impl_mem {A B} (P Q : A -> B -> Prop) l k :
  Forall2 P l k -> (forall x y, x ∈ l -> P x y -> Q x y) -> Forall2 Q l k.
Proof.
  intros HP HQ. induction HP; constructor; [apply HQ; [left | done]|]. apply IHHP. intros. apply HQ; [by right | done].
Qed.

Section Submission.
Context `{!UnicodeLower, !TimestampText, !SerdeString, !Lettre, !LettreBuilder, !MailParser, HE : DbEngine D}.

(** Under [env] some host takes the job's message. *)
Definition takes (env : NetEnv) (config : OutboundWorkerConfig) (t : Tables) (o : Outbound) : Prop :=
  exists msg envl targets, deliverable env config t o msg envl targets /\
    accepted (attempt_log (contact env o msg envl config) 0 targets) = true.

(** A job some host takes is delivered by the next tick. *)
Lemma taken_job_delivered env config o d :
  available d -> wf_tables (view d) -> t_outbound (view d) !! out_id o = Some o -> out_status o = Queued ->
  is_due (ne_now env) o = true -> takes env config (view d) o ->
  exists o', t_outbound (view (fst (worker_tick env config d))) !! out_id o = Some o' /\
    out_rcpt_to o' = out_rcpt_to o /\ out_status o' = Delivered /\ out_attempts o' = u64_add (out_attempts o) 1.
Proof.
  intros Hav W Ho Hq Hdue (msg & envl & targets & Hd & Hacc).
  destruct (tick_resolves env config o msg envl targets d) as (d' & ts & -> & _ & _ & _ & Hr); try done.
  eexists. split; [exact Hr|]. unfold attempt_patch, resolution. by rewrite Hacc.
Qed.

(** The 200 of a submission comes from its accepting path. *)
Lemma send_email_200 b d d' s :
  available d -> send_email (Some b) d = (d', reply_ok (PSend s)) ->
  available d' /\ Forall2 (fun id r => exists ts, t_outbound (view d') !! id =
    Some (mkOutbound id (sr_message_id s) r (se_from b) Queued 0 None None ts ts)) (sr_outbound_ids s) (recipients_of b).
Proof.
  intros Hav Hs. pose proof (send_email_refused b d Hav) as Hr. rewrite Hs in Hr.
  destruct (recipients_of b) as [|r0 rs] eqn:Er; [by destruct Hr|].
  destruct (t_mailboxes (view d) !! se_from b) as [m|] eqn:Em; [|by destruct Hr].
  destruct (message_of b) as [message|e] eqn:Eb; [|by destruct Hr].
  destruct (send_email_queues b message m d) as (d1 & mid & ts & ids & E & Ha & _ & Hj); rewrite ?Er; try done.
  rewrite Hs in E. injection E as <- ->. split; [done|]. rewrite <- Er. apply Hj.
Qed.

(** C4: mail submitted through the API and answered 200 is delivered to every
    distinct recipient by the worker's next tick, in one attempt each, when for
    each of its jobs some host of the recipient's domain takes the message. *)
Theorem submitted_mail_is_delivered b d d' s env config :
  available d -> wf_tables (view d) -> send_email (Some b) d = (d', reply_ok (PSend s)) ->
  (forall id o, id ∈ sr_outbound_ids s -> t_outbound (view d') !! id = Some o -> takes env config (view d') o) ->
  Forall2 (fun id r => exists o, t_outbound (view (fst (worker_tick env config d'))) !! id = Some o /\
    out_rcpt_to o = r /\ out_status o = Delivered /\ out_attempts o = 1%N) (sr_outbound_ids s) (recipients_of b).
Proof.
  intros Hav W Hs Ht. assert (W' : wf_tables (view d')).
  { replace d' with (fst (run_call (SendEmailCall (Some b)) d)) by (cbn [run_call]; by rewrite Hs).
    revert W. apply (calls_evolve (kept wf_tables)). intros. apply wf_exec. }
  apply send_email_200 in Hs as [Ha Hj]; [|done]. eapply Forall2_impl_mem; [exact Hj|].
  intros id r Hid (ts & Ho). specialize (Ht id _ Hid Ho).
  set (o := mkOutbound id (sr_message_id s) r (se_from b) Queued 0 None None ts ts) in *.
  destruct (taken_job_delivered env config o d') as (o' & Ho' & Hr & Hst & Hn); try done. by exists o'.
Qed.
End Submission.

(** ** A concrete submission *)

Definition demo_worker : OutboundWorkerConfig := OutboundWorkerConfig_default.
Definition demo_sent : SendResult := mkSendResult 1 [1; 2]%N.

Lemma submitted_mail_is_delivered_witness :
  Forall2 (fun id r => exists o,
      t_outbound (view (fst (worker_tick (demo_env 0 (Ok "250 ok")) demo_worker
        (fst (send_email (Some demo_send) demo_api_db))))) !! id = Some o /\
      out_rcpt_to o = r /\ out_status o = Delivered /\ out_attempts o = 1%N)
    [1; 2]%N (recipients_of demo_send).
Proof.
  apply (submitted_mail_is_delivered demo_send demo_api_db (fst (send_email (Some demo_send) demo_api_db)) demo_sent
    (demo_env 0 (Ok "250 ok")) demo_worker); [constructor | apply demo_api_wf | by vm_compute |].
  intros id o Hid. simpl in Hid. rewrite !elem_of_cons in Hid. destruct Hid as [->|[->|Hid]]; [..|set_solver];
    vm_compute; intros [= <-];
    (eexists _, _, _; split; [split; [done..| by eexists | by intros h _] | done]).
Defined.
