(* ===== verification/Router.v ===== *)
(** * Router: the route table and the guarded API (src/src/api.rs, runtime.rs)

    The router tree of [create_router] and [api_with_doc], the endpoints its
    goals name, and a request served through it: salvo finds the route, the hoops
    of [Daemon::routes] inject the state and run the guard, and the goal runs
    unless the guard skipped it.  How salvo cuts a path into segments and reads a
    parameter, a query or a body is the class [Salvo]; which route of the table a
    path selects is stated by [detect_spec] and does not depend on salvo's
    order, because no two routes of this table match one request ([RouterFacts]). *)

From S2P Require Import Prelude Text Db Engine Config Send Policy Keys Auth Services Api ApiRecords ApiMail ApiCalls.
From Stdlib Require Import Ascii String.
#[local] Open Scope string_scope.

(** ** The tree *)

(** One path part: literal text, or [{name}]. *)
Inductive Seg : Type := Lit (s : string) | Param (name : string).

#[export] Instance Seg_eq_dec : EqDecision Seg.
Proof. solve_decision. Defined.

(** The goals: the endpoint functions of src/src/api.rs, the OpenAPI document and
    its browser UI. *)
Inductive Endpoint : Type :=
| E_health
| E_list_domains | E_create_domain | E_get_domain | E_patch_domain | E_delete_domain
| E_list_mailboxes | E_create_mailbox | E_get_mailbox | E_patch_mailbox | E_delete_mailbox
| E_list_mailbox_messages | E_list_mailbox_inbox | E_list_mailbox_sent
| E_list_records | E_create_record | E_get_record | E_patch_record | E_delete_record
| E_send_email
| E_list_services | E_set_mode | E_start_service | E_stop_service
| E_get_message | E_delete_message
| E_openapi | E_scalar.

#[export] Instance Endpoint_eq_dec : EqDecision Endpoint.
Proof. solve_decision. Defined.

(** A router: its path, its goals by method ([None]: any method), its children. *)
Inductive Router : Type :=
| mkRouter (path : list Seg) (goals : list (option string * Endpoint)) (children : list Router).

Definition router_new : Router := mkRouter [] [] [].
Definition with_path (s : Seg) : Router := mkRouter [s] [] [].
Definition on_method (m : string) (e : Endpoint) (r : Router) : Router :=
  let 'mkRouter p g c := r in mkRouter p (g ++ [(Some m, e)])%list c.
Definition push (child r : Router) : Router :=
  let 'mkRouter p g c := r in mkRouter p g (c ++ [child])%list.

Definition get := on_method "GET".
Definition post := on_method "POST".
Definition patch := on_method "PATCH".
Definition delete_ := on_method "DELETE".

Declare Scope router_scope.
Delimit Scope router_scope with router.
Notation "r '|>' f" := (f r) (at level 45, left associativity, only parsing) : router_scope.

(** [create_router]. *)
Definition create_router : Router := (
  router_new
  |> push (with_path (Lit "health") |> get E_health)
  |> push (with_path (Lit "domains")
       |> get E_list_domains
       |> post E_create_domain
       |> push (with_path (Param "domain_id")
            |> get E_get_domain
            |> patch E_patch_domain
            |> delete_ E_delete_domain))
  |> push (with_path (Lit "mailboxes")
       |> get E_list_mailboxes
       |> post E_create_mailbox
       |> push (with_path (Param "mailbox_id")
            |> get E_get_mailbox
            |> patch E_patch_mailbox
            |> delete_ E_delete_mailbox
            |> push (with_path (Lit "messages")
                 |> get E_list_mailbox_messages
                 |> push (with_path (Lit "inbox") |> get E_list_mailbox_inbox)
                 |> push (with_path (Lit "sent") |> get E_list_mailbox_sent))))
  |> push (with_path (Lit "records")
       |> get E_list_records
       |> post E_create_record
       |> push (with_path (Param "record_id")
            |> get E_get_record
            |> patch E_patch_record
            |> delete_ E_delete_record))
  |> push (with_path (Lit "mail") |> post E_send_email)
  |> push (with_path (Lit "services")
       |> get E_list_services
       |> push (with_path (Lit "mode") |> post E_set_mode)
       |> push (with_path (Param "service")
            |> push (with_path (Lit "start") |> post E_start_service)
            |> push (with_path (Lit "stop") |> post E_stop_service)))
  |> push (with_path (Lit "messages")
       |> push (with_path (Param "message_id")
            |> get E_get_message
            |> delete_ E_delete_message)))%router.

(** [into_router]: the document or its UI at a path, for every method. *)
Definition into_router (path : list Seg) (e : Endpoint) : Router := mkRouter path [(None, e)] [].

(** [api_with_doc]. *)
Definition api_with_doc : Router := (
  router_new
  |> push (into_router [Lit "doc"; Lit "openapi.json"] E_openapi)
  |> push (into_router [Lit "doc"] E_scalar)
  |> push create_router)%router.

(** ** Routes *)

Record Route : Type := mkRoute {
  route_path : list Seg;
  route_method : option string;
  route_endpoint : Endpoint;
}.

#[export] Instance Route_eq_dec : EqDecision Route.
Proof. solve_decision. Defined.

(** The routes of a tree under a prefix, in registration order. *)
Fixpoint routes_under (prefix : list Seg) (r : Router) : list Route :=
  let 'mkRouter path goals children := r in
  let here := (prefix ++ path)%list in
  (map (fun g => mkRoute here (fst g) (snd g)) goals
   ++ flat_map (routes_under here) children)%list.

Definition api_routes : list Route := routes_under [] api_with_doc.

(** The parameters a path binds, if it has the shape of the pattern. *)
Fixpoint match_path (pattern : list Seg) (segments : list string) : option (list (string * string)) :=
  match pattern, segments with
  | [], [] => Some []
  | Lit s :: pattern', x :: segments' => if String.eqb s x then match_path pattern' segments' else None
  | Param name :: pattern', x :: segments' => cons (name, x) <$> match_path pattern' segments'
  | _, _ => None
  end.

Definition match_route (r : Route) (segments : list string) (method : string) : bool :=
  match match_path (route_path r) segments with
  | Some _ => match route_method r with Some m => String.eqb m method | None => true end
  | None => false
  end.

(** ** Requests *)

Record HttpRequest : Type := mkHttpRequest {
  hr_head : Request;
  hr_query : string -> option string;
  hr_body : bytes;
}.

(** The first part of a path: what precedes the next slash after the leading
    ones. *)
Definition first_part (path : string) : string :=
  unwrap_or "" (head (split_char "/"%char (trim_start_matches (is_char "/"%char) path))).

(** salvo: the decoded segments of a path, the route it selects, the status of a
    request no route takes (405 when a route has its path but not its method,
    otherwise 404 or, for a path the tree has without an endpoint, 405), the typed
    readings of a parameter, a query and a JSON body, and what the document
    routes render. *)
Class Salvo := {
  percent_decode : string -> string;
  percent_decode_plain : forall s, free_of "%"%char s = true -> percent_decode s = s;
  segments : string -> list string;
  segments_first : forall path s rest, segments path = s :: rest ->
    is_empty (first_part path) = false /\ percent_decode (first_part path) = s;
  detect : list Route -> list string -> string -> option Route;
  detect_sound : forall rs segs m r, detect rs segs m = Some r -> r ∈ rs /\ match_route r segs m = true;
  detect_complete : forall rs segs m r, r ∈ rs -> match_route r segs m = true -> is_Some (detect rs segs m);
  unmatched : list Route -> list string -> N;
  unmatched_status : forall rs segs, unmatched rs segs = 404%N \/ unmatched rs segs = 405%N;
  unmatched_method : forall rs segs r, r ∈ rs -> is_Some (match_path (route_path r) segs) ->
    unmatched rs segs = 405%N;
  from_str_u64 : string -> option N;
  from_str_usize : string -> option N;
  parse_queries : (string -> option string) -> option ListMessagesQuery;
  json_NewDomain : bytes -> option NewDomain;
  json_PatchDomain : bytes -> option PatchDomain;
  json_NewMailbox : bytes -> option NewMailbox;
  json_PatchMailbox : bytes -> option PatchMailbox;
  json_NewRecord : bytes -> option NewRecord;
  json_PatchRecord : bytes -> option PatchRecord;
  json_SendEmail : bytes -> option SendEmail;
  json_SetModeBody : bytes -> option BootMode;
  openapi_reply : Reply;
  scalar_reply : Reply;
}.

(** What an endpoint does: nothing to the state, a call on the store, or a command
    to the manager. *)
Inductive ServiceCall : Type :=
| CallList
| CallStart (param : option string)
| CallStop (param : option string)
| CallMode (body : option BootMode).

Inductive Action : Type :=
| ActReply (reply : Reply)
| ActDb (c : ApiCall)
| ActServices (c : ServiceCall).

Section Serve.
Context `{!Salvo, !SocketAddrs, !Jwt}.
Context `{!UnicodeLower, !TimestampText, !SerdeString, !Lettre, !LettreBuilder, !MailParser, HO : DbOps D}.
Context (version : string) (spawn : Service -> SocketAddr -> result unit string).

(** [req.param::<String>], [req.param::<u64>], [req.query::<usize>]. *)
Definition param (params : list (string * string)) (name : string) : option string :=
  snd <$> find (fun kv => String.eqb (fst kv) name) params.
Definition param_u64 (params : list (string * string)) (name : string) : option N :=
  param params name ≫= from_str_u64.
Definition query_usize (req : HttpRequest) (name : string) : option N := hr_query req name ≫= from_str_usize.

(** The extractions at the head of each endpoint. *)
Definition extract_call (e : Endpoint) (params : list (string * string)) (now : Timestamp) (req : HttpRequest)
  : Action :=
  let limit := query_usize req "limit" in
  let offset := query_usize req "offset" in
  let body := hr_body req in
  match e with
  | E_health => ActReply (health version)
  | E_list_domains => ActDb (ListDomains limit offset)
  | E_create_domain => ActDb (CreateDomainCall (json_NewDomain body))
  | E_get_domain => ActDb (GetDomainCall (param params "domain_id"))
  | E_patch_domain => ActDb (PatchDomainCall (param params "domain_id") (json_PatchDomain body))
  | E_delete_domain => ActDb (DeleteDomainCall (param params "domain_id"))
  | E_list_mailboxes => ActDb (ListMailboxes limit offset (hr_query req "domain_id"))
  | E_create_mailbox => ActDb (CreateMailboxCall now (json_NewMailbox body))
  | E_get_mailbox => ActDb (GetMailboxCall (param params "mailbox_id"))
  | E_patch_mailbox => ActDb (PatchMailboxCall (param params "mailbox_id") (json_PatchMailbox body))
  | E_delete_mailbox => ActDb (DeleteMailboxCall (param params "mailbox_id"))
  | E_list_mailbox_messages =>
      ActDb (ListMessages (param params "mailbox_id") (parse_queries (hr_query req)) limit offset)
  | E_list_mailbox_inbox => ActDb (ListInbox (param params "mailbox_id") limit offset)
  | E_list_mailbox_sent => ActDb (ListSent (param params "mailbox_id") limit offset)
  | E_list_records => ActDb (ListRecords limit offset (hr_query req "domain_id") (hr_query req "record_type"))
  | E_create_record => ActDb (CreateRecordCall (json_NewRecord body))
  | E_get_record => ActDb (GetRecordCall (param_u64 params "record_id"))
  | E_patch_record => ActDb (PatchRecordCall (param_u64 params "record_id") (json_PatchRecord body))
  | E_delete_record => ActDb (DeleteRecordCall (param_u64 params "record_id"))
  | E_send_email => ActDb (SendEmailCall (json_SendEmail body))
  | E_list_services => ActServices CallList
  | E_set_mode => ActServices (CallMode (json_SetModeBody body))
  | E_start_service => ActServices (CallStart (param params "service"))
  | E_stop_service => ActServices (CallStop (param params "service"))
  | E_get_message => ActDb (GetMessageCall (param_u64 params "message_id"))
  | E_delete_message => ActDb (DeleteMessageCall (param_u64 params "message_id"))
  | E_openapi => ActReply openapi_reply
  | E_scalar => ActReply scalar_reply
  end.

(** ** Serving *)

(** What the hoops of [Daemon::routes] share with the endpoints. *)
Record ApiState : Type := mkApiState { st_db : D; st_services : World; st_auth : AuthService }.

Definition run_service (c : ServiceCall) : M World Reply :=
  match c with
  | CallList => list_services_handler true
  | CallStart p => start_service spawn true p
  | CallStop p => stop_service true p
  | CallMode b => set_mode spawn true b
  end.

Definition run_action (a : Action) (st : ApiState) : ApiState * Reply :=
  match a with
  | ActReply reply => (st, reply)
  | ActDb c => let '(db, reply) := run_call c (st_db st) in (mkApiState db (st_services st) (st_auth st), reply)
  | ActServices c =>
      let '(w, reply) := run_service c (st_services st) in (mkApiState (st_db st) w (st_auth st), reply)
  end.

Definition empty_response : Reply := mkResponse None None.

(** A request through [Daemon::routes]: without a route it is salvo's to refuse;
    the guard runs before the goal. *)
Definition serve (http : Http) (now : Timestamp) (req : HttpRequest) (st : ApiState) : ApiState * Reply :=
  let head := hr_head req in
  let segs := segments (rq_path head) in
  match detect api_routes segs (rq_method head) with
  | None => (st, mkResponse (Some (unmatched api_routes segs)) None)
  | Some route =>
      let '(auth, g) := guard http head empty_response (st_auth st) in
      let st := mkApiState (st_db st) (st_services st) auth in
      if g_skipped g then (st, g_response g)
      else
        let params := unwrap_or [] (match_path (route_path route) segs) in
        run_action (extract_call (route_endpoint route) params now req) st
  end.
End Serve.
