(* ===== verification/RouterFacts.v ===== *)
(** * RouterFacts: every endpoint is behind the guard

    The table is unambiguous, the guard decides on the resource a route is
    mounted under, and what a request through the router can do. *)

From S2P Require Import Prelude Text Db Engine Config Send Concrete Policy PolicyFacts Keys KeysFacts Auth AuthFacts Services ServicesFacts EmailFacts Api ApiRecords ApiMail ApiCalls ApiConcrete Router.
From Stdlib Require Import Ascii String.
#[local] Open Scope string_scope.

(** ** The table is unambiguous *)

(** Two patterns some path may match both. *)
Fixpoint overlap (p q : list Seg) : bool :=
  match p, q with
  | [], [] => true
  | Lit a :: p', Lit b :: q' => String.eqb a b && overlap p' q'
  | _ :: p', _ :: q' => overlap p' q'
  | _, _ => false
  end.

Definition clash (r1 r2 : Route) : bool :=
  overlap (route_path r1) (route_path r2) &&
  match route_method r1, route_method r2 with Some a, Some b => String.eqb a b | _, _ => true end.

Lemma match_overlap p q segs :
  is_Some (match_path p segs) -> is_Some (match_path q segs) -> overlap p q = true.
Proof.
  revert q segs. induction p as [|s p IH]; intros q segs Hp Hq.
  { destruct segs; [|by destruct Hp]. by destruct q as [|[]]; [|destruct Hq..]. }
  destruct segs as [|x segs]; [by destruct s, Hp|]. destruct q as [|t q]; [by destruct Hq|].
  assert (Htl : forall s p, is_Some (match_path (s :: p) (x :: segs)) ->
            is_Some (match_path p segs) /\ (forall l, s = Lit l -> l = x)).
  { clear. intros s p [l Hl]. destruct s; simpl in Hl.
    - destruct (String.eqb_spec s x); [|done]. split; [by eexists|]. by intros ? [= <-].
    - apply fmap_Some in Hl as (? & -> & _). by split; [eexists|]. }
  apply Htl in Hp as [Hp Hs]. apply Htl in Hq as [Hq Ht].
  specialize (IH q segs Hp Hq). simpl. destruct s as [a|]; [|done]. destruct t as [b|]; [|done].
  by rewrite (Hs a eq_refl), (Ht b eq_refl), String.eqb_refl.
Qed.

Lemma match_clash r1 r2 segs m :
  match_route r1 segs m = true -> match_route r2 segs m = true -> clash r1 r2 = true.
Proof.
  unfold match_route, clash. intros H1 H2.
  destruct (match_path (route_path r1) segs) eqn:E1; [|done].
  destruct (match_path (route_path r2) segs) eqn:E2; [|done].
  rewrite (match_overlap _ _ segs); [|by eexists..]. simpl.
  destruct (route_method r1), (route_method r2); try done.
  apply String.eqb_eq in H1, H2. subst. apply String.eqb_refl.
Qed.

Lemma api_routes_clash :
  Forall (fun r1 => Forall (fun r2 => r1 = r2 \/ clash r1 r2 = false) api_routes) api_routes.
Proof. apply (bool_decide_unpack _). by vm_compute. Qed.

Lemma api_routes_disjoint r1 r2 segs m :
  r1 ∈ api_routes -> r2 ∈ api_routes -> match_route r1 segs m = true -> match_route r2 segs m = true -> r1 = r2.
Proof.
  intros H1 H2 M1 M2. pose proof (match_clash r1 r2 segs m M1 M2) as Hc.
  pose proof (proj1 (Forall_forall _ _) (proj1 (Forall_forall _ _) api_routes_clash r1 H1) r2 H2) as [?|?]; [done|].
  congruence.
Qed.

(** Each endpoint is mounted exactly once. *)
Lemma endpoints_mounted e : exists r, filter (fun r => route_endpoint r = e) api_routes = [r].
Proof. destruct e; by eexists; vm_compute. Qed.

(** The literal every route of an endpoint starts with. *)
Definition endpoint_resource (e : Endpoint) : string :=
  match e with
  | E_health => "health"
  | E_list_domains | E_create_domain | E_get_domain | E_patch_domain | E_delete_domain => "domains"
  | E_list_mailboxes | E_create_mailbox | E_get_mailbox | E_patch_mailbox | E_delete_mailbox
  | E_list_mailbox_messages | E_list_mailbox_inbox | E_list_mailbox_sent => "mailboxes"
  | E_list_records | E_create_record | E_get_record | E_patch_record | E_delete_record => "records"
  | E_send_email => "mail"
  | E_list_services | E_set_mode | E_start_service | E_stop_service => "services"
  | E_get_message | E_delete_message => "messages"
  | E_openapi | E_scalar => "doc"
  end.

Lemma api_routes_roots :
  Forall (fun r => head (route_path r) = Some (Lit (endpoint_resource (route_endpoint r)))) api_routes.
Proof. by repeat constructor. Qed.

Lemma match_route_root r segs m :
  r ∈ api_routes -> match_route r segs m = true ->
  exists rest, segs = endpoint_resource (route_endpoint r) :: rest.
Proof.
  intros Hr Hm. pose proof api_routes_roots as H. rewrite Forall_forall in H. specialize (H r Hr).
  unfold match_route in Hm. destruct (route_path r) as [|s p]; [done|]. injection H as ->.
  destruct segs as [|x segs]; [done|]. simpl in Hm.
  destruct (String.eqb_spec (endpoint_resource (route_endpoint r)) x); [|done]. subst. by eexists.
Qed.

(** ** Paths *)

Lemma lower_percent c : Ascii.eqb (ascii_lower c) "%" = Ascii.eqb c "%".
Proof. destruct c as [[] [] [] [] [] [] [] []]; reflexivity. Qed.

Lemma free_of_lower s : free_of "%"%char (to_ascii_lowercase s) = free_of "%"%char s.
Proof. unfold free_of, to_ascii_lowercase. induction s; simpl; [done|]. by rewrite lower_percent, IHs. Qed.

Lemma default_public_spec roles x :
  x ∈ public (Policy.build roles default_public) -> x = "health" \/ x = "doc".
Proof.
  cbn [public Policy.build]. rewrite elem_of_list_to_set. change (map to_ascii_lowercase default_public) with ["health"; "doc"].
  set_solver.
Qed.

Section Facts.
Context `{!Salvo, !SocketAddrs, !Jwt}.
Context `{!UnicodeLower, !TimestampText, !SerdeString, !Lettre, !LettreBuilder, !MailParser, HO : DbOps D}.
Context (version : string) (spawn : Service -> SocketAddr -> result unit string).

(** The route a request selects is determined by the table: a route is
    selected exactly when it is one of the table's and matches the method and
    the segments of the path, whatever order salvo tries them in. *)
Lemma detect_exact segs m r :
  detect api_routes segs m = Some r <-> r ∈ api_routes /\ match_route r segs m = true.
Proof.
  split; [apply detect_sound|]. intros [Hr Hm].
  destruct (detect_complete api_routes segs m r Hr Hm) as [r' Hd].
  destruct (detect_sound _ _ _ _ Hd) as [Hr' Hm']. rewrite Hd. f_equal. by eapply api_routes_disjoint.
Qed.

(** The guard decides a routed request under the first part of its path, which
    decodes to the resource the endpoint is mounted under. *)
Lemma routed_target path m r :
  detect api_routes (segments path) m = Some r ->
  percent_decode (first_part path) = endpoint_resource (route_endpoint r) /\
  route_target path m = Some (mkRouteTarget (to_ascii_lowercase (first_part path)) (from_method m)).
Proof.
  intros Hd. apply detect_sound in Hd as [Hr Hm]. apply match_route_root in Hm as [rest Hs]; [|done].
  apply segments_first in Hs as [He Hp]. split; [done|].
  unfold route_target, resource_for_path. fold (first_part path). by rewrite He.
Qed.

Lemma run_action_auth a (st : ApiState) : st_auth (fst (run_action spawn a st)) = st_auth st.
Proof. unfold run_action. by repeat case_match. Qed.

(** The ways through [serve]: no route, a rejection, or the endpoint. *)
Inductive served (http : Http) (now : Timestamp) (req : HttpRequest) (st : ApiState)
  : ApiState * Reply -> Prop :=
| ServedNothing : detect api_routes (segments (rq_path (hr_head req))) (rq_method (hr_head req)) = None ->
    served http now req st (st, mkResponse (Some (unmatched api_routes (segments (rq_path (hr_head req))))) None)
| ServedRejection auth reply status :
    (status = 401 \/ status = 403)%N -> res_status reply = Some status ->
    served http now req st (mkApiState (st_db st) (st_services st) auth, reply)
| ServedEndpoint auth route claims out :
    detect api_routes (segments (rq_path (hr_head req))) (rq_method (hr_head req)) = Some route ->
    enforce http (hr_head req) (st_auth st) = (auth, Continue claims) ->
    out = run_action spawn
      (extract_call version (route_endpoint route)
         (unwrap_or [] (match_path (route_path route) (segments (rq_path (hr_head req))))) now req)
      (mkApiState (st_db st) (st_services st) auth) ->
    served http now req st out.

Lemma serve_served http now req st : served http now req st (serve version spawn http now req st).
Proof.
  unfold serve. destruct (detect _ _ _) as [route|] eqn:Hd; [|by apply ServedNothing].
  unfold guard. destruct (enforce http (hr_head req) (st_auth st)) as [auth [claims|d|d]] eqn:He; simpl.
  - by eapply ServedEndpoint.
  - by apply (ServedRejection _ _ _ _ _ _ 401); [left|].
  - by apply (ServedRejection _ _ _ _ _ _ 403); [right|].
Qed.

(** C3: with authentication enabled and failing closed, a request through the
    router either leaves the store and the listeners alone and is answered 401 or
    403, or 404 or 405 when no route takes it; or the reply and the new state are
    those of the endpoint of a route it matches, and then its resource is public
    or it bears a token that verifies under a configured key with roles the policy
    permits on that resource and verb, and the resource decided on decodes to the
    one the endpoint is mounted under. *)
Theorem served_only_if_authorized http now req st st' reply :
  as_enabled (st_auth st) = true -> as_fail_closed (st_auth st) = true ->
  serve version spawn http now req st = (st', reply) ->
  (st_db st' = st_db st /\ st_services st' = st_services st /\
     exists status, res_status reply = Some status /\
       (status ∈ [401; 403]%N \/ status ∈ [404; 405]%N /\ forall route, route ∈ api_routes ->
          match_route route (segments (rq_path (hr_head req))) (rq_method (hr_head req)) = false)) \/
  exists route target, route ∈ api_routes /\
    match_route route (segments (rq_path (hr_head req))) (rq_method (hr_head req)) = true /\
    (st', reply) = run_action spawn
      (extract_call version (route_endpoint route)
         (unwrap_or [] (match_path (route_path route) (segments (rq_path (hr_head req))))) now req)
      (mkApiState (st_db st) (st_services st) (st_auth st')) /\
    target = mkRouteTarget (to_ascii_lowercase (first_part (rq_path (hr_head req)))) (from_method (rq_method (hr_head req))) /\
    percent_decode (first_part (rq_path (hr_head req))) = endpoint_resource (route_endpoint route) /\
    (is_public (as_policy (st_auth st)) (rt_resource target) = true \/
     exists token c, extract_bearer (hr_head req) = Some token /\ verified (st_auth st) (st_auth st') token c /\
       allows (as_policy (st_auth st)) (vc_roles c) target = true).
Proof.
  intros He Hf Hs. pose proof (serve_served http now req st) as Hsv. rewrite Hs in Hsv. clear Hs.
  inversion Hsv as [Hn Ho|auth r status Hst Hr Ho|auth route claims out Hd Hen Ho]; subst.
  - left. split_and!; [done..|]. eexists. split; [done|]. right. split.
    + destruct (unmatched_status api_routes (segments (rq_path (hr_head req)))) as [-> | ->]; set_solver.
    + intros route Hin. apply not_true_iff_false. intros Hm. destruct (detect_complete _ _ _ _ Hin Hm). congruence.
  - left. split_and!; [done..|]. exists status. split; [done|]. left. destruct Hst as [-> | ->]; set_solver.
  - right. destruct (routed_target _ _ _ Hd) as [Hp Ht]. apply detect_sound in Hd as [Hin Hm].
    assert (Hauth : st_auth st' = auth).
    { apply (f_equal (fun o => st_auth (fst o))) in Ho. by rewrite run_action_auth in Ho. }
    exists route. eexists. rewrite Hauth. split_and!; [done..|]. destruct (is_public _ _) eqn:Epub; [by left|right].
    destruct (guarded_access http (hr_head req) (st_auth st) auth _ claims He Hf Ht Epub Hen)
      as (token & c & Hb & -> & Hv & Ha).
    by exists token, c.
Qed.

(** C17: without a bearer token, under the default public resources, only the
    health probe and the documentation are served: every other request, however
    its path is spelled, is answered 401, 403, 404 or 405, and nothing is changed in
    the store or the listeners. *)
Theorem anonymous_changes_nothing http now req st st' reply roles :
  as_enabled (st_auth st) = true -> as_fail_closed (st_auth st) = true ->
  as_policy (st_auth st) = Policy.build roles default_public -> extract_bearer (hr_head req) = None ->
  serve version spawn http now req st = (st', reply) ->
  st_db st' = st_db st /\ st_services st' = st_services st /\
  (res_status reply ∈ [Some 401; Some 403; Some 404; Some 405]%N \/
   reply ∈ [health version; openapi_reply; scalar_reply]).
Proof.
  intros He Hf Hpol Hb Hs. pose proof (serve_served http now req st) as Hsv. rewrite Hs in Hsv. clear Hs.
  inversion Hsv as [_ Ho|auth r status Hst Hr Ho|auth route claims out Hd Hen Ho]; subst.
  - split_and!; [done..|]. left. simpl.
    destruct (unmatched_status api_routes (segments (rq_path (hr_head req)))) as [-> | ->]; set_solver.
  - split_and!; [done..|]. left. rewrite Hr. destruct Hst as [-> | ->]; set_solver.
  - destruct (routed_target _ _ _ Hd) as [Hp Ht].
    assert (Epub : is_public (as_policy (st_auth st)) (to_ascii_lowercase (first_part (rq_path (hr_head req)))) = true).
    { apply not_false_iff_true. intros Epub.
      destruct (guarded_access http (hr_head req) (st_auth st) auth _ claims He Hf Ht Epub Hen) as (t & c & Hb' & _).
      congruence. }
    rewrite Hpol in Epub. unfold is_public in Epub. apply bool_decide_eq_true, default_public_spec in Epub.
    rewrite to_ascii_lowercase_idem in Epub.
    assert (Hfree : free_of "%"%char (first_part (rq_path (hr_head req))) = true).
    { rewrite <- free_of_lower. by destruct Epub as [-> | ->]. }
    rewrite (percent_decode_plain _ Hfree) in Hp. rewrite Hp in Epub.
    destruct (route_endpoint route); try (vm_compute in Epub; by destruct Epub);
      cbn in Ho; simplify_eq; (split; [done|]; split; [done|]; right; set_solver).
Qed.
End Facts.

(** ** Concrete requests *)

(** Plain paths, the first route that matches, one fixed body per type. *)
#[export] Program Instance demo_salvo : Salvo := {|
  percent_decode := id;
  segments := fun path =>
    let parts := split_char "/"%char (trim_start_matches (is_char "/"%char) path) in
    if is_empty (unwrap_or "" (head parts)) then [] else parts;
  detect := fun rs segs m => find (fun r => match_route r segs m) rs;
  unmatched := fun rs segs =>
    if existsb (fun r => bool_decide (is_Some (match_path (route_path r) segs))) rs then 405%N else 404%N;
  from_str_u64 := fun _ => None;
  from_str_usize := fun _ => None;
  parse_queries := fun _ => None;
  json_NewDomain := fun _ => Some (mkNewDomain "new.example");
  json_PatchDomain := fun _ => None;
  json_NewMailbox := fun _ => None;
  json_PatchMailbox := fun _ => None;
  json_NewRecord := fun _ => None;
  json_PatchRecord := fun _ => None;
  json_SendEmail := fun _ => Some demo_send;
  json_SetModeBody := fun _ => Some ModeOff;
  openapi_reply := mkResponse (Some 200%N) None;
  scalar_reply := mkResponse (Some 200%N) None;
|}.
Next Obligation. done. Qed.
Next Obligation.
  intros path s rest. cbv zeta. unfold first_part.
  destruct (split_char _ _) as [|p l]; simpl; [done|]. destruct (is_empty p) eqn:E; [done|]. by intros [= -> ->].
Qed.
Next Obligation.
  intros rs segs m r Hf. apply find_some in Hf as [Hin Hm]. split; [by apply list_elem_of_In|done].
Qed.
Next Obligation.
  intros rs segs m r Hin Hm. simpl. destruct (find _ rs) as [r'|] eqn:E; [by eexists|]. exfalso.
  apply list_elem_of_In in Hin. rewrite (find_none _ _ E r Hin) in Hm. done.
Qed.

Next Obligation. intros rs segs. simpl. case_match; auto. Qed.
Next Obligation.
  intros rs segs r Hin Hm. simpl. rewrite (proj2 (existsb_exists _ _)); [done|].
  exists r. split; [by apply list_elem_of_In|]. by apply bool_decide_eq_true.
Qed.

Definition demo_auth : AuthService :=
  {| as_enabled := true; as_issuer := None; as_audience := []; as_leeway := 30;
     as_algorithms := [HS256]; as_subject_claim := "sub"; as_role_claims := ["role"];
     as_policy := Policy.build [("viewer", mkRoleConfig ["domains:*"] [])] default_public;
     as_key_material := Set_ demo_keys; as_fail_closed := true |}.
Definition demo_state : ApiState := mkApiState demo_api_db demo_world demo_auth.
Definition demo_call (method path : string) (bearer : option (option string)) : HttpRequest :=
  mkHttpRequest (mkRequest path method bearer) (fun _ => None) [].
Definition demo_serve (req : HttpRequest) : ApiState * Reply := serve "1.0" demo_spawn demo_http 0 req demo_state.

(** An authorized request runs its endpoint. *)
Lemma served_only_if_authorized_witness :
  let req := demo_call "POST" "/domains" (Some (Some "Bearer good")) in
  is_Some (t_domains (view (st_db (fst (demo_serve req)))) !! "new.example") /\
  exists route target, route ∈ api_routes /\
    match_route route ["domains"] "POST" = true /\
    demo_serve req = run_action demo_spawn
      (extract_call "1.0" (route_endpoint route) (unwrap_or [] (match_path (route_path route) ["domains"])) 0 req)
      (mkApiState demo_api_db demo_world (st_auth (fst (demo_serve req)))) /\
    target = mkRouteTarget "domains" (from_method "POST") /\
    percent_decode "domains" = endpoint_resource (route_endpoint route) /\
    (is_public (as_policy demo_auth) (rt_resource target) = true \/
     exists token c, extract_bearer (hr_head req) = Some token /\
       verified demo_auth (st_auth (fst (demo_serve req))) token c /\
       allows (as_policy demo_auth) (vc_roles c) target = true).
Proof.
  intros req. split; [by eexists; vm_compute|].
  destruct (served_only_if_authorized "1.0" demo_spawn demo_http 0 req demo_state
    (fst (demo_serve req)) (snd (demo_serve req))) as [(_ & _ & status & Hs & Hin)|H];
    [done | done | by unfold demo_serve; destruct (serve _ _ _ _ _ _) | |].
  { exfalso. vm_compute in Hs. injection Hs as <-. set_solver. }
  rewrite <- surjective_pairing in H. exact H.
Defined.

Lemma anonymous_changes_nothing_witness :
  let out := demo_serve (demo_call "DELETE" "/Health/../domains" None) in
  st_db (fst out) = demo_api_db /\ st_services (fst out) = demo_world /\
  (res_status (snd out) ∈ [Some 401; Some 403; Some 404; Some 405]%N \/
   snd out ∈ [health "1.0"; openapi_reply; scalar_reply]).
Proof.
  apply (anonymous_changes_nothing "1.0" demo_spawn demo_http 0 (demo_call "DELETE" "/Health/../domains" None) demo_state
    _ _ [("viewer", mkRoleConfig ["domains:*"] [])]); [done | done | done | done |].
  by unfold demo_serve; destruct (serve _ _ _ _ _ _).
Defined.
