(* ===== verification/Race.v ===== *)
(** * Race: creations while other clients write

    The handlers of src/src/api.rs read, then write, then read again when the
    write lost a race.  A [SharedEngine] is a connection to a store that others
    write between this client's statements: each statement takes effect on the
    tables the others have left.  The others may create any row and touch the
    mail tables as they like; what they do not do is change or delete the
    domains, mailboxes and records that are there. *)

From S2P Require Import Prelude Text Db Engine Config Send Concrete Keys Auth Services EmailFacts Api ApiRecords ApiMail ApiCalls ApiConcrete ApiFacts ApiProps.
From Stdlib Require Import Ascii String.
#[local] Open Scope string_scope.

(** What the others leave alone. *)
Record rows_stay (t t' : Tables) : Prop := {
  stay_domains : t_domains t ⊆ t_domains t';
  stay_mailboxes : t_mailboxes t ⊆ t_mailboxes t';
  stay_records : t_records t ⊆ t_records t';
}.

#[export] Instance rows_stay_preorder : PreOrder rows_stay.
Proof. split; [by intros t|]. intros t1 t2 t3 [] []. split; by etrans. Qed.

Class SharedEngine (D : Type) := {
  shared_ops :: DbOps D;
  responsive : D -> Prop;
  shared_exec : forall {A} (s : stmt A) d, exists t, rows_stay (view d) t /\
    match exec s d with
    | (d', Ok a) => stmt_spec s t a (view d')
    | (d', Err _) => view d' = t /\ (responsive d -> ~ enabled s t)
    end;
  shared_responsive : forall {A} (s : stmt A) d, responsive d -> responsive (fst (exec s d));
}.

(** A statement of the goal, at the tables the others have left for it. *)
Ltac shared_step Hre :=
  match goal with
  | |- context [exec ?s ?d] =>
      let t := fresh "t" in let d' := fresh "d" in let r := fresh "r" in
      let Ht := fresh "Ht" in let Hs := fresh "Hs" in let Hr := fresh "Hr" in
      destruct (shared_exec s d) as (t & Ht & Hs); pose proof (shared_responsive s d Hre) as Hr;
      destruct (exec s d) as [d' [r|r]]; cbn [stmt_spec enabled fst] in Hs, Hr
  end.

Section Races.
Context `{!UnicodeLower, !TimestampText, !SerdeString, !Lettre, !LettreBuilder, !MailParser, HS : SharedEngine D}.

(** The row a creation asked for is there when it is answered. *)
Definition confirmed (c : ApiCall) (t : Tables) (reply : Reply) : Prop :=
  match c with
  | CreateDomainCall (Some b) => exists row, t_domains t !! trim (nd_id b) = Some row /\
      reply = render_domain_created row
  | CreateMailboxCall now (Some b) => exists m row, new_mailbox now b = Ok m /\
      t_mailboxes t !! mb_id m = Some row /\ mb_domain_id row = mb_domain_id m /\
      mb_forward_to row = mb_forward_to m /\ reply = reply_ok (PMailbox (MailboxDTO_from row))
  | CreateRecordCall (Some b) => exists rt k row, parse_record_type (trim (nr_record_type b)) = Ok rt /\
      t_records t !! k = Some row /\ rec_ttl row = body_ttl b /\
      same_triple (to_lowercase (trim (nr_domain_id b))) rt (trim (nr_value b)) row = true /\
      reply = reply_ok (PRecord (RecordApiDTO_from row))
  | _ => False
  end.

(** An answer that is right under a race: 200 with the row, or a refusal of the
    request, never a server error. *)
Definition race_safe (c : ApiCall) (out : D * Reply) : Prop :=
  (res_status (snd out) = Some 200%N /\ confirmed c (view (fst out)) (snd out)) \/
  res_status (snd out) ∈ [Some 400; Some 409]%N.

Lemma race_refused c d reply : res_status reply ∈ [Some 400; Some 409]%N -> race_safe c (d, reply).
Proof. by right. Qed.

Lemma create_domain_race b d :
  responsive d -> race_safe (CreateDomainCall (Some b)) (create_domain (Some b) d).
Proof.
  intros Hre. unfold create_domain. destruct (is_empty _); [by right; set_solver|]. unfold bind.
  shared_step Hre; [left; destruct Hs as [Ev Hd]; simpl; rewrite Ev; eauto|].
  shared_step Hr.
  { left. destruct Hs0 as [_ (ts & -> & Ev)]. simpl. split; [done|]. eexists. rewrite Ev. simpl.
    by rewrite lookup_insert_eq. }
  destruct Hs0 as [Ev0 Hn]. specialize (Hn Hr).
  destruct (t_domains t0 !! trim (nd_id b)) as [row|] eqn:Hrow; [|done].
  shared_step Hr0; [left; destruct Hs0 as [Ev Hd]; simpl; rewrite Ev; eauto|].
  destruct Hs0 as [_ Hn']. destruct (Hn' Hr0). exists row. rewrite Ev0 in Ht1.
  by eapply lookup_weaken; [|apply (stay_domains _ _ Ht1)].
Qed.

Lemma mailbox_resolve_race now b m row t (d : D) :
  new_mailbox now b = Ok m -> t_mailboxes t !! mb_id m = Some row -> view d = t ->
  race_safe (CreateMailboxCall now (Some b)) (d, mailbox_resolve row m).
Proof.
  intros Hm Hrow <-. unfold mailbox_resolve. destruct (bool_decide _ && _) eqn:E; [|by right; set_solver].
  apply andb_true_iff in E as [E1%bool_decide_eq_true E2%String.eqb_eq]. left. split; [done|]. by exists m, row.
Qed.

Lemma create_mailbox_race now b d :
  responsive d -> race_safe (CreateMailboxCall now (Some b)) (create_mailbox now (Some b) d).
Proof.
  intros Hre. unfold create_mailbox. destruct (new_mailbox now b) as [m|r] eqn:Em; last first.
  { right. unfold new_mailbox in Em. by repeat case_match; simplify_eq/=; set_solver. }
  unfold bind. shared_step Hre.
  { destruct Hs as [Ev Hm]. by eapply mailbox_resolve_race. }
  shared_step Hr.
  { destruct Hs0 as [_ (ts & -> & Ev)]. left. simpl. split; [done|]. exists m. eexists. split; [done|].
    rewrite Ev. simpl. by rewrite lookup_insert_eq. }
  destruct Hs0 as [Ev0 Hn]. specialize (Hn Hr).
  destruct (t_mailboxes t0 !! mb_id m) as [row|] eqn:Hrow; [|done].
  shared_step Hr0.
  { destruct Hs0 as [Ev Hm]. by eapply mailbox_resolve_race. }
  destruct Hs0 as [_ Hn']. destruct (Hn' Hr0). exists row. rewrite Ev0 in Ht1.
  by eapply lookup_weaken; [|apply (stay_mailboxes _ _ Ht1)].
Qed.

(** A triple is in the table or free. *)
Lemma triple_taken t dom rt v :
  ~ (forall k r, t_records t !! k = Some r -> same_triple dom rt v r = false) ->
  exists k r, t_records t !! k = Some r /\ same_triple dom rt v r = true.
Proof.
  intros Hn. destruct (record_resolve_spec t (rows (keep (of_domain dom) (t_records t))) dom rt v 0)
    as [(k & r & Hk & Hs & _)|[Hf _]]; [done | eauto | done].
Qed.

(** The scan of the owner's records answers for a row with the triple. *)
Lemma record_resolve_race b rt t (d : D) rows_ :
  parse_record_type (trim (nr_record_type b)) = Ok rt -> view d = t ->
  rows_ ≡ₚ rows (keep (of_domain (to_lowercase (trim (nr_domain_id b)))) (t_records t)) ->
  match record_resolve rows_ rt (trim (nr_value b)) (body_ttl b) with
  | Some reply => race_safe (CreateRecordCall (Some b)) (d, reply)
  | None => forall k r, t_records t !! k = Some r ->
      same_triple (to_lowercase (trim (nr_domain_id b))) rt (trim (nr_value b)) r = false
  end.
Proof.
  intros Hrt <- Hp. destruct (record_resolve_spec (view d) rows_ _ rt (trim (nr_value b)) (body_ttl b) Hp)
    as [(k & r & Hk & Hs & ->)|[Hf ->]]; [|done].
  destruct (N.eqb_spec (rec_ttl r) (body_ttl b)); [left|by right; set_solver].
  split; [done|]. by exists rt, k, r.
Qed.

Lemma insert_record_race b rt d :
  responsive d -> parse_record_type (trim (nr_record_type b)) = Ok rt ->
  race_safe (CreateRecordCall (Some b))
    (insert_record (to_lowercase (trim (nr_domain_id b))) rt (trim (nr_value b)) (body_ttl b) d).
Proof.
  intros Hre Hrt. unfold insert_record, bind. shared_step Hre; [|destruct Hs as [_ Hn]; by destruct (Hn Hre)].
  destruct Hs as [Ev Hp]. rewrite <- Ev in Hp.
  pose proof (record_resolve_race b rt (view d0) d0 r Hrt eq_refl Hp) as Hres.
  destruct (record_resolve r _ _ _) as [reply|]; [done|]. shared_step Hr.
  { destruct Hs as (k & ts & _ & _ & -> & Ev1). left. split; [done|]. exists rt, k. eexists. simpl. rewrite Ev1. simpl.
    rewrite lookup_insert_eq. split_and!; try done. by apply same_triple_spec. }
  destruct Hs as [Ev1 Hn]. destruct (triple_taken t0 _ rt _ (Hn Hr)) as (k & row & Hk & Hs).
  shared_step Hr0; [|destruct Hs0 as [_ Hn']; by destruct (Hn' Hr0)].
  destruct Hs0 as [Ev2 Hp2]. rewrite <- Ev2 in Hp2.
  pose proof (record_resolve_race b rt (view d2) d2 r1 Hrt eq_refl Hp2) as Hres2.
  destruct (record_resolve r1 _ _ _) as [reply|]; [done|]. exfalso. rewrite Ev1 in Ht1.
  rewrite (Hres2 k row) in Hs; [done|]. rewrite Ev2. by eapply lookup_weaken; [|apply (stay_records _ _ Ht1)].
Qed.

Lemma create_record_race b d :
  responsive d -> race_safe (CreateRecordCall (Some b)) (create_record (Some b) d).
Proof.
  intros Hre. unfold create_record, validate_record_fields.
  destruct (parse_record_type _) as [rt|p] eqn:Hrt; [|by right; set_solver].
  destruct (is_empty _); [by right; set_solver|]. unfold bind.
  shared_step Hre; [by apply insert_record_race | by right; set_solver].
Qed.

(** The creations of the API. *)
Definition is_create (c : ApiCall) : bool :=
  match c with CreateDomainCall _ | CreateMailboxCall _ _ | CreateRecordCall _ => true | _ => false end.

(** C16: creations survive races: whatever other clients create between the
    statements of a creation, it is answered 200 with a row that is stored as
    asked at that moment, or refused as a bad or conflicting request; losing the
    race for a key is never a server error. *)
Theorem creations_survive_races c d :
  is_create c = true -> responsive d -> race_safe c (run_call c d).
Proof.
  intros Hc Hre. destruct c; try done; destruct body as [b|]; cbn [run_call];
    auto using create_domain_race, create_mailbox_race, create_record_race; by right; set_solver.
Qed.
End Races.

(** ** A store with other clients *)

(** The insertions others make before each statement of this client. *)
Inductive Insertion : Type :=
| InsDomain (id : string)
| InsMailbox (id domain_id : string) (forward_to : option string)
| InsRecord (domain_id : string) (rt : RecordType) (value : string) (ttl : N).

Record RaceDb : Type := mkRaceDb { race_mem : MemDb; race_others : list (list Insertion) }.

Definition insert_row (t : Tables) (i : Insertion) : Tables :=
  match i with
  | InsDomain id => default t (fst <$> run_stmt (CreateDomain id) 0 t)
  | InsMailbox id dom fwd => default t (fst <$> run_stmt (CreateMailbox id dom fwd) 0 t)
  | InsRecord dom rt v ttl => default t (fst <$> run_stmt (CreateRecord dom rt v ttl) 0 t)
  end.

Lemma insert_row_stays t i : rows_stay t (insert_row t i).
Proof.
  destruct i; simpl; repeat case_match; simpl; try done;
    (split; simpl; [..| try done]); try done; apply insert_subseteq; auto using fresh_id_None.
Qed.

Lemma insertions_stay l t : rows_stay t (foldl insert_row t l).
Proof. revert t. induction l as [|i l IH]; intros t; simpl; [done|]. by etrans; [apply insert_row_stays|]. Qed.

(** Let the others go first. *)
Definition race_turn (d : RaceDb) : RaceDb :=
  let m := race_mem d in
  mkRaceDb (mkMemDb (foldl insert_row (mem_tables m) (default [] (head (race_others d)))) (mem_clock m) (mem_faults m))
    (tail (race_others d)).

Definition on_mem {A} (f : M MemDb A) (d : RaceDb) : RaceDb * A :=
  let d := race_turn d in let '(m, a) := f (race_mem d) in (mkRaceDb m (race_others d), a).

Definition RaceDb_ops : DbOps RaceDb := {|
  view := fun d => mem_tables (race_mem d);
  exec := fun A s => on_mem (mem_exec s);
  db_begin := fun _ => on_mem mem_tx; db_commit := on_mem mem_tx;
  db_rollback := fun d0 d => mkRaceDb (mem_rollback (race_mem d0) (race_mem d)) (race_others d);
|}.

#[export] Instance RaceDb_engine : SharedEngine RaceDb.
Proof.
  refine {| shared_ops := RaceDb_ops; responsive := fun d => mem_available (race_mem d) |}.
  - intros A s d. exists (mem_tables (race_mem (race_turn d))). split; [apply insertions_stay|].
    pose proof (@exec_available MemDb MemDb_engine A s (race_mem (race_turn d))) as Hav.
    cbn [exec RaceDb_ops]. unfold on_mem. cbn [exec engine_ops MemDb_engine MemDb_ops] in Hav.
    destruct (mem_exec s (race_mem (race_turn d))) as [m [a|e]] eqn:E.
    + exact (@exec_ok MemDb MemDb_engine A s _ _ _ E).
    + split; [exact (@exec_err MemDb MemDb_engine A s _ _ _ E)|]. intros Ha Hen.
      by destruct (Hav Ha) as [_ Hok]; specialize (Hok Hen).
  - intros A s d Ha. destruct (@exec_available MemDb MemDb_engine A s (race_mem (race_turn d)) Ha) as [Ha' _].
    cbn [exec RaceDb_ops]. unfold on_mem. cbn [exec engine_ops MemDb_engine MemDb_ops] in Ha'.
    by destruct (mem_exec s (race_mem (race_turn d))) as [m r].
Defined.

(** Another client creates the domain between the check and the insert. *)
Lemma creations_survive_races_witness :
  let d := mkRaceDb demo_api_db [[]; [InsDomain "new.example"]] in
  let c := CreateDomainCall (Some (mkNewDomain "new.example")) in
  res_status (snd (run_call c d)) = Some 200%N /\ race_safe c (run_call c d).
Proof.
  intros d c. split; [by vm_compute|]. apply (creations_survive_races c d); [done | constructor].
Defined.
