(* ===== verification/System.v ===== *)
(** * System: the running process (src/src/main.rs)

    [main] from the loaded configuration to its exit, and what happens in between:
    HTTP requests, SMTP connections, DNS datagrams, the worker's ticks and the key
    refresh, each one event on the shared state, in any order. *)

From S2P Require Import Prelude Text Db Engine Config Send Policy Keys Auth Services Email Dns App Runtime Listeners Api ApiRecords ApiMail ApiCalls Router.
From Stdlib Require Import Ascii String.
#[local] Open Scope string_scope.

Section System.
Context `{!Salvo, !SocketAddrs, !Jwt, !Base64, !HeaderSyntax, !TlsFiles, !Hickory, !DnsWire}.
Context `{!UnicodeLower, !TimestampText, !SerdeString, !Lettre, !LettreBuilder, !MailParser, HO : DbOps D}.
Context (version : string).

(** The state the tasks share, the open SMTP connections with the recipients each
    has accepted, and whether the outbound worker's task lives. *)
Record Process : Type := mkProcess {
  pr_state : @ApiState _ _ D;
  pr_conns : gmap N (list string);
  pr_worker : bool;
}.

Definition with_db (db : D) (p : Process) : Process :=
  mkProcess (mkApiState db (st_services (pr_state p)) (st_auth (pr_state p))) (pr_conns p) (pr_worker p).
Definition with_conns (f : gmap N (list string) -> gmap N (list string)) (p : Process) : Process :=
  mkProcess (pr_state p) (f (pr_conns p)) (pr_worker p).

(** ** Start *)

Inductive Started : Type :=
| MainErr (e : string)          (* [main] returns the error *)
| MainPanic                     (* an [expect] on a bind address *)
| MainRunning (p : Process).

(** [main], up to its [select!]; [order] is the iteration order of the mode's set. *)
Definition main_start (loaded : result Config string) (db : result D string)
    (push_schema : M D (result unit string)) (env : string -> option string) (clock : N) (now : Timestamp)
    (order : BootMode -> list Service) : Started :=
  match loaded with
  | Err e => MainErr e
  | Ok cfg =>
      let boot_mode := resolved_mode cfg in
      match Daemon_build db push_schema env clock now cfg with
      | BuildError e => MainErr e
      | BuildPanic => MainPanic
      | BuildOk daemon =>
          let daemon := Daemon_boot (daemon_spawn cfg) (order boot_mode) boot_mode daemon in
          MainRunning (mkProcess
            (mkApiState (app_db (dm_app daemon)) (dm_services daemon) (app_auth (dm_app daemon))) ∅ true)
      end
  end.

(** ** Running *)

Inductive Event : Type :=
| HttpEvent (http : Http) (now : Timestamp) (req : HttpRequest)
| SmtpConnect (conn : N)
| SmtpCommand (conn : N) (e : SmtpEvent)
| SmtpClose (conn : N)
| DnsEvent (send_to : string -> bytes -> result unit string) (task : string * bytes)
| WorkerTick (env : NetEnv)
| WorkerStops
| KeyRefresh (http : Http).

(** A listener that accepts SMTP connections is up. *)
Definition accepts_smtp (w : World) : bool :=
  bool_decide (inner_status (w_inner w) Smtp = Running) || bool_decide (inner_status (w_inner w) Smtps = Running).

(** One turn of the refresh task of a remote key set. *)
Definition refresh_auth (http : Http) (s : AuthService) : AuthService :=
  match as_key_material s with
  | Set_ ks => with_key_material (Set_ (refresh_once http ks)) s
  | _ => s
  end.

(** The handler's answer to one command of a connection. *)
Definition smtp_command (e : SmtpEvent) (recipients : list string) : M D (list string * result SmtpResponse SmtpError) :=
  match e with
  | Rcpt to => handle_rcpt to recipients
  | Data_ data => handle_email data recipients
  end.

Section Step.
Context (cfg : Config).

(** One event; [None] where it cannot happen. *)
Definition step (e : Event) (p : Process) : option Process :=
  let st := pr_state p in
  match e with
  | HttpEvent http now req =>
      let '(st', _) := serve version (daemon_spawn cfg) http now req st in
      Some (mkProcess st' (pr_conns p) (pr_worker p))
  | SmtpConnect conn =>
      match pr_conns p !! conn with
      | Some _ => None
      | None => if accepts_smtp (st_services st) then Some (with_conns <[conn := new_handler]> p) else None
      end
  | SmtpCommand conn e =>
      match pr_conns p !! conn with
      | None => None
      | Some recipients =>
          let '(db, (recipients, _)) := smtp_command e recipients (st_db st) in
          Some (with_conns <[conn := recipients]> (with_db db p))
      end
  | SmtpClose conn => Some (with_conns (delete conn) p)
  | DnsEvent send_to task => let '(db, _) := run_dns_task send_to task (st_db st) in Some (with_db db p)
  | WorkerTick env =>
      if pr_worker p
      then let '(db, _) := worker_tick env (main_worker_config cfg) (st_db st) in Some (with_db db p)
      else None
  | WorkerStops => Some (mkProcess st (pr_conns p) false)
  | KeyRefresh http =>
      Some (mkProcess (mkApiState (st_db st) (st_services st) (refresh_auth http (st_auth st)))
              (pr_conns p) (pr_worker p))
  end.

(** A run: the events in order. *)
Fixpoint run (es : list Event) (p : Process) : option Process :=
  match es with
  | [] => Some p
  | e :: es' => step e p ≫= run es'
  end.

Definition steps_to (p p' : Process) : Prop := exists e, step e p = Some p'.
End Step.

(** ** Exit *)

(** What wakes the [select!]. *)
Inductive Wake : Type := OutboundEnded | CtrlC.

(** The arms of the [select!]; [main] returns after either. *)
Definition main_exit (w : Wake) (p : Process) : Process :=
  let st := pr_state p in
  match w with
  | OutboundEnded => p
  | CtrlC => mkProcess (mkApiState (st_db st) (fst (stop_all (st_services st))) (st_auth st)) (pr_conns p) false
  end.
End System.
