(* ===== verification/SystemFacts.v ===== *)
(** * SystemFacts: invariants of the whole process

    What every event keeps, from the seeded store to the exit, and where the jobs
    of the queue come from. *)

From S2P Require Import Prelude Text Db Engine Config Send SendFacts Retry Policy Keys Auth AuthFacts Services ServicesFacts Email EmailFacts Dns DnsFacts App AppFacts Runtime Listeners Api ApiRecords ApiMail ApiCalls ApiFacts Router RouterFacts System.
From Stdlib Require Import Ascii String.
#[local] Open Scope string_scope.

(** ** New jobs *)

(** Every job of [t'] was a job of [t], or is one [P] describes. *)
Definition new_jobs (P : Outbound -> Prop) (t t' : Tables) : Prop :=
  forall k o, t_outbound t' !! k = Some o -> t_outbound t !! k = Some o \/ P o.

#[export] Instance new_jobs_preorder P : PreOrder (new_jobs P).
Proof.
  split.
  - intros t k o Ho. by left.
  - intros t1 t2 t3 H1 H2 k o Ho. destruct (H2 k o Ho) as [Ho'|]; [auto|by right].
Qed.

(** A job as it is queued. *)
Definition just_queued (o : Outbound) : Prop :=
  out_status o = Queued /\ out_attempts o = 0%N /\ out_next_attempt_at o = None.

Lemma new_jobs_sub P t t' : t_outbound t' ⊆ t_outbound t -> new_jobs P t t'.
Proof. intros Hs k o Ho. left. by eapply lookup_weaken. Qed.

Lemma keep_sub `{Countable K} {V} (p : V -> bool) (m : gmap K V) : keep p m ⊆ m.
Proof. apply map_subseteq_spec. intros k v Hk. by apply keep_Some in Hk as [Hk _]. Qed.

Lemma counters_new_jobs cap t t' : new_jobs just_queued t t' -> counters_ok cap t -> counters_ok cap t'.
Proof.
  intros Hn Hc k o Ho. destruct (Hn k o Ho) as [Ho'|(Hs & Ha & _)]; [eauto|].
  unfold attempts_ok. rewrite Hs, Ha. lia.
Qed.

Lemma forwards_just_queued mbs o : forwards mbs o -> just_queued o.
Proof. intros (mb & _ & _ & Hq). exact Hq. Qed.

(** A statement that does not write the queue, or removes from it. *)
Definition writes_job {A} (s : stmt A) : bool :=
  match s with CreateOutbound _ | UpdateOutbound _ _ => true | _ => false end.

Lemma stmt_new_jobs {A} P (s : stmt A) t a t' :
  writes_job s = false -> stmt_spec s t a t' -> new_jobs P t t'.
Proof.
  intros Hw Hs. apply new_jobs_sub. destruct s; simpl in Hw, Hs; try done;
    repeat match goal with
           | H : exists _, _ |- _ => destruct H as [? H]
           | H : _ /\ _ |- _ => destruct H
           end; subst; try done; apply keep_sub.
Qed.

(** The relation both [refs] and the counters need of the worker. *)
Lemma worker_refs orphan t t' : worker_evolves t t' -> refs_ok orphan t -> refs_ok orphan t'.
Proof.
  intros [Wd Wm Wr _ Wi _ Wa Wo] [R1 R2 R3 R4].
  assert (Hj : forall k, is_Some (t_outbound t !! k) -> is_Some (t_outbound t' !! k)).
  { intros k [o Ho]. specialize (Wo k). rewrite Ho in Wo. by inversion Wo; eauto. }
  split; rewrite ?Wd, ?Wm, ?Wr, ?Wi; auto.
  - intros k o Ho. specialize (Wo k). rewrite Ho in Wo. inversion Wo as [o0 ? Hev Ho0|]; subst.
    pose proof (je_identity _ _ Hev) as Hid. unfold job_identity in Hid. simplify_eq.
    replace (out_sender_id o) with (out_sender_id o0) by congruence. eauto.
  - intros k s Hs. destruct (Wa k s Hs) as [Hs'|]; [|done]. eauto.
Qed.

(** What an SMTP command leaves keeps the references, links excused. *)
Lemma effect_refs L t t' : inbound_effect L t t' -> refs_ok (fun _ => True) t -> refs_ok (fun _ => True) t'.
Proof.
  intros [Ed Em Er Ede _ _ Eo _ Ej] [R1 R2 R3 R4]. split; rewrite ?Ed, ?Em, ?Er, ?Ede; auto.
  - intros k o Ho. destruct (Ej k o Ho) as [Ho'|(mb & Hm & _)]; [eauto|by eexists].
  - intros k s Hs. destruct (R3 k s Hs) as [o Ho]. exists o. by eapply lookup_weaken.
Qed.

Section Calls.
Context `{!UnicodeLower, !TimestampText, !SerdeString, !Lettre, !LettreBuilder, !MailParser, HE : DbEngine D}.

Definition is_send (c : ApiCall) : bool := match c with SendEmailCall _ => true | _ => false end.

Lemma exec_new_jobs {A} P (s : stmt A) : writes_job s = false -> evolves view (new_jobs P) (exec s).
Proof.
  intros Hs. apply evolves_exec; [typeclasses eauto|]. intros t a t' Ht. by eapply stmt_new_jobs.
Qed.

Lemma create_job_new_jobs mid sender r :
  evolves view (new_jobs just_queued) (exec (CreateOutbound (queued_job mid sender r))).
Proof.
  apply evolves_exec; [typeclasses eauto|]. intros t o t' (k & ts & _ & -> & ->) k' o'. simpl.
  rewrite lookup_insert_Some. intros [[_ <-]|[_ Ho]]; [by right|by left].
Qed.

(** Only [send_email] queues jobs, and it queues them fresh. *)
Lemma call_new_jobs c : evolves view (new_jobs (fun o => is_send c = true /\ just_queued o)) (run_call c).
Proof.
  destruct (ref_call c) eqn:Hc; last first.
  { apply plain_calls_evolve; [typeclasses eauto| |done]. intros A s Hw. apply exec_new_jobs. by destruct s. }
  assert (Hread : forall P A (s : stmt A), writes_job s = false -> evolves view (new_jobs P) (exec s)).
  { intros. by apply exec_new_jobs. }
  destruct c as [| | | | | | | | | | |b| |k b| |b| | | | |]; try done; cbn [run_call].
  - unfold create_record, insert_record, validate_record_fields. evolve; auto.
  - unfold patch_record, update_record, validate_record_fields. evolve; auto.
  - intros d k o Ho. cut (t_outbound (view d) !! k = Some o \/ just_queued o); [by intros [|]; auto|].
    revert k o Ho. change (new_jobs just_queued (view d) (view (fst (send_email b d)))). revert d.
    change (evolves view (new_jobs just_queued) (send_email b)).
    assert (Hrest : forall mid sender rs ids, evolves view (new_jobs just_queued) (enqueue_rest mid sender rs ids)).
    { intros mid sender rs. induction rs; intros ids; simpl; unfold enqueue_forward; evolve; auto using create_job_new_jobs. }
    unfold send_email, enqueue_outbound. evolve; auto using create_job_new_jobs.
Qed.
End Calls.

(** ** Seeding *)

Section Seeding.
Context `{!UnicodeLower, HE : DbEngine D}.

Lemma wf_seed now cfg : evolves view (kept wf_tables) (seed_from_config now cfg).
Proof. unfold seed_from_config, seed_domain, seed_mailbox, seed_record. evolve. Qed.

(** The references and the domains a configuration names. *)
Definition seeded_refs (cfg : Config) (t : Tables) : Prop :=
  (forall id, id ∈ cfg_domains cfg -> is_Some (t_domains t !! id)) /\ refs_ok (fun _ => True) t.

Lemma refs_exec {A} orphan (s : stmt A) : writes_ref s = false -> evolves view (kept (refs_ok orphan)) (exec s).
Proof. intros Hw. apply evolves_exec; [typeclasses eauto|]. intros t a t' Hs R. by eapply refs_stmt. Qed.

Lemma seed_record_refs now cfg dto :
  dto_domain_id dto ∈ cfg_domains cfg -> evolves view (kept (seeded_refs cfg)) (seed_record now dto).
Proof.
  intros Hdom. unfold seed_record. evolve. apply evolves_exec; [typeclasses eauto|].
  intros t r t' (k & ts & _ & _ & -> & ->) [Hd [R1 R2 R3 R4]]. split; [done|]. split; simpl; auto.
  intros k' r'. rewrite lookup_insert_Some. intros [[_ <-]|[_ Hr]]; simpl; eauto.
Qed.

(** A configuration whose records lie under its domains seeds a store with
    references intact. *)
Lemma seed_refs now cfg d d' :
  (forall dto, dto ∈ cfg_records cfg -> dto_domain_id dto ∈ cfg_domains cfg) ->
  seed_from_config now cfg d = (d', Ok tt) ->
  refs_ok (fun _ => True) (view d) -> refs_ok (fun _ => True) (view d').
Proof.
  intros Hrec Hs R. unfold seed_from_config, bind_try at 1, bind in Hs.
  destruct (for_each_try (cfg_domains cfg) seed_domain d) as [d1 [[]|e]] eqn:E1; [|done].
  assert (R1 : refs_ok (fun _ => True) (view d1)).
  { assert (He : evolves view (kept (refs_ok (fun _ => True))) (for_each_try (cfg_domains cfg) seed_domain)).
    { unfold seed_domain. evolve; by apply refs_exec. }
    specialize (He d R). by rewrite E1 in He. }
  apply (seed_loop seed_domain (fun id t => is_Some (t_domains t !! id))) in E1 as [_ Hd];
    [|by apply seed_domain_spec|by apply seeded_mono_domain].
  unfold bind_try at 1, bind in Hs.
  destruct (for_each_try (cfg_mailboxes cfg) (seed_mailbox now) d1) as [d2 [[]|e]] eqn:E2; [|done].
  assert (Hm : evolves view (kept (seeded_refs cfg)) (for_each_try (cfg_mailboxes cfg) (seed_mailbox now))).
  { unfold seed_mailbox. evolve; (apply evolves_exec; [typeclasses eauto|]).
    - by intros t r t' [-> _].
    - intros t r t' Hst [Hd' R']. split; [|by eapply refs_stmt; [|exact Hst|]]. destruct Hst as (_ & ts & -> & ->). done. }
  pose proof (Hm d1 (conj Hd R1)) as R2. rewrite E2 in R2.
  assert (Hr : evolves view (kept (seeded_refs cfg)) (for_each_try (cfg_records cfg) (seed_record now))).
  { clear -Hrec HE. induction (cfg_records cfg) as [|dto l IH]; simpl; [evolve|].
    apply evolves_bind_try; [typeclasses eauto|apply seed_record_refs; set_solver|]. intros []. apply IH. set_solver. }
  specialize (Hr d2 R2). rewrite Hs in Hr. apply Hr.
Qed.
End Seeding.

(** ** Every event keeps the invariant *)

Section Process.
Context `{!Salvo, !SocketAddrs, !Jwt, !Base64, !HeaderSyntax, !TlsFiles, !Hickory, !DnsWire}.
Context `{!UnicodeLower, !TimestampText, !SerdeString, !Lettre, !LettreBuilder, !MailParser, HE : DbEngine D}.
Context (version : string) (cfg : Config).

Definition attempt_cap : N := max_attempts (main_worker_config cfg).

(** The store: keys and the unique triple, references, attempt counters. *)
Record store_inv (t : Tables) : Prop := {
  si_wf : wf_tables t;
  si_refs : refs_ok (fun _ => True) t;
  si_counters : counters_ok attempt_cap t;
}.

Lemma store_call c : evolves view (kept store_inv) (run_call c).
Proof.
  intros d [W R C]. split.
  - apply (calls_evolve (kept wf_tables)); [|done]. intros. apply wf_exec.
  - by apply call_refs.
  - eapply counters_new_jobs; [|exact C]. intros k o Ho.
    destruct (call_new_jobs c d k o Ho) as [|[_ Hq]]; auto.
Qed.

Lemma wf_handle_email data rs : evolves view (kept wf_tables) (handle_email data rs).
Proof.
  unfold handle_email, store_message, find_duplicate, link_recipients, forward_recipients, enqueue_forward. evolve.
Qed.

Lemma smtp_command_effect e rs d :
  inbound_effect (fun _ i => in_rcpt_to i ∈ filed_under rs) (view d) (view (fst (smtp_command e rs d))).
Proof.
  destruct e as [to|data]; simpl; [|by apply handle_email_links].
  destruct (handle_rcpt to rs d) as [d' [rs' r]] eqn:E. apply handle_rcpt_spec in E as [Ev _]. simpl. by rewrite Ev.
Qed.

Lemma store_smtp e rs : evolves view (kept store_inv) (smtp_command e rs).
Proof.
  intros d [W R C]. pose proof (smtp_command_effect e rs d) as He. split.
  - destruct e as [to|data]; [|by apply wf_handle_email]. simpl.
    destruct (handle_rcpt to rs d) as [d' [rs' r]] eqn:E. apply handle_rcpt_spec in E as [Ev _]. simpl. by rewrite Ev.
  - by eapply effect_refs.
  - eapply counters_new_jobs; [|exact C]. intros k o Ho.
    destruct (ie_jobs _ _ _ He k o Ho) as [|Hf]; [by left|right]. by eapply forwards_just_queued.
Qed.

Lemma dns_task_read send_to task d : view (fst (run_dns_task send_to task d)) = view d.
Proof.
  destruct task as [peer packet]. unfold run_dns_task. rewrite (fst_bind_ret _ (fun o => (peer, o))).
  apply handle_dns_query_read.
Qed.

Lemma attempt_cap_small : (attempt_cap + 1 < u64_modulus)%N.
Proof. by vm_compute. Qed.

Lemma tick_as_run env config d : fst (worker_tick env config d) = fst (run_outbound_worker [env] config d).
Proof. unfold run_outbound_worker. simpl. unfold bind. by destruct (worker_tick env config d). Qed.

Lemma store_tick env d : store_inv (view d) -> store_inv (view (fst (worker_tick env (main_worker_config cfg) d))).
Proof.
  intros [W R C]. rewrite tick_as_run.
  destruct (worker_evolves_run [env] (main_worker_config cfg) d W) as [W' He]. split; [done| |].
  - by eapply worker_refs.
  - by apply (inv_worker (main_worker_config cfg) attempt_cap_small [env] d).
Qed.

(** A request to the service endpoints is one command, or none. *)
Lemma run_service_command spawn c w :
  fst (run_service spawn c w) = w \/ exists cmd, fst (run_service spawn c w) = fst (run_command spawn cmd w).
Proof.
  destruct c as [|p|p|b]; simpl; unfold list_services_handler, start_service, stop_service, set_mode; simpl.
  - by left.
  - destruct (Service_parse _) as [svc|]; [right; exists (CStart svc) | by left].
    simpl. unfold bind. by destruct (start spawn svc w).
  - destruct (Service_parse _) as [svc|]; [right; exists (CStop svc) | by left].
    simpl. unfold bind. by destruct (stop svc w).
  - destruct b as [mode|]; [right; exists (CMode mode) | by left].
    simpl. unfold bind. by destruct (apply_mode spawn mode w).
Qed.

(** An endpoint's effect: on the store, or on the listeners. *)
Lemma action_store a st : store_inv (view (st_db st)) -> store_inv (view (st_db (fst (run_action (daemon_spawn cfg) a st)))).
Proof.
  intros S. destruct a as [reply|c|c]; simpl; [done| |by destruct (run_service _ _ _)].
  pose proof (store_call c (st_db st) S). by destruct (run_call c _).
Qed.

(** What a process does to its listeners: nothing, or a command of the manager. *)
Definition commanded (w w' : World) : Prop := w' = w \/ exists cmd, w' = fst (run_command (daemon_spawn cfg) cmd w).

Lemma action_services a (st : ApiState) :
  commanded (st_services st) (st_services (fst (run_action (daemon_spawn cfg) a st))).
Proof.
  destruct a as [reply|c|c]; simpl; [by left|by destruct (run_call c _); left|].
  pose proof (run_service_command (daemon_spawn cfg) c (st_services st)) as Hc. by destruct (run_service _ c _).
Qed.

Lemma serve_store http now req st :
  store_inv (view (st_db st)) -> store_inv (view (st_db (fst (serve version (daemon_spawn cfg) http now req st)))).
Proof.
  intros S. destruct (serve_served version (daemon_spawn cfg) http now req st) as [|auth reply|auth route claims out Hd He ->];
    [done..|]. by apply action_store.
Qed.

Lemma serve_services http now req st :
  commanded (st_services st) (st_services (fst (serve version (daemon_spawn cfg) http now req st))).
Proof.
  destruct (serve_served version (daemon_spawn cfg) http now req st) as [|auth reply|auth route claims out Hd He ->];
    [by left..|]. apply (action_services _ (mkApiState _ _ _)).
Qed.

Lemma step_store e p p' :
  step version cfg e p = Some p' -> store_inv (view (st_db (pr_state p))) -> store_inv (view (st_db (pr_state p'))).
Proof.
  intros Hs S. destruct e as [http now req|c|c e|c|send_to task|env| |http]; simpl in Hs.
  - pose proof (serve_store http now req (pr_state p) S) as S'. destruct (serve _ _ _ _ _ _). by simplify_eq.
  - destruct (pr_conns p !! c); [done|]. destruct (accepts_smtp _); by simplify_eq.
  - destruct (pr_conns p !! c) as [rs|]; [|done]. pose proof (store_smtp e rs (st_db (pr_state p)) S) as S'.
    destruct (smtp_command e rs _) as [db [rs' r]]. by simplify_eq.
  - by simplify_eq.
  - pose proof (dns_task_read send_to task (st_db (pr_state p))) as Ev. destruct (run_dns_task send_to task _). simplify_eq.
    simpl in *. by rewrite Ev.
  - destruct (pr_worker p); [|done]. pose proof (store_tick env (st_db (pr_state p)) S) as S'.
    destruct (worker_tick _ _ _). by simplify_eq.
  - by simplify_eq.
  - by simplify_eq.
Qed.

Lemma step_services e p p' :
  step version cfg e p = Some p' -> commanded (st_services (pr_state p)) (st_services (pr_state p')).
Proof.
  intros Hs. destruct e as [http now req|c|c e|c|send_to task|env| |http]; simpl in Hs; repeat case_match; simplify_eq;
    try by left. pose proof (serve_services http now req (pr_state p)) as Hc. simplify_option_eq.
  match goal with H : serve _ _ _ _ _ _ = _ |- _ => by rewrite H in Hc end.
Qed.

Lemma commanded_ok w w' : commanded w w' -> manager_inv w /\ addrs_of cfg w -> manager_inv w' /\ addrs_of cfg w'.
Proof. intros [->|[cmd ->]] [I A]; [done|]. split; [by apply keeps_command | by apply addrs_command]. Qed.

(** An invariant of the steps is one of the runs. *)
Lemma run_keeps (P : Process -> Prop) es p p' :
  (forall e p p', step version cfg e p = Some p' -> P p -> P p') ->
  run version cfg es p = Some p' -> P p -> P p'.
Proof.
  intros Hst. revert p. induction es as [|e es IH]; intros p; simpl; [by intros [= ->]|].
  destruct (step version cfg e p) as [p1|] eqn:E; [|done]. simpl. intros Hr J. eauto.
Qed.

Lemma run_services es p p' :
  run version cfg es p = Some p' -> manager_inv (st_services (pr_state p)) /\ addrs_of cfg (st_services (pr_state p)) ->
  manager_inv (st_services (pr_state p')) /\ addrs_of cfg (st_services (pr_state p')).
Proof.
  apply (run_keeps (fun p => manager_inv (st_services (pr_state p)) /\ addrs_of cfg (st_services (pr_state p)))).
  intros e q q' Hs. by apply commanded_ok, (step_services e).
Qed.

Lemma run_store es p p' :
  run version cfg es p = Some p' -> store_inv (view (st_db (pr_state p))) -> store_inv (view (st_db (pr_state p'))).
Proof. apply (run_keeps (fun p => store_inv (view (st_db (pr_state p))))). exact step_store. Qed.

(** ** From the start of [main] *)

Lemma start_inversion db push_schema env clock now order p :
  main_start (Ok cfg) db push_schema env clock now order = MainRunning p ->
  exists d w app, db = Ok d /\ manager_new cfg = Some w /\
    seed_from_config now cfg (fst (push_schema d)) = (app_db app, Ok tt) /\
    p = mkProcess (mkApiState (app_db app)
          (fst (boot (daemon_spawn cfg) (order (resolved_mode cfg)) (resolved_mode cfg) w)) (app_auth app)) ∅ true.
Proof.
  unfold main_start. destruct (Daemon_build _ _ _ _ _ _) as [| |dm] eqn:E; [done..|]. intros [= <-].
  apply build_inversion in E as (app & id & w & Hi & _ & Hw & ->). unfold init in Hi. destruct db as [d|]; [|done].
  destruct (push_schema d) as [d1 schema] eqn:Ep. destruct (schema_ready schema); [|done].
  destruct (Auth.build _ _ _) as [auth|]; [|done].
  destruct (seed_from_config now cfg d1) as [d2 [[]|e]] eqn:Es; [|done]. injection Hi as <-.
  exists d, w, (mkAppState d2 auth). rewrite Ep. done.
Qed.

Lemma start_services db push_schema env clock now order p :
  main_start (Ok cfg) db push_schema env clock now order = MainRunning p ->
  manager_inv (st_services (pr_state p)) /\ addrs_of cfg (st_services (pr_state p)).
Proof.
  intros Hs. apply start_inversion in Hs as (d & w & app & _ & Hw & _ & ->).
  apply (commanded_ok w); [right; by exists (CBoot (order (resolved_mode cfg)) (resolved_mode cfg))|].
  split; [by apply (manager_new_inv cfg) | by apply manager_new_addrs].
Qed.

Lemma start_store d push_schema env clock now order p :
  main_start (Ok cfg) (Ok d) push_schema env clock now order = MainRunning p ->
  view (fst (push_schema d)) = view d ->
  (forall dto, dto ∈ cfg_records cfg -> dto_domain_id dto ∈ cfg_domains cfg) ->
  store_inv (view d) -> store_inv (view (st_db (pr_state p))).
Proof.
  intros Hs Hp Hrec [W R C]. apply start_inversion in Hs as (d0 & w & app & [= <-] & _ & Hseed & ->). simpl.
  rewrite <- Hp in W, R, C. split.
  - pose proof (wf_seed now cfg _ W) as W'. by rewrite Hseed in W'.
  - by eapply seed_refs.
  - apply seed_from_config_spec in Hseed as [Hsd _]. unfold counters_ok. by rewrite (sd_outbound _ _ Hsd).
Qed.
End Process.
