(* ===== verification/SystemProps.v ===== *)
(** * SystemProps: guarantees of the running process

    The theorems about [main] and everything it runs, and concrete runs. *)

From S2P Require Import Prelude Text Db Engine Config Send SendFacts Retry Concrete Policy PolicyFacts Keys KeysFacts Auth AuthFacts Services ServicesFacts Email EmailFacts Dns DnsFacts App AppFacts Runtime Listeners Api ApiRecords ApiMail ApiCalls ApiConcrete ApiFacts Router RouterFacts System SystemFacts.
From Stdlib Require Import Ascii String Strings.Byte.
#[local] Open Scope string_scope.

Section Props.
Context `{!Salvo, !SocketAddrs, !Jwt, !Base64, !HeaderSyntax, !TlsFiles, !Hickory, !DnsWire}.
Context `{!UnicodeLower, !TimestampText, !SerdeString, !Lettre, !LettreBuilder, !MailParser, HE : DbEngine D}.
Context (version : string) (cfg : Config).

(** C2: when every configured record names a configured domain (seeding does not
    check it), from a sound store, through any sequence of requests, SMTP commands,
    DNS datagrams, worker ticks and key refreshes, each handled to its end before
    the next: keys match their rows and the record triple stays unique, every
    record has its domain, every job its sender's mailbox and every audit row its
    job, every attempt counter is in its range, and the listeners own exactly the
    tasks alive, at the configured addresses.  Overlapping handlers can do worse:
    a job deleted during its delivery leaves an audit row without a job
    (the lemma [delivery_outlives_job]). *)
Theorem process_keeps_integrity d push_schema env clock now order es p p' :
  main_start (Ok cfg) (Ok d) push_schema env clock now order = MainRunning p ->
  view (fst (push_schema d)) = view d ->
  (forall dto, dto ∈ cfg_records cfg -> dto_domain_id dto ∈ cfg_domains cfg) ->
  store_inv cfg (view d) ->
  run version cfg es p = Some p' ->
  store_inv cfg (view (st_db (pr_state p'))) /\
  manager_inv (st_services (pr_state p')) /\ addrs_of cfg (st_services (pr_state p')).
Proof.
  intros Hs Hp Hrec S Hr. split.
  - eapply run_store; [exact Hr|]. by eapply start_store.
  - eapply run_services; [exact Hr|]. by eapply start_services.
Qed.

(** C18: whatever has happened since the start, and whatever configuration and
    store it started with, an interrupt leaves no listener task alive, every
    service idle and the outbound worker aborted. *)
Theorem interrupt_stops_everything db push_schema env clock now order es p p' :
  main_start (Ok cfg) db push_schema env clock now order = MainRunning p ->
  run version cfg es p = Some p' ->
  let q := main_exit CtrlC p' in
  w_tasks (st_services (pr_state q)) = ∅ /\ pr_worker q = false /\
  forall svc, inner_status (w_inner (st_services (pr_state q))) svc = Idle.
Proof.
  intros Hs Hr. simpl. destruct (run_services version cfg es p p' Hr) as [I _]; [by eapply start_services|].
  destruct (stop_all_idle _ I) as [Ht Hi]. done.
Qed.

(** ** Where jobs come from *)

(** The endpoint that queues mail. *)
Lemma send_endpoint e params now req c :
  extract_call version e params now req = ActDb c -> is_send c = true -> e = E_send_email.
Proof. by destruct e; simpl; intros [= <-]. Qed.

Lemma serve_new_job http now req st k o :
  t_outbound (view (st_db (fst (serve version (daemon_spawn cfg) http now req st)))) !! k = Some o ->
  t_outbound (view (st_db st)) !! k = None ->
  just_queued o /\ exists auth route claims,
    detect api_routes (segments (rq_path (hr_head req))) (rq_method (hr_head req)) = Some route /\
    route_endpoint route = E_send_email /\ enforce http (hr_head req) (st_auth st) = (auth, Continue claims).
Proof.
  intros Ho Hn.
  destruct (serve_served version (daemon_spawn cfg) http now req st) as [|auth reply|auth route claims out Hd He ->];
    simpl in Ho; [congruence..|].
  destruct (extract_call _ _ _ _ _) as [reply|c|c] eqn:Ea; simpl in Ho; [congruence| |by destruct (run_service _ _ _); simplify_eq/=].
  pose proof (call_new_jobs c (st_db st) k o) as Hj. destruct (run_call c (st_db st)). simpl in *.
  destruct (Hj Ho) as [|[Hsend Hq]]; [congruence|]. split; [done|]. exists auth, route, claims.
  by rewrite (send_endpoint _ _ _ _ _ Ea Hsend).
Qed.

(** C5: no open relay, for the whole process: the only events that queue a job
    are a payload over SMTP, which queues forwards from a mailbox to the very
    address it forwards to, and a request routed to the send endpoint, which under
    an enabled, fail-closed policy that does not make sending public bears a token
    that verifies with roles permitted to send. *)
Theorem queued_mail_is_accounted_for e p p' k o :
  step version cfg e p = Some p' -> wf_tables (view (st_db (pr_state p))) ->
  t_outbound (view (st_db (pr_state p))) !! k = None ->
  t_outbound (view (st_db (pr_state p'))) !! k = Some o ->
  just_queued o /\
  match e with
  | SmtpCommand _ (Data_ _) => forwards (t_mailboxes (view (st_db (pr_state p)))) o
  | HttpEvent http now req =>
      let s := st_auth (pr_state p) in
      let resource := to_ascii_lowercase (first_part (rq_path (hr_head req))) in
      percent_decode (first_part (rq_path (hr_head req))) = endpoint_resource E_send_email /\
      (as_enabled s = true -> as_fail_closed s = true -> is_public (as_policy s) resource = false ->
       exists auth token c, extract_bearer (hr_head req) = Some token /\ verified s auth token c /\
         allows (as_policy s) (vc_roles c) (mkRouteTarget resource (from_method (rq_method (hr_head req)))) = true)
  | _ => False
  end.
Proof.
  intros Hs W Hn Ho. destruct e as [http now req|c|c e|c|send_to task|env| |http]; simpl in Hs.
  - pose proof (serve_new_job http now req (pr_state p) k o) as Hj. destruct (serve _ _ _ _ _ _) as [st' reply].
    simplify_eq. simpl in *. destruct (Hj Ho Hn) as (Hq & auth & route & claims & Hd & He & Hen). split; [done|].
    destruct (routed_target _ _ _ Hd) as [Hp Ht]. rewrite He in Hp. split; [done|]. intros G1 G2 G3.
    destruct (guarded_access _ _ _ _ _ _ G1 G2 Ht G3 Hen) as (token & c & Hb & _ & Hv & Ha). eauto 10.
  - repeat case_match; simplify_eq. simpl in Ho. congruence.
  - destruct (pr_conns p !! c) as [rs|]; [|done].
    pose proof (smtp_command_effect e rs (st_db (pr_state p))) as He.
    destruct (smtp_command e rs _) as [db [rs' r]] eqn:Ec. simplify_eq. simpl in *.
    destruct (ie_jobs _ _ _ He k o Ho) as [|Hf]; [congruence|]. split; [by eapply forwards_just_queued|].
    destruct e as [to|data]; [|done]. apply handle_rcpt_spec in Ec as [Ev _]. rewrite Ev in Ho. congruence.
  - simplify_eq. simpl in Ho. congruence.
  - pose proof (dns_task_read send_to task (st_db (pr_state p))) as Ev. destruct (run_dns_task send_to task _). simplify_eq.
    simpl in *. rewrite Ev in Ho. congruence.
  - destruct (pr_worker p); [|done]. pose proof (tick_as_run env (main_worker_config cfg) (st_db (pr_state p))) as Et.
    destruct (worker_evolves_run [env] (main_worker_config cfg) _ W) as [_ He]. rewrite <- Et in He.
    destruct (worker_tick _ _ _). simplify_eq. simpl in *. pose proof (we_outbound _ _ He k) as Hk.
    rewrite Hn, Ho in Hk. inversion Hk.
  - simplify_eq. simpl in Ho. congruence.
  - simplify_eq. simpl in Ho. congruence.
Qed.
End Props.

(** ** A concrete process *)

Definition demo_start : Started (D := MemDb) :=
  main_start (Ok demo_cfg) (Ok demo_blank) (ret (Ok tt)) (fun _ => None) 0 0 mode_services.
Definition demo_process : Process (D := MemDb) :=
  match demo_start with
  | MainRunning p => p
  | _ => mkProcess (mkApiState demo_blank demo_world disabled) ∅ false
  end.
Definition demo_delete : Event :=
  HttpEvent demo_http 0 (demo_call "DELETE" "/mailboxes/me@near.example" None).
(** A recipient is accepted, its mailbox deleted through the API, then the payload
    arrives; a query, a tick and a refresh in between. *)
Definition demo_events : list Event :=
  [SmtpConnect 1; SmtpCommand 1 (Rcpt "<Me@near.example>"); DnsEvent demo_socket ("198.51.100.2:53", []); demo_delete;
   WorkerTick (demo_env 0 (Ok "250 accepted")); KeyRefresh demo_http; SmtpCommand 1 (Data_ [x02]); SmtpClose 1].
Definition demo_end : Process (D := MemDb) :=
  match run "1.0" demo_cfg demo_events demo_process with Some p => p | None => demo_process end.

Lemma demo_started : demo_start = MainRunning demo_process.
Proof. by vm_compute. Qed.

Lemma demo_ran : run "1.0" demo_cfg demo_events demo_process = Some demo_end.
Proof. by vm_compute. Qed.

Lemma empty_store_inv cfg : store_inv cfg empty_tables.
Proof. split; [apply wf_empty | by split; simpl; intros | by intros k o]. Qed.

Lemma process_keeps_integrity_witness :
  store_inv demo_cfg (view (st_db (pr_state demo_end))) /\
  manager_inv (st_services (pr_state demo_end)) /\ addrs_of demo_cfg (st_services (pr_state demo_end)).
Proof.
  apply (process_keeps_integrity "1.0" demo_cfg demo_blank (ret (Ok tt)) (fun _ => None) 0 0 mode_services
    demo_events demo_process); [apply demo_started | done | | apply empty_store_inv | apply demo_ran].
  intros dto Hd. simpl in Hd. apply list_elem_of_singleton in Hd as ->. simpl. set_solver.
Defined.

Lemma interrupt_stops_everything_witness :
  let q := main_exit CtrlC demo_end in
  w_tasks (st_services (pr_state demo_end)) <> ∅ /\
  w_tasks (st_services (pr_state q)) = ∅ /\ pr_worker q = false /\
  forall svc, inner_status (w_inner (st_services (pr_state q))) svc = Idle.
Proof.
  split; [by vm_compute|].
  apply (interrupt_stops_everything "1.0" demo_cfg (Ok demo_blank) (ret (Ok tt)) (fun _ => None) 0 0 mode_services
    demo_events demo_process); [apply demo_started | apply demo_ran].
Defined.

(** The payload was acknowledged after its mailbox was gone: its link names no
    mailbox, so no listing shows the message and no deletion removes the link. *)
Lemma accepted_recipient_may_vanish :
  exists k i, t_inbound (view (st_db (pr_state demo_end))) !! k = Some i /\
    in_rcpt_to i = "me@near.example" /\ t_mailboxes (view (st_db (pr_state demo_end))) !! in_rcpt_to i = None.
Proof. eexists 1%N, _. by vm_compute. Qed.

(** A process with authentication, whose callers may only
    send. *)
Definition demo_sender_auth : AuthService :=
  {| as_enabled := true; as_issuer := None; as_audience := []; as_leeway := 30;
     as_algorithms := [HS256]; as_subject_claim := "sub"; as_role_claims := ["role"];
     as_policy := Policy.build [("viewer", mkRoleConfig ["mail:write"] [])] default_public;
     as_key_material := Set_ demo_keys; as_fail_closed := true |}.
Definition demo_mail_process : Process (D := MemDb) :=
  mkProcess (mkApiState demo_api_db demo_world demo_sender_auth) ∅ true.
Definition demo_submission : HttpRequest := demo_call "POST" "/mail" (Some (Some "Bearer good")).
Definition demo_mail_sent : Process (D := MemDb) :=
  match step "1.0" demo_cfg (HttpEvent demo_http 0 demo_submission) demo_mail_process with
  | Some p => p | None => demo_mail_process end.

Lemma queued_mail_is_accounted_for_witness :
  exists k o, t_outbound (view (st_db (pr_state demo_mail_sent))) !! k = Some o /\ just_queued o /\
    percent_decode "mail" = endpoint_resource E_send_email /\
    (as_enabled demo_sender_auth = true -> as_fail_closed demo_sender_auth = true ->
     is_public (as_policy demo_sender_auth) "mail" = false ->
     exists auth token c, extract_bearer (hr_head demo_submission) = Some token /\
       verified demo_sender_auth auth token c /\
       allows (as_policy demo_sender_auth) (vc_roles c) (mkRouteTarget "mail" (from_method "POST")) = true).
Proof.
  eexists 1%N, _. split; [by vm_compute|].
  apply (queued_mail_is_accounted_for "1.0" demo_cfg (HttpEvent demo_http 0 demo_submission) demo_mail_process
    demo_mail_sent 1%N); [by vm_compute | apply demo_api_wf | done | by vm_compute].
Defined.
