(* ===== verification/ConfigTests.v ===== *)
(** * ConfigTests: the unit tests of src/src/config.rs, on the model

    Each definition is one [#[test]], its assertions as a proposition about the
    model; JSON texts are the values they denote.  [UnitTests] has the theorem. *)

From S2P Require Import Prelude Text Db Engine Config ConfigSerde Services Dns ConfigFacts.
From Stdlib Require Import Ascii String.
#[local] Open Scope string_scope.

(** Socket addresses as text, blanks refused. *)
Definition plain_addrs : SocketAddrs := {|
  SocketAddr := string;
  parse_socket_addr := fun s => if contains " " s then Err "invalid socket address syntax" else Ok s |}.

(** A directory in which only [cert.pem] exists, and one with both files. *)
Definition cert_only : TlsFiles := {|
  Identity := unit;
  read_file := fun path => if String.eqb path "cert.pem" then Ok [] else Err "No such file or directory";
  from_pkcs8 := fun _ _ => Ok tt |}.
Definition generated_pair : TlsFiles := {|
  Identity := unit; read_file := fun _ => Ok []; from_pkcs8 := fun _ _ => Ok tt |}.

Definition mailbox_entry_simple_has_no_forward : Prop :=
  let entry := Simple "user@example.com" in
  entry_address entry = "user@example.com" /\ entry_forward_to entry = None.

Definition mailbox_entry_detailed_carries_forward : Prop :=
  let entry := Detailed "user@example.com" (Some "user@gmail.com") in
  entry_address entry = "user@example.com" /\ entry_forward_to entry = Some "user@gmail.com".

Definition mailbox_entry_detailed_defaults_to_no_forward : Prop :=
  match MailboxEntry_de (JObject [("id", JString "user@example.com")]) with
  | Some (Detailed _ forward_to) => forward_to = None
  | _ => False
  end.

Definition mailbox_entry_untagged_json_picks_variant_by_shape : Prop :=
  match de_vec MailboxEntry_de (JArray [JString "a@example.com"]) with
  | Some [Simple s] => s = "a@example.com"
  | _ => False
  end /\
  match de_vec MailboxEntry_de
          (JArray [JObject [("id", JString "b@example.com"); ("forward_to", JString "b@ext.com")]]) with
  | Some [Detailed id forward_to] => id = "b@example.com" /\ forward_to = Some "b@ext.com"
  | _ => False
  end.

Definition default_fields (cfg : Config) : Prop :=
  cfg_host cfg = "0.0.0.0" /\ cfg_dns cfg = 53%N /\ cfg_smtp cfg = 25%N /\ cfg_api cfg = 8081%N /\
  cfg_domains cfg = [] /\ cfg_records cfg = [] /\ cfg_mailboxes cfg = [].

Definition config_default_ports_and_host : Prop :=
  default_fields Config_default /\ cfg_database_url Config_default = "turso:zonemail.db".

Definition resolved_mode_defaults_to_full : Prop :=
  let cfg := Config_default in
  resolved_mode cfg = ModeFull /\ Smtp ∈ mode_services (resolved_mode cfg) /\ Dns ∈ mode_services (resolved_mode cfg).

(** [serde_json::from_str::<Config>] and a claim about the result. *)
Definition parsed (fields : list (string * Json)) (P : Config -> Prop) : Prop :=
  match Config_de (JObject fields) with Some cfg => P cfg | None => False end.

Definition resolved_mode_honors_explicit_choice_via_json : Prop :=
  parsed [("mode", JString "dns")] (fun cfg => resolved_mode cfg = ModeDns /\
    wants (resolved_mode cfg) Dns = true /\ wants (resolved_mode cfg) Smtp = false) /\
  parsed [("mode", JString "off")] (fun cfg => resolved_mode cfg = ModeOff /\ mode_services (resolved_mode cfg) = []).

Definition config_addr_helpers_join_host_and_port : Prop :=
  let cfg := mkConfig "127.0.0.1" 5353 1025 8080 "turso:zonemail.db" [] [] [] None AuthConfig_default
               SmtpTlsConfig_default OutboundTransport_default in
  @dns_addr plain_addrs cfg = Ok "127.0.0.1:5353" /\ @smtp_addr plain_addrs cfg = Ok "127.0.0.1:1025" /\
  @api_addr plain_addrs cfg = Ok "127.0.0.1:8080".

Definition config_addr_helpers_reject_bad_host : Prop :=
  let cfg := mkConfig "not a valid host" 53 25 8081 "turso:zonemail.db" [] [] [] None AuthConfig_default
               SmtpTlsConfig_default OutboundTransport_default in
  is_ok (@api_addr plain_addrs cfg) = false.

Definition config_deserializes_with_all_defaults : Prop := parsed [] default_fields.

Definition auth_section_defaults_to_disabled : Prop :=
  parsed [] (fun cfg => ac_enabled (cfg_auth cfg) = false /\ ac_roles (cfg_auth cfg) = ∅).

Definition auth_issuer_source_with_roles_deserializes : Prop :=
  parsed [("auth", JObject
      [("enabled", JBool true); ("issuer", JString "https://janux.example.com");
       ("audience", JArray [JString "zonemail-api"]); ("role_claims", JArray [JString "role"; JString "roles"]);
       ("public", JArray [JString "health"; JString "doc"]);
       ("keys", JObject [("kind", JString "issuer"); ("issuer", JString "https://janux.example.com");
                         ("algorithms", JArray [JString "RS256"]); ("fail_closed", JBool true)]);
       ("roles", JObject
          [("admin", JObject [("grants", JArray [JString "*"])]);
           ("viewer", JObject [("grants", JArray [JString "domains:read"; JString "records:read"])]);
           ("ops", JObject [("extends", JArray [JString "viewer"]); ("grants", JArray [JString "mailboxes:*"])])])])]
    (fun cfg =>
       let a := cfg_auth cfg in
       ac_enabled a = true /\ kc_kind (ac_keys a) = KindIssuer /\
       kc_issuer (ac_keys a) = Some "https://janux.example.com" /\ kc_algorithms (ac_keys a) = ["RS256"] /\
       kc_fail_closed (ac_keys a) = true /\ size (ac_roles a) = 3%nat /\
       (grants <$> ac_roles a !! "admin") = Some ["*"] /\ (extends <$> ac_roles a !! "ops") = Some ["viewer"]).

Definition smtp_tls_defaults_to_plain : Prop :=
  let t := SmtpTlsConfig_default in
  st_mode t = StartTlsNone /\ st_smtps_port t = 0%N /\ st_cert_source t = None /\ needs_cert t = false /\
  smtps_enabled t = false /\ is_ok (@identity cert_only t) = true.

Definition smtp_tls_smtps_port_computes_addr : Prop :=
  let t := mkSmtpTlsConfig StartTlsNone 465 None in
  smtps_enabled t = true /\ needs_cert t = true /\ @smtps_addr plain_addrs t "192.168.1.10" = Some "192.168.1.10:465" /\
  let t := mkSmtpTlsConfig StartTlsNone 0 None in
  smtps_enabled t = false /\ @smtps_addr plain_addrs t "192.168.1.10" = None.

Definition smtp_tls_acme_source_fails_fast : Prop :=
  let t := mkSmtpTlsConfig StartTlsOptional 0
             (Some (CertAcme (Some "https://acme-v02.api.letsencrypt.org/directory") None (Some "mail.example.com"))) in
  needs_cert t = true /\ is_ok (@identity generated_pair t) = false.

Definition smtp_tls_files_missing_key_fails_fast : Prop :=
  is_ok (@identity cert_only (mkSmtpTlsConfig StartTlsOptional 0 None)) = false /\
  is_ok (@identity cert_only (mkSmtpTlsConfig StartTlsRequired 465 (Some (CertFiles "cert.pem" "key.pem")))) = false.

Definition smtp_tls_identity_builds_from_generated_cert : Prop :=
  let tls := mkSmtpTlsConfig StartTlsRequired 465 (Some (CertFiles "cert.pem" "key.pem")) in
  needs_cert tls = true /\ @identity generated_pair tls = Ok (Some tt).

Definition smtp_tls_parses_from_json : Prop :=
  parsed [("mailbox", JArray [JObject [("domain", JString "example.com"); ("kind", JString "internal");
                                       ("email", JString "a@example.com")]]);
          ("smtp_tls", JObject [("mode", JString "required"); ("smtps_port", JNumber "465");
             ("cert_source", JObject [("kind", JString "files"); ("cert_path", JString "/tmp/c.pem");
                                      ("key_path", JString "/tmp/k.pem")])])]
    (fun cfg => st_mode (cfg_smtp_tls cfg) = StartTlsRequired /\ st_smtps_port (cfg_smtp_tls cfg) = 465%N /\
       match st_cert_source (cfg_smtp_tls cfg) with Some (CertFiles _ _) => True | _ => False end) /\
  parsed [("smtp_tls", JObject [("mode", JString "optional");
             ("cert_source", JObject [("kind", JString "acme"); ("acme_server", JString "https://ca/directory");
                                      ("dns_domain", JString "m.example.com")])])]
    (fun cfg => needs_cert (cfg_smtp_tls cfg) = true /\
       match st_cert_source (cfg_smtp_tls cfg) with Some (CertAcme _ _ _) => True | _ => False end).

Definition outbound_transport_defaults_to_plain_no_relay : Prop :=
  parsed [] (fun cfg => tls_enabled (cfg_outbound cfg) = false /\ relay_configured (cfg_outbound cfg) = false /\
    ot_tls (cfg_outbound cfg) = TlsPlain /\ ot_relay (cfg_outbound cfg) = None).

Definition outbound_transport_parses_tls_and_relay : Prop :=
  parsed [("outbound", JObject [("tls", JString "required"); ("insecure", JBool true);
             ("relay", JObject [("host", JString "smtp.example.com"); ("port", JNumber "587");
                                ("user", JString "postmaster"); ("password_env", JString "ZONEMAIL_OUT_PASS")])])]
    (fun cfg => ot_tls (cfg_outbound cfg) = TlsRequired /\ tls_enabled (cfg_outbound cfg) = true /\
       relay_configured (cfg_outbound cfg) = true /\
       match ot_relay (cfg_outbound cfg) with
       | Some relay => relay_host relay = Some "smtp.example.com" /\ relay_port relay = 587%N /\
           relay_user relay = Some "postmaster" /\ relay_password_env relay = Some "ZONEMAIL_OUT_PASS"
       | None => False
       end).

Definition outbound_relay_without_port_defaults_to_submission_port : Prop :=
  parsed [("outbound", JObject [("tls", JString "implicit");
             ("relay", JObject [("host", JString "smtp.provider.net"); ("user", JString "me")])])]
    (fun cfg => relay_configured (cfg_outbound cfg) = true /\
       match ot_relay (cfg_outbound cfg) with
       | Some relay => relay_host relay = Some "smtp.provider.net" /\ relay_port relay = 0%N
       | None => False
       end).

Definition outbound_with_only_relay_defaults_to_plain_tls : Prop :=
  parsed [("outbound", JObject [("relay", JObject [("host", JString "smtp.example.com")])])]
    (fun cfg => ot_tls (cfg_outbound cfg) = TlsPlain /\ tls_enabled (cfg_outbound cfg) = false /\
       relay_configured (cfg_outbound cfg) = true).

Definition outbound_transport_parses_all_modes : Prop :=
  Forall (fun vw => parsed [("outbound", JObject [("tls", JString (fst vw))])]
      (fun c => ot_tls (cfg_outbound c) = snd vw /\
         tls_enabled (cfg_outbound c) = negb (bool_decide (snd vw = TlsPlain))))
    [("plain", TlsPlain); ("opportunistic", TlsOpportunistic); ("required", TlsRequired); ("implicit", TlsImplicit)].

Definition test_env (var : string) : option string :=
  if String.eqb var "ZONE_OUT_PASS_TEST" then Some "s3cret" else None.

Definition outbound_relay_credentials_env_then_none : Prop :=
  let none := mkOutboundRelay None 0 None None None in
  let via_env := mkOutboundRelay (Some "r") 0 (Some "u") None (Some "ZONE_OUT_PASS_TEST") in
  let missing := mkOutboundRelay None 0 (Some "u") None (Some "ZONE_OUT_DOES_NOT_EXIST") in
  credentials test_env none = None /\ is_configured none = false /\
  credentials test_env via_env = Some ("u", "s3cret") /\ is_configured via_env = true /\
  credentials test_env missing = None.

Definition outbound_relay_credentials_inline_password : Prop :=
  let relay := mkOutboundRelay (Some "smtp.example.com") 0 (Some "u") (Some "p") None in
  credentials test_env relay = Some ("u", "p") /\ is_configured relay = true.

(** All of them. *)
Definition config_tests : Prop :=
  mailbox_entry_simple_has_no_forward /\ mailbox_entry_detailed_carries_forward /\
  mailbox_entry_detailed_defaults_to_no_forward /\
  mailbox_entry_untagged_json_picks_variant_by_shape /\
  config_default_ports_and_host /\ resolved_mode_defaults_to_full /\
  resolved_mode_honors_explicit_choice_via_json /\ config_addr_helpers_join_host_and_port /\
  config_addr_helpers_reject_bad_host /\ config_deserializes_with_all_defaults /\
  auth_section_defaults_to_disabled /\ auth_issuer_source_with_roles_deserializes /\
  smtp_tls_defaults_to_plain /\ smtp_tls_smtps_port_computes_addr /\
  smtp_tls_acme_source_fails_fast /\ smtp_tls_files_missing_key_fails_fast /\
  smtp_tls_identity_builds_from_generated_cert /\ smtp_tls_parses_from_json /\
  outbound_transport_defaults_to_plain_no_relay /\ outbound_transport_parses_tls_and_relay /\
  outbound_relay_without_port_defaults_to_submission_port /\
  outbound_with_only_relay_defaults_to_plain_tls /\ outbound_transport_parses_all_modes /\
  outbound_relay_credentials_env_then_none /\ outbound_relay_credentials_inline_password.

Lemma config_tests_hold : config_tests.
Proof.
  unfold config_tests. split_and!; try (vm_compute; tauto).
  all: try (unfold resolved_mode_defaults_to_full; simpl; split_and!; [done|set_solver|set_solver]).
  repeat constructor.
Qed.
