(* ===== verification/CoreTests.v ===== *)
(** * CoreTests: the unit tests of the policy, the services, the data model, the
    DNS server, the queue and the mail parser's helpers, on the model

    Each definition is one [#[test]] of src/src, its assertions as a proposition
    about the model; the in-memory database is [MemDb], the local SMTP sink and
    the refused port are answers of the network.  [UnitTests] has the theorem. *)

From S2P Require Import Prelude Text Db Engine Config ConfigSerde Send Concrete Policy Services ServicesFacts Email Dns DnsFacts ConfigFacts.
From Stdlib Require Import Ascii String.
#[local] Open Scope string_scope.

Definition empty_db : MemDb := mkMemDb empty_tables 0 [].

(** ** src/src/auth/policy.rs *)

Module PolicyTests.
Definition target (resource : string) (verb : Verb) : RouteTarget := mkRouteTarget resource verb.
Definition role (grants extends : list string) : RoleConfig := mkRoleConfig grants extends.

Definition empty_policy_is_deny_default : Prop :=
  let p := Policy.build [] ["health"; "doc"] in
  allows p [] (target "domains" Read) = false /\ allows p [] (target "domains" Write) = false /\
  allows p ["nobody"] (target "domains" Read) = false.

Definition exact_grant_matches_only_its_pair : Prop :=
  let p := Policy.build [("viewer", role ["domains:read"; "mailboxes:read"] [])] [] in
  allows p ["viewer"] (target "domains" Read) = true /\ allows p ["viewer"] (target "mailboxes" Read) = true /\
  allows p ["viewer"] (target "domains" Write) = false /\ allows p ["viewer"] (target "records" Read) = false.

Definition star_and_resource_wildcards : Prop :=
  let p := Policy.build [("admin", role ["*"] []); ("editor", role ["domains:*"; "*:read"] [])] [] in
  allows p ["admin"] (target "anything" Delete) = true /\ allows p ["editor"] (target "domains" Write) = true /\
  allows p ["editor"] (target "services" Read) = true /\ allows p ["editor"] (target "services" Write) = false.

Definition extends_inherits_grants : Prop :=
  let p := Policy.build [("base", role ["domains:read"] []); ("child", role ["domains:write"] ["base"])] [] in
  allows p ["child"] (target "domains" Read) = true /\ allows p ["child"] (target "domains" Write) = true /\
  allows p ["base"] (target "domains" Write) = false.

Definition unknown_grant_verb_is_ignored_not_broadened : Prop :=
  let p := Policy.build [("x", role ["domains:banana"] [])] [] in
  allows p ["x"] (target "domains" Read) = false.

Definition public_resources_bypass_roles : Prop :=
  let p := Policy.build [] ["health"; "doc"] in
  allows p [] (target "health" Read) = true /\ allows p [] (target "doc" Read) = true /\
  allows p [] (target "domains" Read) = false.

Definition extends_cycle_does_not_hang : Prop :=
  let p := Policy.build [("a", role ["records:read"] ["b"]); ("b", role ["domains:read"] ["a"])] [] in
  allows p ["a"] (target "records" Read) = true /\ allows p ["a"] (target "domains" Read) = true /\
  allows p ["b"] (target "records" Read) = true.

Definition method_to_verb_classification : Prop :=
  from_method "GET" = Read /\ from_method "HEAD" = Read /\ from_method "OPTIONS" = Read /\
  from_method "POST" = Write /\ from_method "PATCH" = Write /\ from_method "PUT" = Write /\
  from_method "DELETE" = Delete.

Definition resource_for_path_and_target : Prop :=
  resource_for_path "/domains/abc" = Some "domains" /\ resource_for_path "/services/smtp/start" = Some "services" /\
  resource_for_path "/messages/9" = Some "messages" /\ resource_for_path "/" = None /\ resource_for_path "" = None /\
  route_target "/domains/abc" "GET" = Some (target "domains" Read) /\
  route_target "/domains" "POST" = Some (target "domains" Write).

Definition case_insensitive_role_and_resource : Prop :=
  let p := Policy.build [("Admin", role ["Domains:read"] [])] [] in
  allows p ["admin"] (target "domains" Read) = true /\ allows p ["ADMIN"] (target "DOMAINS" Read) = true.

Definition all : Prop :=
  empty_policy_is_deny_default /\ exact_grant_matches_only_its_pair /\ star_and_resource_wildcards /\
  extends_inherits_grants /\ unknown_grant_verb_is_ignored_not_broadened /\ public_resources_bypass_roles /\
  extends_cycle_does_not_hang /\ method_to_verb_classification /\ resource_for_path_and_target /\
  case_insensitive_role_and_resource.
End PolicyTests.

(** ** src/src/services.rs *)

Module ServiceTests.
(** [ServiceManager::for_test]: every spawn starts a task, no SMTPS address. *)
Definition for_test : World :=
  mkWorld (mkInner idle_slot idle_slot idle_slot idle_slot "127.0.0.1:0" "127.0.0.1:0" "127.0.0.1:0" None) ∅ 0.
Definition pending_spawn (svc : Service) (a : SocketAddr) : result unit string := Ok tt.

Definition started (r : result ServiceResult string) (status : Status) (changed : bool) : Prop :=
  match r with Ok x => res_now x = status /\ res_changed x = changed | Err _ => False end.

Definition smtps_starts_only_when_configured : Prop :=
  let '(w, err) := start pending_spawn Smtps for_test in
  is_ok err = false /\ inner_status (w_inner w) Smtps = Idle /\
  let '(w, stopped) := stop Smtps w in
  started stopped Idle false /\ inner_status (w_inner w) Smtps = Idle.

Definition boot_mode_services_map_correctly : Prop :=
  mode_services ModeFull = [Api; Smtp; Dns] /\ mode_services ModeApi = [Api] /\ mode_services ModeSmtp = [Smtp] /\
  mode_services ModeDns = [Dns] /\ mode_services ModeOff = [] /\ BootMode_default = ModeFull.

Definition service_parse_is_case_insensitive_and_rejects_unknown : Prop :=
  Service_parse "api" = Some Api /\ Service_parse "dns" = Some Dns /\ Service_parse " SMTP " = Some Smtp /\
  Service_parse "smtps" = Some Smtps /\ Service_parse "bogus" = None.

Definition start_is_idempotent_and_reflects_status : Prop :=
  inner_status (w_inner for_test) Smtp = Idle /\
  let '(w, first) := start pending_spawn Smtp for_test in
  started first Running true /\ inner_status (w_inner w) Smtp = Running /\
  let '(w, second) := start pending_spawn Smtp w in
  started second Running false /\ inner_status (w_inner w) Smtp = Running.

Definition stop_is_idempotent : Prop :=
  let '(w, _) := start pending_spawn Dns for_test in
  let '(w, first) := stop Dns w in
  started first Idle true /\ inner_status (w_inner w) Dns = Idle /\
  let '(w, second) := stop Dns w in started second Idle false.

Definition apply_mode_starts_wanted_and_stops_rest : Prop :=
  let '(w, _) := boot pending_spawn (mode_services ModeFull) ModeFull for_test in
  inner_status (w_inner w) Api = Running /\ inner_status (w_inner w) Smtp = Running /\
  inner_status (w_inner w) Dns = Running /\
  let '(w, reports) := apply_mode pending_spawn ModeDns w in
  inner_status (w_inner w) Api = Idle /\ inner_status (w_inner w) Smtp = Idle /\
  inner_status (w_inner w) Dns = Running /\ List.length reports = 4%nat.

Definition list_reports_all_services : Prop :=
  let '(w, _) := start pending_spawn Smtp for_test in
  let '(_, reports) := list_services w in
  List.length reports = 4%nat /\ In (mkServiceReport Smtp Running) reports /\ In (mkServiceReport Dns Idle) reports /\
  In (mkServiceReport Api Idle) reports /\ In (mkServiceReport Smtps Idle) reports.

Definition all : Prop :=
  smtps_starts_only_when_configured /\ boot_mode_services_map_correctly /\
  service_parse_is_case_insensitive_and_rejects_unknown /\ start_is_idempotent_and_reflects_status /\
  stop_is_idempotent /\ apply_mode_starts_wanted_and_stops_rest /\ list_reports_all_services.
End ServiceTests.

(** ** src/src/db.rs *)

Module DbTests.
Definition recordtype_roundtrips_through_hickory : Prop :=
  Forall (fun rt => RecordType_from_hickory (hickory_from_RecordType rt) = Some rt)
    [RT_A; RT_AAAA; RT_CNAME; RT_MX; RT_NS; RT_SOA; RT_TXT; RT_CAA; RT_SRV; RT_PTR; RT_SVCB; RT_HTTPS].

Definition recordtype_maps_unknown_codes_to_placeholder : Prop :=
  RecordType_from_hickory (H_Unknown 4660) = Some RT_Unknown /\
  hickory_from_RecordType RT_Unknown = H_Unknown 65535 /\ hickory_from_RecordType RT_CERT = H_Unknown 10 /\
  hickory_from_RecordType RT_SMIMEA = H_Unknown 65 /\ hickory_from_RecordType RT_DNAME = H_Unknown 39.

Definition domain_conversions_roundtrip : Prop :=
  dom_id (Domain_from 0 "example.com") = "example.com" /\
  String_from_Domain (Domain_from 0 "example.com") = "example.com" /\
  dom_id (Domain_from 0 "other.com") = "other.com".

Definition record_dto_maps_to_record_with_zeroed_id : Prop :=
  let dto := mkRecordDTO "example.com" RT_A "93.184.216.34" 3600 in
  let record := Record_from_dto 0 dto in
  rec_id record = 0%N /\ rec_domain_id record = "example.com" /\ rec_record_type record = RT_A /\
  rec_value record = "93.184.216.34" /\ rec_ttl record = 3600%N /\ RecordDTO_from record = dto.

Definition record_dto_serde_roundtrips : Prop :=
  let dto := mkRecordDTO "example.com" RT_MX "mail.example.com" 60 in
  RecordDTO_de (RecordDTO_ser dto) = Some dto.

Definition mailbox_try_from_splits_out_domain : Prop :=
  match Mailbox_try_from 0 "user@example.com" with
  | Ok m => mb_id m = "user@example.com" /\ mb_domain_id m = "example.com" /\ mb_forward_to m = None
  | Err _ => False
  end.

Definition mailbox_try_from_rejects_missing_or_empty_domain : Prop :=
  Mailbox_try_from 0 "no-domain" = Err InvalidFormat /\ Mailbox_try_from 0 "user@" = Err InvalidFormat.

Definition mailbox_try_from_takes_first_domain_part : Prop :=
  match Mailbox_try_from 0 "a@b@c.com" with
  | Ok m => mb_domain_id m = "b" /\ mb_id m = "a@b@c.com"
  | Err _ => False
  end.

Definition all : Prop :=
  recordtype_roundtrips_through_hickory /\ recordtype_maps_unknown_codes_to_placeholder /\
  domain_conversions_roundtrip /\ record_dto_maps_to_record_with_zeroed_id /\ record_dto_serde_roundtrips /\
  mailbox_try_from_splits_out_domain /\ mailbox_try_from_rejects_missing_or_empty_domain /\
  mailbox_try_from_takes_first_domain_part.
End DbTests.

(** ** src/src/dns.rs *)

Module DnsTests.
Definition parse_a_record_yields_ipv4 : Prop := parse_rdata H_A "93.184.216.34" = Some (RD_A (mkIpv4 93 184 216 34)).

Definition parse_txt_record_roundtrips_text : Prop :=
  parse_rdata H_TXT "v=spf1 include:_simplelogin.com ~all" = Some (RD_TXT ["v=spf1 include:_simplelogin.com ~all"]).

Definition parse_mx_record_keeps_preference_and_exchange : Prop :=
  match parse_rdata H_MX "10 mail.example.com" with
  | Some (RD_MX preference exchange) =>
      preference = 10%N /\ starts_with "mail.example.com" (Name_to_string exchange) = true
  | _ => False
  end.

Definition parse_mx_defaults_preference_malformed_but_keeps_value : Prop :=
  match parse_rdata H_MX "pref mail.example.com" with Some (RD_MX preference _) => preference = 10%N | _ => False end.

Definition parse_ptr_record_yields_pointer : Prop :=
  match parse_rdata H_PTR "target.example.com" with Some (RD_PTR _) => True | _ => False end.

Definition quoted (s : string) : string := String (ascii_of_nat 34) (s +:+ String (ascii_of_nat 34) "").
Definition parse_rdata_unsupported_type_returns_none : Prop :=
  parse_rdata H_CAA ("0 " +:+ quoted "issue" +:+ " " +:+ quoted "example.com") = None.

Definition parse_a_rejects_non_ip_value : Prop := parse_rdata H_A "not-an-ip-address" = None.

Definition parse_mx_rejects_wrong_token_count : Prop :=
  parse_rdata H_MX "onlyone" = None /\ parse_rdata H_MX "10 a.example b.example" = None.

Definition values (r : option (list Record_)) : option (list string) := map rec_value <$> r.

Definition query_records_matches_domain_and_type_exactly : Prop :=
  let '(db, _) := exec (CreateRecord "example.com" RT_A "1.2.3.4" 3600) empty_db in
  let '(db, _) := exec (CreateRecord "example.com" RT_MX "10 mail.example.com" 3600) db in
  let '(db, _) := exec (CreateRecord "other.com" RT_A "5.6.7.8" 3600) db in
  values (snd (query_records "example.com" H_A db)) = Some ["1.2.3.4"] /\
  values (snd (query_records "example.com" H_MX db)) = Some ["10 mail.example.com"] /\
  values (snd (query_records "other.com" H_A db)) = Some ["5.6.7.8"] /\
  values (snd (query_records "absent.com" H_A db)) = Some [].

Definition all : Prop :=
  parse_a_record_yields_ipv4 /\ parse_txt_record_roundtrips_text /\ parse_mx_record_keeps_preference_and_exchange /\
  parse_mx_defaults_preference_malformed_but_keeps_value /\ parse_ptr_record_yields_pointer /\
  parse_rdata_unsupported_type_returns_none /\ parse_a_rejects_non_ip_value /\ parse_mx_rejects_wrong_token_count /\
  query_records_matches_domain_and_type_exactly.
End DnsTests.

(** ** src/src/send.rs *)

Module SendTests.
(** A message from [sender] and its job to [recipient]. *)
Definition fresh_message_and_job (sender recipient : string) : MemDb * result (N * N) string :=
  enqueue_outbound sender recipient (Some sender, []) empty_db.

Definition load_outbound (db : MemDb) (oid : N) : option Outbound := t_outbound (view db) !! oid.

(** A claim about the store with the job of [fresh_message_and_job]. *)
Definition with_job (sender recipient : string) (P : MemDb -> N -> N -> Outbound -> Prop) : Prop :=
  match fresh_message_and_job sender recipient with
  | (db, Ok (mid, oid)) => match load_outbound db oid with Some job => P db mid oid job | None => False end
  | _ => False
  end.

Definition reread (db : MemDb) (oid : N) (P : Outbound -> Prop) : Prop :=
  match load_outbound db oid with Some o => P o | None => False end.

Definition backoff_delay_doubles_and_caps : Prop :=
  let cfg := OutboundWorkerConfig_default in
  as_secs (backoff_delay cfg 1) = 60%N /\ as_secs (backoff_delay cfg 2) = 120%N /\
  as_secs (backoff_delay cfg 4) = 480%N /\ as_secs (backoff_delay cfg 64) = 3600%N.

Definition submission_port_defaults_to_25_and_is_overridable : Prop :=
  submission_port OutboundWorkerConfig_default = 25%N /\
  submission_port (with_submission_port OutboundWorkerConfig_default 1025) = 1025%N.

Definition fail_or_requeue_requeues_before_cap : Prop :=
  with_job "alice@example.com" "bob@other.example" (fun db _ oid job =>
    let '(db, r) := fail_or_requeue job OutboundWorkerConfig_default 0 "transient" db in
    is_ok r = true /\ reread db oid (fun o => out_status o = Queued /\ out_attempts o = 1%N /\
      is_Some (out_next_attempt_at o) /\ out_last_error o = Some "transient")).

Definition fail_or_requeue_marks_failed_at_cap : Prop :=
  with_job "a@x.example" "b@y.example" (fun db _ oid job =>
    let job := mkOutbound (out_id job) (out_message_id job) (out_rcpt_to job) (out_sender_id job) (out_status job)
                 (max_attempts OutboundWorkerConfig_default) (out_next_attempt_at job) (out_last_error job)
                 (out_created_at job) (out_updated_at job) in
    let '(db, r) := fail_or_requeue job OutboundWorkerConfig_default 0 "exhausted" db in
    is_ok r = true /\ reread db oid (fun o => out_status o = Failed /\ out_next_attempt_at o = None)).

Definition reclaim_in_progress_requeues_stale_jobs : Prop :=
  match exec (CreateOutbound (mkNewOutbound 0 "stale@x.example" "s@x.example" InProgress 0 None (Some "crash"))) empty_db with
  | (db, Ok job) =>
      let '(db, _) := reclaim_in_progress db in
      reread db (out_id job) (fun o => out_status o = Queued /\ out_next_attempt_at o = None)
  | _ => False
  end.

(** A delivery of the fresh job to one host that answers [answer]. *)
Definition deliver_to (cfg : OutboundWorkerConfig) (answer : result string string)
    (P : result unit string -> MemDb -> N -> Prop) (db : MemDb) (mid oid : N) (job : Outbound) : Prop :=
  match t_messages (view db) !! mid with
  | Some stored =>
      match build_envelope (msg_mail_from stored) (out_rcpt_to job) with
      | Ok envelope =>
          let '(db, r) := deliver_hosts (demo_env 0 answer) job stored envelope cfg 0 ["127.0.0.1"] db in P r db oid
      | Err _ => False
      end
  | None => False
  end.

Definition deliver_hosts_delivers_to_local_sink : Prop :=
  with_job "alice@example.com" "bob@other.example"
    (deliver_to (with_submission_port OutboundWorkerConfig_default 2525) (Ok "250 2.0.0 OK queued") (fun r db oid =>
       is_ok r = true /\ reread db oid (fun o => out_status o = Delivered /\ out_attempts o = 1%N) /\
       map ds_code (rows (keep (fun s => N.eqb (ds_outbound_id s) oid) (t_delivery (view db)))) = [Some 250%N])).

Definition deliver_hosts_smtps_implicit_tls_delivers : Prop :=
  let cfg := mkWorkerConfig (from_secs 5) 8 (from_secs 60) (from_secs 3600)
               (mkOutboundTransport TlsImplicit (Some (mkOutboundRelay (Some "127.0.0.1") 4465 None None None)) true) 25 in
  with_job "alice@example.com" "bob@example.com"
    (deliver_to cfg (Ok "250 2.0.0 OK queued") (fun r db oid =>
       is_ok r = true /\ reread db oid (fun o => out_status o = Delivered /\ out_attempts o = 1%N))).

Definition deliver_hosts_requeues_when_port_refused : Prop :=
  with_job "alice@example.com" "bob@no.example"
    (deliver_to (with_submission_port OutboundWorkerConfig_default 2525) (Err "Connection refused") (fun r db oid =>
       is_ok r = true /\ reread db oid (fun o => out_status o = Queued /\ out_attempts o = 1%N /\
         is_Some (out_next_attempt_at o) /\ is_Some (out_last_error o)))).

Definition build_outbound_tls_plain_is_none : Prop :=
  let t := OutboundTransport_default in
  tls_enabled t = false /\ relay_configured t = false /\ build_outbound_tls t "mx.example.com" = Ok Tls_None.

Definition build_outbound_tls_maps_enabled_modes : Prop :=
  Forall (fun mode => match build_outbound_tls (mkOutboundTransport mode None true) "smtp.example.com" with
                      | Ok Tls_None => False | Ok _ => True | Err _ => False end)
    [TlsOpportunistic; TlsRequired; TlsImplicit].

Definition all : Prop :=
  backoff_delay_doubles_and_caps /\ submission_port_defaults_to_25_and_is_overridable /\
  fail_or_requeue_requeues_before_cap /\ fail_or_requeue_marks_failed_at_cap /\
  reclaim_in_progress_requeues_stale_jobs /\ deliver_hosts_delivers_to_local_sink /\
  deliver_hosts_smtps_implicit_tls_delivers /\ deliver_hosts_requeues_when_port_refused /\
  build_outbound_tls_plain_is_none /\ build_outbound_tls_maps_enabled_modes.
End SendTests.

(** ** src/src/email.rs *)

Module EmailTests.
Definition address_to_string_is_empty_when_only_a_display_name : Prop :=
  let addr := AddrList [mkAddr (Some "Just a Name") None] in
  Email.address_to_string addr = "" /\ address_list_to_strings addr = [].

Definition address_list_flattens_groups : Prop :=
  let addr := AddrGroup [mkGroup (Some "team") [mkAddr None (Some "m1@team.com"); mkAddr None (Some "m2@team.com")]] in
  address_list_to_strings addr = ["m1@team.com"; "m2@team.com"] /\ Email.address_to_string addr = "m1@team.com".

Definition empty_list_yields_no_addresses : Prop :=
  address_list_to_strings (AddrList []) = [] /\ Email.address_to_string (AddrList []) = "".

Definition all : Prop :=
  address_to_string_is_empty_when_only_a_display_name /\ address_list_flattens_groups /\ empty_list_yields_no_addresses.
End EmailTests.

Lemma core_tests_hold :
  PolicyTests.all /\ ServiceTests.all /\ DbTests.all /\ DnsTests.all /\ SendTests.all /\ EmailTests.all.
Proof.
  split_and!; unfold PolicyTests.all, ServiceTests.all, DbTests.all, DnsTests.all, SendTests.all, EmailTests.all;
    split_and!; try (vm_compute; by eauto 20).
Qed.
