(* ===== verification/UnitTests.v ===== *)
(** * UnitTests: the unit tests of the API and of authentication, and the theorem
    that the model passes all the tests replayed

    Each definition is one [#[test]] of src/src; a request of the test client is
    the call its route extracts, run on [MemDb]. *)

From S2P Require Import Prelude Text Db Engine Config Send Concrete Policy Keys KeysFacts Auth AuthFacts Services ServicesFacts EmailFacts Runtime Api ApiRecords ApiMail ApiCalls ApiConcrete Router RouterFacts ConfigTests CoreTests.
From Stdlib Require Import Ascii String.
#[local] Open Scope string_scope.

(** ** src/src/api.rs *)

Module ApiTests.

(** A request, and what the test asserts of its reply before going on. *)
Definition send (c : ApiCall) (db : MemDb) (k : Reply -> MemDb -> Prop) : Prop :=
  let '(db, reply) := run_call c db in k reply db.

(** A request of which only the status is asserted. *)
Definition expect (c : ApiCall) (status : N) (db : MemDb) (k : MemDb -> Prop) : Prop :=
  send c db (fun reply db => res_status reply = Some status /\ k db).

Definition data_of (reply : Reply) : option Payload :=
  match res_body reply with Some (inr r) => if ar_ok r then Some (ar_data r) else None | _ => None end.

Definition api_problem_constructions_carry_status_and_detail : Prop :=
  let bad := bad_request "nope" in
  pb_status bad = 400%N /\ pb_type bad = "bad request" /\ pb_detail bad = Some "nope" /\
  pb_status (not_found "x") = 404%N /\ pb_status unauthorized = 401%N /\ pb_status forbidden = 403%N /\
  pb_status (conflict "x") = 409%N /\ pb_status (server_error "x") = 500%N /\
  pb_status (validation_error "x") = 422%N /\
  pb_detail unauthorized = None /\ pb_detail forbidden = None /\ is_Some (pb_detail (conflict "x")).

Definition page_from_all_slices_and_marks_more : Prop :=
  let items := [1; 2; 3; 4; 5]%Z in
  let page := from_all items 2 1 in
  pg_items page = [2; 3]%Z /\ pg_limit page = 2%N /\ pg_offset page = 1%N /\ pg_next_offset page = Some 3%N /\
  let page := from_all items 10 0 in
  List.length (pg_items page) = 5%nat /\ pg_next_offset page = None /\
  pg_items (from_all items 10 100) = [].

(** The tests mount the router without the documentation and without the guard. *)
Definition health_probe_and_missing_route : Prop :=
  let get path :=
    match detect (routes_under [] create_router) (segments path) "GET" with
    | None => Some (unmatched (routes_under [] create_router) (segments path))
    | Some route =>
        res_status (snd (run_action ServiceTests.pending_spawn
          (extract_call "1.0" (route_endpoint route) [] 0 (demo_call "GET" path None))
          (mkApiState empty_db ServiceTests.for_test disabled)))
    end in
  get "/health" = Some 200%N /\ get "/nope" = Some 404%N.

Definition domain_crud_roundtrip : Prop :=
  let create := CreateDomainCall (Some (mkNewDomain "example.com")) in
  let get id := GetDomainCall (Some id) in
  let delete := DeleteDomainCall (Some "example.com") in
  send create empty_db (fun reply db =>
    res_status reply = Some 200%N /\
    match data_of reply with
    | Some (PDomain d) => dd_id d = "example.com" /\ is_empty (dd_created_at d) = false /\ is_empty (dd_updated_at d) = false
    | _ => False
    end /\
    expect (get "example.com") 200 db (fun db =>
    expect (get "gone.example") 404 db (fun db =>
    expect create 200 db (fun db =>
    expect delete 200 db (fun db =>
    expect (get "example.com") 404 db (fun db =>
    expect delete 404 db (fun db => True))))))).

Definition mailbox_crud_roundtrip_normalizes_case : Prop :=
  let create := CreateMailboxCall 0 (Some (mkNewMailbox "alice@example.com" None None)) in
  let get := GetMailboxCall (Some "alice@example.com") in
  send create empty_db (fun reply db =>
    res_status reply = Some 200%N /\
    match data_of reply with Some (PMailbox m) => md_id m = "alice@example.com" | _ => False end /\
    expect get 200 db (fun db =>
    expect create 200 db (fun db =>
    expect (PatchMailboxCall (Some "alice@example.com") (Some (mkPatchMailbox None None (Some "external@host.com")))) 200 db (fun db =>
    expect (DeleteMailboxCall (Some "alice@example.com")) 200 db (fun db =>
    expect get 404 db (fun db => True)))))).

Definition create_mailbox_rejects_address_without_domain : Prop :=
  expect (CreateMailboxCall 0 (Some (mkNewMailbox "no-domain-part" None None))) 400 empty_db (fun _ => True).

Definition record_crud_roundtrip : Prop :=
  let create dom rt v ttl := CreateRecordCall (Some (mkNewRecord dom rt v ttl)) in
  expect (create "example.com" "MX" "10 mail.example.com" (Some 300%N)) 400 empty_db (fun db =>
  expect (CreateDomainCall (Some (mkNewDomain "example.com"))) 200 db (fun db =>
  send (create "Example.COM" "MX" "10 mail.example.com" None) db (fun reply db =>
    res_status reply = Some 200%N /\
    match data_of reply with
    | Some (PRecord created) =>
        let id := rd_id created in
        rd_domain_id created = "example.com" /\ rd_record_type created = "MX" /\
        rd_value created = "10 mail.example.com" /\ rd_ttl created = DEFAULT_RECORD_TTL /\
        is_empty (rd_created_at created) = false /\ is_empty (rd_updated_at created) = false /\
        expect (GetRecordCall (Some id)) 200 db (fun db =>
        send (ListRecords None None (Some "example.com") (Some "MX")) db (fun reply db =>
          res_status reply = Some 200%N /\
          match data_of reply with Some (PRecords page) => map rd_id (pg_items page) = [id] | _ => False end /\
          expect (create "example.com" "NOTATYPE" "x" None) 400 db (fun db =>
          expect (create "example.com" "TXT" "    " None) 400 db (fun db =>
          expect (create "example.com" "MX" "10 mail.example.com" None) 200 db (fun db =>
          send (PatchRecordCall (Some id) (Some (mkPatchRecord None None (Some "10 mx2.example.com") None))) db (fun reply db =>
            res_status reply = Some 200%N /\
            match data_of reply with Some (PRecord r) => rd_value r = "10 mx2.example.com" | _ => False end /\
            expect (DeleteRecordCall (Some id)) 200 db (fun db =>
            expect (GetRecordCall (Some id)) 404 db (fun db =>
            expect (DeleteRecordCall (Some id)) 404 db (fun db => True)))))))))
    | _ => False
    end))).

(** [provision_sender]. *)
Definition provision_sender (sender : string) (k : MemDb -> Prop) : Prop :=
  expect (CreateMailboxCall 0 (Some (mkNewMailbox sender None None))) 200 empty_db k.

Definition mail (from : string) (to cc : list string) (subject : option string) (body : string) : ApiCall :=
  SendEmailCall (Some (mkSendEmail from to cc [] subject body None)).

Definition send_email_enqueues_one_job_per_recipient : Prop :=
  provision_sender "sender@example.com" (fun db =>
  send (mail "sender@example.com" ["bob@ext.com"] ["carol@ext.com"] (Some "Hi there") "Hello world") db (fun reply db =>
    res_status reply = Some 200%N /\
    match data_of reply with
    | Some (PSend data) =>
        List.length (sr_outbound_ids data) = 2%nat /\
        send (GetMessageCall (Some (sr_message_id data))) db (fun reply _ =>
          res_status reply = Some 200%N /\
          match data_of reply with Some (PMessage m) => mm_mail_from m = "sender@example.com" | _ => False end)
    | _ => False
    end)).

Definition send_email_requires_a_provisioned_sender : Prop :=
  expect (mail "ghost@example.com" ["bob@ext.com"] [] None "x") 409 empty_db (fun _ => True).

Definition send_email_rejects_missing_recipients : Prop :=
  expect (mail "sender@example.com" [] [] None "x") 400 empty_db (fun _ => True).

Definition send_email_rejects_malformed_recipient : Prop :=
  provision_sender "sender@example.com" (fun db =>
  expect (mail "sender@example.com" ["not-an-email"] [] None "x") 400 db (fun _ => True)).

Definition page_limit (reply : Reply) (limit : N) : Prop :=
  res_status reply = Some 200%N /\
  match data_of reply with Some (PDomains page) => pg_limit page = limit | _ => False end.

Definition pagination_limit_query_param_is_honored : Prop :=
  send (ListDomains (Some 5%N) None) empty_db (fun reply _ => page_limit reply 5).

Definition pagination_limit_is_capped_at_max : Prop :=
  send (ListDomains (Some (MAX_PAGE_LIMIT + 500)%N) None) empty_db (fun reply _ => page_limit reply MAX_PAGE_LIMIT).

Definition message_lifecycle_get_and_delete_by_id : Prop :=
  provision_sender "sender@example.com" (fun db =>
  send (mail "sender@example.com" ["bob@ext.com"] [] (Some "Lifecycle") "hello") db (fun reply db =>
    res_status reply = Some 200%N /\
    match data_of reply with
    | Some (PSend data) =>
        let id := sr_message_id data in
        expect (GetMessageCall (Some id)) 200 db (fun db =>
        expect (GetMessageCall (Some 999999%N)) 404 db (fun db =>
        expect (DeleteMessageCall (Some id)) 200 db (fun db =>
        expect (GetMessageCall (Some id)) 404 db (fun db => True))))
    | _ => False
    end)).

Definition service_list_defaults_to_idle : Prop :=
  let '(_, reply) := list_services_handler true ServiceTests.for_test in
  res_status reply = Some 200%N /\
  match data_of reply with
  | Some (PServices l) => List.length l = 4%nat /\ Forall (fun r => sr_status r = Idle) l
  | _ => False
  end.

Definition service_reply (reply : Reply) (status : Status) (changed : bool) : Prop :=
  res_status reply = Some 200%N /\
  match data_of reply with Some (PService s) => res_now s = status /\ res_changed s = changed | _ => False end.

Definition service_start_stop_is_idempotent : Prop :=
  let spawn := ServiceTests.pending_spawn in
  let '(w, reply) := start_service spawn true (Some "smtp") ServiceTests.for_test in
  service_reply reply Running true /\
  let '(w, reply) := start_service spawn true (Some "smtp") w in
  service_reply reply Running false /\
  let '(w, reply) := start_service spawn true (Some "outbound") w in
  res_status reply = Some 400%N /\
  let '(w, reply) := stop_service true (Some "smtp") w in
  service_reply reply Idle true /\
  let '(w, reply) := stop_service true (Some "smtp") w in
  service_reply reply Idle false.

Definition statuses (reply : Reply) : option (list (Service * Status)) :=
  match data_of reply with Some (PServices l) => Some (map (fun r => (sr_service r, sr_status r)) l) | _ => None end.

(** An unknown mode is a body that does not deserialize. *)
Definition service_mode_switches_all_services : Prop :=
  let spawn := ServiceTests.pending_spawn in
  let '(w, reply) := set_mode spawn true (Some ModeDns) ServiceTests.for_test in
  res_status reply = Some 200%N /\
  statuses reply = Some [(Api, Idle); (Smtp, Idle); (Smtps, Idle); (Dns, Running)] /\
  let '(w, reply) := set_mode spawn true (Some ModeFull) w in
  res_status reply = Some 200%N /\
  statuses reply = Some [(Api, Running); (Smtp, Running); (Smtps, Idle); (Dns, Running)] /\
  let '(w, reply) := set_mode spawn true None w in
  res_status reply = Some 400%N.

Definition all : Prop :=
  api_problem_constructions_carry_status_and_detail /\ page_from_all_slices_and_marks_more /\
  health_probe_and_missing_route /\ domain_crud_roundtrip /\ mailbox_crud_roundtrip_normalizes_case /\ create_mailbox_rejects_address_without_domain /\
  record_crud_roundtrip /\ send_email_enqueues_one_job_per_recipient /\ send_email_requires_a_provisioned_sender /\
  send_email_rejects_missing_recipients /\ send_email_rejects_malformed_recipient /\
  pagination_limit_query_param_is_honored /\ pagination_limit_is_capped_at_max /\
  message_lifecycle_get_and_delete_by_id /\ service_list_defaults_to_idle /\ service_start_stop_is_idempotent /\
  service_mode_switches_all_services.
End ApiTests.

(** ** src/src/auth/mod.rs, src/src/auth/keys.rs *)

Module AuthTests.

(** A token of the tests: its signing secret, key id, claims, and whether it is
    in date and names the configured issuer and audience. *)
Record TestToken : Type := mkTestToken {
  tt_secret : string; tt_kid : option string; tt_claims : list (string * Json); tt_current : bool; tt_named : bool }.

Definition hs256 (token : string) : option TestToken :=
  let claims sub role := [("sub", JString sub); ("role", JString role)] in
  if String.eqb token "alice" then
    Some (mkTestToken "0123456789abcdefsecretstuff!" None
            [("sub", JString "alice"); ("role", JString "admin"); ("roles", JArray [JString "ops"])] true true)
  else if String.eqb token "hs512-only" then Some (mkTestToken "secret-value!!" None [("sub", JString "x")] true false)
  else if String.eqb token "wrong-secret" then Some (mkTestToken "wrong-secret-value!!" None [("sub", JString "x")] true false)
  else if String.eqb token "old" then Some (mkTestToken "s3cr3t-value!!" None (claims "x" "admin") false false)
  else if String.eqb token "admin" then Some (mkTestToken "s3cr3t-value!!" None (claims "a" "admin") true true)
  else if String.eqb token "reader" then Some (mkTestToken "s3cr3t-value!!" None (claims "r" "read") true true)
  else if String.eqb token "expired" then Some (mkTestToken "s3cr3t-value!!" None (claims "x" "admin") false true)
  else if String.eqb token "forged" then Some (mkTestToken "some-other-secret-value!!" None (claims "x" "admin") true true)
  else if String.eqb token "u" then Some (mkTestToken "B" (Some "test-key") [("sub", JString "u"); ("role", JArray [JString "admin"])] true false)
  else None.

(** Decoding as jsonwebtoken documents it: the signature, the dates, then the
    issuer and audience when the validation asks for them. *)
#[local] Program Instance test_jwt : Jwt := {|
  DecodingKey := string;
  Jwk := option string * string;
  key_id := fst;
  from_secret := id;
  from_jwk := fun j => Some (snd j);
  jwk_find := fun set kid => find (fun j => bool_decide (fst j = Some kid)) set;
  decode_header := fun token =>
    match hs256 token with Some t => Ok (mkHeader HS256 (tt_kid t)) | None => Err "InvalidToken" end;
  decode := fun token key v =>
    match hs256 token with
    | None => Err "InvalidToken"
    | Some t =>
        if negb (String.eqb key (tt_secret t)) then Err "InvalidSignature"
        else if negb (tt_current t) then Err "ExpiredSignature"
        else if negb (tt_named t) && bool_decide (is_Some (val_issuer v)) then Err "InvalidIssuer"
        else Ok (JObject (tt_claims t))
    end;
  parse_jwks := fun text => Ok [(Some "test-key", text)];
  jwks_from_value := fun _ => Err "unsupported";
|}.
Next Obligation.
  intros set kid j Hf. apply find_some in Hf as [Hin Hk].
  split; [by apply list_elem_of_In | by apply bool_decide_eq_true in Hk].
Qed.

#[local] Instance lower_headers : HeaderSyntax := {|
  header_name := fun s => Some (to_ascii_lowercase s); header_value := Some |}.

Definition permissive_config (secret : string) (algorithms : list string) : AuthConfig :=
  let d := KeyConfig_default in
  mkAuthConfig true (Some "https://janux.example/auth") ["zonemail-api"] 30 "sub" ["role"; "roles"] ["health"; "doc"]
    (mkKeyConfig KindSecret (Some secret) None None None None None None None None None (kc_janux_bearer d)
       (kc_refresh_interval_secs d) (kc_cache_ttl_secs d) (kc_fail_closed d) algorithms)
    {[ "admin" := mkRoleConfig ["*"] []; "read" := mkRoleConfig ["mailboxes:read"] [] ]}.

(** A claim about the service [AuthService::build] makes. *)
Definition built (cfg : AuthConfig) (P : AuthService -> Prop) : Prop :=
  match Auth.build (fun _ => None) 0 cfg with Ok svc => P svc | Err _ => False end.

Definition no_http : Http := mkHttp 0 (fun _ _ => Err "offline") (fun _ => Err "offline").

Definition parse_algorithm_is_case_insensitive_including_eddsa : Prop :=
  parse_algorithm "hs256" = Some HS256 /\ parse_algorithm "RS256" = Some RS256 /\
  parse_algorithm "eddsa" = Some EdDSA /\ parse_algorithm "EDDSA" = Some EdDSA /\ parse_algorithm "nonsense" = None.

Definition verification_roundtrip_with_subject_and_roles : Prop :=
  built (permissive_config "0123456789abcdefsecretstuff!" []) (fun svc =>
    match snd (verify no_http "alice" svc) with
    | Ok verified => vc_subject verified = Some "alice" /\ vc_roles verified = ["admin"; "ops"]
    | Err _ => False
    end).

Definition disabled_config_builds_without_secret : Prop :=
  built AuthConfig_default (fun svc => as_enabled svc = false).

Definition wrong_alg_is_rejected : Prop :=
  built (permissive_config "secret-value!!" ["HS512"]) (fun svc =>
    match snd (verify no_http "hs512-only" svc) with Err (AlgorithmDisallowed _) => True | _ => False end).

Definition mismatched_secret_is_rejected : Prop :=
  built (permissive_config "right-secret-value" []) (fun svc =>
    match snd (verify no_http "wrong-secret" svc) with Err (Verify _) => True | _ => False end).

Definition expired_token_is_rejected : Prop :=
  built (permissive_config "s3cr3t-value!!" []) (fun svc => is_ok (snd (verify no_http "old" svc)) = false).

Definition role_policy_denies_unauthorized_target : Prop :=
  built (permissive_config "secret-value!!" []) (fun svc =>
    match route_target "/mailboxes" "GET", route_target "/mail" "GET" with
    | Some ok_target, Some denied_target =>
        authorize svc ["read"] ok_target = true /\ authorize svc ["read"] denied_target = false
    | _, _ => False
    end).

(** A [GET] request, with a bearer token or none. *)
Definition req (path : string) (token : option string) : Request :=
  mkRequest path "GET" ((fun t => Some ("Bearer " +:+ t)) <$> token).

Definition enforce_decision_matrix : Prop :=
  built (permissive_config "s3cr3t-value!!" []) (fun svc =>
    let d path token := snd (enforce no_http (req path token) svc) in
    match d "/domains" None with Unauthenticated _ => True | _ => False end /\
    d "/health" None = Continue None /\
    match d "/domains" (Some "admin") with Continue (Some _) => True | _ => False end /\
    match d "/domains" (Some "reader") with Forbidden _ => True | _ => False end /\
    match d "/mailboxes" (Some "reader") with Continue _ => True | _ => False end /\
    match d "/domains" (Some "expired") with Unauthenticated _ => True | _ => False end /\
    match snd (enforce no_http (req "/domains" None) disabled) with Continue _ => True | _ => False end /\
    match d "/domains" (Some "forged") with Unauthenticated _ => True | _ => False end).

(** The one key of the tests' set. *)
Definition in_memory_jwks (kid : string) : list Jwk := [(Some kid, "B")].

(** [Validation::new]. *)
Definition validation_new (a : Algorithm) : Validation := mkValidation [a] 60 None None.

Definition inline_set_resolves_by_kid : Prop :=
  let ks := static_set 0 (in_memory_jwks "test-key") in
  match decode_header "u" with
  | Ok header =>
      match snd (resolve no_http header ks) with
      | Ok key =>
          match decode "u" key (validation_new HS256) with
          | Ok claims => json_get "sub" claims ≫= json_as_str = Some "u"
          | _ => False
          end
      | Err _ => False
      end
  | Err _ => False
  end.

Definition unknown_and_kidless_kinds_fail_at_resolution : Prop :=
  let ks := static_set 0 (in_memory_jwks "test-key") in
  let r kid := snd (resolve no_http (mkHeader HS256 kid) ks) in
  is_ok (r (Some "test-key")) = true /\ r (Some "nope") = Err UnknownKid /\ r None = Err UnknownKid.

(** A server that serves the set, and one that is down. *)
Definition remote_set_serves_on_demand : Prop :=
  let ks := remote (HttpKeysFetcher_jwks "https://k.example/jwks" None None true) (from_secs 3600) in
  is_remote ks = true /\
  is_ok (snd (resolve (mkHttp 0 (fun _ _ => Ok (Ok "B")) (fun _ => Err "no document")) (mkHeader HS256 (Some "test-key")) ks)) = true.

Definition remote_set_reports_source_unavailable_when_unreachable : Prop :=
  let ks := remote (HttpKeysFetcher_jwks "https://k.example/jwks" None None true) (from_secs 3600) in
  snd (resolve no_http (mkHeader HS256 (Some "test-key")) ks) = Err SourceUnavailable.

Definition join_url_semantics : Prop :=
  join_url "https://j.example.com/" "/.well-known/jwks.json" = "https://j.example.com/.well-known/jwks.json" /\
  join_url "https://j.example.com" ".well-known/jwks.json" = "https://j.example.com/.well-known/jwks.json" /\
  join_url "https://j.example.com" "https://o.example/jwks" = "https://o.example/jwks" /\
  join_url "https://j.example.com/" "" = "https://j.example.com".

Definition janux_credential_bearer_and_named : Prop :=
  is_Some (janux_credential (Some "abc") None true) /\
  janux_credential (Some "abc") (Some "X-Token") false = Some ("x-token", "abc") /\
  janux_credential (Some "    ") None true = None /\ janux_credential None None true = None.

Definition all : Prop :=
  parse_algorithm_is_case_insensitive_including_eddsa /\ verification_roundtrip_with_subject_and_roles /\
  disabled_config_builds_without_secret /\ wrong_alg_is_rejected /\ mismatched_secret_is_rejected /\
  expired_token_is_rejected /\ role_policy_denies_unauthorized_target /\ enforce_decision_matrix /\
  inline_set_resolves_by_kid /\
  unknown_and_kidless_kinds_fail_at_resolution /\ remote_set_serves_on_demand /\
  remote_set_reports_source_unavailable_when_unreachable /\ join_url_semantics /\ janux_credential_bearer_and_named.
End AuthTests.

(** The model passes the repository's own unit tests: every assertion of the
    tests of the configuration, the policy, the services, the data model, the DNS
    server, the queue, the address helpers, the API and authentication replayed
    here holds of the definitions. *)
Lemma unit_tests_hold :
  config_tests /\
  (PolicyTests.all /\ ServiceTests.all /\ DbTests.all /\ DnsTests.all /\ SendTests.all /\ EmailTests.all) /\
  ApiTests.all /\ AuthTests.all.
Proof.
  split; [apply config_tests_hold|]. split; [apply core_tests_hold|].
  split; [unfold ApiTests.all | unfold AuthTests.all]; split_and!; try (vm_compute; by eauto 30).
Qed.
